(* ===== verification/_CoqProject ===== *)
-Q . S2P
Prelude.v
GoStr.v
GoErr.v
GoEnc.v
GoRunes.v
GoFs.v
GoTime.v
NetIP.v
GoURL.v
Names.v
Socks.v
Pump.v
Upstream.v
UpstreamApply.v
Supervisor.v
WorkerLog.v
Mgmt.v
MgmtConn.v
Control.v
Store.v
StoreUsers.v
StoreStats.v
StoreInv.v
Totp.v
Auth.v
OvpnConf.v
Pki.v
LogRotate.v
World.v
CertApi.v
UserApi.v
ConfigApi.v
UpstreamApi.v
Records.v
Sampler.v
Backup.v
Telegram.v
TelegramBot.v
TelegramLoop.v
ServerApi.v
HttpApi.v
TsGen.v
Server.v
HttpShell.v
Privilege.v
Boot.v
Identity.v
Flags.v
CliText.v
Terminal.v
CliPrint.v
Cli.v
CliMain.v
Expiry.v
Serve.v
Tickers.v
CliInit.v
CliRead.v
