(* ===== verification/Prelude.v ===== *)
(** * ovcp: a verification library for the OpenVPN control plane

    ovcp is one Go program: a command line (cmd/ovcp) and, behind [ovcp serve],
    a daemon that keeps a certificate authority, an SQLite store, the
    configuration of one openvpn worker and one dnsmasq worker, the routing of
    clients through chosen upstreams, a web API and a Telegram bot. Both work
    on the same data directory, and the command line asks a running daemon
    through its control socket. This library translates that code into Rocq,
    function by function, and proves what its parts promise and what they do
    together. Names are the source's; a module is the lower-case name of its
    file or package. Paths below are under src/.

    ** How the program is modelled

    Go values are described by their data: a string is its bytes; a 64-bit
    integer is a [Z] with its wrap-around or its range check written out; a
    float is the Standard Library's executable binary64; a time is a [Z] of
    nanoseconds since 1970 in UTC with the zone's offset a parameter; a map is
    a [gmap]; a slice a list. A Go error is a [goerr] (below) and a fallible
    function returns a [result]; a panic is the error [pki.go_panic] in the
    actions and [None] in the monad [P] of code that other code calls back.

    Stateful code is state passing in small monads, each over the state the
    code really has: [M] over the store (Store), [F] over files (GoFs), [K]
    over the authority's files, clock and entropy (Pki), [W] over the world of
    one server (World), [X] with the routing state of the host added
    (UpstreamApi), [Act] over the whole host (ServerApi), and [P] for the
    control socket and the bot (Control). Every statement of SQL and every
    file operation can fail on its own: the state carries the faults still to
    come, so a theorem without a hypothesis on them covers every failure, and
    [healthy] and [sound] say that none comes. A failing write may leave any
    prefix of its data.

    Goroutines and processes are interleaved in five places: the supervisor,
    the management connection and a relayed connection are labelled transition
    systems whose labels are the atomic sections of their goroutines; the calls
    concurrent logins make on the failure limiter come in any order; and a
    log's writer appends between the calls of a rotation. Theorems there hold
    for every interleaving. Everything else is a sequence: operations that hold
    a lock for their whole run (the routing tracker) are single steps, and so
    are a request to the web API, an update the bot handles and a command line,
    although the program runs them beside one another; their theorems are about
    one that nothing disturbs, or about any order of whole ones.

    ** Files

    The language and its standard library:
    - Prelude: errors, results, tactics, hints, lemmas on lists;
    - GoStr, GoErr, GoEnc, GoRunes: strings, strconv, error texts, base64,
      base32, hexadecimal, UTF-8; GoTime: the calendar; NetIP, GoURL: net and
      net/url; GoFs: files; Flags: package flag.

    internal/:
    - Names, OvpnConf, Pki: pki/pki.go, keystore.go, ovpn.go and
      ovpnconf/config.go: naming rules, server.conf, the authority;
    - Store, StoreUsers, StoreStats, StoreInv: store/*.go and schema.sql, and
      the invariant of the schema over any run;
    - Totp, Auth: auth/totp.go, auth.go;
    - Upstream, UpstreamApply, Socks, Pump: upstream/upstream.go and socks.go,
      the last for the relayed connection itself;
    - Supervisor, WorkerLog, Mgmt, MgmtConn, Control, LogRotate:
      controller/*.go;
    - Backup: backup/backup.go; Telegram, TelegramBot,
      TelegramLoop: telegram/*.go;
    - World, CertApi, UserApi, ConfigApi, UpstreamApi, Records, Sampler,
      ServerApi: the actions and handlers of api/*.go, by subject;
    - HttpApi, Server: api/api.go, the session and CSRF checks and the whole
      route table; Privilege: how far a request reaches through it; HttpShell:
      what goes over the wire around them (headers, the request log, downloads,
      the files of the web UI); TsGen: api/ts.go, the types of the web UI.

    cmd/ovcp/:
    - Boot: the data directory (main.go), the admin certificate (api/tls.go)
      and store.Open; Cli: the body of every command (commands.go, logs.go,
      stats.go); CliText, CliPrint: everything they print; CliMain: the table
      of commands, dispatch, usage and completion (completion.go);
    - Expiry: expiry.go; Serve: runServe and the daily rotation;
    - Identity: giving up root (main.go); Terminal: the log's handlers, the
      editor, the QR code (main.go, commands.go, api/auth.go); Tickers: the
      goroutines of [serve] that wait for a timer;
    - CliInit, CliRead: what [init] leaves, and what the listing commands do
      not touch.

    ** What the theorems show

    - The web API (Privilege, HttpApi): every request is served by the one
      route it matches, and beyond the public ones only for a live session, a
      CSRF token and a sufficient role; what it can change is bounded by that
      role through every handler; any sequence of requests keeps the store
      well-formed, its revocations and its audit log.
    - The store and accounts (StoreInv, Auth, Totp): the schema's invariant,
      permanent revocation, sessions that end with the password, login on
      every branch, the failure limiter's bound by the number of attempts that
      run at once, code verification.
    - The authority and the profiles (Pki, CertApi, OvpnConf): revoking and
      exporting across store, files and management connection; changing the
      passphrase; server.conf holds no directive but the renderer's and the
      allowed ones; the diff is a shortest edit script.
    - Routing (Upstream, UpstreamApply, UpstreamApi, Socks, Pump): validation agrees
      with its specification; the tracker and the kernel's rules agree after
      every operation, but for an apply whose ruleset nft refuses; one it loads
      brings them back together; the persisted flag and the assignments stay in step; the SOCKS handshake; a relayed connection
      delivers what it reads, in order, and ends with either side.
    - Workers (Supervisor, Mgmt, MgmtConn, Control): one child at most, a stop
      is final, every operation completes, the crash-loop breaker; the management
      stream's demultiplexer, whose replies a command on the shared connection
      has to itself; a control exchange is the operation it names.
    - Backups and logs (Backup, LogRotate): a restore gives back what was
      saved and writes nowhere else; a rotation loses nothing but what is
      appended between its reading a log and truncating it.
    - Periodic work and the bot (Sampler, Expiry, Tickers, Telegram,
      TelegramBot, TelegramLoop): what a tick records, an expiry told once,
      messages cut and sent, obedience to the administrator only, every update
      handled in order and none twice in one run of the bot.
    - The command line (Flags, CliMain, CliInit, CliRead, CliText): a command
      line runs exactly the operation its words name on the values they give;
      completion offers only what dispatch accepts; what [init] sets up [serve]
      starts, unless half of it was there; commands that only look change nothing; the live view's frames.
    - The process (Identity): started as root it runs on as the account it is
      given, with no capability but the two it needs when that is not root by
      another name, or not at all, and owns only the directories it made.
    - The web UI's side (TsGen, HttpShell): the generated types declare every
      route and every type a route mentions, once; every answer carries the
      security headers.
    - Start (Serve): whatever became of the host meanwhile, starting brings
      the stored configuration, server.conf and the routing back in step.

    Examples beside them ([..._witness]) apply each theorem to concrete data;
    others exhibit behaviour the code probably does not intend.

    ** Bounds and fuel

    Recursion follows the data. Where it does not, the fuel is a length that
    every round shortens: [telegram.chunks] by the text ([chunks_pieces]: as
    much fuel as bytes is enough for valid UTF-8; [unsendable]: for some other
    texts no fuel is), [mgmt.read_rounds] by the lines, [ovpnconf.diff_walk] by
    both texts ([diff_walk_spec]), [pki.hex_digits] by the 33 digits of a
    serial number below 2^128 ([hex_digits_value]), [pki.hex_lines] by the
    sixteen lines of a key, [clitext.strip_sgr] by the string, [netip.v6_loop] by the groups of
    an address. [serve.ConnectRetry] takes the number of attempts that fit
    into its deadline; [sampler]'s, [expiry]'s and [tickers.ticks]'s loops over
    a timer are lists of events of any length, and [telegramloop.rounds] takes
    the number of polls. [tsgen.ts] counts the nesting of types:
    [TypeScript_correct] gives enough of it for every table of routes whose
    types are not endless without a name.

    ** Interfaces

    Code outside the repository is a parameter, as a class whose laws are what
    its documentation promises, or as a function without laws: crypto/x509,
    ecdsa and PEM ([X509], [EcPem]), argon2, AES-GCM, HMAC, SHA-256 ([Argon2],
    [Aead], [Hmac], [Sha256]), encoding/json ([JsonInto], [EnvelopeJson],
    [Json], [RequestJson], [ExportJson]), tar, gzip and zip ([Tar], [Gzip],
    [Zip]), SQLite's VACUUM INTO ([Snapshot]), calendar arithmetic
    ([Calendar]), Unicode tables ([UnicodeTables], [SimpleFolds]), package
    slices' unstable sort ([Sorting]), the openvpn at the other end of the
    management socket ([mgmt.Server]), ip(8), nft(8) and the interfaces of the
    host ([HostOps], with nft's promises on its own rules in [NftLaws]), the
    workers' operations ([Lifecycle], [lawful]), the users, directories and
    capabilities of the kernel ([Kernel], [KernelLaws]), api.telegram.org
    ([Updates], [UpdatesLaws]), reflection on Go's types, the environment, the
    terminal, the editor and the QR encoder. Theorems about a client are proved against
    the class; an instance of each class runs the witnesses that need it.

    ** Not modelled

    Modes and owners of files (but for the directories made before root is
    given up), and symbolic links there; accepting connections, TLS and
    signals; reading a password without echo; slog's formatting of a record;
    the QR encoder; net/http's own answers (404, 405, the bytes of a static
    file); what the Bot API returns once a week without updates has made its
    ids start over; the deadlines of the control socket; the web UI itself,
    which is not Go. *)

From stdpp Require Export base tactics list gmap sets strings option numbers relations.
From Stdlib Require Export ZArith Lia.
From Stdlib Require String.

Open Scope Z_scope.

(** ** Errors

    A Go error value is described by how it was built: a sentinel variable
    (compared with [errors.Is]), an [fmt.Errorf] with its format and string
    arguments, a wrapping [fmt.Errorf] with [%w], an [errors.Join], an
    [httpError], or an error handed back by code outside the repository. *)

Inductive sentinel :=
  | ErrBadPassphrase | ErrCAExists
  | ErrDuplicateCN | ErrNoActiveCert
  | ErrBusy | ErrUnknownOp | ErrServeDown
  | ErrBadCredentials | ErrTOTPRequired | ErrRateLimited
  | ErrAlreadyInitialized
  | ErrNotConnected | ErrNoUpstream | ErrUpstreamsDisabled
  | ErrNoRedirect | ErrNoRemote | ErrNoServerCN
  | ErrNoRows | ErrEOF.

#[export] Instance sentinel_eq_dec : EqDecision sentinel.
Proof. solve_decision. Defined.

Inductive goerr :=
  | Sentinel (s : sentinel)
  | Errorf (fmt : string) (args : list string)
  | Wrapf (fmt : string) (args : list string) (e : goerr)
  | Joined (es : list goerr)
  | HTTPError (code : Z) (e : goerr)
  | ExternalErr (what : string).

(** [errors.Is e s]: the error tree of [e] holds the sentinel [s]. *)
Fixpoint errors_is (e : goerr) (s : sentinel) : bool :=
  match e with
  | Sentinel s' => bool_decide (s' = s)
  | Errorf _ _ => false
  | Wrapf _ _ e' => errors_is e' s
  | Joined es => existsb (λ e', errors_is e' s) es
  | HTTPError _ _ => false  (* its error is embedded, not unwrapped *)
  | ExternalErr _ => false
  end.

(** [errors.Join]: nil when there is nothing to join. *)
Definition errors_join (es : list goerr) : option goerr :=
  match es with [] => None | _ => Some (Joined es) end.

(** ** Results: a Go function returning [(T, error)] *)

Inductive result (A : Type) :=
  | Ok (a : A)
  | Err (e : goerr).
Arguments Ok {A} a.
Arguments Err {A} e.

#[export] Instance result_ret : MRet result := λ _ a, Ok a.
#[export] Instance result_bind : MBind result := λ _ _ f m,
  match m with Ok a => f a | Err e => Err e end.
#[export] Instance result_fmap : FMap result := λ _ _ f m,
  match m with Ok a => Ok (f a) | Err e => Err e end.

Definition is_ok {A} (r : result A) : bool :=
  match r with Ok _ => true | Err _ => false end.

Definition of_error (e : option goerr) : result unit :=
  match e with None => Ok tt | Some e => Err e end.

(** [if !cond { return err }] *)
Definition guard_ok (b : bool) (e : goerr) : result unit :=
  if b then Ok tt else Err e.

Lemma bind_Ok {A B} (m : result A) (f : A → result B) b :
  mbind f m = Ok b ↔ ∃ a, m = Ok a ∧ f a = Ok b.
Proof. destruct m; simpl; naive_solver. Qed.

Lemma bind_Err {A B} (m : result A) (f : A → result B) e :
  mbind f m = Err e ↔ m = Err e ∨ ∃ a, m = Ok a ∧ f a = Err e.
Proof. destruct m; simpl; naive_solver. Qed.

Lemma guard_ok_Ok b e u : guard_ok b e = Ok u ↔ b = true.
Proof. destruct b, u; simpl; naive_solver. Qed.

Lemma is_ok_spec {A} (r : result A) : is_ok r = true ↔ ∃ a, r = Ok a.
Proof. destruct r; simpl; naive_solver. Qed.

Lemma of_error_Ok e : of_error e = Ok tt ↔ e = None.
Proof. destruct e; simpl; naive_solver. Qed.

Lemma errors_join_None es : errors_join es = None ↔ es = [].
Proof. destruct es; simpl; naive_solver. Qed.

Lemma guard_bind_Ok {A} b e (m : result A) x :
  (guard_ok b e;; m) = Ok x ↔ b = true ∧ m = Ok x.
Proof. destruct b; simpl; naive_solver. Qed.

Create HintDb ovcp discriminated.
Create Rewrite HintDb ovcp_rw.
#[export] Hint Rewrite @guard_bind_Ok @guard_ok_Ok @is_ok_spec of_error_Ok errors_join_None : ovcp_rw.

(** ** Tactics *)

(** Split a hypothesis that a chain of binds and guards returned [Ok]. *)
Ltac bind_inv :=
  repeat match goal with
  | H : mbind _ _ = Ok _ |- _ => apply bind_Ok in H as (?&?&H)
  | H : guard_ok _ _ = Ok _ |- _ => apply guard_ok_Ok in H
  | H : Ok _ = Ok _ |- _ => injection H as H; try subst
  | H : Err _ = Ok _ |- _ => discriminate H
  | H : Ok _ = Err _ |- _ => discriminate H
  | u : unit |- _ => destruct u
  end.

(** Case on every [match]/[if] scrutinee in sight, closing absurd branches. *)
Ltac cases :=
  repeat (case_match; simplify_eq/=; try done).

Create Rewrite HintDb ovcp_bool.
#[export] Hint Rewrite andb_true_iff orb_true_iff orb_false_iff andb_false_iff
  negb_true_iff negb_false_iff @bool_decide_eq_true @bool_decide_eq_false
  Z.eqb_eq Z.eqb_neq Z.ltb_lt Z.ltb_ge Z.leb_le Z.leb_gt
  Nat.eqb_eq Nat.eqb_neq Nat.ltb_lt Nat.ltb_ge Nat.leb_le Nat.leb_gt
  String.eqb_eq String.eqb_neq : ovcp_bool.

(** Boolean tests as propositions, everywhere. *)
Ltac bprop := autorewrite with ovcp_bool in *.

(** Split visible conjunctions only: no definition is unfolded. *)
Ltac conjs := repeat match goal with |- _ ∧ _ => apply conj end.

Ltac bool_to_prop :=
  repeat match goal with
  | H : _ && _ = true |- _ => apply andb_true_iff in H as [? ?]
  | H : _ || _ = false |- _ => apply orb_false_iff in H as [? ?]
  | H : negb _ = true |- _ => apply negb_true_iff in H
  | H : negb _ = false |- _ => apply negb_false_iff in H
  | H : bool_decide _ = true |- _ => apply bool_decide_eq_true in H
  | H : bool_decide _ = false |- _ => apply bool_decide_eq_false in H
  | H : (_ =? _)%Z = true |- _ => apply Z.eqb_eq in H
  | H : (_ =? _)%Z = false |- _ => apply Z.eqb_neq in H
  | H : (_ <? _)%Z = true |- _ => apply Z.ltb_lt in H
  | H : (_ <? _)%Z = false |- _ => apply Z.ltb_ge in H
  | H : (_ <=? _)%Z = true |- _ => apply Z.leb_le in H
  | H : (_ <=? _)%Z = false |- _ => apply Z.leb_gt in H
  end.

(** ** Machine integers *)

Definition max_int64 : Z := 2 ^ 63 - 1.
Definition min_int64 : Z := - 2 ^ 63.
Definition wrap_u64 (z : Z) : Z := z mod 2 ^ 64.
Definition wrap_u32 (z : Z) : Z := z mod 2 ^ 32.
Definition wrap_u16 (z : Z) : Z := z mod 2 ^ 16.
Definition wrap_u8 (z : Z) : Z := z mod 2 ^ 8.

Lemma wrap_u64_small z : 0 ≤ z < 2 ^ 64 → wrap_u64 z = z.
Proof. intros. by apply Z.mod_small. Qed.
Lemma wrap_u64_bound z : 0 ≤ wrap_u64 z < 2 ^ 64.
Proof. apply Z.mod_pos_bound. lia. Qed.

(** Disjoint bit fields: a byte or'ed under a multiple of 256. *)
Lemma lor_byte_shift a b : 0 ≤ a < 256 → 0 ≤ b → Z.lor a (b * 2 ^ 8) = a + b * 2 ^ 8.
Proof.
  intros Ha Hb. assert (Z.land a (b * 2 ^ 8) = 0) as H0.
  { apply Z.bits_inj'. intros n Hn. rewrite Z.land_spec, Z.bits_0.
    destruct (Z.lt_ge_cases n 8).
    - rewrite Z.mul_pow2_bits_low by lia. apply andb_false_r.
    - rewrite <-(Z.mod_small a (2 ^ 8)) by lia. by rewrite Z.mod_pow2_bits_high by lia. }
  rewrite <-Z.lxor_lor by done. symmetry. by apply Z.add_nocarry_lxor.
Qed.

(** ** Time: instants and durations in nanoseconds *)

Definition second : Z := 1000000000.
Definition minute : Z := 60 * second.
Definition hour : Z := 60 * minute.

(** [time.Time{}], year 1, UTC. *)
Definition zero_time : Z := -62135596800 * second.

(** [t.Unix()]: whole seconds, rounded down. *)
Definition unix (t : Z) : Z := t / second.

(** [t.Sub(u)] and [time.Since] saturate at the int64 range. *)
Definition sat64 (z : Z) : Z := Z.max min_int64 (Z.min max_int64 z).
Definition time_sub (t u : Z) : Z := sat64 (t - u).

Lemma sat64_small z : min_int64 ≤ z ≤ max_int64 → sat64 z = z.
Proof. unfold sat64. lia. Qed.

Lemma sat64_gt z w : 0 ≤ w < max_int64 → sat64 z > w ↔ z > w.
Proof. unfold sat64, max_int64, min_int64. lia. Qed.

(** ** Lists *)

Lemma existsb_elem {A} (f : A → bool) l :
  existsb f l = true ↔ ∃ x, x ∈ l ∧ f x = true.
Proof. rewrite existsb_exists. by setoid_rewrite list_elem_of_In. Qed.

Lemma forallb_elem {A} (f : A → bool) l :
  forallb f l = true ↔ ∀ x, x ∈ l → f x = true.
Proof. rewrite forallb_forall. by setoid_rewrite list_elem_of_In. Qed.

#[export] Hint Rewrite @existsb_elem @forallb_elem : ovcp_rw.

(** The first element satisfying [f]. *)
Lemma find_Some_elem {A} (f : A → bool) l x :
  List.find f l = Some x → x ∈ l ∧ f x = true.
Proof. intros [??]%find_some. by rewrite list_elem_of_In. Qed.

Lemma find_None_elem {A} (f : A → bool) l :
  List.find f l = None ↔ ∀ x, x ∈ l → f x = false.
Proof.
  split.
  - intros H x Hx%list_elem_of_In. by eapply find_none.
  - intros H. destruct (List.find f l) eqn:E; [|done].
    apply find_Some_elem in E as [Hin Hf]. by rewrite (H _ Hin) in Hf.
Qed.

Lemma find_app_l {A} (f : A → bool) l k :
  List.find f (l ++ k) = match List.find f l with Some x => Some x | None => List.find f k end.
Proof. induction l as [|x l IH]; simpl; [done|]. by destruct (f x). Qed.

Lemma NoDup_fmap_elem_inj {A B} (f : A → B) l x y :
  NoDup (f <$> l) → x ∈ l → y ∈ l → f x = f y → x = y.
Proof.
  induction l as [|z l IH]; simpl; [set_solver|].
  rewrite NoDup_cons, list_elem_of_fmap. intros [Hz Hl] Hx Hy E.
  apply elem_of_cons in Hx as [->|Hx]; apply elem_of_cons in Hy as [->|Hy];
    naive_solver.
Qed.

(** ** Transition systems *)

Section Reach.
  Context {S : Type} (init : S → Prop) (step : S → S → Prop).

Definition reachable (s : S) : Prop := ∃ s0, init s0 ∧ rtc step s0 s.

Lemma reachable_invariant (I : S → Prop) :
  (∀ s, init s → I s) → (∀ s s', I s → step s s' → I s') →
  ∀ s, reachable s → I s.
Proof.
  intros H0 Hstep s (s0&Hinit&Hrtc). apply H0 in Hinit.
  induction Hrtc; eauto.
Qed.

Lemma reachable_step s s' : reachable s → step s s' → reachable s'.
Proof.
  intros (s0&Hi&Hr) Hs. exists s0. split; [done|].
  eapply rtc_r; eauto.
Qed.

Lemma reachable_rtc s s' : reachable s → rtc step s s' → reachable s'.
Proof.
  intros (s0&Hi&Hr) Hs. exists s0. split; [done|]. by etrans.
Qed.
End Reach.
