(* ===== verification/GoStr.v ===== *)
(** * GoStr: Go strings

    Go strings are byte sequences, as are Rocq's. This file models the parts
    of the packages [strings], [strconv] and [unicode/utf8] that the program
    uses, each with the lemmas its clients need: cutting, splitting, joining,
    trimming, decimal conversion and UTF-8 segmentation. *)

From Stdlib Require Import Ascii.
From Stdlib Require Import DecimalString DecimalZ DecimalNat DecimalFacts.
From Stdlib Require String.
From S2P Require Import Prelude.

(** ** Characters of a string *)

Definition chars (s : string) : list ascii := String.list_ascii_of_string s.
Definition byte_of (c : ascii) : Z := Z.of_N (N_of_ascii c).

Definition s_forallb (f : ascii → bool) (s : string) : bool := forallb f (chars s).
Definition s_existsb (f : ascii → bool) (s : string) : bool := existsb f (chars s).

Abbreviation slen := String.length.

Definition LF : ascii := "010".
Definition CR : ascii := "013".
Definition TAB : ascii := "009".
Definition nl : string := String LF "".
Definition tab : string := String TAB "".

Definition is_digit (c : ascii) : bool := (48 <=? byte_of c) && (byte_of c <=? 57).
Definition is_upper_az (c : ascii) : bool := (65 <=? byte_of c) && (byte_of c <=? 90).
Definition is_lower_az (c : ascii) : bool := (97 <=? byte_of c) && (byte_of c <=? 122).
Definition is_alnum (c : ascii) : bool := is_digit c || is_upper_az c || is_lower_az c.

Lemma s_app_cons c a b : String c a +:+ b = String c (a +:+ b).
Proof. done. Qed.

Lemma s_app_nil_l s : "" +:+ s = s.
Proof. done. Qed.

(** Normal form of appends: constructors pulled to the front. *)
Ltac sapp := rewrite ?s_app_cons, ?s_app_nil_l in *.

Lemma s_length_app a b : slen (a +:+ b) = (slen a + slen b)%nat.
Proof. induction a; sapp; simpl; congruence. Qed.

Lemma s_app_nil_r s : s +:+ "" = s.
Proof. induction s; sapp; congruence. Qed.

Lemma s_app_assoc a b c : a +:+ b +:+ c = (a +:+ b) +:+ c.
Proof. induction a; sapp; congruence. Qed.

Lemma chars_nil : chars "" = [].
Proof. done. Qed.

Lemma chars_cons c s : chars (String c s) = c :: chars s.
Proof. done. Qed.

Lemma chars_app a b : chars (a +:+ b) = chars a ++ chars b.
Proof. induction a as [|? a IH]; sapp; [done|]. rewrite !chars_cons. by rewrite IH. Qed.

Lemma chars_inj a b : chars a = chars b → a = b.
Proof.
  intros H%(f_equal String.string_of_list_ascii).
  unfold chars in H. by rewrite !String.string_of_list_ascii_of_string in H.
Qed.

Lemma length_chars s : length (chars s) = slen s.
Proof. induction s as [|? s IH]; [done|]. rewrite chars_cons. cbn. by rewrite IH. Qed.

Lemma s_forallb_app f a b : s_forallb f (a +:+ b) = s_forallb f a && s_forallb f b.
Proof. unfold s_forallb. by rewrite chars_app, forallb_app. Qed.

Lemma s_forallb_spec f s : s_forallb f s = true ↔ ∀ c, c ∈ chars s → f c = true.
Proof. apply forallb_elem. Qed.

Lemma s_forallb_impl (f g : ascii → bool) s :
  (∀ c, f c = true → g c = true) → s_forallb f s = true → s_forallb g s = true.
Proof. rewrite !s_forallb_spec. naive_solver. Qed.

(** A string that holds no occurrence of a character. *)
Definition no_char (c : ascii) (s : string) : bool :=
  s_forallb (λ c', negb (Ascii.eqb c' c)) s.

Lemma no_char_spec c s : no_char c s = true ↔ c ∉ chars s.
Proof.
  unfold no_char. rewrite s_forallb_spec. split.
  - intros H Hin. specialize (H _ Hin). by rewrite Ascii.eqb_refl in H.
  - intros H c' Hc'. apply negb_true_iff, Ascii.eqb_neq. by intros ->.
Qed.

Lemma no_char_app c a b : no_char c (a +:+ b) = no_char c a && no_char c b.
Proof. apply s_forallb_app. Qed.

Lemma no_char_cons c c' s :
  no_char c (String c' s) = negb (Ascii.eqb c' c) && no_char c s.
Proof. done. Qed.

Lemma no_char_of_forallb f c s :
  f c = false → s_forallb f s = true → no_char c s = true.
Proof.
  intros Hf Hs. apply no_char_spec. intros Hin.
  rewrite s_forallb_spec in Hs. by rewrite (Hs _ Hin) in Hf.
Qed.

(** ** Prefixes and suffixes *)

(** [strings.CutPrefix(s, p)]. *)
Fixpoint cut_prefix (p s : string) : option string :=
  match p, s with
  | "", _ => Some s
  | String a p', String b s' => if Ascii.eqb a b then cut_prefix p' s' else None
  | _, _ => None
  end.

(** [strings.HasPrefix(s, p)]. *)
Definition has_prefix (p s : string) : bool :=
  match cut_prefix p s with Some _ => true | None => false end.

(** [strings.TrimPrefix(s, p)]. *)
Definition trim_prefix (p s : string) : string :=
  match cut_prefix p s with Some r => r | None => s end.

Lemma cut_prefix_Some p s r : cut_prefix p s = Some r ↔ s = p +:+ r.
Proof.
  revert s; induction p as [|a p IH]; intros s; cbn; sapp.
  - naive_solver.
  - destruct s as [|b s]; [naive_solver|].
    destruct (Ascii.eqb_spec a b) as [->|]; [|naive_solver].
    rewrite IH. naive_solver.
Qed.

Lemma cut_prefix_app p r : cut_prefix p (p +:+ r) = Some r.
Proof. by apply cut_prefix_Some. Qed.

Lemma has_prefix_spec p s : has_prefix p s = true ↔ ∃ r, s = p +:+ r.
Proof.
  unfold has_prefix. setoid_rewrite <-cut_prefix_Some.
  destruct (cut_prefix p s); naive_solver.
Qed.

Lemma trim_prefix_app p r : trim_prefix p (p +:+ r) = r.
Proof. unfold trim_prefix. by rewrite cut_prefix_app. Qed.

Lemma has_prefix_app p r : has_prefix p (p +:+ r) = true.
Proof. apply has_prefix_spec; eauto. Qed.

(** [strings.CutSuffix]-style: drop [p] from the end. *)
Fixpoint cut_suffix (p s : string) : option string :=
  if String.eqb s p then Some "" else
  match s with
  | "" => None
  | String c s' => String c <$> cut_suffix p s'
  end.
Definition has_suffix (p s : string) : bool :=
  match cut_suffix p s with Some _ => true | None => false end.
Definition trim_suffix (p s : string) : string :=
  match cut_suffix p s with Some r => r | None => s end.

Lemma cut_suffix_sound p s r : cut_suffix p s = Some r → s = r +:+ p.
Proof.
  revert r; induction s as [|c s IH]; intros r; cbn [cut_suffix].
  - destruct (String.eqb_spec "" p) as [<-|]; [|done]. by intros [= <-].
  - destruct (String.eqb_spec (String c s) p) as [<-|]; sapp.
    + by intros [= <-].
    + destruct (cut_suffix p s); cbn; [|done]. intros [= <-]. sapp.
      by rewrite (IH _ eq_refl).
Qed.

Lemma cut_suffix_app p r : ∃ r', cut_suffix p (r +:+ p) = Some r'.
Proof.
  induction r as [|c r [r' IH]]; sapp.
  - exists "". destruct p; cbn [cut_suffix]; by rewrite String.eqb_refl.
  - cbn [cut_suffix]. case_match; [by eexists|]. rewrite IH. by eexists.
Qed.

Lemma has_suffix_spec p s : has_suffix p s = true ↔ ∃ r, s = r +:+ p.
Proof.
  unfold has_suffix. split.
  - destruct (cut_suffix p s) as [r|] eqn:E; [|done]. exists r. by apply cut_suffix_sound.
  - intros [r ->]. by destruct (cut_suffix_app p r) as [r' ->].
Qed.

(** ** Cut, Split and Join on a one-byte separator *)

(** [strings.Cut(s, sep)]: before, after, found. *)
Fixpoint cut (sep : ascii) (s : string) : string * string * bool :=
  match s with
  | "" => ("", "", false)
  | String c s' =>
      if Ascii.eqb c sep then ("", s', true)
      else let '(b, a, ok) := cut sep s' in (String c b, a, ok)
  end.

Lemma cut_found sep a b : no_char sep a = true →
  cut sep (a +:+ String sep b) = (a, b, true).
Proof.
  induction a as [|c a IH]; sapp; cbn.
  - by rewrite Ascii.eqb_refl.
  - intros [Hc Ha]%andb_true_iff. apply negb_true_iff in Hc. rewrite Hc.
    by rewrite IH.
Qed.

Lemma cut_not_found sep s : no_char sep s = true → cut sep s = (s, "", false).
Proof.
  induction s as [|c s IH]; cbn; [done|].
  intros [Hc Ha]%andb_true_iff. apply negb_true_iff in Hc. rewrite Hc.
  by rewrite IH.
Qed.

(** [strings.Split(s, sep)]: one piece more than separators. *)
Fixpoint split (sep : ascii) (s : string) : list string :=
  match s with
  | "" => [""]
  | String c s' =>
      if Ascii.eqb c sep then "" :: split sep s'
      else match split sep s' with
           | [] => [String c ""]
           | p :: ps => String c p :: ps
           end
  end.

(** [strings.SplitN(s, sep, n)] for n > 0: at most [n] pieces. *)
Fixpoint splitn (sep : ascii) (n : nat) (s : string) : list string :=
  match n with
  | O => []
  | S O => [s]
  | S n' =>
      let '(b, a, ok) := cut sep s in
      if ok then b :: splitn sep n' a else [s]
  end.

(** [strings.Join(l, sep)]. *)
Fixpoint join (sep : string) (l : list string) : string :=
  match l with
  | [] => ""
  | [x] => x
  | x :: l' => x +:+ sep +:+ join sep l'
  end.

Lemma split_ne_nil sep s : split sep s ≠ [].
Proof. destruct s; cbn; [done|]. repeat case_match; done. Qed.

Lemma split_no_char sep s : no_char sep s = true → split sep s = [s].
Proof.
  induction s as [|c s IH]; cbn; [done|].
  intros [Hc Ha]%andb_true_iff. apply negb_true_iff in Hc. rewrite Hc.
  by rewrite IH.
Qed.

Lemma split_app sep a b : no_char sep a = true →
  split sep (a +:+ String sep b) = a :: split sep b.
Proof.
  induction a as [|c a IH]; sapp; cbn.
  - by rewrite Ascii.eqb_refl.
  - intros [Hc Ha]%andb_true_iff. apply negb_true_iff in Hc. rewrite Hc.
    by rewrite IH.
Qed.

Lemma split_sep sep a b : split sep (a +:+ String sep b) = split sep a ++ split sep b.
Proof.
  induction a as [|c a IH]; sapp; cbn [split].
  - by rewrite Ascii.eqb_refl.
  - destruct (Ascii.eqb c sep); [by rewrite IH|]. rewrite IH.
    destruct (split sep a) eqn:E; [by apply split_ne_nil in E|done].
Qed.

Lemma join_cons sep x l : l ≠ [] → join sep (x :: l) = x +:+ sep +:+ join sep l.
Proof. by destruct l. Qed.

Lemma join_split sep s : join (String sep "") (split sep s) = s.
Proof.
  induction s as [|c s IH]; cbn; [done|].
  destruct (Ascii.eqb_spec c sep) as [->|].
  - rewrite join_cons by apply split_ne_nil. rewrite IH. done.
  - destruct (split sep s) as [|p ps] eqn:E; [by apply split_ne_nil in E|].
    destruct ps as [|q ps]; [cbn in *; by subst|].
    rewrite join_cons in IH |- * by done. sapp. by rewrite <-IH.
Qed.

Lemma split_join sep l : l ≠ [] → Forall (λ x, no_char sep x = true) l →
  split sep (join (String sep "") l) = l.
Proof.
  intros Hne HF. induction HF as [|x l Hx HF IH]; [done|].
  destruct l as [|y l]; [by apply split_no_char|].
  rewrite join_cons by done. sapp. rewrite split_app by done.
  by rewrite IH.
Qed.

Lemma split_pieces sep s : Forall (λ x, no_char sep x = true) (split sep s).
Proof.
  induction s as [|c s IH]; cbn; [by repeat constructor|].
  destruct (Ascii.eqb c sep) eqn:Hc; [by constructor|].
  destruct (split sep s) as [|p ps]; [by repeat constructor; rewrite no_char_cons, Hc|].
  apply Forall_cons in IH as [Hp Hps]. constructor; [|done].
  by rewrite no_char_cons, Hc.
Qed.

Lemma split_inj sep a b : split sep a = split sep b → a = b.
Proof. intros E. by rewrite <-(join_split sep a), <-(join_split sep b), E. Qed.

Lemma splitn_3 sep a b c :
  no_char sep a = true → no_char sep b = true →
  splitn sep 3 (a +:+ String sep (b +:+ String sep c)) = [a; b; c].
Proof. intros Ha Hb. cbn [splitn]. by rewrite (cut_found _ _ _ Ha), (cut_found _ _ _ Hb). Qed.

(** ** Trimming a set of ASCII bytes *)

(** [strings.TrimRight(s, cutset)] for an ASCII cutset. *)
Fixpoint trim_right (set : ascii → bool) (s : string) : string :=
  match s with
  | "" => ""
  | String c s' =>
      match trim_right set s' with
      | "" => if set c then "" else String c ""
      | r => String c r
      end
  end.

Definition is_crlf (c : ascii) : bool := Ascii.eqb c CR || Ascii.eqb c LF.
Definition is_lf (c : ascii) : bool := Ascii.eqb c LF.

Lemma trim_right_none set s :
  s_forallb (λ c, negb (set c)) s = true → trim_right set s = s.
Proof.
  induction s as [|c s IH]; cbn; [done|].
  intros [Hc Hs]%andb_true_iff. rewrite (IH Hs). apply negb_true_iff in Hc.
  destruct s; [by rewrite Hc|done].
Qed.

Lemma trim_right_all set s : s_forallb set s = true → trim_right set s = "".
Proof.
  induction s as [|c s IH]; cbn; [done|].
  intros [Hc Hs]%andb_true_iff. by rewrite (IH Hs), Hc.
Qed.

Lemma trim_right_app_all set s t : s_forallb set t = true →
  trim_right set (s +:+ t) = trim_right set s.
Proof.
  intros Ht. induction s as [|c s IH]; sapp; cbn; [by apply trim_right_all|].
  by rewrite IH.
Qed.

(** A line without CR or LF, then its terminator. *)
Definition clean_line (s : string) : bool := s_forallb (λ c, negb (is_crlf c)) s.

Lemma trim_right_line s : clean_line s = true → trim_right is_crlf (s +:+ nl) = s.
Proof.
  intros H. rewrite trim_right_app_all by done. by apply trim_right_none.
Qed.

Lemma clean_line_app a b : clean_line (a +:+ b) = clean_line a && clean_line b.
Proof. apply s_forallb_app. Qed.

(** ** Decimal conversion *)

(** [strconv.Itoa] and [%d]. *)
Definition itoa (z : Z) : string := NilZero.string_of_int (Z.to_int z).

(** An unsigned decimal numeral: one or more digits. *)
Definition parse_digits (s : string) : option Z :=
  match s with
  | "" => None
  | _ => (λ u, Z.of_uint u) <$> NilEmpty.uint_of_string s
  end.

(** [strconv.ParseInt(s, 10, 64)] and [strconv.Atoi] (int is 64 bits). *)
Definition atoi (s : string) : option Z :=
  z ← match s with
      | String "+" r => parse_digits r
      | String "-" r => Z.opp <$> parse_digits r
      | _ => parse_digits s
      end;
  if (min_int64 <=? z) && (z <=? max_int64) then Some z else None.

(** [strconv.ParseUint(s, 10, 64)]; on a range error it returns the maximum,
    on a syntax error 0, which is what a caller that drops the error sees. *)
Definition parse_uint (s : string) : option Z :=
  z ← parse_digits s; if z <? 2 ^ 64 then Some z else None.

Definition parse_uint_or_zero (s : string) : Z :=
  match parse_digits s with
  | None => 0
  | Some z => if z <? 2 ^ 64 then z else 2 ^ 64 - 1
  end.

Lemma uint_string_digits u : s_forallb is_digit (NilEmpty.string_of_uint u) = true.
Proof. induction u; cbn; auto. Qed.

Lemma nonneg_itoa z : 0 ≤ z →
  ∃ u, itoa z = NilZero.string_of_uint u ∧ Z.of_uint u = z.
Proof.
  intros Hz. unfold itoa. pose proof (DecimalZ.of_to z) as E.
  destruct z as [|p|p]; [..|lia].
  - exists (Decimal.D0 Decimal.Nil). done.
  - exists (Pos.to_uint p). split; [done|]. done.
Qed.

Lemma NilZero_string u : NilZero.string_of_uint u = "" → False.
Proof. destruct u; cbn; done. Qed.

Lemma parse_digits_NilZero u : parse_digits (NilZero.string_of_uint u) = Some (Z.of_uint u).
Proof.
  unfold parse_digits. destruct (NilZero.string_of_uint u) eqn:E; [by destruct (NilZero_string u)|].
  destruct u.
  { cbn in E. injection E as <- <-. done. }
  all: cbn [NilZero.string_of_uint] in E; rewrite <-E, NilEmpty.usu; done.
Qed.

Lemma itoa_digits z : 0 ≤ z → s_forallb is_digit (itoa z) = true.
Proof.
  intros (u&->&_)%nonneg_itoa. destruct u; [done|..];
    cbn [NilZero.string_of_uint]; apply uint_string_digits.
Qed.

Lemma itoa_ne z : 0 ≤ z → itoa z ≠ "".
Proof. intros (u&->&_)%nonneg_itoa E. by apply NilZero_string in E. Qed.

Lemma parse_digits_itoa z : 0 ≤ z → parse_digits (itoa z) = Some z.
Proof. intros (u&->&<-)%nonneg_itoa. apply parse_digits_NilZero. Qed.

Lemma parse_uint_itoa z : 0 ≤ z < 2 ^ 64 → parse_uint (itoa z) = Some z.
Proof.
  intros Hz. unfold parse_uint. rewrite parse_digits_itoa by lia. cbn.
  case_match; [done|]. bool_to_prop. lia.
Qed.

Lemma parse_uint_or_zero_itoa z : 0 ≤ z < 2 ^ 64 → parse_uint_or_zero (itoa z) = z.
Proof.
  intros Hz. unfold parse_uint_or_zero. rewrite parse_digits_itoa by lia.
  case_match; [done|]. bool_to_prop. lia.
Qed.

Lemma atoi_itoa z : 0 ≤ z ≤ max_int64 → atoi (itoa z) = Some z.
Proof.
  intros Hz. unfold atoi.
  pose proof (itoa_digits z ltac:(lia)) as Hd.
  pose proof (parse_digits_itoa z ltac:(lia)) as Hp.
  assert (match itoa z with
      | String "+" r => parse_digits r
      | String "-" r => Z.opp <$> parse_digits r
      | _ => parse_digits (itoa z) end = Some z) as ->.
  { destruct (itoa z) as [|c s] eqn:E; [done|].
    apply andb_true_iff in Hd as [Hc _].
    destruct c as [[] [] [] [] [] [] [] []]; try done; discriminate Hc. }
  cbn. unfold min_int64. case_match; [done|].
  apply andb_false_iff in H as [?|?]; bool_to_prop; lia.
Qed.

Lemma itoa_inj a b : 0 ≤ a → 0 ≤ b → itoa a = itoa b → a = b.
Proof.
  intros Ha Hb E. apply (f_equal parse_digits) in E.
  rewrite !parse_digits_itoa in E by done. congruence.
Qed.

Lemma itoa_clean z c : 0 ≤ z → is_digit c = false → no_char c (itoa z) = true.
Proof. intros ??. by eapply no_char_of_forallb; [|apply itoa_digits]. Qed.

(** ** UTF-8: [for _, r := range s], [strings.TrimSpace], [strings.Fields] *)

Definition rune_error : Z := 65533.

(** Range of a multi-byte sequence's second byte, by its first
    ([utf8]'s acceptRanges). *)
Definition accept_lo (b0 : Z) : Z :=
  if b0 =? 224 then 160 else if b0 =? 240 then 144 else 128.
Definition accept_hi (b0 : Z) : Z :=
  if b0 =? 237 then 159 else if b0 =? 244 then 143 else 191.
Definition in_range (lo b hi : Z) : bool := (lo <=? b) && (b <=? hi).
Definition is_cont (c : ascii) : bool := in_range 128 (byte_of c) 191.
Definition accept2 (b0 : Z) (c : ascii) : bool :=
  in_range (accept_lo b0) (byte_of c) (accept_hi b0).

(** [utf8.RuneStart(b)]: not a continuation byte. *)
Definition rune_start (c : ascii) : bool := negb (is_cont c).

(** The runes of [s], each with the bytes it came from; an invalid byte is
    [RuneError] and one byte long. *)
Fixpoint runes (s : string) : list (Z * string) :=
  match s with
  | "" => []
  | String c0 s1 =>
      let b0 := byte_of c0 in
      if b0 <? 128 then (b0, String c0 "") :: runes s1 else
      match s1 with
      | "" => (rune_error, String c0 "") :: runes s1
      | String c1 s2 =>
          let b1 := byte_of c1 in
          if in_range 194 b0 223 && accept2 b0 c1 then
            ((b0 - 192) * 64 + (b1 - 128), String c0 (String c1 "")) :: runes s2 else
          match s2 with
          | "" => (rune_error, String c0 "") :: runes s1
          | String c2 s3 =>
              let b2 := byte_of c2 in
              if in_range 224 b0 239 && accept2 b0 c1 && is_cont c2 then
                ((b0 - 224) * 4096 + (b1 - 128) * 64 + (b2 - 128),
                 String c0 (String c1 (String c2 ""))) :: runes s3 else
              match s3 with
              | "" => (rune_error, String c0 "") :: runes s1
              | String c3 s4 =>
                  let b3 := byte_of c3 in
                  if in_range 240 b0 244 && accept2 b0 c1 && is_cont c2 && is_cont c3 then
                    ((b0 - 240) * 262144 + (b1 - 128) * 4096 + (b2 - 128) * 64 + (b3 - 128),
                     String c0 (String c1 (String c2 (String c3 "")))) :: runes s4
                  else (rune_error, String c0 "") :: runes s1
              end
          end
      end
  end.

Fixpoint concat_s (l : list string) : string :=
  match l with [] => "" | x :: l' => x +:+ concat_s l' end.

Definition bytes_of_runes (rs : list (Z * string)) : string := concat_s (rs.*2).

Lemma concat_s_app l k : concat_s (l ++ k) = concat_s l +:+ concat_s k.
Proof. induction l as [|x l IH]; simpl; [done|]. by rewrite IH, s_app_assoc. Qed.

Lemma bytes_of_runes_cons r x rs : bytes_of_runes ((r, x) :: rs) = x +:+ bytes_of_runes rs.
Proof. done. Qed.

Lemma bytes_of_runes_runes s : bytes_of_runes (runes s) = s.
Proof.
  assert (∀ n s, (slen s < n)%nat → bytes_of_runes (runes s) = s) as Hn; [|apply (Hn (S (slen s))); lia].
  clear s. induction n as [|n IH]; intros s Hs; [lia|].
  destruct s as [|c0 s1]; [done|]. cbn [runes]. cbn [String.length] in Hs.
  repeat case_match; subst; rewrite bytes_of_runes_cons, IH; sapp; try done;
    cbn [String.length] in *; lia.
Qed.

(** [unicode.IsSpace]: the White_Space property (Latin-1 and beyond). *)
Definition is_space_rune (r : Z) : bool :=
  in_range 9 r 13 || (r =? 32) || (r =? 133) || (r =? 160) || (r =? 5760) ||
  in_range 8192 r 8202 || (r =? 8232) || (r =? 8233) || (r =? 8239) ||
  (r =? 8287) || (r =? 12288).

Definition space_chunk (p : Z * string) : bool := is_space_rune p.1.

Fixpoint drop_while {A} (f : A → bool) (l : list A) : list A :=
  match l with
  | [] => []
  | x :: l' => if f x then drop_while f l' else l
  end.

Definition drop_while_end {A} (f : A → bool) (l : list A) : list A :=
  reverse (drop_while f (reverse l)).

(** [strings.TrimSpace]. *)
Definition trim_space (s : string) : string :=
  bytes_of_runes (drop_while_end space_chunk (drop_while space_chunk (runes s))).

(** [strings.Fields]: the maximal runs of non-space runes. [cur] is the run
    being read, [None] between runs. *)
Fixpoint fields_go (cur : option string) (rs : list (Z * string)) : list string :=
  match rs with
  | [] => option_list cur
  | (r, x) :: rs' =>
      if is_space_rune r then option_list cur ++ fields_go None rs'
      else fields_go (Some (default "" cur +:+ x)) rs'
  end.
Definition fields (s : string) : list string := fields_go None (runes s).

(** Pure ASCII strings: one rune per byte. *)
Definition is_ascii (c : ascii) : bool := byte_of c <? 128.

Lemma runes_ascii s : s_forallb is_ascii s = true →
  runes s = (λ c, (byte_of c, String c "")) <$> chars s.
Proof.
  induction s as [|c s IH]; [done|]. intros [Hc Hs]%andb_true_iff.
  rewrite chars_cons, fmap_cons, <-IH by done.
  unfold is_ascii in Hc. cbn [runes]. by rewrite Hc.
Qed.

Definition not_space (c : ascii) : bool := is_ascii c && negb (is_space_rune (byte_of c)).

Lemma drop_while_none {A} (f : A → bool) l :
  Forall (λ x, f x = false) l → drop_while f l = l.
Proof. destruct 1 as [|x l Hx]; simpl; [done|]. by rewrite Hx. Qed.

Lemma not_space_ascii s : s_forallb not_space s = true → s_forallb is_ascii s = true.
Proof. apply s_forallb_impl. unfold not_space. by intros c [? _]%andb_true_iff. Qed.

Lemma trim_space_none s : s_forallb not_space s = true → trim_space s = s.
Proof.
  intros H. unfold trim_space.
  assert (Forall (λ p, space_chunk p = false) (runes s)) as HF.
  { rewrite runes_ascii by by apply not_space_ascii.
    apply Forall_fmap, Forall_forall. intros c Hc.
    rewrite s_forallb_spec in H. specialize (H c Hc).
    apply andb_true_iff in H as [_ H]. by apply negb_true_iff in H. }
  unfold drop_while_end.
  rewrite (drop_while_none _ _ HF), (drop_while_none _ (reverse _)) by by apply Forall_reverse.
  rewrite reverse_involutive. apply bytes_of_runes_runes.
Qed.

(** [strings.ToLower], on the bytes that can match an ASCII literal. *)
Definition to_lower_byte (c : ascii) : ascii :=
  if is_upper_az c then ascii_of_N (N_of_ascii c + 32) else c.
Fixpoint to_lower (s : string) : string :=
  match s with "" => "" | String c s' => String (to_lower_byte c) (to_lower s') end.

Definition to_upper_byte (c : ascii) : ascii :=
  if is_lower_az c then ascii_of_N (N_of_ascii c - 32) else c.
Fixpoint to_upper (s : string) : string :=
  match s with "" => "" | String c s' => String (to_upper_byte c) (to_upper s') end.

(** [strings.Contains(s, sub)]. *)
Fixpoint contains (sub s : string) : bool :=
  has_prefix sub s || match s with "" => false | String _ s' => contains sub s' end.

(** [strings.ContainsAny(s, set)]. *)
Definition contains_any (set s : string) : bool :=
  s_existsb (λ c, existsb (Ascii.eqb c) (chars set)) s.

(** ** Substrings by byte index *)

Fixpoint s_take (n : nat) (s : string) : string :=
  match n, s with
  | O, _ => ""
  | _, "" => ""
  | S n', String c s' => String c (s_take n' s')
  end.
Fixpoint s_drop (n : nat) (s : string) : string :=
  match n, s with
  | O, _ => s
  | _, "" => ""
  | S n', String _ s' => s_drop n' s'
  end.

Lemma s_take_drop n s : s_take n s +:+ s_drop n s = s.
Proof. revert s; induction n as [|n IH]; intros [|c s]; cbn; sapp; try done. by rewrite IH. Qed.

Lemma s_length_take n s : slen (s_take n s) = Nat.min n (slen s).
Proof. revert s; induction n as [|n IH]; intros [|c s]; cbn; auto. Qed.

Lemma s_length_drop n s : slen (s_drop n s) = (slen s - n)%nat.
Proof. revert s; induction n as [|n IH]; intros [|c s]; cbn; auto. Qed.

Definition s_get (n : nat) (s : string) : option ascii := chars s !! n.

(** [strings.LastIndexByte(s, c)]. *)
Fixpoint last_index_byte (c : ascii) (s : string) : option nat :=
  match s with
  | "" => None
  | String c' s' =>
      match last_index_byte c s' with
      | Some i => Some (S i)
      | None => if Ascii.eqb c' c then Some O else None
      end
  end.

(** [strings.IndexByte(s, c)]. *)
Fixpoint index_byte (c : ascii) (s : string) : option nat :=
  match s with
  | "" => None
  | String c' s' => if Ascii.eqb c' c then Some O else S <$> index_byte c s'
  end.

Lemma last_index_byte_lt c s i : last_index_byte c s = Some i → (i < slen s)%nat.
Proof.
  revert i; induction s as [|c' s IH]; intros i; cbn; [done|].
  destruct (last_index_byte c s) as [j|].
  - intros [= <-]. specialize (IH _ eq_refl). lia.
  - case_match; [|done]. intros [= <-]. lia.
Qed.

Lemma last_index_byte_Some c s i : last_index_byte c s = Some i →
  s_drop i s = String c (s_drop (S i) s) ∧ no_char c (s_drop (S i) s) = true.
Proof.
  revert i; induction s as [|c' s IH]; intros i; cbn [last_index_byte]; [done|].
  destruct (last_index_byte c s) as [j|] eqn:E.
  - intros [= <-]. by apply IH.
  - destruct (Ascii.eqb_spec c' c) as [->|]; [|done]. intros [= <-]. cbn [s_drop]. split; [done|].
    clear IH. induction s as [|d s IH]; [done|]. cbn [last_index_byte] in E.
    destruct (last_index_byte c s) eqn:E'; [done|]. destruct (Ascii.eqb_spec d c) as [->|Hd]; [done|].
    rewrite no_char_cons. destruct (Ascii.eqb_spec d c); [done|]. by apply IH.
Qed.

Lemma last_index_byte_None c s : last_index_byte c s = None → no_char c s = true.
Proof.
  induction s as [|d s IH]; [done|]. cbn [last_index_byte].
  destruct (last_index_byte c s) eqn:E'; [done|]. destruct (Ascii.eqb_spec d c) as [->|Hd]; [done|]. intros _.
  rewrite no_char_cons. destruct (Ascii.eqb_spec d c); [done|]. by apply IH.
Qed.

Lemma s_take_app a b : s_take (slen a) (a +:+ b) = a.
Proof. induction a as [|c a IH]; sapp; [by destruct b|]. simpl. by rewrite IH. Qed.
Lemma s_drop_app a b : s_drop (slen a) (a +:+ b) = b.
Proof. induction a as [|c a IH]; sapp; [done|]. simpl. done. Qed.

Lemma s_get_drop n s c : s_get n s = Some c → s_drop n s = String c (s_drop (S n) s).
Proof.
  unfold s_get. revert s; induction n as [|n IH]; intros [|d s]; rewrite ?chars_nil, ?chars_cons; cbn; try done.
  - by intros [= ->].
  - intros H. by rewrite (IH _ H).
Qed.

Lemma s_drop_S n s c t : s_drop n s = String c t → s_drop (S n) s = t.
Proof. revert s; induction n as [|n IH]; intros [|d s]; cbn; try done; [by intros [= _ ->]|]. apply IH. Qed.

Lemma s_drop_take i n s : (i ≤ n)%nat → s_drop i (s_take n s) = s_take (n - i) (s_drop i s).
Proof. revert i s; induction n as [|n IH]; intros [|i] [|c s] H; cbn; try done; try lia; [by destruct (n - i)%nat|]. apply IH. lia. Qed.

Lemma s_take_take i n s : (i ≤ n)%nat → s_take i (s_take n s) = s_take i s.
Proof. revert i s; induction n as [|n IH]; intros [|i] [|c s] H; cbn; try done; try lia. rewrite IH by lia. done. Qed.

(** ** [strconv.Quote], the [%q] verb, on ASCII

    Printable ASCII stands for itself but for the quote and the backslash;
    control bytes are escaped. A byte of a multi-byte rune is kept, which is
    what [%q] prints for a printable rune. *)

Definition DQ : ascii := "034".

Definition hexd (v : Z) : ascii := ascii_of_N (Z.to_N (if v <? 10 then 48 + v else 87 + v)).

Definition quote_byte (c : ascii) : string :=
  let b := byte_of c in
  if Ascii.eqb c DQ then String "\" (String DQ "")
  else if Ascii.eqb c "\" then "\\"
  else if b =? 7 then "\a" else if b =? 8 then "\b" else if b =? 9 then "\t"
  else if b =? 10 then "\n" else if b =? 11 then "\v" else if b =? 12 then "\f"
  else if b =? 13 then "\r"
  else if (b <? 32) || (b =? 127) then "\x" +:+ String (hexd (b / 16)) (String (hexd (b mod 16)) "")
  else String c "".

Definition quote (s : string) : string :=
  String DQ (concat_s (quote_byte <$> chars s)) +:+ String DQ "".

Definition plain_char (c : ascii) : bool :=
  (32 <=? byte_of c) && negb (byte_of c =? 127) && negb (Ascii.eqb c DQ) && negb (Ascii.eqb c "\").

Lemma quote_byte_plain c : plain_char c = true → quote_byte c = String c "".
Proof. destruct c as [[] [] [] [] [] [] [] []]; vm_compute; congruence. Qed.

Lemma quote_plain s : s_forallb plain_char s = true →
  quote s = String DQ s +:+ String DQ "".
Proof.
  intros H. unfold quote. f_equal. f_equal.
  induction s as [|c s IH]; [done|]. apply andb_true_iff in H as [Hc Hs].
  rewrite chars_cons, fmap_cons. cbn [concat_s]. rewrite quote_byte_plain by done.
  sapp. by rewrite IH.
Qed.

(** Quoting never lets a newline through. *)
Lemma quote_no_nl s : no_char LF (quote s) = true.
Proof.
  unfold quote. rewrite no_char_app. apply andb_true_iff; split; [|done].
  rewrite no_char_cons. apply andb_true_iff; split; [done|].
  induction s as [|c s IH]; [done|].
  rewrite chars_cons, fmap_cons. cbn [concat_s]. rewrite no_char_app, IH, andb_true_r.
  by destruct c as [[] [] [] [] [] [] [] []].
Qed.

(** The lines of a text: [n] lines, each without a newline and ended by one. *)
Definition unlines (l : list string) : string := concat_s ((λ x, x +:+ nl) <$> l).

Lemma unlines_app l k : unlines (l ++ k) = unlines l +:+ unlines k.
Proof. unfold unlines. by rewrite fmap_app, concat_s_app. Qed.

Lemma unlines_cons x l : unlines (x :: l) = x +:+ nl +:+ unlines l.
Proof. unfold unlines. rewrite fmap_cons. cbn [concat_s]. by rewrite s_app_assoc. Qed.

Lemma split_unlines l : Forall (λ x, no_char LF x = true) l →
  split LF (unlines l) = l ++ [""].
Proof.
  induction 1 as [|x l Hx HF IH]; [done|].
  rewrite unlines_cons. unfold nl. sapp. rewrite split_app by done. by rewrite IH.
Qed.

(** ** Trimming ASCII text *)

Definition space_char (c : ascii) : bool := is_space_rune (byte_of c).

(** Text that starts and ends with a non-space character. *)
Definition last_char (s : string) : option ascii := last (chars s).
Definition tight (s : string) : bool :=
  s_forallb is_ascii s &&
  match s with "" => true | String c _ => negb (space_char c) end &&
  match last_char s with None => true | Some c => negb (space_char c) end.

(** One line, nothing for [TrimSpace] to remove. *)
Definition line_safe (s : string) : bool := tight s && no_char LF s.

Definition of_chars (l : list ascii) : string := String.string_of_list_ascii l.

Lemma of_chars_chars s : of_chars (chars s) = s.
Proof. apply String.string_of_list_ascii_of_string. Qed.

Definition chunk (c : ascii) : Z * string := (byte_of c, String c "").

Lemma bytes_of_chunks l : bytes_of_runes (chunk <$> l) = of_chars l.
Proof.
  induction l as [|c l IH]; [done|]. rewrite fmap_cons. unfold chunk at 1.
  rewrite bytes_of_runes_cons, IH. done.
Qed.

Lemma drop_while_fmap {A B} (f : A → B) (p : B → bool) l :
  drop_while p (f <$> l) = f <$> drop_while (λ x, p (f x)) l.
Proof. induction l as [|x l IH]; simpl; [done|]. by destruct (p (f x)). Qed.

Lemma trim_space_ascii s : s_forallb is_ascii s = true →
  trim_space s = of_chars (drop_while_end space_char (drop_while space_char (chars s))).
Proof.
  intros H. unfold trim_space, drop_while_end. rewrite runes_ascii by done.
  change (λ c, (byte_of c, String c "")) with chunk.
  rewrite drop_while_fmap, <-fmap_reverse, drop_while_fmap, <-fmap_reverse.
  apply bytes_of_chunks.
Qed.

Lemma drop_while_end_app_all {A} (p : A → bool) l k :
  Forall (λ x, p x = true) k → drop_while_end p (l ++ k) = drop_while_end p l.
Proof.
  unfold drop_while_end. intros H. rewrite reverse_app. f_equal.
  apply Forall_reverse in H. induction H as [|x k' Hx _ IH]; simpl; [done|]. by rewrite Hx.
Qed.

Lemma drop_while_end_keep {A} (p : A → bool) l x :
  last l = Some x → p x = false → drop_while_end p l = l.
Proof.
  intros [k ->]%last_Some Hx. unfold drop_while_end. rewrite reverse_snoc. simpl.
  rewrite Hx. by rewrite reverse_cons, reverse_involutive.
Qed.

(** A tight text followed by white space trims to itself. *)
Lemma trim_space_tight s w : tight s = true → s_forallb (λ c, is_ascii c && space_char c) w = true →
  trim_space (s +:+ w) = s.
Proof.
  unfold tight. rewrite !andb_true_iff. intros [[Ha Hf] Hl] Hw.
  assert (s_forallb is_ascii w = true) as Hwa.
  { eapply s_forallb_impl; [|exact Hw]. by intros c [? _]%andb_true_iff. }
  assert (Forall (λ c, space_char c = true) (chars w)) as Hws.
  { apply Forall_forall. intros c Hc. rewrite s_forallb_spec in Hw.
    apply Hw in Hc. by apply andb_true_iff in Hc as [_ ?]. }
  rewrite trim_space_ascii by by rewrite s_forallb_app, Ha, Hwa.
  rewrite chars_app. destruct s as [|c s].
  - simpl. assert (drop_while space_char (chars w) = []) as ->; [|done].
    clear -Hws. induction Hws as [|x l Hx _ IH]; simpl; [done|]. by rewrite Hx.
  - rewrite chars_cons. apply negb_true_iff in Hf. cbn [app drop_while]. rewrite Hf.
    rewrite app_comm_cons, drop_while_end_app_all by done.
    unfold last_char in Hl. rewrite chars_cons in Hl.
    destruct (last (c :: chars s)) as [z|] eqn:E; [|by apply last_None in E].
    apply negb_true_iff in Hl. rewrite (drop_while_end_keep _ _ z) by done.
    rewrite <-chars_cons. apply of_chars_chars.
Qed.

Lemma trim_space_id s : tight s = true → trim_space s = s.
Proof. intros H. rewrite <-(s_app_nil_r s) at 1. by apply trim_space_tight. Qed.

Lemma trim_space_lead w s : tight s = true → s_forallb (λ c, is_ascii c && space_char c) w = true →
  trim_space (w +:+ s) = s.
Proof.
  intros Ht Hw. assert (s_forallb is_ascii s = true) as Ha.
  { unfold tight in Ht. by apply andb_true_iff in Ht as [[? _]%andb_true_iff _]. }
  assert (s_forallb is_ascii w = true) as Hwa.
  { eapply s_forallb_impl; [|exact Hw]. by intros c [? _]%andb_true_iff. }
  rewrite trim_space_ascii by by rewrite s_forallb_app, Ha, Hwa.
  rewrite chars_app.
  assert (drop_while space_char (chars w ++ chars s) = drop_while space_char (chars s)) as ->.
  { clear -Hw. induction w as [|c w IH]; [done|]. unfold s_forallb in Hw. rewrite chars_cons in *.
    cbn [forallb] in Hw. apply andb_true_iff in Hw as [Hc Hw]. apply andb_true_iff in Hc as [_ Hc].
    cbn [app drop_while]. rewrite Hc. by apply IH. }
  rewrite <-trim_space_ascii by done. by apply trim_space_id.
Qed.

Lemma trim_space_nl s : tight s = true → trim_space (s +:+ nl) = s.
Proof. intros H. by apply trim_space_tight. Qed.

Lemma last_char_app a c b : last_char (a +:+ String c b) = last_char (String c b).
Proof.
  unfold last_char. rewrite chars_app, last_app.
  destruct (last (chars (String c b))) eqn:E; [done|].
  apply last_None in E. done.
Qed.

Lemma not_space_tight s : s_forallb not_space s = true → tight s = true.
Proof.
  intros H. unfold tight. rewrite (not_space_ascii _ H). simpl.
  assert (∀ c, c ∈ chars s → negb (space_char c) = true) as Hc.
  { intros c Hc. rewrite s_forallb_spec in H. apply H in Hc. unfold not_space in Hc.
    by apply andb_true_iff in Hc as [_ ?]. }
  apply andb_true_iff; split.
  - destruct s; [done|]. apply Hc. rewrite chars_cons. set_solver.
  - unfold last_char. destruct (last (chars s)) as [z|] eqn:E; [|done].
    apply Hc. apply last_Some in E as [l ->]. set_solver.
Qed.

(** A tight text grows on the right by a tight, non-empty one. *)
Lemma tight_app a b : a ≠ "" → b ≠ "" → tight a = true → tight b = true → ∀ m,
  s_forallb is_ascii m = true → tight (a +:+ m +:+ b) = true.
Proof.
  intros Ha Hb. unfold tight. rewrite !andb_true_iff. intros [[H1 H2] H3] [[H4 H5] H6] m Hm.
  rewrite !s_forallb_app, H1, H4, Hm, !andb_true_iff. split; [split; [done|]|].
  - by destruct a.
  - destruct b as [|c b]; [done|]. by rewrite s_app_assoc, last_char_app.
Qed.

(** ** [bufio.Scanner] over lines *)

Definition drop_cr (s : string) : string := trim_suffix (String CR "") s.

(** The lines before the first one the 1 MiB buffer cannot hold. *)
Fixpoint until_long (limit : Z) (ls : list string) : list string :=
  match ls with
  | [] => []
  | l :: ls' => if limit <=? Z.of_nat (slen l) then [] else drop_cr l :: until_long limit ls'
  end.

Definition scan_lines (limit : Z) (s : string) : list string :=
  until_long limit
    (let ps := split LF s in
     match last ps with Some "" => removelast ps | _ => ps end).

(** ** Lines read with [ReadString('\n')] *)

(** The lines a newline ends; what follows the last one is a torn line. *)
Definition complete_lines (s : string) : list string := removelast (split LF s).

Lemma complete_lines_unlines l : Forall (λ x, no_char LF x = true) l → complete_lines (unlines l) = l.
Proof.
  intros H. unfold complete_lines. rewrite split_unlines by done. apply removelast_last.
Qed.

Lemma complete_lines_cons x s : no_char LF x = true →
  complete_lines (x +:+ nl +:+ s) = x :: complete_lines s.
Proof.
  intros H. unfold complete_lines, nl. sapp. rewrite split_app by done.
  destruct (split LF s) eqn:E; [by apply split_ne_nil in E|done].
Qed.

Lemma complete_lines_torn x : no_char LF x = true → complete_lines x = [].
Proof. intros H. unfold complete_lines. by rewrite split_no_char. Qed.

Lemma no_char_take c n s : no_char c s = true → no_char c (s_take n s) = true.
Proof.
  revert n. induction s as [|a s IH]; intros [|n]; try done. cbn [s_take].
  rewrite !no_char_cons, !andb_true_iff. intros [??]. split; [done|by apply IH].
Qed.

Lemma s_take_app_le n a b : (n ≤ slen a)%nat → s_take n (a +:+ b) = s_take n a.
Proof.
  revert n. induction a as [|c a IH]; intros [|n] Hn; simpl in *; sapp; try done; try lia.
  cbn [s_take]. by rewrite IH by lia.
Qed.

Lemma s_take_all n s : (slen s ≤ n)%nat → s_take n s = s.
Proof. revert s; induction n as [|n IH]; intros [|c s] H; cbn in *; try done; try lia. by rewrite IH by lia. Qed.
Lemma s_drop_all n s : (slen s ≤ n)%nat → s_drop n s = "".
Proof. revert s; induction n as [|n IH]; intros [|c s] H; cbn in *; try done; try lia. by rewrite IH by lia. Qed.
Lemma s_drop_app_le n a b : (n ≤ slen a)%nat → s_drop n (a +:+ b) = s_drop n a +:+ b.
Proof. revert n. induction a as [|c a IH]; intros [|n] Hn; sapp; try done; [simpl in Hn; lia|]. apply IH. simpl in Hn. lia. Qed.

Lemma s_take_app_plus a n b : s_take (slen a + n) (a +:+ b) = a +:+ s_take n b.
Proof. induction a as [|c a IH]; [done|]. simpl. sapp. cbn [s_take]. by rewrite IH. Qed.

(** A file cut short has lost at least its last line. *)
Lemma complete_lines_take l x n : Forall (λ y, no_char LF y = true) (l ++ [x]) →
  (n < slen (unlines (l ++ [x])))%nat →
  ∃ k, l = complete_lines (s_take n (unlines (l ++ [x]))) ++ k.
Proof.
  revert n. induction l as [|y l IH]; intros n HF Hn.
  - exists []. rewrite app_nil_r. simpl app in *. rewrite Forall_singleton in HF.
    rewrite unlines_cons in *. unfold unlines in *. simpl in *. rewrite s_app_nil_r in *.
    rewrite s_length_app in Hn. simpl in Hn. rewrite s_take_app_le by lia.
    symmetry. by apply complete_lines_torn, no_char_take.
  - simpl app in *. apply Forall_cons in HF as [Hy HF]. rewrite unlines_cons in *.
    destruct (decide (n ≤ slen y)%nat) as [Hle|Hgt].
    + exists (y :: l). rewrite s_take_app_le by done.
      by rewrite complete_lines_torn by by apply no_char_take.
    + rewrite !s_length_app in Hn. simpl in Hn.
      destruct (IH (n - S (slen y))%nat HF ltac:(lia)) as [k Hk]. exists k.
      replace n with (slen y + S (n - S (slen y)))%nat by lia.
      rewrite s_take_app_plus. unfold nl at 1. sapp. cbn [s_take].
      change (String LF (s_take (n - S (slen y)) (unlines (l ++ [x])))) with
        (nl +:+ s_take (n - S (slen y)) (unlines (l ++ [x]))).
      rewrite complete_lines_cons by done. simpl. by f_equal.
Qed.

(** ** Printed numbers as words *)

Lemma digit_not_space c : is_digit c = true → not_space c = true.
Proof. destruct c as [[] [] [] [] [] [] [] []]; vm_compute; congruence. Qed.

Lemma itoa_not_space z : s_forallb not_space (itoa z) = true ∧ itoa z ≠ "".
Proof.
  assert (∀ z, 0 ≤ z → s_forallb not_space (itoa z) = true ∧ itoa z ≠ "") as Hpos.
  { intros n Hn. split; [|by apply itoa_ne].
    eapply s_forallb_impl; [apply digit_not_space|by apply itoa_digits]. }
  destruct z as [|p|p]; [apply Hpos; lia..|].
  destruct (Hpos (Zpos p) ltac:(lia)) as [H _]. split; [|done].
  change (itoa (Zneg p)) with (String "-" (itoa (Zpos p))).
  unfold s_forallb in *. rewrite chars_cons. cbn [forallb]. by rewrite H.
Qed.

Lemma not_space_line_safe s : s_forallb not_space s = true → line_safe s = true.
Proof.
  intros H. apply andb_true_iff; split; [by apply not_space_tight|].
  by apply (no_char_of_forallb not_space).
Qed.
