(* ===== verification/GoErr.v ===== *)
(** * GoErr: error texts

    [Error()] of the errors of the prelude: the sentinels' texts as the
    packages declare them, and [fmt.Errorf] on string arguments. *)

From Stdlib Require Import Ascii.
From S2P Require Import Prelude GoStr.

Definition sentinel_text (s : sentinel) : string :=
  match s with
  | ErrBadPassphrase => "pki: wrong passphrase or corrupt key file"
  | ErrCAExists => "pki: CA already initialized"
  | ErrDuplicateCN => "an active cert already exists for this CN"
  | ErrNoActiveCert => "no active cert"
  | ErrBusy => "operation already in progress"
  | ErrUnknownOp => "unknown operation"
  | ErrServeDown => "ovcp serve not reachable (is it running?)"
  | ErrBadCredentials => "auth: invalid credentials"
  | ErrTOTPRequired => "auth: totp code required"
  | ErrRateLimited => "auth: too many failed attempts, try later"
  | ErrAlreadyInitialized => "backup: data directory already has a CA; use -force to overwrite"
  | ErrNotConnected => "not connected"
  | ErrNoUpstream => "no such upstream"
  | ErrUpstreamsDisabled =>
      "upstreams disabled: nftables not found on PATH, or OVCP_UPSTREAMS_ENABLED=false"
  | ErrNoRedirect => "server doesn't redirect all traffic; nothing to split"
  | ErrNoRemote => "remote required (no server CN found)"
  | ErrNoServerCN => "no server CN known (e.g. right after a backup restore): name one"
  | ErrNoRows => "sql: no rows in result set"
  | ErrEOF => "EOF"
  end.

(** One verb of a format, on an argument already printed as text. *)
Definition verb_text (v : ascii) (arg : string) : string :=
  if Ascii.eqb v "q" then quote arg else arg.

(** [fmt.Sprintf] for the verbs %s %d %v %w %q (and %#x, whose argument is
    given printed); a missing argument prints nothing. *)
Fixpoint sprintf (f : string) (args : list string) : string :=
  match f with
  | "" => ""
  | String "%" (String "%" r) => String "%" (sprintf r args)
  | String "%" (String "#" (String v r)) | String "%" (String v r) =>
      verb_text v (hd "" args) +:+ sprintf r (tl args)
  | String c r => String c (sprintf r args)
  end.

(** [Error()]. A wrapped error is printed where the format has its [%w],
    after the arguments before it: [n] counts them. *)
Fixpoint wrap_at (f : string) : nat :=
  match f with
  | "" => O
  | String "%" (String "w" _) => O
  | String "%" (String "%" r) => wrap_at r
  | String "%" (String _ r) => S (wrap_at r)
  | String _ r => wrap_at r
  end.

Fixpoint Error (e : goerr) : string :=
  match e with
  | Sentinel s => sentinel_text s
  | Errorf f args => sprintf f args
  | Wrapf f args e' => sprintf f (take (wrap_at f) args ++ [Error e'] ++ drop (wrap_at f) args)
  | Joined es => join nl (Error <$> es)
  | HTTPError _ e' => Error e'
  | ExternalErr what => what
  end.

Example error_busy :
  Error (Wrapf "controller: %s: %w" ["openvpn"] (Sentinel ErrBusy)) =
  "controller: openvpn: operation already in progress".
Proof. done. Qed.
