(* ===== verification/GoEnc.v ===== *)
(** * GoEnc: base64, base32 and hexadecimal

    The encodings of [encoding/base64], [encoding/base32] and [encoding/hex]
    the program uses, on byte strings: digits are groups of bits, most
    significant first. Decoding an encoding gives the bytes back. *)

From Stdlib Require Import Ascii.
From S2P Require Import Prelude GoStr.

Definition bits_of_byte (c : ascii) : list bool :=
  match c with Ascii b0 b1 b2 b3 b4 b5 b6 b7 => [b7; b6; b5; b4; b3; b2; b1; b0] end.

Definition bits_of (s : string) : list bool := chars s ≫= bits_of_byte.

(** Whole bytes of a bit sequence; a shorter rest is dropped. *)
Fixpoint bytes_of (l : list bool) : string :=
  match l with
  | b7 :: b6 :: b5 :: b4 :: b3 :: b2 :: b1 :: b0 :: r => String (Ascii b0 b1 b2 b3 b4 b5 b6 b7) (bytes_of r)
  | _ => ""
  end.

Fixpoint val_of (acc : nat) (l : list bool) : nat :=
  match l with [] => acc | b :: r => val_of (2 * acc + (if b then 1 else 0)) r end.

(** The last [k] bits of [n], most significant first. *)
Fixpoint bits_of_nat (k n : nat) (acc : list bool) : list bool :=
  match k with O => acc | S k' => bits_of_nat k' (Nat.div2 n) (Nat.odd n :: acc) end.

(** An alphabet of digits of [k] bits. *)
Record alphabet := mkAlphabet { a_bits : nat; a_chars : string }.

Definition base64_std : alphabet :=
  mkAlphabet 6 "ABCDEFGHIJKLMNOPQRSTUVWXYZabcdefghijklmnopqrstuvwxyz0123456789+/".
Definition base64_url : alphabet :=
  mkAlphabet 6 "ABCDEFGHIJKLMNOPQRSTUVWXYZabcdefghijklmnopqrstuvwxyz0123456789-_".
Definition base32_std : alphabet := mkAlphabet 5 "ABCDEFGHIJKLMNOPQRSTUVWXYZ234567".
Definition hex_lower : alphabet := mkAlphabet 4 "0123456789abcdef".

Definition digit_char (a : alphabet) (l : list bool) : ascii :=
  default "A"%char (String.get (val_of 0 l) (a_chars a)).

Definition char_digit (a : alphabet) (c : ascii) : option (list bool) :=
  match index_byte c (a_chars a) with
  | Some n => Some (bits_of_nat (a_bits a) n [])
  | None => None
  end.

(** Cut a bit sequence into digits, the last filled with zeros; [acc] holds
    the digit being built. *)
Fixpoint digits_of (k : nat) (acc : list bool) (l : list bool) : list (list bool) :=
  match l with
  | [] => match acc with [] => [] | _ => [acc ++ replicate (k - length acc) false] end
  | b :: r => if (S (length acc) =? k)%nat then (acc ++ [b]) :: digits_of k [] r
              else digits_of k (acc ++ [b]) r
  end.

(** [EncodeToString] without padding. *)
Definition encode_raw (a : alphabet) (s : string) : string :=
  String.string_of_list_ascii (digit_char a <$> digits_of (a_bits a) [] (bits_of s)).

(** [DecodeString] without padding: line breaks are skipped, any other
    character must be a digit, and the digits must not hold a spare one. *)
Definition decode_raw (a : alphabet) (s : string) : result string :=
  let body := filter (λ c, is_crlf c = false) (chars s) in
  match mapM (char_digit a) body with
  | None => Err (ExternalErr "illegal base64 data")
  | Some ds => let bits := mjoin ds in
               if (length bits mod 8 <? a_bits a)%nat then Ok (bytes_of bits)
               else Err (ExternalErr "illegal base64 data")
  end.

Fixpoint repeat_eq (n : nat) : string := match n with O => "" | S n' => String "=" (repeat_eq n') end.

(** Base64 with padding to a multiple of four characters. *)
Definition encode_padded (a : alphabet) (s : string) : string :=
  let e := encode_raw a s in e +:+ repeat_eq ((4 - slen e mod 4) mod 4).

Definition decode_padded (a : alphabet) (s : string) : result string :=
  let body := String.string_of_list_ascii (filter (λ c, is_crlf c = false) (chars s)) in
  let digits := trim_right (λ c, Ascii.eqb c "=") body in
  if String.eqb body (digits +:+ repeat_eq ((4 - slen digits mod 4) mod 4))
  then decode_raw a digits
  else Err (ExternalErr "illegal base64 data").

(** ** Round trip *)

(** Digits read back, for the alphabets in use. *)
Definition readable (a : alphabet) : Prop :=
  (0 < a_bits a ≤ 8)%nat ∧
  ∀ l, length l = a_bits a →
    char_digit a (digit_char a l) = Some l ∧ is_crlf (digit_char a l) = false ∧
    Ascii.eqb (digit_char a l) "=" = false.

Lemma base64_url_readable : readable base64_url.
Proof.
  split; [simpl; lia|]. intros l Hl. simpl in Hl.
  do 6 (destruct l as [|? l]; [discriminate|]). destruct l; [|discriminate].
  repeat match goal with b : bool |- _ => destruct b end; by vm_compute.
Qed.

Lemma base64_std_readable : readable base64_std.
Proof.
  split; [simpl; lia|]. intros l Hl. simpl in Hl.
  do 6 (destruct l as [|? l]; [discriminate|]). destruct l; [|discriminate].
  repeat match goal with b : bool |- _ => destruct b end; by vm_compute.
Qed.

Lemma base32_std_readable : readable base32_std.
Proof.
  split; [simpl; lia|]. intros l Hl. simpl in Hl.
  do 5 (destruct l as [|? l]; [discriminate|]). destruct l; [|discriminate].
  repeat match goal with b : bool |- _ => destruct b end; by vm_compute.
Qed.

Lemma digits_of_join k acc l : (length acc < k)%nat →
  ∃ n, (n < k)%nat ∧ mjoin (digits_of k acc l) = acc ++ l ++ replicate n false.
Proof.
  revert acc. induction l as [|b l IH]; intros acc Ha; cbn [digits_of].
  - destruct acc as [|x acc].
    + exists O. split; [simpl in Ha; lia|done].
    + exists (k - length (x :: acc))%nat. simpl in *. split; [lia|]. by rewrite app_nil_r.
  - destruct (S (length acc) =? k)%nat eqn:E; bprop.
    + destruct (IH []) as (n&Hn&Hj); [simpl; lia|]. exists n. split; [done|].
      change (mjoin (?x :: ?y)) with (x ++ mjoin y). rewrite Hj. by rewrite <-!app_assoc.
    + destruct (IH (acc ++ [b])) as (n&Hn&Hj); [rewrite length_app; simpl; lia|].
      exists n. split; [done|]. rewrite Hj. by rewrite <-!app_assoc.
Qed.

Lemma digits_of_length k acc l : (length acc < k)%nat → Forall (λ d, length d = k) (digits_of k acc l).
Proof.
  revert acc. induction l as [|b l IH]; intros acc Ha; cbn [digits_of].
  - destruct acc as [|x acc]; [constructor|]. repeat constructor.
    rewrite length_app, length_replicate. lia.
  - destruct (S (length acc) =? k)%nat eqn:E; bprop.
    + constructor; [rewrite length_app; simpl; lia|]. apply IH. simpl. lia.
    + apply IH. rewrite length_app. simpl. lia.
Qed.

Lemma bits_of_cons c s : bits_of (String c s) = bits_of_byte c ++ bits_of s.
Proof. unfold bits_of. by rewrite chars_cons, bind_cons. Qed.

Lemma bytes_of_bits s rest : (length rest < 8)%nat → bytes_of (bits_of s ++ rest) = s.
Proof.
  intros Hr. induction s as [|c s IH].
  - simpl. do 8 (destruct rest as [|? rest]; [done|]). simpl in Hr. lia.
  - rewrite bits_of_cons. destruct c. simpl. by rewrite IH.
Qed.

Lemma bits_of_length s : length (bits_of s) = (8 * slen s)%nat.
Proof.
  induction s as [|c s IH]; [done|]. rewrite bits_of_cons, length_app, IH. destruct c. simpl. lia.
Qed.

Lemma encode_chars a s : chars (encode_raw a s) = digit_char a <$> digits_of (a_bits a) [] (bits_of s).
Proof. unfold chars, encode_raw. by rewrite String.list_ascii_of_string_of_list_ascii. Qed.

Lemma decode_encode a s : readable a → decode_raw a (encode_raw a s) = Ok s.
Proof.
  intros [Hk Hd]. unfold decode_raw. rewrite encode_chars.
  pose proof (digits_of_length (a_bits a) [] (bits_of s) ltac:(simpl; lia)) as Hlen.
  destruct (digits_of_join (a_bits a) [] (bits_of s) ltac:(simpl; lia)) as (n&Hn&Hj).
  assert (Hm : ∀ ds, Forall (λ d, length d = a_bits a) ds →
    mapM (char_digit a) (filter (λ c, is_crlf c = false) (digit_char a <$> ds)) = Some ds).
  { induction 1 as [|d ds Hd0 Hds IH]; [done|]. destruct (Hd _ Hd0) as (H1&H2&_).
    rewrite fmap_cons, filter_cons_True by done. simpl. by rewrite H1, IH. }
  rewrite (Hm _ Hlen), Hj, app_nil_l. cbv zeta.
  replace (length (bits_of s ++ replicate n false) mod 8)%nat with (n mod 8)%nat.
  - rewrite Nat.mod_small by lia. rewrite (proj2 (Nat.ltb_lt _ _)) by done.
    rewrite bytes_of_bits; [done|]. rewrite length_replicate. lia.
  - rewrite length_app, length_replicate, bits_of_length.
    rewrite Nat.add_comm, Nat.mul_comm. by rewrite (Nat.mul_comm (slen s)), Nat.mul_comm, Nat.Div0.mod_add.
Qed.

Lemma encode_raw_inj a s t : readable a → encode_raw a s = encode_raw a t → s = t.
Proof.
  intros Ha E. pose proof (decode_encode a s Ha) as H1. rewrite E, decode_encode in H1 by done. by injection H1.
Qed.

Lemma encode_raw_no_eq a s : readable a → ∀ c, c ∈ chars (encode_raw a s) → Ascii.eqb c "=" = false ∧ is_crlf c = false.
Proof.
  intros [Hk Hd] c. rewrite encode_chars. intros (d&->&Hin)%list_elem_of_fmap.
  pose proof (digits_of_length (a_bits a) [] (bits_of s) ltac:(simpl; lia)) as Hlen.
  rewrite Forall_forall in Hlen. by destruct (Hd _ (Hlen _ Hin)) as (_&?&?).
Qed.

Lemma string_chars s : String.string_of_list_ascii (chars s) = s.
Proof. apply String.string_of_list_ascii_of_string. Qed.

Lemma trim_right_eqs n s : (∀ c, c ∈ chars s → Ascii.eqb c "=" = false) →
  trim_right (λ c, Ascii.eqb c "=") (s +:+ repeat_eq n) = s.
Proof.
  intros Hs. rewrite trim_right_app_all; [|induction n; done].
  apply trim_right_none. apply s_forallb_spec. intros c Hc. by rewrite Hs.
Qed.

Lemma filter_all {A} (P : A → Prop) `{∀ x, Decision (P x)} (l : list A) : (∀ x, x ∈ l → P x) → filter P l = l.
Proof.
  induction l as [|x l IH]; [done|]. intros HP. rewrite filter_cons_True by set_solver.
  f_equal. apply IH. set_solver.
Qed.

Lemma decode_encode_padded a s : readable a → decode_padded a (encode_padded a s) = Ok s.
Proof.
  intros Ha. pose proof (encode_raw_no_eq a s Ha) as He. unfold decode_padded, encode_padded.
  rewrite filter_all, string_chars.
  - rewrite trim_right_eqs by (intros c Hc; by apply He). rewrite String.eqb_refl. by apply decode_encode.
  - intros c. rewrite chars_app, elem_of_app. intros [Hc|Hc]; [by apply He|].
    induction ((4 - slen (encode_raw a s) mod 4) mod 4)%nat as [|n IH]; [set_solver|].
    cbn [repeat_eq] in Hc. rewrite chars_cons in Hc. apply elem_of_cons in Hc as [->|Hc]; [done|by apply IH].
Qed.

(** ** [hex.EncodeToString] *)

Definition hex_encode (s : string) : string := encode_raw hex_lower s.

Example hex_ab : hex_encode "k~" = "6b7e".
Proof. by vm_compute. Qed.
Example base64_ex : encode_padded base64_std "Many" = "TWFueQ==" ∧ decode_padded base64_std "TWFueQ==" = Ok "Many".
Proof. by vm_compute. Qed.
Example base32_ex : decode_raw base32_std "MZXW6YTB" = Ok "fooba" ∧ encode_raw base32_std "foob" = "MZXW6YQ".
Proof. by vm_compute. Qed.
