(* ===== verification/GoRunes.v ===== *)
(** * GoRunes: trimming and splitting text that need not be ASCII

    UTF-8 segmentation is compositional at the start of a character: the
    lemmas here carry [strings.TrimSpace] and [strings.Fields] from a text to
    its lines, whatever bytes it holds. *)

From Stdlib Require Import Ascii.
From S2P Require Import Prelude GoStr.

(** A text that does not start inside a character. *)
Definition starts_ok (s : string) : bool := match s with "" => true | String c _ => rune_start c end.

Lemma in_range_spec lo b hi : in_range lo b hi = true ↔ lo ≤ b ≤ hi.
Proof. unfold in_range. rewrite andb_true_iff, !Z.leb_le. done. Qed.

Lemma accept2_cont b0 c : accept2 b0 c = true → is_cont c = true.
Proof.
  unfold accept2, is_cont. rewrite !in_range_spec. unfold accept_lo, accept_hi. repeat case_match; lia.
Qed.

Lemma rune_start_cont c : rune_start c = true → is_cont c = false ∧ ∀ b0, accept2 b0 c = false.
Proof.
  unfold rune_start. intros Hc%negb_true_iff. split; [done|]. intros b0.
  destruct (accept2 b0 c) eqn:E; [|done]. apply accept2_cont in E. congruence.
Qed.

(** The first character of a non-empty text and what follows it. *)
Definition head_rune (c0 : ascii) (s1 : string) : (Z * string) * string :=
  let b0 := byte_of c0 in
  let bad := ((rune_error, String c0 ""), s1) in
  if b0 <? 128 then ((b0, String c0 ""), s1) else
  match s1 with
  | "" => bad
  | String c1 s2 =>
      let b1 := byte_of c1 in
      if in_range 194 b0 223 && accept2 b0 c1 then
        (((b0 - 192) * 64 + (b1 - 128), String c0 (String c1 "")), s2) else
      match s2 with
      | "" => bad
      | String c2 s3 =>
          let b2 := byte_of c2 in
          if in_range 224 b0 239 && accept2 b0 c1 && is_cont c2 then
            (((b0 - 224) * 4096 + (b1 - 128) * 64 + (b2 - 128), String c0 (String c1 (String c2 ""))), s3) else
          match s3 with
          | "" => bad
          | String c3 s4 =>
              let b3 := byte_of c3 in
              if in_range 240 b0 244 && accept2 b0 c1 && is_cont c2 && is_cont c3 then
                (((b0 - 240) * 262144 + (b1 - 128) * 4096 + (b2 - 128) * 64 + (b3 - 128),
                  String c0 (String c1 (String c2 (String c3 "")))), s4)
              else bad
          end
      end
  end.

Lemma runes_step c0 s1 : runes (String c0 s1) = (head_rune c0 s1).1 :: runes (head_rune c0 s1).2.
Proof. unfold head_rune. cbn [runes]. by repeat case_match. Qed.

Lemma head_rune_text c0 s1 : String c0 s1 = (head_rune c0 s1).1.2 +:+ (head_rune c0 s1).2.
Proof. unfold head_rune. repeat case_match; cbn [fst snd]; by sapp. Qed.

Lemma head_rune_shorter c0 s1 : (slen (head_rune c0 s1).2 ≤ slen s1)%nat.
Proof. unfold head_rune. repeat case_match; cbn [snd String.length]; lia. Qed.

Lemma head_rune_app c0 s1 b : starts_ok b = true →
  head_rune c0 (s1 +:+ b) = ((head_rune c0 s1).1, (head_rune c0 s1).2 +:+ b).
Proof.
  intros Hb. unfold head_rune. destruct (byte_of c0 <? 128); [done|].
  assert (Hd : ∀ d b', b = String d b' → is_cont d = false ∧ ∀ b0, accept2 b0 d = false).
  { intros d b' ->. by apply rune_start_cont. }
  destruct s1 as [|c1 s2]; sapp.
  { destruct b as [|d b]; [done|]. destruct (Hd d b eq_refl) as [_ H2]. rewrite H2, !andb_false_r. cbn [andb].
    repeat case_match; done. }
  destruct (in_range 194 (byte_of c0) 223 && accept2 (byte_of c0) c1); [done|].
  destruct s2 as [|c2 s3]; sapp.
  { destruct b as [|d b]; [done|]. destruct (Hd d b eq_refl) as [H1 _]. rewrite H1, !andb_false_r. cbn [andb].
    repeat case_match; done. }
  destruct (in_range 224 (byte_of c0) 239 && accept2 (byte_of c0) c1 && is_cont c2); [done|].
  destruct s3 as [|c3 s4]; sapp.
  { destruct b as [|d b]; [done|]. destruct (Hd d b eq_refl) as [H1 _]. by rewrite H1, !andb_false_r. }
  by repeat case_match.
Qed.

(** Segmentation of a text before a character boundary. *)
Lemma runes_app a b : starts_ok b = true → runes (a +:+ b) = runes a ++ runes b.
Proof.
  intros Hb. assert (∀ n a, (slen a < n)%nat → runes (a +:+ b) = runes a ++ runes b) as Hn; [|apply (Hn (S (slen a))); lia].
  clear a. induction n as [|n IH]; intros a Ha; [lia|]. destruct a as [|c0 a1]; [done|]. sapp.
  rewrite !runes_step, head_rune_app by done. cbn [fst snd]. rewrite IH; [done|].
  pose proof (head_rune_shorter c0 a1). simpl in Ha. lia.
Qed.

Lemma runes_uncons s p rs : runes s = p :: rs → ∃ c0 s1, s = String c0 s1 ∧ p = (head_rune c0 s1).1 ∧ rs = runes (head_rune c0 s1).2.
Proof. destruct s as [|c0 s1]; [done|]. rewrite runes_step. intros [= <- <-]. eauto. Qed.

Lemma runes_drop s k : runes (bytes_of_runes (drop k (runes s))) = drop k (runes s).
Proof.
  revert s. induction k as [|k IH]; intros s; [rewrite drop_0; by rewrite bytes_of_runes_runes|].
  destruct (runes s) as [|p rs] eqn:E; [done|]. apply runes_uncons in E as (c0&s1&->&_&->). apply IH.
Qed.

(** A character stands for itself. *)
Lemma head_rune_self c0 s1 : runes (head_rune c0 s1).1.2 = [(head_rune c0 s1).1].
Proof.
  unfold head_rune. repeat case_match; cbn [fst snd]; rewrite runes_step; unfold head_rune;
    repeat (match goal with H : ?b = _ |- context [if ?b then _ else _] => rewrite H end); done.
Qed.

(** A character other than an invalid byte starts a character. *)
Lemma head_rune_start c0 s1 : (head_rune c0 s1).1.1 ≠ rune_error → rune_start c0 = true.
Proof.
  intros Hr. unfold rune_start, is_cont.
  apply negb_true_iff, not_true_iff_false. rewrite in_range_spec. intros [Hlo Hhi]. apply Hr.
  unfold head_rune. destruct (Z.ltb_spec (byte_of c0) 128); [lia|].
  assert (in_range 194 (byte_of c0) 223 = false ∧ in_range 224 (byte_of c0) 239 = false ∧ in_range 240 (byte_of c0) 244 = false)
    as (->&->&->) by (split_and!; apply not_true_iff_false; rewrite in_range_spec; lia).
  simpl. by repeat case_match.
Qed.

Lemma head_rune_nonempty c0 s1 : ∃ s, (head_rune c0 s1).1.2 = String c0 s.
Proof. unfold head_rune. repeat case_match; cbn [fst snd]; eauto. Qed.

(** ** Trimming *)

Definition all_space (rs : list (Z * string)) : Prop := Forall (λ p, space_chunk p = true) rs.

(** A run of valid characters taken out of a text reads the same. *)
Lemma runes_spaces l rs s : runes s = l ++ rs → all_space l →
  runes (bytes_of_runes l) = l ∧ starts_ok (bytes_of_runes l) = true.
Proof.
  intros E Hl. revert s E. induction Hl as [|p l Hp Hl IH]; intros s E; [done|].
  apply runes_uncons in E as (c0&s1&->&->&E). symmetry in E. destruct (IH _ E) as [Hr Hs].
  destruct (head_rune_nonempty c0 s1) as [x Hx]. pose proof (head_rune_self c0 s1) as Hself.
  assert (Hstart : rune_start c0 = true).
  { apply (head_rune_start c0 s1). intros Herr. unfold space_chunk in Hp. by rewrite Herr in Hp. }
  destruct (head_rune c0 s1).1 as [r y]. cbn [snd] in *. subst y.
  rewrite bytes_of_runes_cons. split; [|by sapp]. by rewrite runes_app, Hself, Hr.
Qed.

Lemma drop_while_split {A} (f : A → bool) l :
  ∃ k, l = k ++ drop_while f l ∧ Forall (λ x, f x = true) k ∧ drop_while f l = drop (length k) l.
Proof.
  induction l as [|x l (k&E&Hk&Ed)]; simpl; [by exists []|].
  destruct (f x) eqn:F; [|by exists []]. exists (x :: k). simpl. rewrite <-E, <-Ed. split_and!; [done|by constructor|done].
Qed.

(** A text is its trimmed self between white space, character by character. *)
Lemma trim_space_split s : ∃ a b, s = a +:+ trim_space s +:+ b ∧
  runes s = runes a ++ runes (trim_space s) ++ runes b ∧ all_space (runes a) ∧ all_space (runes b).
Proof.
  unfold trim_space. destruct (drop_while_split space_chunk (runes s)) as (pre&E1&Hpre&Ed).
  set (m := drop_while space_chunk (runes s)) in *.
  destruct (drop_while_split space_chunk (reverse m)) as (post&E2&Hpost&_).
  set (mid := drop_while_end space_chunk m).
  assert (Em : m = mid ++ reverse post).
  { unfold mid, drop_while_end. rewrite <-(reverse_involutive m), E2 at 1. by rewrite reverse_app. }
  assert (Hm : runes (bytes_of_runes m) = m) by (rewrite Ed; apply runes_drop).
  assert (Hpost' : all_space (reverse post)) by by apply Forall_reverse.
  assert (Hdrop : runes (bytes_of_runes (reverse post)) = reverse post).
  { pose proof (runes_drop (bytes_of_runes m) (length mid)) as Hd. rewrite Hm, Em, drop_app_length in Hd. done. }
  destruct (runes_spaces (reverse post) [] (bytes_of_runes (reverse post))) as [_ Hbs]; [by rewrite app_nil_r|done|].
  destruct (runes_spaces pre m s E1 Hpre) as [Hpre' _].
  assert (Hmid : runes (bytes_of_runes mid) = mid).
  { assert (runes (bytes_of_runes mid +:+ bytes_of_runes (reverse post)) = mid ++ reverse post) as Hq.
    { rewrite <-Em, <-Hm at 1. f_equal. rewrite Em. unfold bytes_of_runes. by rewrite fmap_app, concat_s_app. }
    rewrite runes_app, Hdrop in Hq by done. by apply app_inv_tail in Hq. }
  exists (bytes_of_runes pre), (bytes_of_runes (reverse post)). rewrite Hpre', Hmid, Hdrop, <-Em.
  split_and!; [|done|done|done].
  rewrite <-(bytes_of_runes_runes s), E1, Em at 1. unfold bytes_of_runes. by rewrite !fmap_app, !concat_s_app.
Qed.

(** ** Fields *)

Lemma fields_go_spaces cur rs rs' : all_space rs → fields_go None (rs ++ rs') = fields_go None rs' ∧
  (rs ≠ [] → fields_go cur (rs ++ rs') = option_list cur ++ fields_go None rs').
Proof.
  intros H. revert cur. induction H as [|[r x] rs Hx _ IH]; intros cur; [done|].
  unfold space_chunk in Hx. simpl in Hx. simpl. rewrite Hx. destruct (IH None) as [-> _]. split; [done|]. intros _. done.
Qed.

Lemma fields_go_tail cur rs sp : all_space sp → fields_go cur (rs ++ sp) = fields_go cur rs.
Proof.
  intros Hsp. revert cur. induction rs as [|[r x] rs IH]; intros cur.
  - simpl. destruct sp as [|p sp]; [done|]. rewrite <-(app_nil_r (p :: sp)).
    destruct (fields_go_spaces cur (p :: sp) [] Hsp) as [_ ->]; [|done]. by rewrite app_nil_r.
  - simpl. destruct (is_space_rune r); by rewrite IH.
Qed.

(** ** Lines *)

Definition lf_chunk (p : Z * string) : bool := p.1 =? 10.

(** The lines of a text, as characters. *)
Fixpoint rsplit (rs : list (Z * string)) : list (list (Z * string)) :=
  match rs with
  | [] => [[]]
  | p :: r => if lf_chunk p then [] :: rsplit r
              else match rsplit r with [] => [[p]] | h :: t => (p :: h) :: t end
  end.

Lemma rsplit_ne rs : rsplit rs ≠ [].
Proof. destruct rs; simpl; [done|]. by repeat case_match. Qed.

Lemma rsplit_none rs : Forall (λ p, lf_chunk p = false) rs → rsplit rs = [rs].
Proof. induction 1 as [|p rs Hp _ IH]; simpl; [done|]. by rewrite Hp, IH. Qed.

Lemma rsplit_cut rs p rs' : Forall (λ p, lf_chunk p = false) rs → lf_chunk p = true →
  rsplit (rs ++ p :: rs') = rs :: rsplit rs'.
Proof. induction 1 as [|q rs Hq _ IH]; simpl; intros Hp; [by rewrite Hp|]. by rewrite Hq, IH. Qed.

Lemma head_rune_lf c0 s1 : (head_rune c0 s1).1.1 = 10 → c0 = LF.
Proof.
  unfold head_rune. destruct (Z.ltb_spec (byte_of c0) 128).
  - simpl. intros E. unfold byte_of in E. assert (N_of_ascii c0 = 10%N) as E' by lia.
    apply (f_equal ascii_of_N) in E'. by rewrite ascii_N_embedding in E'.
  - assert (Hneg : ∀ z, 128 ≤ z → z ≠ 10) by lia. intros E. exfalso. revert E.
    repeat case_match; cbn [fst]; try done; unfold accept2, is_cont in *; rewrite ?andb_true_iff, ?in_range_spec in *;
      intros E; unfold accept_lo, accept_hi in *; repeat case_match; lia.
Qed.

Lemma no_lf_runes s : no_char LF s = true → Forall (λ p, lf_chunk p = false) (runes s).
Proof.
  assert (∀ n s, (slen s < n)%nat → no_char LF s = true → Forall (λ p, lf_chunk p = false) (runes s)) as Hn;
    [|apply (Hn (S (slen s))); lia].
  clear s. induction n as [|n IH]; intros s Hs; [lia|]. destruct s as [|c0 s1]; [constructor|].
  intros Hno. rewrite runes_step. constructor.
  - unfold lf_chunk. apply Z.eqb_neq. intros ->%head_rune_lf. by rewrite no_char_cons in Hno.
  - apply IH; [pose proof (head_rune_shorter c0 s1); simpl in Hs; lia|].
    rewrite (head_rune_text c0 s1), no_char_app in Hno. by apply andb_true_iff in Hno as [_ ?].
Qed.

Lemma rsplit_split s : runes <$> split LF s = rsplit (runes s).
Proof.
  assert (∀ n s, (slen s < n)%nat → runes <$> split LF s = rsplit (runes s)) as Hn; [|apply (Hn (S (slen s))); lia].
  clear s. induction n as [|n IH]; intros s Hs; [lia|].
  destruct (no_char LF s) eqn:Hno.
  - rewrite split_no_char, rsplit_none by (done || by apply no_lf_runes). done.
  - assert (∃ a b, s = a +:+ String LF b ∧ no_char LF a = true) as (a&b&->&Ha).
    { clear -Hno. induction s as [|c s IH]; [done|]. rewrite no_char_cons in Hno.
      destruct (Ascii.eqb_spec c LF) as [->|Hc]; [by exists "", s|]. destruct (IH Hno) as (a&b&->&Ha).
      exists (String c a), b. sapp. split; [done|]. rewrite no_char_cons, Ha. apply andb_true_iff. split; [|done].
      apply negb_true_iff. by apply Ascii.eqb_neq. }
    rewrite split_app by done. rewrite runes_app, runes_step by done. change (head_rune LF b) with ((10, nl), b).
    rewrite rsplit_cut by (done || by apply no_lf_runes). rewrite fmap_cons, IH; [done|].
    rewrite s_length_app in Hs. simpl in Hs. lia.
Qed.

(** White space added before or after a text only adds white space to its lines. *)
Lemma rsplit_before a rs l : all_space a → l ∈ rsplit rs → ∃ sa, all_space sa ∧ sa ++ l ∈ rsplit (a ++ rs).
Proof.
  induction 1 as [|p a Hp Ha IH]; intros Hl; [exists []; split; [constructor|done]|].
  destruct (IH Hl) as (sa&Hsa&Hin). cbn [app rsplit]. destruct (lf_chunk p); [exists sa; split; [done|by right]|].
  destruct (rsplit (a ++ rs)) as [|h t]; [by apply not_elem_of_nil in Hin|]. apply elem_of_cons in Hin as [<-|Hin].
  - exists (p :: sa). split; [by constructor|by left].
  - exists sa. split; [done|by right].
Qed.

Lemma rsplit_after rs b : all_space b → ∃ sb, all_space sb ∧
  head (rsplit (rs ++ b)) = (λ h, h ++ sb) <$> head (rsplit rs) ∧
  ∀ l, l ∈ tail (rsplit rs) → ∃ sb', all_space sb' ∧ l ++ sb' ∈ tail (rsplit (rs ++ b)).
Proof.
  intros Hb. induction rs as [|p rs (sb&Hsb&Hh&Ht)]; cbn [app].
  - assert (Hsp : ∀ b, all_space b → ∃ sb, all_space sb ∧ head (rsplit b) = Some sb).
    { clear. induction 1 as [|q b Hq Hb (sb&Hsb&IH)]; [exists []; split; [constructor|done]|]. simpl. destruct (lf_chunk q); [exists []; split; [constructor|done]|].
      destruct (rsplit b) as [|h t]; [done|]. injection IH as ->. exists (q :: sb). split; [by constructor|done]. }
    destruct (Hsp b Hb) as (sb&Hsb&E). exists sb. split; [done|]. simpl. rewrite E. split; [done|set_solver].
  - cbn [rsplit]. destruct (lf_chunk p).
    + exists []. split; [constructor|]. split; [done|]. simpl. intros l Hl.
      destruct (rsplit rs) as [|h t]; [by apply not_elem_of_nil in Hl|].
      destruct (rsplit (rs ++ b)) as [|h' t'] eqn:E; [by apply rsplit_ne in E|]. simpl in Hh, Ht. injection Hh as ->.
      apply elem_of_cons in Hl as [->|Hl]; [exists sb; split; [done|by left]|].
      destruct (Ht l Hl) as (sb'&?&?). exists sb'. split; [done|by right].
    + destruct (rsplit rs) as [|h t] eqn:E1; [by apply rsplit_ne in E1|].
      destruct (rsplit (rs ++ b)) as [|h' t'] eqn:E; [by apply rsplit_ne in E|]. simpl in Hh, Ht. injection Hh as ->.
      exists sb. split; [done|]. split; [done|]. done.
Qed.

Lemma rsplit_within a rs b l : all_space a → all_space b → l ∈ rsplit rs →
  ∃ sa sb, all_space sa ∧ all_space sb ∧ sa ++ l ++ sb ∈ rsplit (a ++ rs ++ b).
Proof.
  intros Ha Hb Hl. destruct (rsplit_after rs b Hb) as (sb&Hsb&Hh&Ht).
  assert (∃ sb', all_space sb' ∧ l ++ sb' ∈ rsplit (rs ++ b)) as (sb'&Hsb'&Hin).
  { destruct (rsplit rs) as [|h t]; [by apply not_elem_of_nil in Hl|].
    destruct (rsplit (rs ++ b)) as [|h' t']; [done|]. simpl in Hh, Ht. injection Hh as ->.
    apply elem_of_cons in Hl as [->|Hl]; [exists sb; split; [done|by left]|].
    destruct (Ht l Hl) as (x&?&?). exists x. split; [done|by right]. }
  destruct (rsplit_before a _ _ Ha Hin) as (sa&Hsa&Hin'). exists sa, sb'. done.
Qed.

(** Each line of a trimmed text has the fields of a line of the text. *)
Lemma trim_lines s l : l ∈ split LF (trim_space s) → ∃ l', l' ∈ split LF s ∧ fields l' = fields l.
Proof.
  intros Hl. destruct (trim_space_split s) as (a&b&_&Er&Ha&Hb).
  assert (Hin : runes l ∈ rsplit (runes (trim_space s))) by (rewrite <-rsplit_split; by apply list_elem_of_fmap_2).
  destruct (rsplit_within _ _ _ _ Ha Hb Hin) as (sa&sb&Hsa&Hsb&H). rewrite <-Er, <-rsplit_split in H.
  apply list_elem_of_fmap in H as (l'&E&Hl'). exists l'. split; [done|]. unfold fields. rewrite <-E.
  destruct (fields_go_spaces None sa (runes l ++ sb) Hsa) as [-> _]. by apply fields_go_tail.
Qed.

(** ** Valid UTF-8 *)

(** [utf8.ValidString]: no byte is read as an error. *)
Definition rune_ok (p : Z * string) : bool := negb ((p.1 =? rune_error) && (slen p.2 =? 1)%nat).
Definition valid_utf8 (s : string) : bool := forallb rune_ok (runes s).

(** The character [c0] starts spans at most four bytes, and is a byte of its
    own when it does not start one. *)
Lemma head_rune_span c0 s1 : (1 ≤ slen (head_rune c0 s1).1.2 ≤ 4)%nat ∧
  (rune_ok (head_rune c0 s1).1 = true → rune_start c0 = true).
Proof.
  split; [unfold head_rune; repeat case_match; cbn [fst snd String.length]; lia|].
  intros Hok. destruct (decide ((head_rune c0 s1).1.1 = rune_error)) as [E|E]; [|by eapply head_rune_start].
  unfold rune_ok in Hok. rewrite E, Z.eqb_refl in Hok. cbn [andb] in Hok.
  unfold rune_start, is_cont. apply negb_true_iff, not_true_iff_false. rewrite in_range_spec. intros [Hlo Hhi].
  revert Hok. unfold head_rune. destruct (Z.ltb_spec (byte_of c0) 128); [lia|].
  assert (in_range 194 (byte_of c0) 223 = false ∧ in_range 224 (byte_of c0) 239 = false ∧ in_range 240 (byte_of c0) 244 = false)
    as (->&->&->) by (split_and!; apply not_true_iff_false; rewrite in_range_spec; lia).
  cbn [andb]. by repeat case_match.
Qed.

Lemma valid_utf8_app a b : starts_ok b = true → valid_utf8 (a +:+ b) = valid_utf8 a && valid_utf8 b.
Proof. intros Hb. unfold valid_utf8. by rewrite runes_app, forallb_app. Qed.

Lemma valid_utf8_starts s : valid_utf8 s = true → starts_ok s = true.
Proof.
  destruct s as [|c s]; [done|]. unfold valid_utf8. rewrite runes_step. cbn [forallb]. intros [H _]%andb_true_iff.
  by apply (head_rune_span c s).
Qed.

(** Going back at most three bytes finds the start of a character. *)
Lemma valid_utf8_paced s : valid_utf8 s = true → ∀ n, (n < slen s)%nat →
  ∃ k c, (k ≤ 3)%nat ∧ (k ≤ n)%nat ∧ s_get (n - k) s = Some c ∧ rune_start c = true.
Proof.
  assert (∀ m s, (slen s < m)%nat → valid_utf8 s = true → ∀ n, (n < slen s)%nat →
    ∃ k c, (k ≤ 3)%nat ∧ (k ≤ n)%nat ∧ s_get (n - k) s = Some c ∧ rune_start c = true) as Hm; [|eauto].
  clear s. induction m as [|m IH]; intros s Hl Hv n Hn; [lia|].
  destruct s as [|c0 s1]; [simpl in Hn; lia|]. pose proof Hv as Hs%valid_utf8_starts.
  unfold valid_utf8 in Hv. rewrite runes_step in Hv. cbn [forallb] in Hv. apply andb_true_iff in Hv as [_ Hv].
  destruct (head_rune_span c0 s1) as [Hsp _]. pose proof (head_rune_text c0 s1) as Ht.
  pose proof (head_rune_shorter c0 s1) as Hsh. set (a := (head_rune c0 s1).1.2) in *. set (b := (head_rune c0 s1).2) in *.
  destruct (decide (n < slen a)%nat) as [Hna|Hna].
  - exists n, c0. rewrite Nat.sub_diag. split_and!; [lia|lia|done|done].
  - assert (Hlen : slen (String c0 s1) = (slen a + slen b)%nat) by by rewrite Ht, s_length_app.
    destruct (IH b ltac:(simpl in Hl; lia) Hv (n - slen a)%nat ltac:(lia)) as (k&c&Hk&Hk'&Hg&Hc).
    exists k, c. split_and!; [lia|lia| |done]. rewrite Ht. unfold s_get. rewrite chars_app, lookup_app_r by (rewrite length_chars; lia).
    rewrite length_chars. replace (n - k - slen a)%nat with (n - slen a - k)%nat by lia. done.
Qed.
