(* ===== verification/GoFs.v ===== *)
(** * GoFs: files

    A file system as a map from paths to contents, with the faults the coming
    operations meet. A failing write may leave any prefix of its data behind;
    every other failing operation changes nothing. *)

From Stdlib Require Import Ascii.
From S2P Require Import Prelude GoStr.

(** [None]: the operation works. [Some (e, None)]: it fails before touching
    the file; [Some (e, Some k)]: a write fails after [k] bytes. *)
Definition fault : Type := option (goerr * option nat).

Record Fs := mkFs { files : gmap string string; io : list fault }.

Definition F (A : Type) : Type := Fs → Fs * result A.

#[export] Instance F_ret : MRet F := λ _ a s, (s, Ok a).
#[export] Instance F_bind : MBind F := λ _ _ f m s,
  match m s with (s', Ok a) => f a s' | (s', Err e) => (s', Err e) end.

Definition f_fail {A} (e : goerr) : F A := λ s, (s, Err e).
Definition not_exist : goerr := ExternalErr "file does not exist".

Definition is_not_exist (e : goerr) : bool :=
  match e with ExternalErr w => String.eqb w "file does not exist" | _ => false end.

Definition next_fault (s : Fs) : fault := default None (head (io s)).
Definition after (s : Fs) (m : gmap string string) : Fs := mkFs m (tail (io s)).

(** [os.WriteFile]. *)
Definition WriteFile (path data : string) : F unit := λ s,
  match next_fault s with
  | None => (after s (<[path := data]> (files s)), Ok tt)
  | Some (e, None) => (after s (files s), Err e)
  | Some (e, Some k) => (after s (<[path := s_take k data]> (files s)), Err e)
  end.

(** [os.ReadFile]. *)
Definition ReadFile (path : string) : F string := λ s,
  match next_fault s with
  | Some (e, _) => (after s (files s), Err e)
  | None => (after s (files s), match files s !! path with Some d => Ok d | None => Err not_exist end)
  end.

(** [os.Rename] of a file onto another name, which it replaces. *)
Definition Rename (old new : string) : F unit := λ s,
  match next_fault s with
  | Some (e, _) => (after s (files s), Err e)
  | None => match files s !! old with
            | Some d => (after s (<[new := d]> (delete old (files s))), Ok tt)
            | None => (after s (files s), Err not_exist)
            end
  end.

(** [os.Remove]. *)
Definition Remove (path : string) : F unit := λ s,
  match next_fault s with
  | Some (e, _) => (after s (files s), Err e)
  | None => match files s !! path with
            | Some _ => (after s (delete path (files s)), Ok tt)
            | None => (after s (files s), Err not_exist)
            end
  end.

(** [os.Truncate] to nothing. *)
Definition Truncate (path : string) : F unit := λ s,
  match next_fault s with
  | Some (e, _) => (after s (files s), Err e)
  | None => match files s !! path with
            | Some _ => (after s (<[path := ""]> (files s)), Ok tt)
            | None => (after s (files s), Err not_exist)
            end
  end.

(** [os.Stat]: whether the file is there. *)
Definition Exists (path : string) : F bool := λ s,
  match next_fault s with
  | Some (e, _) => (after s (files s), Err e)
  | None => (after s (files s), Ok (bool_decide (is_Some (files s !! path))))
  end.

(** [os.OpenFile] with O_CREATE and O_EXCL: a new, empty file. *)
Definition CreateExcl (path : string) : F unit := λ s,
  match next_fault s with
  | Some (e, _) => (after s (files s), Err e)
  | None => match files s !! path with
            | Some _ => (after s (files s), Err (ExternalErr "file exists"))
            | None => (after s (<[path := ""]> (files s)), Ok tt)
            end
  end.

(** [f.Sync], [f.Close]. *)
Definition Sync : F unit := λ s,
  match next_fault s with Some (e, _) => (after s (files s), Err e) | None => (after s (files s), Ok tt) end.

(** A call whose error is dropped. *)
Definition f_ignore {A} (m : F A) : F unit := λ s, ((m s).1, Ok tt).

(** [filepath.Dir] of a path with a slash, and [filepath.Join] of two plain parts. *)
Definition dir_of (path : string) : string :=
  match last_index_byte "/" path with
  | Some O => "/"
  | Some i => s_take i path
  | None => "."
  end.
Definition join_path (dir name : string) : string :=
  if String.eqb dir "/" then "/" +:+ name else if String.eqb dir "." then name else dir +:+ "/" +:+ name.

Lemma join_path_app dir a b : join_path dir (a +:+ b) = join_path dir a +:+ b.
Proof.
  unfold join_path. destruct (String.eqb dir "/"); [by rewrite s_app_assoc|].
  destruct (String.eqb dir "."); [done|]. by rewrite !s_app_assoc.
Qed.
Lemma s_app_inj a x y : a +:+ x = a +:+ y → x = y.
Proof. induction a; sapp; [done|]. intros [=]. auto. Qed.
Lemma join_path_inj dir a b : join_path dir a = join_path dir b → a = b.
Proof.
  unfold join_path. destruct (String.eqb dir "/"); [apply s_app_inj|]. destruct (String.eqb dir "."); [done|].
  intros E%s_app_inj%s_app_inj. done.
Qed.

(** [filepath.Base] of a path that does not end in a slash. *)
Definition base_name (path : string) : string :=
  match last_index_byte "/" path with Some i => s_drop (S i) path | None => path end.

(** The order [sort.Strings] sorts by: bytes. *)
Fixpoint s_leb (a b : string) : bool :=
  match a, b with
  | "", _ => true
  | _, "" => false
  | String c a', String d b' => (byte_of c <? byte_of d) || ((byte_of c =? byte_of d) && s_leb a' b')
  end.
Definition s_le (a b : string) : Prop := s_leb a b = true.
#[export] Instance s_le_dec : RelDecision s_le := λ a b, decide (s_leb a b = true).

Lemma s_leb_total a b : s_leb a b = false → s_leb b a = true.
Proof.
  revert b. induction a as [|c a IH]; intros [|d b]; cbn; try done. intros [Hlt Heq]%orb_false_iff. apply orb_true_iff.
  destruct (Z.ltb_spec (byte_of d) (byte_of c)); [by left|right]. apply Z.ltb_ge in Hlt.
  assert (byte_of c = byte_of d) as E by lia. rewrite E, Z.eqb_refl in Heq |- *. by apply IH.
Qed.
Lemma s_leb_trans a b c : s_leb a b = true → s_leb b c = true → s_leb a c = true.
Proof.
  revert b c. induction a as [|x a IH]; intros [|y b] [|z c]; cbn; try done.
  intros [H1|[E1 H1]%andb_true_iff]%orb_true_iff [H2|[E2 H2]%andb_true_iff]%orb_true_iff; apply orb_true_iff;
    rewrite ?Z.ltb_lt, ?Z.eqb_eq in *; [left; lia..|]. right. apply andb_true_iff. split; [apply Z.eqb_eq; lia|by apply (IH b)].
Qed.

(** No coming operation fails. *)
Definition sound (s : Fs) : Prop := Forall (λ f, f = None) (io s).

Lemma sound_next s m : sound s → next_fault s = None ∧ sound (after s m).
Proof.
  unfold sound, next_fault, after. simpl. destruct (io s) as [|f l]; simpl; [done|].
  intros Hf. split; [by inversion Hf|by apply Forall_inv_tail in Hf].
Qed.

Lemma f_bind_run {A B} (m : F A) (f : A → F B) s s' r : mbind f m s = (s', r) →
  (∃ s1 a, m s = (s1, Ok a) ∧ f a s1 = (s', r)) ∨ (∃ e, m s = (s', Err e) ∧ r = Err e).
Proof. unfold mbind, F_bind. destruct (m s) as [s1 [a|e]]; [eauto|]. intros [= <- <-]. eauto. Qed.

Lemma WriteFile_run path data s s' r : WriteFile path data s = (s', r) →
  (∀ p, p ≠ path → files s' !! p = files s !! p) ∧
  match r with Ok _ => files s' = <[path := data]> (files s) | Err _ => next_fault s ≠ None end.
Proof.
  unfold WriteFile. destruct (next_fault s) as [[e [k|]]|]; intros [= <- <-]; simpl;
    (split; [|done]); intros p Hp; by rewrite ?lookup_insert_ne.
Qed.

Lemma Rename_run old new s s' r : Rename old new s = (s', r) →
  match r with
  | Ok _ => ∃ d, files s !! old = Some d ∧ files s' = <[new := d]> (delete old (files s))
  | Err _ => files s' = files s ∧ (next_fault s ≠ None ∨ files s !! old = None)
  end.
Proof.
  unfold Rename. destruct (next_fault s) as [[e k]|]; [by intros [= <- <-]; auto|].
  destruct (files s !! old) as [d|] eqn:E; intros [= <- <-]; simpl; eauto.
Qed.

(** ** A host whose disk does not fail *)

Lemma ReadFile_sound path s d : sound s → files s !! path = Some d →
  ReadFile path s = (after s (files s), Ok d) ∧ sound (after s (files s)).
Proof. intros Hs Hd. destruct (sound_next s (files s) Hs) as [N H']. unfold ReadFile. by rewrite N, Hd. Qed.

Lemma WriteFile_sound path data s : sound s →
  WriteFile path data s = (after s (<[path := data]> (files s)), Ok tt) ∧ sound (after s (<[path := data]> (files s))).
Proof. intros Hs. destruct (sound_next s (<[path := data]> (files s)) Hs) as [N H']. unfold WriteFile. by rewrite N. Qed.

Lemma Remove_sound path s : sound s →
  ∃ s' r, Remove path s = (s', r) ∧ sound s' ∧ files s' = delete path (files s).
Proof.
  intros Hs. unfold Remove. destruct (sound_next s (files s) Hs) as [N Ha]. rewrite N.
  destruct (files s !! path) as [d|] eqn:E; eexists _, _; (split; [reflexivity|]); simpl.
  - by destruct (sound_next s (delete path (files s)) Hs).
  - split; [done|]. by rewrite delete_id.
Qed.

Lemma CreateExcl_sound path s : sound s → files s !! path = None →
  CreateExcl path s = (after s (<[path := ""]> (files s)), Ok tt) ∧ sound (after s (<[path := ""]> (files s))).
Proof.
  intros Hs E. destruct (sound_next s (<[path := ""]> (files s)) Hs) as [N H']. unfold CreateExcl. by rewrite N, E.
Qed.

Lemma Rename_sound old new d s : sound s → files s !! old = Some d →
  ∃ s', Rename old new s = (s', Ok tt) ∧ sound s' ∧ files s' = <[new := d]> (delete old (files s)).
Proof.
  intros Hs E. destruct (sound_next s (<[new := d]> (delete old (files s))) Hs) as [N H']. unfold Rename.
  rewrite N, E. eauto.
Qed.

Lemma Sync_sound s : sound s → Sync s = (after s (files s), Ok tt) ∧ sound (after s (files s)).
Proof. intros Hs. destruct (sound_next s (files s) Hs) as [N H']. unfold Sync. by rewrite N. Qed.

(** A computation that leaves every file outside a set of paths alone. *)
Definition only {A} (P : string → Prop) (m : F A) : Prop :=
  ∀ s p, ¬ P p → files (m s).1 !! p = files s !! p.

Lemma only_bind {A B} P (m : F A) (f : A → F B) : only P m → (∀ a, only P (f a)) → only P (mbind f m).
Proof.
  intros Hm Hf s p Hp. unfold mbind, F_bind. specialize (Hm s p Hp). destruct (m s) as [s1 [a|e]]; [|done].
  simpl in *. by rewrite (Hf a s1 p Hp).
Qed.

Lemma only_ignore {A} P (m : F A) : only P m → only P (f_ignore m).
Proof. intros Hm s p Hp. by apply Hm. Qed.

Lemma only_WriteFile (P : string → Prop) path data : P path → only P (WriteFile path data).
Proof.
  intros Hpath s p Hp. assert (path ≠ p) by (intros ->; done). unfold WriteFile.
  destruct (next_fault s) as [[e [k|]]|]; simpl; by rewrite ?lookup_insert_ne.
Qed.

Lemma only_Remove (P : string → Prop) path : P path → only P (Remove path).
Proof.
  intros Hpath s p Hp. assert (path ≠ p) by (intros ->; done). unfold Remove.
  destruct (next_fault s) as [[e k]|]; [done|]. destruct (files s !! path); simpl; by rewrite ?lookup_delete_ne.
Qed.

Lemma only_CreateExcl (P : string → Prop) path : P path → only P (CreateExcl path).
Proof.
  intros Hpath s p Hp. assert (path ≠ p) by (intros ->; done). unfold CreateExcl.
  destruct (next_fault s) as [[e k]|]; [done|]. destruct (files s !! path); simpl; by rewrite ?lookup_insert_ne.
Qed.

Lemma only_Rename (P : string → Prop) old new : P old → P new → only P (Rename old new).
Proof.
  intros Ho Hn s p Hp. assert (old ≠ p ∧ new ≠ p) as [? ?] by (split; intros ->; done). unfold Rename.
  destruct (next_fault s) as [[e k]|]; [done|].
  destruct (files s !! old); simpl; by rewrite ?lookup_insert_ne, ?lookup_delete_ne.
Qed.

Lemma only_Truncate (P : string → Prop) path : P path → only P (Truncate path).
Proof.
  intros Hpath s p Hp. assert (path ≠ p) by (intros ->; done). unfold Truncate.
  destruct (next_fault s) as [[e k]|]; [done|]. destruct (files s !! path); simpl; by rewrite ?lookup_insert_ne.
Qed.

Lemma only_Sync P : only P Sync.
Proof. intros s p Hp. unfold Sync. by destruct (next_fault s) as [[e k]|]. Qed.

Lemma only_ReadFile P path : only P (ReadFile path).
Proof. intros s p Hp. unfold ReadFile. by destruct (next_fault s) as [[e k]|]. Qed.

Lemma only_Exists P path : only P (Exists path).
Proof. intros s p Hp. unfold Exists. by destruct (next_fault s) as [[e k]|]. Qed.

Lemma only_ret {A} P (a : A) : only P (mret a).
Proof. done. Qed.

Lemma only_fail {A} P e : only (A:=A) P (f_fail e).
Proof. done. Qed.

Create HintDb files discriminated.
#[export] Hint Resolve @only_bind @only_ignore only_WriteFile only_Remove only_Truncate only_CreateExcl only_Rename only_Sync
  only_ReadFile only_Exists @only_ret @only_fail : files.
