(* ===== verification/GoTime.v ===== *)
(** * GoTime: UTC dates and the rotation stamp

    The Gregorian calendar of package time, and [Format]/[Parse] for the layout
    [20060102T150405Z]. *)

From Stdlib Require Import Ascii.
From S2P Require Import Prelude GoStr.

(** ** Dates *)

Definition day_seconds : Z := 86400.

(** Days since 1970-01-01; years begin in March inside. *)
Definition days_from_civil (y m d : Z) : Z :=
  let y := if m <=? 2 then y - 1 else y in
  let era := y / 400 in
  let yoe := y mod 400 in
  let mp := (m + 9) mod 12 in
  let doy := (153 * mp + 2) / 5 + d - 1 in
  let doe := 365 * yoe + yoe / 4 - yoe / 100 + doy in
  era * 146097 + doe - 719468.

Definition year_of_era (doe : Z) : Z := (doe - doe / 1460 + doe / 36524 - doe / 146096) / 365.

Definition civil_from_days (z : Z) : Z * Z * Z :=
  let z := z + 719468 in
  let era := z / 146097 in
  let doe := z mod 146097 in
  let yoe := year_of_era doe in
  let doy := doe - (365 * yoe + yoe / 4 - yoe / 100) in
  let mp := (5 * doy + 2) / 153 in
  let d := doy - (153 * mp + 2) / 5 + 1 in
  let m := if mp <? 10 then mp + 3 else mp - 9 in
  (yoe + era * 400 + (if m <=? 2 then 1 else 0), m, d).

Definition is_leap (y : Z) : bool := (y mod 4 =? 0) && (negb (y mod 100 =? 0) || (y mod 400 =? 0)).
Definition days_in (m y : Z) : Z :=
  if m =? 2 then (if is_leap y then 29 else 28)
  else if (m =? 4) || (m =? 6) || (m =? 9) || (m =? 11) then 30 else 31.

(** ** The stamp *)

Definition digit (v : Z) : ascii := ascii_of_N (Z.to_N (48 + v)).
Definition two (v : Z) : string := String (digit (v / 10)) (String (digit (v mod 10)) "").
Definition four (v : Z) : string := two (v / 100) +:+ two (v mod 100).
Arguments two _ : simpl never.
Arguments four _ : simpl never.

(** [t.UTC().Format(rotatedTimeFormat)] for the years 0 to 9999. *)
Definition format_stamp (t : Z) : string :=
  let secs := unix t in
  let '(y, m, d) := civil_from_days (secs / day_seconds) in
  let s := secs mod day_seconds in
  four y +:+ two m +:+ two d +:+ "T" +:+ two (s / 3600) +:+ two (s mod 3600 / 60) +:+ two (s mod 60) +:+ "Z".

(** [t.Format("2006-01-02")] at an offset of so many seconds from UTC. *)
Definition date_string (offset : Z → Z) (t : Z) : string :=
  let '(y, m, d) := civil_from_days ((unix t + offset t) / day_seconds) in
  four y +:+ "-" +:+ two m +:+ "-" +:+ two d.

(** [t.Format(time.RFC3339)] and [t.Format("20060102-150405")]. *)
Definition clock_string (sep : string) (s : Z) : string := join sep [two (s / 3600); two (s mod 3600 / 60); two (s mod 60)].
Definition zone_string (o : Z) : string :=
  if o =? 0 then "Z"
  else (if o <? 0 then "-" else "+") +:+ two (Z.abs o / 3600) +:+ ":" +:+ two (Z.abs o mod 3600 / 60).
Definition rfc3339 (offset : Z → Z) (t : Z) : string :=
  date_string offset t +:+ "T" +:+ clock_string ":" ((unix t + offset t) mod day_seconds) +:+ zone_string (offset t).
Definition file_stamp (offset : Z → Z) (t : Z) : string :=
  let '(y, m, d) := civil_from_days ((unix t + offset t) / day_seconds) in
  four y +:+ two m +:+ two d +:+ "-" +:+ clock_string "" ((unix t + offset t) mod day_seconds).

Definition dig (c : ascii) : option Z := if is_digit c then Some (byte_of c - 48) else None.

(** Two digits, or one when the layout does not fix them. *)
Definition getnum (fixed : bool) (s : string) : option (Z * string) :=
  match s with
  | String a s1 =>
      match dig a with
      | None => None
      | Some x =>
          match s1 with
          | String b s2 => match dig b with
                           | Some y => Some (10 * x + y, s2)
                           | None => if fixed then None else Some (x, s1)
                           end
          | "" => if fixed then None else Some (x, s1)
          end
      end
  | "" => None
  end.

Definition get_year (s : string) : option (Z * string) :=
  match getnum true s with
  | Some (a, s1) => match getnum true s1 with Some (b, s2) => Some (100 * a + b, s2) | None => None end
  | None => None
  end.

Definition lit (c : ascii) (s : string) : option string :=
  match s with String a r => if Ascii.eqb a c then Some r else None | "" => None end.

(** A fraction of a second may follow even though the layout has none; at most
    nine digits of it count. *)
Fixpoint frac_digits (n : nat) (unit_ acc : Z) (s : string) : Z * string :=
  match s with
  | String c r => match dig c with
                  | Some v => match n with
                              | O => frac_digits O unit_ acc r
                              | S n' => frac_digits n' (unit_ / 10) (acc + v * unit_) r
                              end
                  | None => (acc, s)
                  end
  | "" => (acc, s)
  end.
Definition fraction (s : string) : Z * string :=
  match s with
  | String p (String c _ as r) =>
      if (Ascii.eqb p "." || Ascii.eqb p ",") && is_digit c then frac_digits 9 100000000 0 r else (0, s)
  | _ => (0, s)
  end.

Definition within (lo v hi : Z) : option unit := if (lo <=? v) && (v <=? hi) then Some tt else None.

(** [time.Parse(rotatedTimeFormat, s)]. *)
Definition parse_stamp (s : string) : option Z :=
  '(y, s) ← get_year s;
  '(m, s) ← getnum true s; _ ← within 1 m 12;
  '(d, s) ← getnum true s;
  s ← lit "T" s;
  '(hh, s) ← getnum false s; _ ← within 0 hh 23;
  '(mm, s) ← getnum true s; _ ← within 0 mm 59;
  '(ss, s) ← getnum true s; _ ← within 0 ss 59;
  let '(ns, s) := fraction s in
  s ← lit "Z" s;
  _ ← within 1 d (days_in m y);
  match s with
  | "" => Some ((days_from_civil y m d * day_seconds + hh * 3600 + mm * 60 + ss) * second + ns)
  | _ => None
  end.

Example stamp_epoch : format_stamp 0 = "19700101T000000Z" ∧ parse_stamp "19700101T000000Z" = Some 0.
Proof. by vm_compute. Qed.
Example stamp_leap : format_stamp (1709251199 * second + 5) = "20240229T235959Z" ∧
  parse_stamp "20240229T235959Z" = Some (1709251199 * second) ∧ parse_stamp "20230229T235959Z" = None.
Proof. by vm_compute. Qed.
Example stamp_lenient : parse_stamp "20240101T000000.25Z" = Some (1704067200 * second + 250000000) ∧
  parse_stamp "20240101T000000Z.gz" = None.
Proof. by vm_compute. Qed.

(** ** Round trip *)

Lemma year_of_era_bounds doe : 0 ≤ doe < 146097 →
  let yoe := year_of_era doe in
  let doy := doe - (365 * yoe + yoe / 4 - yoe / 100) in
  0 ≤ yoe < 400 ∧ 0 ≤ doy ≤ 365.
Proof.
  intros Hd yoe doy. subst yoe doy. unfold year_of_era. Z.div_mod_to_equations. lia.
Qed.

Lemma year_of_era_leap doe : 0 ≤ doe < 146097 →
  let yoe := year_of_era doe in
  doe - (365 * yoe + yoe / 4 - yoe / 100) = 365 → (yoe + 1) mod 4 = 0 ∧ ((yoe + 1) mod 100 ≠ 0 ∨ yoe = 399).
Proof.
  intros Hd yoe. subst yoe. unfold year_of_era. Z.div_mod_to_equations. lia.
Qed.

Lemma days_roundtrip z : let '(y, m, d) := civil_from_days z in days_from_civil y m d = z.
Proof.
  unfold civil_from_days, days_from_civil. set (doe := (z + 719468) mod 146097).
  assert (Hd : 0 ≤ doe < 146097) by (apply Z.mod_pos_bound; lia).
  destruct (year_of_era_bounds doe Hd) as [Hy Hdoy]. set (yoe := year_of_era doe) in *.
  set (doy := doe - (365 * yoe + yoe / 4 - yoe / 100)) in *.
  assert (Hmp : 0 ≤ (5 * doy + 2) / 153 ≤ 11) by (Z.div_mod_to_equations; lia).
  set (mp := (5 * doy + 2) / 153) in *. set (era := (z + 719468) / 146097).
  assert (Hz : z = era * 146097 + doe - 719468) by (subst era doe; pose proof (Z.div_mod (z + 719468) 146097); lia).
  assert (Hm : (if mp <? 10 then mp + 3 else mp - 9) ≤ 2 ↔ 10 ≤ mp) by (destruct (mp <? 10) eqn:E; bprop; lia).
  assert (Hmm : ((if mp <? 10 then mp + 3 else mp - 9) + 9) mod 12 = mp).
  { destruct (mp <? 10) eqn:E; bprop; Z.div_mod_to_equations; lia. }
  rewrite Hmm. set (m := if mp <? 10 then mp + 3 else mp - 9) in *.
  assert (Hyear : (if m <=? 2 then yoe + era * 400 + (if m <=? 2 then 1 else 0) - 1
                   else yoe + era * 400 + (if m <=? 2 then 1 else 0)) = yoe + era * 400).
  { destruct (m <=? 2); lia. }
  rewrite Hyear, Z.div_add, Z.mod_add, Z.div_small, Z.mod_small by lia. lia.
Qed.

Lemma civil_ranges z : let '(y, m, d) := civil_from_days z in 1 ≤ m ≤ 12 ∧ 1 ≤ d ≤ days_in m y.
Proof.
  unfold civil_from_days. set (doe := (z + 719468) mod 146097).
  assert (Hd : 0 ≤ doe < 146097) by (apply Z.mod_pos_bound; lia).
  destruct (year_of_era_bounds doe Hd) as [Hy Hdoy]. pose proof (year_of_era_leap doe Hd) as Hleap.
  cbn zeta in Hleap. set (yoe := year_of_era doe) in *.
  set (doy := doe - (365 * yoe + yoe / 4 - yoe / 100)) in *.
  assert (Hmp : 0 ≤ (5 * doy + 2) / 153 ≤ 11) by (Z.div_mod_to_equations; lia).
  set (mp := (5 * doy + 2) / 153) in *. set (era := (z + 719468) / 146097).
  assert (Hb : 153 * mp ≤ 5 * doy + 2 < 153 * mp + 153) by (subst mp; Z.div_mod_to_equations; lia).
  assert (Hq : 5 * ((153 * mp + 2) / 5) ≤ 153 * mp + 2 < 5 * ((153 * mp + 2) / 5) + 5) by (Z.div_mod_to_equations; lia).
  set (q := (153 * mp + 2) / 5) in *. clearbody q mp era. unfold days_in.
  set (m := if mp <? 10 then mp + 3 else mp - 9).
  assert (Hm : mp ≤ 9 ∧ m = mp + 3 ∨ 10 ≤ mp ∧ m = mp - 9) by (unfold m; destruct (mp <? 10) eqn:E; bprop; lia).
  clearbody m. split; [lia|]. destruct (m =? 2) eqn:E2; bprop.
  2:{ destruct (_ || _) eqn:E3; bprop; lia. }
  assert (mp = 11) as -> by lia. subst m. change (if 2 <=? 2 then 1 else 0) with 1.
  destruct (is_leap (yoe + era * 400 + 1)) eqn:El; [lia|]. split; [lia|].
  destruct (decide (doy = 365)) as [Eq|Ne]; [|lia]. exfalso. destruct (Hleap Eq) as [H4 H100].
  assert (is_leap (yoe + era * 400 + 1) = true) as Ht; [|congruence]. unfold is_leap.
  apply andb_true_iff. split; [apply Z.eqb_eq; clear -H4; Z.div_mod_to_equations; lia|].
  apply orb_true_iff. destruct H100 as [H100| ->].
  - left. apply negb_true_iff, Z.eqb_neq. clear -H100. Z.div_mod_to_equations. lia.
  - right. apply Z.eqb_eq. clear. Z.div_mod_to_equations. lia.
Qed.

(** *** Digits *)

#[local] Arguments getnum : simpl never.
#[local] Arguments get_year : simpl never.
#[local] Arguments lit : simpl never.
#[local] Arguments fraction : simpl never.

Lemma within_ok lo v hi : lo ≤ v ≤ hi → within lo v hi = Some tt.
Proof. intros [? ?]. unfold within. by rewrite (proj2 (Z.leb_le _ _)), (proj2 (Z.leb_le _ _)). Qed.

Lemma dig_digit v : 0 ≤ v < 10 → dig (digit v) = Some v.
Proof.
  intros Hv. assert (v = 0 ∨ v = 1 ∨ v = 2 ∨ v = 3 ∨ v = 4 ∨ v = 5 ∨ v = 6 ∨ v = 7 ∨ v = 8 ∨ v = 9) as Hc by lia.
  destruct Hc as [->|[->|[->|[->|[->|[->|[->|[->|[->| ->]]]]]]]]]; by vm_compute.
Qed.

Lemma getnum_two fixed v s : 0 ≤ v < 100 → getnum fixed (two v +:+ s) = Some (v, s).
Proof.
  intros Hv. unfold two. sapp. unfold getnum.
  rewrite !dig_digit by (Z.div_mod_to_equations; lia). f_equal. f_equal. Z.div_mod_to_equations; lia.
Qed.

Lemma get_year_four v s : 0 ≤ v < 10000 → get_year (four v +:+ s) = Some (v, s).
Proof.
  intros Hv. unfold four, get_year. rewrite <-s_app_assoc.
  rewrite !getnum_two by (Z.div_mod_to_equations; lia). f_equal. f_equal. Z.div_mod_to_equations; lia.
Qed.

Definition stamp_year (t : Z) : Z := (civil_from_days (unix t / day_seconds)).1.1.

(** A stamp reads back as the second it was taken in. *)
Lemma parse_format_stamp t : 0 ≤ stamp_year t < 10000 → parse_stamp (format_stamp t) = Some (unix t * second).
Proof.
  unfold stamp_year, format_stamp, parse_stamp. set (secs := unix t). set (days := secs / day_seconds).
  pose proof (days_roundtrip days) as Hr. pose proof (civil_ranges days) as Hmd.
  destruct (civil_from_days days) as [[y m] d]. destruct Hmd as [Hm Hd]. simpl. intros Hy.
  assert (Hd31 : days_in m y ≤ 31) by (unfold days_in; repeat case_match; lia).
  assert (Hs : 0 ≤ secs mod day_seconds < 86400) by (apply Z.mod_pos_bound; done).
  set (s := secs mod day_seconds) in *.
  rewrite <-?s_app_assoc, get_year_four by lia. simpl.
  rewrite getnum_two by lia. simpl. rewrite within_ok by lia. simpl.
  rewrite getnum_two by lia. simpl. sapp.
  assert (Hh : 0 ≤ s / 3600 ≤ 23) by (Z.div_mod_to_equations; lia).
  assert (Hmi : 0 ≤ s mod 3600 / 60 ≤ 59) by (Z.div_mod_to_equations; lia).
  assert (Hse : 0 ≤ s mod 60 ≤ 59) by (Z.div_mod_to_equations; lia).
  rewrite getnum_two by lia. simpl. rewrite within_ok by lia. simpl.
  rewrite getnum_two by lia. simpl. rewrite within_ok by lia. simpl.
  rewrite getnum_two by lia. simpl. rewrite !within_ok by lia. simpl. f_equal.
  rewrite Hr, Z.add_0_r. f_equal.
  assert (secs = day_seconds * days + s) as Hsecs by (apply Z.div_mod; done).
  clear -Hsecs Hs. clearbody s days secs. Z.div_mod_to_equations; lia.
Qed.
