(* ===== verification/NetIP.v ===== *)
(** * NetIP: Go's [net] addresses

    [net.IP] is a byte slice of length 4 or 16 ([[]] is nil); [ParseIP],
    [ParseCIDR], [Mask], [To4] and [String] follow the Go standard library
    (net/netip's ParseAddr and AppendTo). Clients use the character-set
    lemmas (a parsed address holds no space, quote or newline) and the
    round trip of a dotted quad. *)

From Stdlib Require Import Ascii.
From Stdlib Require Import DecimalString.
From S2P Require Import Prelude GoStr.

Definition IP := list Z.

(** ** Parsing *)

(** One IPv4 field: 1-3 digits, no leading zero, at most 255. *)
Definition parse_octet (s : string) : option Z :=
  if negb (s_forallb is_digit s) then None else
  match s with
  | "" => None
  | String "0" (String _ _) => None
  | _ => v ← parse_digits s; if v <=? 255 then Some v else None
  end.

(** netip's parseIPv4Fields. *)
Definition parse_ipv4 (s : string) : option (list Z) :=
  match split "." s with
  | [a; b; c; d] =>
      a ← parse_octet a; b ← parse_octet b; c ← parse_octet c; d ← parse_octet d;
      Some [a; b; c; d]
  | _ => None
  end.

Definition hex_val (c : ascii) : option Z :=
  let b := byte_of c in
  if is_digit c then Some (b - 48)
  else if in_range 97 b 102 then Some (b - 87)
  else if in_range 65 b 70 then Some (b - 55)
  else None.

Fixpoint span_hex (s : string) : list Z * string :=
  match s with
  | "" => ([], "")
  | String c s' =>
      match hex_val c with
      | Some v => let '(ds, r) := span_hex s' in (v :: ds, r)
      | None => ([], s)
      end
  end.

Definition hex_acc (ds : list Z) : Z := foldl (λ a d, 16 * a + d) 0 ds.

(** netip's parseIPv6 loop: [ip] holds the bytes read so far, [ell] the
    position of "::". Nine rounds always suffice: each adds two bytes. *)
Fixpoint v6_loop (fuel : nat) (s : string) (ip : list Z) (ell : option nat)
    : option (list Z * option nat * string) :=
  match fuel with
  | O => None
  | S fuel =>
    if (16 <=? length ip)%nat then Some (ip, ell, s) else
    let '(ds, rest) := span_hex s in
    if (length ds =? 0)%nat || (4 <? length ds)%nat then None else
    match rest with
    | String "." _ =>
        if (bool_decide (ell = None) && negb (length ip =? 12)%nat) || (12 <? length ip)%nat
        then None
        else q ← parse_ipv4 s; Some (ip ++ q, ell, "")
    | _ =>
        let ip := ip ++ [Z.shiftr (hex_acc ds) 8; Z.land (hex_acc ds) 255] in
        match rest with
        | "" => Some (ip, ell, "")
        | String ":" "" => None
        | String ":" (String ":" s') =>
            if bool_decide (ell ≠ None) then None
            else match s' with
                 | "" => Some (ip, Some (length ip), "")
                 | _ => v6_loop fuel s' ip (Some (length ip))
                 end
        | String ":" s' => v6_loop fuel s' ip ell
        | _ => None
        end
    end
  end.

Definition parse_ipv6 (s : string) : option (list Z) :=
  let fin r :=
    match r with
    | Some (ip, ell, "") =>
        if (length ip <? 16)%nat then
          match ell with
          | Some e => Some (take e ip ++ replicate (16 - length ip) 0 ++ drop e ip)
          | None => None
          end
        else if bool_decide (ell ≠ None) then None else Some ip
    | _ => None
    end in
  match cut_prefix "::" s with
  | Some "" => Some (replicate 16 0)
  | Some s' => fin (v6_loop 9 s' [] (Some O))
  | None => fin (v6_loop 9 s [] None)
  end.

(** netip.ParseAddr without zones: dotted if '.' comes before any ':'. *)
Fixpoint addr_family (s : string) : option bool :=
  match s with
  | "" => None
  | String "." _ => Some true
  | String ":" _ => Some false
  | String "%" _ => None
  | String _ s' => addr_family s'
  end.

Definition parse_addr (s : string) : option IP :=
  match addr_family s with
  | Some true => parse_ipv4 s
  | Some false => parse_ipv6 s
  | None => None
  end.

Definition v4_in_v6_prefix : list Z := replicate 10 0 ++ [255; 255].

Definition as16 (a : IP) : IP :=
  if (length a =? 4)%nat then v4_in_v6_prefix ++ a else a.

(** [net.ParseIP]: nil is [None]. *)
Definition ParseIP (s : string) : option IP := as16 <$> parse_addr s.

(** [ip.To4()]. *)
Definition To4 (ip : IP) : option IP :=
  if (length ip =? 4)%nat then Some ip
  else if (length ip =? 16)%nat && bool_decide (take 12 ip = v4_in_v6_prefix)
  then Some (drop 12 ip) else None.

(** Bits [n..] of a [bits]-wide mask cleared, as bytes. *)
Definition mask_byte (n : Z) (i : nat) : Z :=
  let k := n - 8 * Z.of_nat i in
  if 8 <=? k then 255 else if k <=? 0 then 0 else 256 - 2 ^ (8 - k).
Definition CIDRMask (n : Z) (bytes : nat) : list Z := mask_byte n <$> seq 0 bytes.

(** [ip.Mask(mask)]; nil on a length mismatch. *)
Definition Mask (ip : IP) (mask : list Z) : IP :=
  let mask := if (length mask =? 16)%nat && (length ip =? 4)%nat
                 && bool_decide (take 12 mask = replicate 12 255)
              then drop 12 mask else mask in
  let ip := if (length mask =? 4)%nat && (length ip =? 16)%nat
               && bool_decide (take 12 ip = v4_in_v6_prefix)
            then drop 12 ip else ip in
  if (length ip =? length mask)%nat then zip_with Z.land ip mask else [].

Record IPNet := mkIPNet { net_ip : IP; net_mask : list Z }.

(** net's dtoi, all of [s] consumed: digits, below 0xFFFFFF. *)
Definition dtoi (s : string) : option Z :=
  if s_forallb is_digit s then
    v ← parse_digits s; if v <? 16777215 then Some v else None
  else None.

(** [net.ParseCIDR]. *)
Definition ParseCIDR (s : string) : option (IP * IPNet) :=
  let '(a, m, found) := cut "/" s in
  if negb found then None else
  ip ← parse_addr a;
  n ← dtoi m;
  if 8 * Z.of_nat (length ip) <? n then None else
  let mask := CIDRMask n (length ip) in
  let ip16 := as16 ip in
  Some (ip16, mkIPNet (Mask ip16 mask) mask).

(** ** Printing *)

Definition hex_digit (v : Z) : ascii :=
  ascii_of_N (Z.to_N (if v <? 10 then 48 + v else 87 + v)).

(** A 16-bit group in lower-case hex, no leading zeros. *)
Definition hex16 (v : Z) : string :=
  let d k := hex_digit (Z.land (Z.shiftr v k) 15) in
  if 4095 <? v then String (d 12) (String (d 8) (String (d 4) (String (d 0) "")))
  else if 255 <? v then String (d 8) (String (d 4) (String (d 0) ""))
  else if 15 <? v then String (d 4) (String (d 0) "")
  else String (d 0) "".

Fixpoint groups16 (ip : list Z) : list Z :=
  match ip with
  | hi :: lo :: r => (256 * hi + lo) :: groups16 r
  | _ => []
  end.

(** Length of the zero run at the head. *)
Fixpoint zero_run (gs : list Z) : nat :=
  match gs with
  | g :: gs' => if g =? 0 then S (zero_run gs') else O
  | [] => O
  end.

(** The first longest zero run of length two or more: start and length. *)
Fixpoint best_run (i : nat) (gs : list Z) (best : nat * nat) : nat * nat :=
  match gs with
  | [] => best
  | _ :: gs' =>
      let l := zero_run gs in
      best_run (S i) gs' (if (2 <=? l)%nat && (best.2 <? l)%nat then (i, l) else best)
  end.

Definition string_v6 (ip : IP) : string :=
  let gs := groups16 ip in
  let '(st, l) := best_run 0 gs (O, O) in
  let hexs := hex16 <$> gs in
  if (l =? 0)%nat then join ":" hexs
  else join ":" (take st hexs) +:+ "::" +:+ join ":" (drop (st + l) hexs).

Definition string_v4 (ip : IP) : string := join "." (itoa <$> ip).

(** [ip.String()] for the lengths the program produces. *)
Definition IP_String (ip : IP) : string :=
  match ip with
  | [] => "<nil>"
  | _ => match To4 ip with Some q => string_v4 q | None => string_v6 ip end
  end.

(** ** What a parsed address may contain *)

Definition ip_char (c : ascii) : bool :=
  bool_decide (is_Some (hex_val c)) || Ascii.eqb c "." || Ascii.eqb c ":".

Lemma digit_ip_char c : is_digit c = true → ip_char c = true.
Proof. unfold ip_char, hex_val. intros ->. by rewrite bool_decide_true by eauto. Qed.

Lemma parse_octet_digits s v : parse_octet s = Some v → s_forallb is_digit s = true.
Proof. unfold parse_octet. by destruct (s_forallb is_digit s). Qed.

Lemma parse_octet_bound s v : parse_octet s = Some v → 0 ≤ v ≤ 255.
Proof.
  unfold parse_octet. intros H. case_match; [done|].
  assert (∃ v', parse_digits s = Some v' ∧ v = v' ∧ v' ≤ 255) as (v'&Hp&->&?).
  { repeat case_match; simplify_eq; try done;
      apply bind_Some in H as (v'&?&H); case_match; simplify_eq; bool_to_prop; eauto. }
  split; [|done]. unfold parse_digits in Hp. destruct s; [done|].
  destruct (NilEmpty.uint_of_string _) as [u|]; simplify_eq/=.
  unfold Z.of_uint. lia.
Qed.

Lemma split_chars (f : ascii → bool) sep s :
  f sep = true → Forall (λ p, s_forallb f p = true) (split sep s) → s_forallb f s = true.
Proof.
  intros Hsep. induction s as [|c s IH]; [done|]. cbn [split].
  destruct (Ascii.eqb_spec c sep) as [->|].
  - rewrite Forall_cons. intros [_ Hs]. apply IH in Hs. unfold s_forallb in *.
    rewrite chars_cons. cbn. by rewrite Hsep.
  - destruct (split sep s) as [|p ps] eqn:E; [by apply split_ne_nil in E|].
    rewrite Forall_cons. intros [H1 H2]. unfold s_forallb in *.
    rewrite chars_cons in H1 |- *. cbn in *.
    apply andb_true_iff in H1 as [-> H1]. cbn. apply IH. by constructor.
Qed.

Lemma parse_ipv4_chars s ip : parse_ipv4 s = Some ip → s_forallb ip_char s = true.
Proof.
  unfold parse_ipv4. intros Hp.
  destruct (split "." s) as [|a [|b [|c [|d [|]]]]] eqn:E; try done.
  apply bind_Some in Hp as (?&?&Hp). apply bind_Some in Hp as (?&?&Hp).
  apply bind_Some in Hp as (?&?&Hp). apply bind_Some in Hp as (?&?&Hp).
  apply (split_chars _ "."); [done|]. rewrite E.
  repeat constructor; (eapply s_forallb_impl; [apply digit_ip_char|]);
    by eapply parse_octet_digits.
Qed.

Lemma span_hex_chars s ds r : span_hex s = (ds, r) →
  s_forallb ip_char r = true → s_forallb ip_char s = true.
Proof.
  revert ds r; induction s as [|c s IH]; intros ds r; cbn [span_hex]; [by intros [= <- <-]|].
  destruct (hex_val c) eqn:Hc; [|by intros [= <- <-]].
  destruct (span_hex s) as [ds' r'] eqn:E. intros [= <- <-] Hr.
  unfold s_forallb in *. rewrite chars_cons. cbn.
  rewrite (IH _ _ eq_refl Hr). unfold ip_char. by rewrite Hc, bool_decide_true by eauto.
Qed.

Lemma v6_loop_chars fuel s ip ell ip' ell' r :
  v6_loop fuel s ip ell = Some (ip', ell', r) → s_forallb ip_char r = true →
  s_forallb ip_char s = true.
Proof.
  revert s ip ell; induction fuel as [|fuel IH]; intros s ip ell; cbn [v6_loop]; [done|].
  case_match; [naive_solver|].
  destruct (span_hex s) as [ds rest] eqn:E.
  case_match; [done|]. intros Hl Hr.
  destruct (match rest with String "." _ => true | _ => false end) eqn:Hdot.
  - destruct rest as [|[[] [] [] [] [] [] [] []] rest]; try discriminate Hdot.
    case_match; [done|]. apply bind_Some in Hl as (q&Hq&_). by eapply parse_ipv4_chars.
  - eapply span_hex_chars; [done|]. clear E.
    destruct rest as [|c rest]; [done|].
    destruct (Ascii.eqb_spec c ":") as [->|].
    + unfold s_forallb. rewrite chars_cons. cbn.
      destruct rest as [|c2 rest]; [done|].
      destruct (Ascii.eqb_spec c2 ":") as [->|].
      * case_match; [done|]. rewrite chars_cons. cbn.
        destruct rest as [|c3 rest]; [done|]. by eapply IH.
      * eapply IH; [|done]. destruct c2 as [[] [] [] [] [] [] [] []]; exact Hl || done.
    + exfalso. by destruct c as [[] [] [] [] [] [] [] []].
Qed.

Lemma parse_addr_chars s ip : parse_addr s = Some ip → s_forallb ip_char s = true.
Proof.
  unfold parse_addr. destruct (addr_family s) as [[]|]; [|..|done].
  { apply parse_ipv4_chars. }
  unfold parse_ipv6. intros H.
  destruct (cut_prefix "::" s) as [s'|] eqn:E.
  - apply cut_prefix_Some in E as ->. rewrite s_forallb_app. cbn.
    destruct s' as [|c s']; [done|].
    destruct (v6_loop 9 _ _ _) as [[[ip0 e] r]|] eqn:E; [|done].
    destruct r; [|done]. by eapply v6_loop_chars.
  - destruct (v6_loop 9 _ _ _) as [[[ip0 e] r]|] eqn:E'; [|done].
    destruct r; [|done]. by eapply v6_loop_chars.
Qed.

(** An address is made of hex digits, dots and colons only. *)
Lemma ParseIP_chars s ip : ParseIP s = Some ip → s_forallb ip_char s = true.
Proof. unfold ParseIP. rewrite fmap_Some. intros (?&?&_). by eapply parse_addr_chars. Qed.

Lemma cut_parts sep s b a : cut sep s = (b, a, true) → s = b +:+ String sep a.
Proof.
  revert b a; induction s as [|c s IH]; intros b a; cbn; [done|].
  destruct (Ascii.eqb_spec c sep) as [->|]; [by intros [= <- <-]|].
  destruct (cut sep s) as [[b' a'] ok] eqn:E. intros [= <- <- ->]. sapp.
  by rewrite (IH _ _ eq_refl) at 1.
Qed.

Definition cidr_char (c : ascii) : bool := ip_char c || Ascii.eqb c "/".

Lemma ParseCIDR_chars s r : ParseCIDR s = Some r → s_forallb cidr_char s = true.
Proof.
  unfold ParseCIDR. destruct (cut "/" s) as [[a m] found] eqn:E.
  destruct found; [|done]. apply cut_parts in E as ->. simpl.
  intros H. apply bind_Some in H as (ip&Hip&H). apply bind_Some in H as (n&Hn&_).
  unfold dtoi in Hn. destruct (s_forallb is_digit m) eqn:Hm; [|done].
  rewrite s_forallb_app. apply andb_true_iff; split.
  - eapply s_forallb_impl; [|by eapply parse_addr_chars].
    intros c. unfold cidr_char. by intros ->.
  - unfold s_forallb. rewrite chars_cons. cbn. fold (s_forallb cidr_char m).
    eapply s_forallb_impl; [|done]. intros c Hc. unfold cidr_char. by rewrite digit_ip_char.
Qed.

(** ** The dotted quad *)

Definition is_byte (z : Z) : bool := (0 <=? z) && (z <=? 255).

Lemma parse_octet_itoa z : is_byte z = true → parse_octet (itoa z) = Some z.
Proof.
  intros Hb. assert (Forall (λ n : nat, parse_octet (itoa (Z.of_nat n)) = Some (Z.of_nat n)) (seq 0 256)) as HF.
  { apply (bool_decide_unpack _). by vm_compute. }
  unfold is_byte in Hb. bool_to_prop. rewrite Forall_forall in HF.
  specialize (HF (Z.to_nat z)). rewrite Z2Nat.id in HF by lia.
  apply HF, elem_of_seq. lia.
Qed.

Lemma parse_ipv4_print a b c d : Forall (λ z, is_byte z = true) [a; b; c; d] →
  parse_ipv4 (string_v4 [a; b; c; d]) = Some [a; b; c; d].
Proof.
  intros H. unfold parse_ipv4, string_v4. rewrite split_join.
  - simpl. repeat (apply Forall_cons in H as [? H]). by rewrite !parse_octet_itoa by done.
  - done.
  - apply Forall_fmap. eapply Forall_impl; [done|]. intros z Hz.
    unfold is_byte in Hz. bool_to_prop. apply itoa_clean; [lia|done].
Qed.
