(* ===== verification/Names.v ===== *)
(** * Names: the rules every stored name obeys

    [pki.CheckName] and its length bound, and the tunnel device name; the
    store, the upstream configuration and the control socket all rely on what
    a checked name may contain. *)

From Stdlib Require Import Ascii.
From S2P Require Import Prelude GoStr.

(** The tunnel device openvpn is pinned to. *)
Definition TunDev : string := "ovcp0".

Definition MaxCNLen : nat := 64.

Definition name_char (c : ascii) : bool :=
  is_alnum c || Ascii.eqb c "." || Ascii.eqb c "_" || Ascii.eqb c "@" || Ascii.eqb c "-".

Definition nameRe (s : string) : bool :=
  (1 <=? slen s)%nat && (slen s <=? MaxCNLen)%nat && s_forallb name_char s.

Definition CheckName (what s : string) : result unit :=
  guard_ok (nameRe s) (Errorf "%s %q must be 1-%d of A-Z a-z 0-9 . _ @ -" [what; s; itoa 64]).

Lemma CheckName_Ok what s : CheckName what s = Ok tt ↔ nameRe s = true.
Proof. apply guard_ok_Ok. Qed.

Lemma nameRe_chars s : nameRe s = true → s_forallb name_char s = true.
Proof. unfold nameRe. by intros [_ ?]%andb_true_iff. Qed.

Lemma nameRe_ne s : nameRe s = true → s ≠ "".
Proof. by intros H ->. Qed.

(** A byte outside the class never occurs in a checked name. *)
Lemma nameRe_no_char c s : name_char c = false → nameRe s = true → no_char c s = true.
Proof. intros Hc Hs. eapply no_char_of_forallb; [done|]. by apply nameRe_chars. Qed.

Lemma name_char_not_space c : name_char c = true → not_space c = true.
Proof. destruct c as [[] [] [] [] [] [] [] []]; vm_compute; congruence. Qed.

Lemma name_char_clean c : name_char c = true → negb (is_crlf c) = true.
Proof. destruct c as [[] [] [] [] [] [] [] []]; vm_compute; congruence. Qed.

Lemma nameRe_not_space s : nameRe s = true → s_forallb not_space s = true.
Proof. intros H%nameRe_chars. eapply s_forallb_impl; [apply name_char_not_space|done]. Qed.

Lemma nameRe_clean s : nameRe s = true → clean_line s = true.
Proof. intros H%nameRe_chars. eapply s_forallb_impl; [apply name_char_clean|done]. Qed.

Lemma nameRe_trim s : nameRe s = true → trim_space s = s.
Proof. intros H. by apply trim_space_none, nameRe_not_space. Qed.
