(* ===== verification/Socks.v ===== *)
(** * Socks: the SOCKS5 relay (src/internal/upstream/socks.go)

    The client side of the SOCKS5 handshake over a byte connection, the
    recovery of a redirected connection's destination, and the guards that
    decide whether a connection is relayed at all. A connection is the bytes
    its peer will send, the bytes written so far and how many more writes
    succeed; [net.Dial] is an argument. *)

From Stdlib Require Import Ascii.
From S2P Require Import Prelude GoStr NetIP GoURL.

Module socks.

(** ** Timeouts *)

Definition resolveTimeout (perUpstream def : Z) : Z :=
  if perUpstream <=? 0 then def else perUpstream * second.

Definition envSeconds (getenv : string → string) (key : string) (def : Z) : Z :=
  let v := getenv key in
  match (if String.eqb v "" then None else atoi v) with
  | Some n => if 0 <? n then n * second else def * second
  | None => def * second
  end.

Definition dialTimeout (getenv : string → string) : Z :=
  envSeconds getenv "OVCP_UPSTREAM_SOCKS_DIAL_TIMEOUT" 10.
Definition handshakeTimeout (getenv : string → string) : Z :=
  envSeconds getenv "OVCP_UPSTREAM_SOCKS_HANDSHAKE_TIMEOUT" 30.

(** ** Data *)

Record socksBackend := mkBackend {
  be_url : URL; be_dialTimeout : Z; be_handshakeTimeout : Z }.

Record TCPAddr := mkTCPAddr { IPof : IP; PortOf : Z }.

(** [inp]: what the peer sends before closing. [out]: bytes written.
    [wleft]: writes that still succeed, [None] for all of them. *)
Record Conn := mkConn { inp : list Z; out : list Z; wleft : option nat }.

(** A handshake step keeps the connection also when it fails. *)
Definition io (A : Type) := Conn → result A * Conn.

#[export] Instance io_ret : MRet io := λ _ a c, (Ok a, c).
#[export] Instance io_bind : MBind io := λ _ _ f m c,
  match m c with (Ok a, c') => f a c' | (Err e, c') => (Err e, c') end.

Definition fail {A} (e : goerr) : io A := λ c, (Err e, c).

Definition Write (bs : list Z) : io unit := λ c,
  match wleft c with
  | Some O => (Err (ExternalErr "write"), c)
  | w => (Ok tt, mkConn (inp c) (out c ++ bs) (pred <$> w))
  end.

(** [io.ReadFull]: EOF on no byte at all, else unexpected EOF. *)
Definition ReadFull (n : nat) : io (list Z) := λ c,
  if (n <=? length (inp c))%nat
  then (Ok (take n (inp c)), mkConn (drop n (inp c)) (out c) (wleft c))
  else (Err (match inp c with [] => Sentinel ErrEOF | _ => ExternalErr "unexpected EOF" end),
        mkConn [] (out c) (wleft c)).

(** [io.CopyN(io.Discard, conn, n)]. *)
Definition Discard (n : nat) : io unit := λ c,
  if (n <=? length (inp c))%nat
  then (Ok tt, mkConn (drop n (inp c)) (out c) (wleft c))
  else (Err (Sentinel ErrEOF), mkConn [] (out c) (wleft c)).

Definition nth_byte (i : nat) (bs : list Z) : Z := default 0 (bs !! i).

Definition bytes_of (s : string) : list Z := byte_of <$> chars s.

(** ** The handshake (RFC 1928, 1929) *)

Definition socksAuth (user : option Userinfo) : io unit :=
  let name := default "" (username <$> user) in
  let pass := default "" (user ≫= password) in
  Write ([1; wrap_u8 (Z.of_nat (slen name))] ++ bytes_of name ++
         [wrap_u8 (Z.of_nat (slen pass))] ++ bytes_of pass) ;;
  status ← ReadFull 2;
  if negb (nth_byte 1 status =? 0) then fail (Errorf "socks: auth rejected" []) else mret tt.

Definition To16 (ip : IP) : IP :=
  if (length ip =? 4)%nat then v4_in_v6_prefix ++ ip
  else if (length ip =? 16)%nat then ip else [].

(** [binary.BigEndian.AppendUint16(req, uint16(p))]. *)
Definition be16 (p : Z) : list Z := [Z.shiftr (wrap_u16 p) 8; Z.land (wrap_u16 p) 255].

Definition connect_request (dst : TCPAddr) : list Z :=
  match To4 (IPof dst) with
  | Some ip4 => [5; 1; 0; 1] ++ ip4
  | None => [5; 1; 0; 4] ++ To16 (IPof dst)
  end ++ be16 (PortOf dst).

Definition socksRequestConnect (dst : TCPAddr) : io unit :=
  Write (connect_request dst) ;;
  head ← ReadFull 4;
  if negb (nth_byte 1 head =? 0) then
    fail (Errorf "socks: connect refused, code %#x" [itoa (nth_byte 1 head)])
  else
    addrLen ←
      (if nth_byte 3 head =? 1 then mret 4%nat
       else if nth_byte 3 head =? 4 then mret 16%nat
       else if nth_byte 3 head =? 3 then
         lenByte ← ReadFull 1; mret (Z.to_nat (nth_byte 0 lenByte))
       else fail (Errorf "socks: unknown address type %#x in reply" [itoa (nth_byte 3 head)]));
    Discard (addrLen + 2).

Definition socksHandshake (be : socksBackend) (dst : TCPAddr) : io unit :=
  let methods := if bool_decide (User (be_url be) = None) then [0] else [2] in
  Write ([5; Z.of_nat (length methods)] ++ methods) ;;
  reply ← ReadFull 2;
  if negb (nth_byte 0 reply =? 5) then
    fail (Errorf "socks: bad version %#x in method reply" [itoa (nth_byte 0 reply)])
  else
    (if nth_byte 1 reply =? 0 then mret tt
     else if nth_byte 1 reply =? 2 then socksAuth (User (be_url be))
     else fail (Errorf "socks: server chose unsupported method %#x" [itoa (nth_byte 1 reply)])) ;;
    socksRequestConnect dst.

(** ** From an accepted connection to the backend *)

(** The kernel's answer to SO_ORIGINAL_DST: four address bytes and the port
    field as a 16-bit integer in host order of its network-order bytes. *)
Record RawSockaddrInet4 := mkRaw { raw_port : Z; raw_addr : list Z }.

Definition getOriginalDst (raw : result RawSockaddrInet4) : result TCPAddr :=
  addr ← raw;
  let port := Z.lor (Z.shiftr (raw_port addr) 8) (wrap_u16 (Z.shiftl (raw_port addr) 8)) in
  Ok (mkTCPAddr (v4_in_v6_prefix ++ raw_addr addr) port).

Definition IsLoopback (ip : IP) : bool :=
  match To4 ip with
  | Some ip4 => nth_byte 0 ip4 =? 127
  | None => bool_decide (ip = replicate 15 0 ++ [1])
  end.

(** [ip.Equal(x)]: an IPv4 address equals its 16-byte form. *)
Definition IPEqual (a b : IP) : bool :=
  if (length a =? length b)%nat then bool_decide (a = b)
  else bool_decide (((length a = 4 ∧ length b = 16) ∨ (length a = 16 ∧ length b = 4))%nat
                    ∧ To16 a = To16 b).

(** What became of a client connection: dropped, having dialled or not, or
    piped to a backend connection. *)
Inductive outcome :=
  | Dropped (dialled : bool)
  | Piped (up : Conn).

Section Relay.
  (** [net.DialTimeout("tcp", host, timeout)]. *)
  Context (dial : string → Z → result Conn).

Definition socksConnect (be : socksBackend) (dst : TCPAddr) : result Conn :=
  conn ← dial (Host (be_url be)) (be_dialTimeout be);
  match socksHandshake be dst conn with
  | (Err e, _) => Err e
  | (Ok _, conn') => Ok conn'
  end.

Definition relayToDst (be : socksBackend) (dst : TCPAddr) : outcome :=
  if IsLoopback (IPof dst) then Dropped false else
  match socksConnect be dst with
  | Err _ => Dropped true
  | Ok up => Piped up
  end.

Definition relayConn (be : socksBackend) (raw : result RawSockaddrInet4) (localAddr : TCPAddr) : outcome :=
  match getOriginalDst raw with
  | Err _ => Dropped false
  | Ok dst =>
      if IPEqual (IPof dst) (IPof localAddr) && (PortOf dst =? PortOf localAddr) then Dropped false
      else relayToDst be dst
  end.
End Relay.

(** ** What a server sees *)

(** The server side of the request: a decoder of RFC 1928's CONNECT. *)
Definition decode_connect (bs : list Z) : option TCPAddr :=
  match bs with
  | 5 :: 1 :: 0 :: 1 :: a :: b :: c :: d :: hi :: [lo] =>
      Some (mkTCPAddr (v4_in_v6_prefix ++ [a; b; c; d]) (256 * hi + lo))
  | 5 :: 1 :: 0 :: 4 :: r =>
      if (length r =? 18)%nat
      then Some (mkTCPAddr (take 16 r) (256 * nth_byte 16 r + nth_byte 17 r)) else None
  | _ => None
  end.

(** The server side of RFC 1929's sub-negotiation. *)
Definition decode_auth (bs : list Z) : option (list Z * list Z) :=
  match bs with
  | 1 :: n :: r =>
      let name := take (Z.to_nat n) r in
      match drop (Z.to_nat n) r with
      | p :: pass => if (length pass =? Z.to_nat p)%nat then Some (name, pass) else None
      | [] => None
      end
  | _ => None
  end.

Definition greeting (be : socksBackend) : list Z :=
  [5; 1; if bool_decide (User (be_url be) = None) then 0 else 2].

Definition auth_message (user : option Userinfo) : list Z :=
  let name := default "" (username <$> user) in
  let pass := default "" (user ≫= password) in
  [1; wrap_u8 (Z.of_nat (slen name))] ++ bytes_of name ++
  [wrap_u8 (Z.of_nat (slen pass))] ++ bytes_of pass.

(** The bound address of a reply, by its type octet. *)
Inductive bound_addr : Z → list Z → Prop :=
  | bound_v4 a : length a = 4%nat → bound_addr 1 a
  | bound_v6 a : length a = 16%nat → bound_addr 4 a
  | bound_domain n a : length a = Z.to_nat n → bound_addr 3 (n :: a).

(** The server's half of an accepted handshake, before any relayed byte, and
    what the client says in answer after its greeting. *)
Inductive accepts (be : socksBackend) (dst : TCPAddr) : list Z → list Z → Prop :=
  | acc_noauth ver rsv atyp addr port :
      bound_addr atyp addr → length port = 2%nat →
      accepts be dst ([5; 0] ++ [ver; 0; rsv; atyp] ++ addr ++ port) (connect_request dst)
  | acc_auth v ver rsv atyp addr port :
      bound_addr atyp addr → length port = 2%nat →
      accepts be dst ([5; 2] ++ [v; 0] ++ [ver; 0; rsv; atyp] ++ addr ++ port)
              (auth_message (User (be_url be)) ++ connect_request dst).

(** ** Steps of a connection *)

Lemma io_bind_Ok {A B} (m : io A) (f : A → io B) c b c' :
  (m ≫= f) c = (Ok b, c') ↔ ∃ a c1, m c = (Ok a, c1) ∧ f a c1 = (Ok b, c').
Proof.
  unfold mbind, io_bind. destruct (m c) as [[a|e] c1]; naive_solver.
Qed.

Lemma Write_Ok bs i o u c' :
  Write bs (mkConn i o None) = (Ok u, c') ↔ c' = mkConn i (o ++ bs) None.
Proof. unfold Write. destruct u. naive_solver. Qed.

Lemma ReadFull_Ok n i o w bs c' :
  ReadFull n (mkConn i o w) = (Ok bs, c') ↔
  ∃ r, i = bs ++ r ∧ length bs = n ∧ c' = mkConn r o w.
Proof.
  unfold ReadFull. simpl. destruct (Nat.leb_spec n (length i)) as [Hl|Hl].
  - split.
    + intros [= <- <-]. exists (drop n i). rewrite take_drop, length_take. split_and!; auto with lia.
    + intros (r&->&<-&->). by rewrite take_app_length, drop_app_length.
  - split; [done|]. intros (r&->&<-&_). rewrite length_app in Hl. lia.
Qed.

Lemma Discard_Ok n i o w u c' :
  Discard n (mkConn i o w) = (Ok u, c') ↔
  ∃ bs r, i = bs ++ r ∧ length bs = n ∧ c' = mkConn r o w.
Proof.
  unfold Discard. simpl. destruct u, (Nat.leb_spec n (length i)) as [Hl|Hl].
  - split.
    + intros [= <-]. exists (take n i), (drop n i). rewrite take_drop, length_take. split_and!; auto with lia.
    + intros (bs&r&->&<-&->). by rewrite drop_app_length.
  - split; [done|]. intros (bs&r&->&<-&_). rewrite length_app in Hl. lia.
Qed.

Lemma list2 {A} (l : list A) : length l = 2%nat → ∃ a b, l = [a; b].
Proof. destruct l as [|a [|b [|]]]; simpl; try lia. eauto. Qed.
Lemma list4 {A} (l : list A) : length l = 4%nat → ∃ a b c d, l = [a; b; c; d].
Proof. destruct l as [|a [|b [|c [|d [|]]]]]; simpl; try lia. eauto 6. Qed.
Lemma list1 {A} (l : list A) : length l = 1%nat → ∃ a, l = [a].
Proof. destruct l as [|a [|]]; simpl; try lia. eauto. Qed.

Lemma app_split_length {A} n m (l : list A) : length l = (n + m)%nat →
  ∃ a b, l = a ++ b ∧ length a = n ∧ length b = m.
Proof.
  intros H. exists (take n l), (drop n l). rewrite take_drop, length_take, length_drop. split; [done|lia].
Qed.

(** The CONNECT exchange on its own. *)
Lemma socksRequestConnect_Ok dst i o u c' :
  socksRequestConnect dst (mkConn i o None) = (Ok u, c') ↔
  ∃ ver rsv atyp addr port r, bound_addr atyp addr ∧ length port = 2%nat ∧
    i = [ver; 0; rsv; atyp] ++ addr ++ port ++ r ∧
    c' = mkConn r (o ++ connect_request dst) None.
Proof.
  unfold socksRequestConnect. rewrite io_bind_Ok. split.
  - intros ([]&c1&->%Write_Ok&H).
    apply io_bind_Ok in H as (head&c2&(r1&->&Hh&->)%ReadFull_Ok&H).
    destruct (list4 _ Hh) as (ver&rep&rsv&atyp&->). unfold nth_byte in H; simpl in H.
    destruct (Z.eqb_spec rep 0) as [->|]; [|done].
    apply io_bind_Ok in H as (len&c3&Hlen&H).
    assert (∃ pre r2, r1 = pre ++ r2 ∧ c3 = mkConn r2 (o ++ connect_request dst) None ∧
             ∀ a, length a = len → bound_addr atyp (pre ++ a)) as (pre&r2&->&->&Hb).
    { destruct (Z.eqb_spec atyp 1) as [->|].
      { injection Hlen as <- <-. exists [], r1. split_and!; try done. intros a Ha. by constructor. }
      destruct (Z.eqb_spec atyp 4) as [->|].
      { injection Hlen as <- <-. exists [], r1. split_and!; try done. intros a Ha. by constructor. }
      destruct (Z.eqb_spec atyp 3) as [->|]; [|done].
      apply io_bind_Ok in Hlen as (lb&c4&(r2&->&Hl&->)%ReadFull_Ok&Hlen).
      destruct (list1 _ Hl) as [nn ->]. injection Hlen as <- <-.
      exists [nn], r2. split_and!; try done. intros a Ha. by constructor. }
    apply Discard_Ok in H as (bs&r&->&Hbs&->).
    apply app_split_length in Hbs as (a&port&->&Ha&Hp).
    exists ver, rsv, atyp, (pre ++ a), port, r. split_and!; auto.
    by rewrite <-!app_assoc.
  - intros (ver&rsv&atyp&addr&port&r&Hb&Hp&->&->).
    exists tt, (mkConn ([ver; 0; rsv; atyp] ++ addr ++ port ++ r) (o ++ connect_request dst) None).
    split; [by apply Write_Ok|]. apply io_bind_Ok.
    exists [ver; 0; rsv; atyp], (mkConn (addr ++ port ++ r) (o ++ connect_request dst) None).
    split; [apply ReadFull_Ok; eauto|]. unfold nth_byte; simpl. apply io_bind_Ok. destruct u.
    destruct Hb as [a Ha|a Ha|n a Ha]; simpl.
    + exists 4%nat. eexists. split; [done|]. apply Discard_Ok. exists (a ++ port), r.
      rewrite length_app, <-app_assoc. split_and!; auto; lia.
    + exists 16%nat. eexists. split; [done|]. apply Discard_Ok. exists (a ++ port), r.
      rewrite length_app, <-app_assoc. split_and!; auto; lia.
    + exists (Z.to_nat n), (mkConn (a ++ port ++ r) (o ++ connect_request dst) None).
      split; [apply io_bind_Ok; exists [n]; eexists; split; [apply ReadFull_Ok; eauto|done]|].
      apply Discard_Ok. exists (a ++ port), r.
      rewrite length_app, <-app_assoc. split_and!; auto; lia.
Qed.

Lemma socksAuth_Ok user i o u c' :
  socksAuth user (mkConn i o None) = (Ok u, c') ↔
  ∃ v r, i = [v; 0] ++ r ∧ c' = mkConn r (o ++ auth_message user) None.
Proof.
  unfold socksAuth. rewrite io_bind_Ok. split.
  - intros ([]&c1&->%Write_Ok&H).
    apply io_bind_Ok in H as (st&c2&(r1&->&Hh&->)%ReadFull_Ok&H).
    destruct (list2 _ Hh) as (v&st2&->). unfold nth_byte in H; simpl in H.
    destruct (Z.eqb_spec st2 0) as [Es|]; [|done]. injection H as _ <-. subst. by exists v, r1.
  - intros (v&r&->&->). eexists tt, _. split; [by apply Write_Ok|].
    apply io_bind_Ok. exists [v; 0]. eexists. split; [apply ReadFull_Ok; eauto|]. by destruct u.
Qed.

(** * Claims *)

(** C23: on a connection whose writes succeed, the handshake succeeds exactly
    when the server's bytes start with an accepting SOCKS5 exchange (method
    choice, an accepted sub-negotiation when it asks for one, a CONNECT reply
    of any address type); it has then written exactly the greeting and the
    answers, and consumed exactly the server's half, so no relayed byte is
    lost or added. *)
Theorem socksHandshake_correct be dst i o c' :
  socksHandshake be dst (mkConn i o None) = (Ok tt, c') ↔
  ∃ srv said r, accepts be dst srv said ∧ i = srv ++ r ∧
                c' = mkConn r (o ++ greeting be ++ said) None.
Proof.
  assert ([5; Z.of_nat (length (if bool_decide (User (be_url be) = None) then [0] else [2]))] ++
          (if bool_decide (User (be_url be) = None) then [0] else [2]) = greeting be) as Hg.
  { unfold greeting. by case_bool_decide. }
  unfold socksHandshake. rewrite Hg, io_bind_Ok. split.
  - intros ([]&c1&->%Write_Ok&H).
    apply io_bind_Ok in H as (reply&c2&(r1&->&Hh&->)%ReadFull_Ok&H).
    destruct (list2 _ Hh) as (v&m&->). unfold nth_byte in H; simpl in H.
    destruct (Z.eqb_spec v 5) as [->|]; [|done]. simpl in H.
    apply io_bind_Ok in H as (u&c3&Hm&H).
    destruct (Z.eqb_spec m 0) as [->|].
    { injection Hm as _ <-. apply socksRequestConnect_Ok in H as (ver&rsv&atyp&addr&port&r&Hb&Hp&->&->).
      eexists _, _, r. split; [exact (acc_noauth be dst ver rsv atyp addr port Hb Hp)|].
      by rewrite <-!app_assoc. }
    destruct (Z.eqb_spec m 2) as [->|]; [|done].
    apply socksAuth_Ok in Hm as (s&r&->&->).
    apply socksRequestConnect_Ok in H as (ver&rsv&atyp&addr&port&r2&Hb&Hp&->&->).
    eexists _, _, r2. split; [exact (acc_auth be dst s ver rsv atyp addr port Hb Hp)|].
    by rewrite <-!app_assoc.
  - intros (srv&said&r&Hacc&->&->).
    destruct Hacc as [ver rsv atyp addr port Hb Hp|v ver rsv atyp addr port Hb Hp];
      eexists tt, _; (split; [by apply Write_Ok|]); apply io_bind_Ok;
      eexists [5; _], _; (split; [apply ReadFull_Ok; eexists; rewrite <-!app_assoc; eauto|]);
      unfold nth_byte; simpl; apply io_bind_Ok; exists tt.
    + eexists. split; [done|]. apply socksRequestConnect_Ok.
      exists ver, rsv, atyp, addr, port, r. split; [exact Hb|]. split; [exact Hp|].
      split; [done|]. unfold greeting, auth_message; simpl.
      by rewrite <-?app_assoc; simpl; rewrite <-?app_assoc.
    + eexists. split; [by apply socksAuth_Ok; eauto|]. apply socksRequestConnect_Ok.
      exists ver, rsv, atyp, addr, port, r. split; [exact Hb|]. split; [exact Hp|].
      split; [done|]. unfold greeting, auth_message; simpl.
      by rewrite <-?app_assoc; simpl; rewrite <-?app_assoc.
Qed.
Lemma port_swap b0 b1 : 0 ≤ b0 < 256 → 0 ≤ b1 < 256 →
  Z.lor (Z.shiftr (b0 + 256 * b1) 8) (wrap_u16 (Z.shiftl (b0 + 256 * b1) 8)) = 256 * b0 + b1.
Proof.
  intros H0 H1. rewrite Z.shiftr_div_pow2, Z.shiftl_mul_pow2 by lia.
  replace ((b0 + 256 * b1) / 2 ^ 8) with b1 by (change (2 ^ 8) with 256; Z.div_mod_to_equations; lia).
  replace (wrap_u16 ((b0 + 256 * b1) * 2 ^ 8)) with (b0 * 2 ^ 8).
  - rewrite lor_byte_shift by lia. lia.
  - unfold wrap_u16. change (2 ^ 16) with 65536. change (2 ^ 8) with 256.
    Z.div_mod_to_equations; lia.
Qed.

Lemma be16_value p : 0 ≤ p < 65536 → ∃ hi lo, be16 p = [hi; lo] ∧ 256 * hi + lo = p.
Proof.
  intros Hp. exists (p / 256), (p mod 256). unfold be16, wrap_u16.
  rewrite (Z.mod_small p) by lia. rewrite Z.shiftr_div_pow2 by lia.
  change 255 with (Z.ones 8). rewrite Z.land_ones by lia. change (2 ^ 8) with 256.
  split; [done|]. Z.div_mod_to_equations; lia.
Qed.

Definition canonical (ip : IP) : Prop := length ip = 4%nat ∨ length ip = 16%nat.

Lemma To16_To4 ip q : To4 ip = Some q → canonical ip →
  length q = 4%nat ∧ To16 ip = v4_in_v6_prefix ++ q.
Proof.
  unfold To4, To16. intros H [Hl|Hl]; rewrite Hl in *; cbn [Nat.eqb andb] in *.
  { by injection H as <-. }
  destruct (bool_decide _) eqn:E; [|done]. injection H as <-. bprop.
  rewrite length_drop, Hl. split; [done|]. by rewrite <-E, take_drop.
Qed.

Lemma To16_length ip : canonical ip → length (To16 ip) = 16%nat.
Proof. unfold To16. intros [Hl|Hl]; rewrite Hl; cbn [Nat.eqb]; [|done]. by rewrite length_app, Hl. Qed.

Lemma length_bytes_of s : length (bytes_of s) = slen s.
Proof. unfold bytes_of. by rewrite length_fmap, length_chars. Qed.

(** What the client writes is what a SOCKS5 server reads: the CONNECT
    request decodes to exactly the destination address and port, and the
    credentials message to exactly the URL's user name and password, as long
    as neither exceeds the 255 bytes its one-byte length can say. *)
Theorem request_roundtrip dst ui (Hip : canonical (IPof dst))
    (Hport : 0 ≤ PortOf dst < 65536)
    (Hname : (slen (username ui) ≤ 255)%nat)
    (Hpass : (slen (default "" (password ui)) ≤ 255)%nat) :
  decode_connect (connect_request dst) = Some (mkTCPAddr (To16 (IPof dst)) (PortOf dst)) ∧
  decode_auth (auth_message (Some ui)) =
    Some (bytes_of (username ui), bytes_of (default "" (password ui))).
Proof.
  split.
  - unfold connect_request. destruct (be16_value _ Hport) as (hi&lo&->&Hv).
    destruct (To4 (IPof dst)) as [q|] eqn:E.
    + apply To16_To4 in E as [Hq ->]; [|done]. destruct (list4 _ Hq) as (a&b&c&d&->).
      simpl. by rewrite Hv.
    + pose proof (To16_length _ Hip) as Hl. cbn [decode_connect app].
      rewrite length_app, Hl. cbn [length Nat.add Nat.eqb].
      unfold nth_byte. rewrite <-Hl at 1. rewrite take_app_length.
      rewrite !lookup_app_r by lia. rewrite Hl. simpl. by rewrite Hv.
  - unfold auth_message; simpl. set (n := username ui). set (p := default "" (password ui)).
    unfold wrap_u8. rewrite !Z.mod_small by (subst n p; lia). rewrite !Nat2Z.id.
    rewrite <-(length_bytes_of n) at 1. rewrite drop_app_length.
    rewrite Nat2Z.id, length_bytes_of, Nat.eqb_refl.
    rewrite <-(length_bytes_of n) at 1. by rewrite take_app_length.
Qed.

(** A client connection is dialled out only for a redirected, non-loopback
    destination, and relayed only over a backend that completed the handshake
    for exactly that destination; a failed SO_ORIGINAL_DST, a direct
    connection to the relay's own address and a loopback destination never
    reach the dialer. *)
Theorem relayConn_guard dial be raw here :
  (∀ up, relayConn dial be raw here = Piped up →
     ∃ dst conn, getOriginalDst raw = Ok dst ∧ IsLoopback (IPof dst) = false ∧
       ¬ (IPEqual (IPof dst) (IPof here) = true ∧ PortOf dst = PortOf here) ∧
       dial (Host (be_url be)) (be_dialTimeout be) = Ok conn ∧
       socksHandshake be dst conn = (Ok tt, up)) ∧
  (relayConn dial be raw here = Dropped false ↔
     (∃ e, raw = Err e) ∨
     ∃ dst, getOriginalDst raw = Ok dst ∧
       (IsLoopback (IPof dst) = true ∨
        IPEqual (IPof dst) (IPof here) = true ∧ PortOf dst = PortOf here)) ∧
  (∀ b0 b1 ip, 0 ≤ b0 < 256 → 0 ≤ b1 < 256 →
     getOriginalDst (Ok (mkRaw (b0 + 256 * b1) ip)) =
       Ok (mkTCPAddr (v4_in_v6_prefix ++ ip) (256 * b0 + b1))).
Proof.
  split; [|split].
  - intros up. unfold relayConn. destruct (getOriginalDst raw) as [dst|]; [|done].
    destruct (_ && _) eqn:Eg; [done|]. unfold relayToDst.
    destruct (IsLoopback _) eqn:El; [done|]. unfold socksConnect.
    destruct (dial _ _) as [conn|] eqn:Ed; simpl; [|done].
    destruct (socksHandshake be dst conn) as [[[]|] conn'] eqn:Eh; [|done].
    intros [= <-]. exists dst, conn. split_and!; try done.
    intros [H1 H2]. by rewrite H1, H2, Z.eqb_refl in Eg.
  - unfold relayConn. destruct raw as [a|e]; simpl; [|naive_solver].
    destruct (_ && _) eqn:Eg; bprop; [naive_solver|]. unfold relayToDst.
    destruct (IsLoopback _) eqn:El; [naive_solver|].
    split; [by destruct (socksConnect _ _ _)|]. naive_solver congruence.
  - intros b0 b1 ip H0 H1. cbn. f_equal. f_equal. by apply port_swap.
Qed.

(** ** Witness *)

Lemma request_roundtrip_witness :
  decode_connect (connect_request (mkTCPAddr [93; 184; 216; 34] 443)) =
    Some (mkTCPAddr (To16 [93; 184; 216; 34]) 443) ∧
  decode_auth (auth_message (Some (mkUserinfo "user" (Some "s3cret")))) =
    Some (bytes_of "user", bytes_of "s3cret").
Proof.
  apply (request_roundtrip (mkTCPAddr [93; 184; 216; 34] 443) (mkUserinfo "user" (Some "s3cret")));
    [by left|simpl; lia|simpl; lia|simpl; lia].
Defined.

End socks.
