(* ===== verification/Pump.v ===== *)
(** * Pump: the two directions of a relayed connection (internal/upstream/socks.go, [pipe])

    Two goroutines copy between a client's connection and the upstream's. A
    labelled transition system over what arrives, what the peers take, and the
    copiers' reads and writes, in any order. *)

From S2P Require Import Prelude GoStr.

Module pump.

(** A connection: what has arrived on it and is not read yet, whether its peer
    will send no more, how many writes the peer's window still takes, what has
    been written, all that ever arrived, and whether we have closed it. *)
Record Conn := mkConn { inbox : list string; eof : bool; room : nat; sent : list string; got : list string; closed : bool }.

Inductive copier := Reading | Writing (chunk : string) | Done.

Definition take_in (rest : list string) (c : Conn) : Conn := mkConn rest (eof c) (room c) (sent c) (got c) (closed c).
Definition put_out (chunk : string) (n : nat) (c : Conn) : Conn := mkConn (inbox c) (eof c) n (sent c ++ [chunk]) (got c) (closed c).
Definition Close (c : Conn) : Conn := mkConn (inbox c) (eof c) (room c) (sent c) (got c) true.
Definition arrive (chunk : string) (c : Conn) : Conn := mkConn (inbox c ++ [chunk]) (eof c) (room c) (sent c) (got c ++ [chunk]) (closed c).
Definition finish (c : Conn) : Conn := mkConn (inbox c) true (room c) (sent c) (got c) (closed c).
Definition drain (c : Conn) : Conn := mkConn (inbox c) (eof c) (S (room c)) (sent c) (got c) (closed c).

(** [io.Copy(dst, src)], one read or one write; [None] while it blocks. A
    connection closed here fails at once, a blocked call on it too. *)
Definition copy_step (src dst : Conn) (k : copier) : option (Conn * Conn * copier) :=
  match k with
  | Reading =>
      if closed src then Some (src, dst, Done) else
      match inbox src with
      | chunk :: rest => Some (take_in rest src, dst, Writing chunk)
      | [] => if eof src then Some (src, dst, Done) else None
      end
  | Writing chunk =>
      if closed dst then Some (src, dst, Done) else
      match room dst with
      | S n => Some (src, put_out chunk n dst, Reading)
      | O => None
      end
  | Done => None
  end.

(** [pipe(a, b)]: the goroutine copies from [a] to [b], and closes [b] after
    it; the caller from [b] to [a], and closes both. *)
Record Pipe := mkPipe { ca : Conn; cb : Conn; fwd : copier; main : copier }.

Definition fwd_step (p : Pipe) : option Pipe :=
  '(a, b, k) ← copy_step (ca p) (cb p) (fwd p);
  Some (mkPipe a (match k with Done => Close b | _ => b end) k (main p)).
Definition main_step (p : Pipe) : option Pipe :=
  '(b, a, k) ← copy_step (cb p) (ca p) (main p);
  Some (match k with Done => mkPipe (Close a) (Close b) (fwd p) k | _ => mkPipe a b (fwd p) k end).

(** The peers: data or its end arrives, the window opens. *)
Inductive label := Fwd | Main | ArriveA (chunk : string) | ArriveB (chunk : string) | FinishA | FinishB | DrainA | DrainB.

Definition fire (l : label) (p : Pipe) : option Pipe :=
  match l with
  | Fwd => fwd_step p
  | Main => main_step p
  | ArriveA c => if eof (ca p) then None else Some (mkPipe (arrive c (ca p)) (cb p) (fwd p) (main p))
  | ArriveB c => if eof (cb p) then None else Some (mkPipe (ca p) (arrive c (cb p)) (fwd p) (main p))
  | FinishA => Some (mkPipe (finish (ca p)) (cb p) (fwd p) (main p))
  | FinishB => Some (mkPipe (ca p) (finish (cb p)) (fwd p) (main p))
  | DrainA => Some (mkPipe (drain (ca p)) (cb p) (fwd p) (main p))
  | DrainB => Some (mkPipe (ca p) (drain (cb p)) (fwd p) (main p))
  end.
Definition step (p p' : Pipe) : Prop := ∃ l, fire l p = Some p'.
Fixpoint fires (ls : list label) (p : Pipe) : option Pipe :=
  match ls with [] => Some p | l :: ls => p' ← fire l p; fires ls p' end.

Definition fresh_conn (n : nat) : Conn := mkConn [] false n [] [] false.
Definition initial (p : Pipe) : Prop := ∃ n m, p = mkPipe (fresh_conn n) (fresh_conn m) Reading Reading.
Definition Reachable : Pipe → Prop := reachable initial step.

(** ** The invariant *)

Definition inflight (k : copier) : list string := match k with Writing c => [c] | _ => [] end.

(** A direction neither loses, repeats nor reorders: what came is what was
    written, then what is being written, then what waits; once its copier has
    ended, something may stay behind. *)
Definition relays (src dst : Conn) (k : copier) : Prop :=
  ∃ rest, got src = sent dst ++ rest ∧ (k ≠ Done → rest = inflight k ++ inbox src).

Record Inv (p : Pipe) : Prop := {
  inv_fwd : relays (ca p) (cb p) (fwd p);
  inv_main : relays (cb p) (ca p) (main p);
  inv_fwd_done : fwd p = Done → closed (cb p) = true;
  inv_main_done : main p = Done → closed (ca p) = true ∧ closed (cb p) = true;
  inv_open : closed (ca p) = true → main p = Done }.

Lemma copy_relays src dst k src' dst' k' : relays src dst k → copy_step src dst k = Some (src', dst', k') →
  relays src' dst' k' ∧ closed src' = closed src ∧ closed dst' = closed dst ∧
  got dst' = got dst ∧ inbox dst' = inbox dst ∧ sent src' = sent src.
Proof.
  intros (rest&Hg&Hr). destruct k as [|c|]; cbn; [| |done].
  - destruct (closed src) eqn:Ecs; [intros [= <- <- <-]; split_and!; try done; by exists rest|].
    destruct (inbox src) as [|c r] eqn:Ei.
    + destruct (eof src); [|done]. intros [= <- <- <-]. split_and!; try done. by exists rest.
    + intros [= <- <- <-]. split_and!; try done. exists rest. split; [done|]. intros _. by rewrite Hr.
  - destruct (closed dst) eqn:Ecd; [intros [= <- <- <-]; split_and!; try done; by exists rest|].
    destruct (room dst) as [|n]; [done|]. intros [= <- <- <-]. split_and!; try done.
    exists (inbox src). cbn. split; [|done]. rewrite Hg, Hr by done. cbn. by rewrite <-app_assoc.
Qed.

(** What a step of the other direction may change leaves this one. *)
Lemma relays_frame src dst src' dst' k : relays src dst k → got src' = got src → inbox src' = inbox src → sent dst' = sent dst →
  relays src' dst' k.
Proof. intros (rest&Hg&Hr) E1 E2 E3. exists rest. by rewrite E1, E2, E3. Qed.

Lemma step_inv p p' : Inv p → step p p' → Inv p'.
Proof.
  intros [If Im Ifd Imd Io] [l Hl]. destruct l as [| |c|c| | | |]; cbn in Hl.
  - unfold fwd_step in Hl. destruct (copy_step _ _ _) as [[[a b] k]|] eqn:E; [|done]. injection Hl as <-.
    destruct (copy_relays _ _ _ _ _ _ If E) as (R&Ca&Cb&G&I&S). split; cbn.
    + destruct k; [done|done|]. by eapply relays_frame.
    + destruct k; by eapply relays_frame.
    + by intros ->.
    + rewrite Ca. intros Hm. destruct (Imd Hm) as [? ?]. split; [done|]. destruct k; cbn; congruence.
    + rewrite Ca. exact Io.
  - unfold main_step in Hl. destruct (copy_step _ _ _) as [[[b a] k]|] eqn:E; [|done]. injection Hl as <-.
    destruct (copy_relays _ _ _ _ _ _ Im E) as (R&Cb&Ca&G&I&S).
    assert (main p ≠ Done) as Hm by (intros Hm; by rewrite Hm in E).
    destruct k; split; cbn; try done; try (by eapply relays_frame); rewrite ?Ca, ?Cb; try done; intros Hx; naive_solver.
  - destruct (eof _); [done|]. injection Hl as <-. destruct If as (rest&Hg&Hr). split; cbn; try done.
    exists (rest ++ [c]). cbn. rewrite Hg, app_assoc. split; [done|]. intros Hk. by rewrite Hr, app_assoc.
  - destruct (eof _); [done|]. injection Hl as <-. destruct Im as (rest&Hg&Hr). split; cbn; try done.
    exists (rest ++ [c]). cbn. rewrite Hg, app_assoc. split; [done|]. intros Hk. by rewrite Hr, app_assoc.
  - injection Hl as <-. by split.
  - injection Hl as <-. by split.
  - injection Hl as <-. by split.
  - injection Hl as <-. by split.
Qed.

Lemma Reachable_inv p : Reachable p → Inv p.
Proof.
  apply reachable_invariant; [|apply step_inv]. intros s (n&m&->). split; cbn; try done; by exists [].
Qed.

(** ** What [pipe] does *)

Definition copiers (ls : list label) : Prop := Forall (λ l, l = Fwd ∨ l = Main) ls.
Definition over (p : Pipe) : Prop := fwd p = Done ∧ main p = Done ∧ closed (ca p) = true ∧ closed (cb p) = true.

(** The caller is stuck writing to a client that takes nothing. *)
Definition stuck (p : Pipe) : Prop := (∃ c, main p = Writing c) ∧ room (ca p) = O ∧ closed (ca p) = false.

(** C40: Both directions deliver what arrived, in order, without loss or
    repetition up to where they end; and once either has ended, at most two
    steps of the copiers alone, whatever the peers do, end both and close both
    connections, unless the caller is stuck writing to a client that has
    stopped reading. *)
Theorem pipe_relays p (Hp : Reachable p) :
  (sent (cb p) `prefix_of` got (ca p) ∧ sent (ca p) `prefix_of` got (cb p)) ∧
  (fwd p = Done ∨ main p = Done → ¬ stuck p →
    ∃ ls p', copiers ls ∧ (length ls ≤ 2)%nat ∧ fires ls p = Some p' ∧ over p').
Proof.
  destruct (Reachable_inv p Hp) as [(r1&G1&_) (r2&G2&_) Ifd Imd Io]. split; [split; by eexists|].
  intros Hdone Hs. destruct (main p) as [|c|] eqn:Em.
  - destruct Hdone as [Hd|]; [|done]. exists [Main]. eexists. split_and!; [by repeat constructor; right|cbn; lia| |].
    + cbn. unfold main_step. rewrite Em. cbn. rewrite (Ifd Hd). done.
    + done.
  - destruct Hdone as [Hd|]; [|done]. destruct (closed (ca p)) eqn:Ec; [by specialize (Io eq_refl)|].
    destruct (room (ca p)) as [|n] eqn:Er; [by destruct Hs; split_and!; [exists c|..]|].
    exists [Main; Main]. eexists. split_and!; [repeat constructor; by right|cbn; lia| |].
    + cbn. unfold main_step. rewrite Em. cbn. rewrite Ec, Er. cbn. rewrite (Ifd Hd). done.
    + done.
  - destruct (Imd eq_refl) as [Ca Cb]. destruct (fwd p) as [|c|] eqn:Ef.
    + exists [Fwd]. eexists. split_and!; [by repeat constructor; left|cbn; lia| |].
      * cbn. unfold fwd_step. rewrite Ef. cbn. rewrite Ca. done.
      * by rewrite Em.
    + exists [Fwd]. eexists. split_and!; [by repeat constructor; left|cbn; lia| |].
      * cbn. unfold fwd_step. rewrite Ef. cbn. rewrite Cb. done.
      * by rewrite Em.
    + exists [], p. split_and!; [constructor|cbn; lia|done|done].
Qed.

(** [relayLoop]: one goroutine for each connection accepted, until the
    listener is closed. *)
Fixpoint relayLoop {C} (accepts : list (option C)) : list C :=
  match accepts with
  | Some c :: accepts => c :: relayLoop accepts
  | None :: _ | [] => []
  end.

(** ** Concrete runs *)

Lemma fires_Reachable ls p p' : Reachable p → fires ls p = Some p' → Reachable p'.
Proof.
  revert p. induction ls as [|l ls IH]; intros p Hp; cbn; [by intros [= <-]|].
  destruct (fire l p) as [p1|] eqn:E; [|done]. apply IH. eapply reachable_step; [done|]. by exists l.
Qed.

Definition start (n m : nat) : Pipe := mkPipe (fresh_conn n) (fresh_conn m) Reading Reading.
Lemma start_reachable n m : Reachable (start n m).
Proof. exists (start n m). split; [by exists n, m|constructor]. Qed.

(** A request, half of its answer, and the client hangs up. *)
Definition hangs_up : list label := [ArriveA "GET /"; Fwd; Fwd; ArriveB "200"; Main; FinishA; Fwd; ArriveB "body"].
Definition hung_up : Pipe := default (start 1 1) (fires hangs_up (start 1 1)).
Definition stops_reading : list label := [ArriveB "body"; Main; FinishA; Fwd].

Lemma pipe_relays_witness :
  (sent (cb hung_up) `prefix_of` got (ca hung_up) ∧ sent (ca hung_up) `prefix_of` got (cb hung_up)) ∧
  fwd hung_up = Done ∧ ∃ ls p', copiers ls ∧ (length ls ≤ 2)%nat ∧ fires ls hung_up = Some p' ∧ over p'.
Proof.
  assert (Reachable hung_up) as Hp by (apply (fires_Reachable hangs_up (start 1 1)); [apply start_reachable|vm_compute; reflexivity]).
  destruct (pipe_relays hung_up Hp) as [H1 H2]. split; [exact H1|]. split; [reflexivity|]. apply H2; [left; reflexivity|].
  intros (_&H&_). discriminate H.
Defined.

(** A client that stops reading and then ends its side keeps the caller, and
    both descriptors: the goroutine that ends closes the upstream's connection
    only, and no step of the copiers is left. *)
Example stuck_for_good : ∃ p, Reachable p ∧ stuck p ∧ fwd p = Done ∧ fwd_step p = None ∧ main_step p = None.
Proof.
  exists (default (start 0 1) (fires stops_reading (start 0 1))). split_and!; try done.
  - apply (fires_Reachable stops_reading (start 0 1)); [apply start_reachable|by vm_compute].
  - split; [by exists "body"|done].
Qed.
End pump.
