(* ===== verification/Upstream.v ===== *)
(** * Upstream: the upstream configuration (src/internal/upstream/upstream.go)

    The configuration record and its pure operations: [Validate] against a
    declarative specification, the copy-mutate-validate operations the API
    and CLI edit it through, the ip(8) argument lists of the reserved band and
    the nft ruleset text. [UpstreamApply] runs them against the host. *)

From Stdlib Require Import Ascii.
From S2P Require Import Prelude GoStr NetIP GoURL Names.

Module upstream.

(** ** Data *)

Definition tableBase : Z := 100.
Definition maxUpstreams : nat := 64.
Definition rulePrioBase : Z := 20000.
Definition socksPortBase : Z := 20000.
Definition nftTable : string := "ovcp-upstreams".
Definition preroutingChain : string := "ovcp-prerouting".
Definition postroutingChain : string := "ovcp-postrouting".
Definition redirectChain : string := "ovcp-redirect".

Record Upstream := mkUpstream {
  ID : string; Iface : string; Gateway : string; SOCKS : string;
  DialTimeout : Z; HandshakeTimeout : Z; Table : Z; Description : string }.

#[export] Instance Upstream_eq_dec : EqDecision Upstream.
Proof. solve_decision. Defined.

Definition no_upstream : Upstream := mkUpstream "" "" "" "" 0 0 0 "".

(** The nil map and the empty map agree in every operation of the code. *)
Record Config := mkConfig {
  Upstreams : list Upstream; Default : string; PerCN : gmap string string }.

Definition IsSOCKS (u : Upstream) : bool := negb (String.eqb (SOCKS u) "").
Definition socksPort (u : Upstream) : Z := socksPortBase + (Table u - tableBase).

(** ** Host state the package reads: the environment and live interfaces *)

Definition Enabled (getenv : string → string) (backendPath : string) : bool :=
  negb (String.eqb backendPath "") && negb (String.eqb (getenv "OVCP_UPSTREAMS_ENABLED") "false").

Section Liveness.
  Context (ifaceExists : string → bool).

Definition IsUp (u : Upstream) : bool := IsSOCKS u || ifaceExists (Iface u).

Definition DownIDs (ups : list Upstream) : list string :=
  ID <$> List.filter (λ u, negb (IsUp u)) ups.

Definition Warning (ups : list Upstream) : string :=
  match DownIDs ups with
  | [] => ""
  | down => "unreachable (iface down): " +:+ join ", " down
  end.
End Liveness.

(** ** Lookups *)

Definition Resolve (c : Config) (cn : string) : string :=
  match PerCN c !! cn with Some id => id | None => Default c end.

Definition Find (c : Config) (id : string) : option Upstream :=
  List.find (λ u, String.eqb (ID u) id) (Upstreams c).

(** ** Allocation of table slots *)

Definition NextTable (existing : list Upstream) : result Z :=
  let used : gset Z := list_to_set (Table <$> existing) in
  match List.find (λ t, negb (bool_decide (t ∈ used)))
                  ((λ i, tableBase + Z.of_nat i) <$> seq 0 maxUpstreams) with
  | Some t => Ok t
  | None => Err (Errorf "upstream: no free table slot (max %d upstreams)" ["64"])
  end.

(** ** Validation *)

Definition iface_first (c : ascii) : bool := is_alnum c.
Definition iface_rest (c : ascii) : bool :=
  is_alnum c || Ascii.eqb c "." || Ascii.eqb c "_" || Ascii.eqb c ":" || Ascii.eqb c "-".
Definition ifaceRe (s : string) : bool :=
  match s with
  | "" => false
  | String c s' => iface_first c && s_forallb iface_rest s' && (slen s' <=? 14)%nat
  end.

Definition validateSOCKSURL (raw : string) : result unit :=
  match Parse raw with
  | None => Err (Errorf "bad socks url: unparseable" [])
  | Some u =>
      guard_ok (String.eqb (Scheme u) "socks5")
               (Errorf "socks url must use socks5://, got %q" [Scheme u]) ;;
      guard_ok (negb (String.eqb (Hostname u) "" || String.eqb (Port u) ""))
               (Errorf "socks url needs host:port" []) ;;
      guard_ok (forallb (λ r, r.1 <=? 127) (runes raw))
               (Errorf "socks url must be ASCII" [])
  end.

Definition RedactSOCKS (raw : string) : string :=
  if String.eqb raw "" then "" else
  match Parse raw with
  | None => raw
  | Some u =>
      match User u with
      | None => raw
      | Some ui =>
          match password ui with
          | None => raw
          | Some _ => url_string (with_user u (mkUserinfo (username ui) (Some "***")))
          end
      end
  end.

(** The loop body's checks on [u] alone, by mode. *)
Definition validate_mode (u : Upstream) : result unit :=
  if IsSOCKS u then
    guard_ok (String.eqb (Iface u) "" && String.eqb (Gateway u) "")
             (Errorf "upstream: %q: socks is mutually exclusive with iface/gateway" [ID u]) ;;
    match validateSOCKSURL (SOCKS u) with
    | Ok _ => Ok tt
    | Err e => Err (Wrapf "upstream: %q: %w" [ID u] e)
    end ;;
    guard_ok (negb ((DialTimeout u <? 0) || (HandshakeTimeout u <? 0)))
             (Errorf "upstream: %q: timeouts must not be negative" [ID u])
  else
    guard_ok (ifaceRe (Iface u)) (Errorf "upstream: %q: invalid iface %q" [ID u; Iface u]) ;;
    guard_ok (String.eqb (Gateway u) "" || bool_decide (is_Some (ParseIP (Gateway u))))
             (Errorf "upstream: %q: bad gateway %q" [ID u; Gateway u]) ;;
    guard_ok ((DialTimeout u =? 0) && (HandshakeTimeout u =? 0))
             (Errorf "upstream: %q: dial/handshake timeout is socks-mode only" [ID u]).

Definition in_band (t : Z) : bool :=
  (tableBase <=? t) && (t <? tableBase + Z.of_nat maxUpstreams).

(** The [for _, u := range c.Upstreams] loop: [seen] and [tables] are its maps. *)
Fixpoint validate_loop (seen : gset string) (tables : gset Z) (ups : list Upstream)
    : result (gset string) :=
  match ups with
  | [] => Ok seen
  | u :: ups' =>
      guard_ok (negb (String.eqb (ID u) "")) (Errorf "upstream: empty id" []) ;;
      CheckName "upstream: id" (ID u) ;;
      guard_ok (negb (bool_decide (ID u ∈ seen))) (Errorf "upstream: duplicate id %q" [ID u]) ;;
      validate_mode u ;;
      guard_ok (in_band (Table u))
               (Errorf "upstream: %q: table %d outside managed range [%d,%d)"
                       [ID u; itoa (Table u); "100"; "164"]) ;;
      guard_ok (negb (bool_decide (Table u ∈ tables)))
               (Errorf "upstream: %q: table %d already used" [ID u; itoa (Table u)]) ;;
      validate_loop ({[ID u]} ∪ seen) ({[Table u]} ∪ tables) ups'
  end.

(** Go ranges over the map in an unspecified order; the model takes the
    map's own. Only which of several errors is reported depends on it. *)
Definition validate_percn (seen : gset string) (m : gmap string string) : result unit :=
  match List.find (λ p, negb (bool_decide (p.2 ∈ seen))) (map_to_list m) with
  | Some (cn, id) => Err (Errorf "upstream: per-cn %q: upstream %q not defined" [cn; id])
  | None => Ok tt
  end.

Definition Validate (c : Config) : result unit :=
  seen ← validate_loop ∅ ∅ (Upstreams c);
  guard_ok (String.eqb (Default c) "" || bool_decide (Default c ∈ seen))
           (Errorf "upstream: default %q not defined" [Default c]) ;;
  validate_percn seen (PerCN c).

(** ** Edits *)

Definition set_table (u : Upstream) (t : Z) : Upstream :=
  mkUpstream (ID u) (Iface u) (Gateway u) (SOCKS u) (DialTimeout u) (HandshakeTimeout u) t (Description u).

(** Go's three results: the configuration, the added upstream, the error. *)
Definition WithAdded (c : Config) (u : Upstream) : Config * Upstream * option goerr :=
  match NextTable (Upstreams c) with
  | Err e => (c, no_upstream, Some e)
  | Ok t =>
      let u := set_table u t in
      let cfg := mkConfig (Upstreams c ++ [u]) (Default c) (PerCN c) in
      match Validate cfg with
      | Err e => (c, no_upstream, Some e)
      | Ok _ => (cfg, u, None)
      end
  end.

Definition Without (c : Config) (id : string) : Config * bool :=
  (mkConfig (filter (λ u, ID u ≠ id) (Upstreams c))
            (if String.eqb (Default c) id then "" else Default c)
            (filter (λ p, p.2 ≠ id) (PerCN c)),
   existsb (λ u, String.eqb (ID u) id) (Upstreams c)).

Definition validated (c : Config) (mutate : Config → Config) : Config * option goerr :=
  let cfg := mutate c in
  match Validate cfg with Err e => (c, Some e) | Ok _ => (cfg, None) end.

Definition Assign (c : Config) (cn id : string) (clear : bool) : Config * option goerr :=
  if String.eqb cn "" || eqb clear (negb (String.eqb id "")) then
    (c, Some (Errorf "upstream: assign needs a cn and exactly one of an id or clear" []))
  else validated c (λ cfg,
    mkConfig (Upstreams cfg) (Default cfg)
             (if clear then delete cn (PerCN c) else <[cn := id]> (PerCN c))).

Definition SetDefault (c : Config) (id : string) : Config * option goerr :=
  validated c (λ cfg, mkConfig (Upstreams cfg) id (PerCN cfg)).

(** ** The reserved band: ip(8) argument lists and the nft ruleset *)

Definition rulePrio (table : Z) : Z := rulePrioBase + (table - tableBase).

Definition teardownArgs : list (list string) :=
  flat_map (λ i : nat,
    let table := tableBase + Z.of_nat i in
    [["rule"; "del"; "priority"; itoa (rulePrio table)];
     ["route"; "flush"; "table"; itoa table]]) (seq 0 maxUpstreams).

Definition routeArgs (u : Upstream) : list (list string) :=
  let table := itoa (Table u) in
  [ (if negb (String.eqb (Gateway u) "")
     then ["route"; "replace"; "default"; "via"; Gateway u; "dev"; Iface u; "table"; table]
     else ["route"; "replace"; "default"; "dev"; Iface u; "table"; table]);
    ["route"; "replace"; "unreachable"; "default"; "table"; table; "metric"; "999"];
    ["rule"; "add"; "fwmark"; table; "table"; table; "priority"; itoa (rulePrio (Table u))] ].

Section Ruleset.
  Context (ifaceExists : string → bool).

Definition mark_rule (u : Upstream) : string :=
  "iifname " +:+ quote TunDev +:+ " meta mark set " +:+ itoa (Table u).
Definition redirect_rule (u : Upstream) : string :=
  "meta mark " +:+ itoa (Table u) +:+ " meta l4proto tcp redirect to :" +:+ itoa (socksPort u).
Definition masquerade_rule (u : Upstream) : string :=
  "meta mark " +:+ itoa (Table u) +:+ " oif " +:+ quote (Iface u) +:+ " masquerade".
Definition transparent_rule : string :=
  "iifname " +:+ quote TunDev +:+ " meta mark 0 masquerade".

Definition rule_text (r : string) : string := tab +:+ tab +:+ r +:+ nl.

Definition nftRuleset (cfg : Config) : string :=
  "table inet " +:+ nftTable +:+ " {" +:+ nl +:+
  tab +:+ "chain " +:+ preroutingChain +:+ " {" +:+ nl +:+
  rule_text "type filter hook prerouting priority mangle; policy accept;" +:+
  (match Find cfg (Resolve cfg "") with
   | Some u => rule_text (mark_rule u)
   | None => ""
   end) +:+
  tab +:+ "}" +:+ nl +:+ tab +:+ "chain " +:+ redirectChain +:+ " {" +:+ nl +:+
  rule_text "type nat hook prerouting priority dstnat; policy accept;" +:+
  concat_s ((λ u, rule_text (redirect_rule u)) <$> List.filter IsSOCKS (Upstreams cfg)) +:+
  tab +:+ "}" +:+ nl +:+ tab +:+ "chain " +:+ postroutingChain +:+ " {" +:+ nl +:+
  rule_text "type nat hook postrouting priority srcnat; policy accept;" +:+
  concat_s ((λ u, rule_text (masquerade_rule u)) <$>
            List.filter (λ u, negb (IsSOCKS u || negb (ifaceExists (Iface u)))) (Upstreams cfg)) +:+
  rule_text transparent_rule +:+
  tab +:+ "}" +:+ nl +:+ "}" +:+ nl.

End Ruleset.

(** Arguments of [addRule]'s nft call. *)
Definition addRuleArgs (ip : string) (table : Z) : list string :=
  ["-a"; "-e"; "add"; "rule"; "inet"; nftTable; preroutingChain;
   "iifname"; TunDev; "ip"; "saddr"; ip; "meta"; "mark"; "set"; itoa table].

Definition removeRuleArgs (handle : Z) : list string :=
  ["delete"; "rule"; "inet"; nftTable; preroutingChain; "handle"; itoa handle].

(** [strings.Index(line, "# handle ")] and what follows it. *)
Definition after_handle (line : string) : option string :=
  '(_, r) ← cut_before "# handle " line; cut_prefix "# handle " r.

Fixpoint first_some {A B} (f : A → option B) (l : list A) : option B :=
  match l with
  | [] => None
  | x :: l' => match f x with Some y => Some y | None => first_some f l' end
  end.

Definition parseHandle (out : string) : result Z :=
  match first_some after_handle (split LF out) with
  | Some s =>
      match atoi (trim_space s) with
      | Some h => Ok h
      | None => Err (ExternalErr "strconv.Atoi")
      end
  | None => Err (Errorf "upstream: no handle in nft output: %s" [trim_space out])
  end.

(** ** Validate, declaratively *)

Definition ModeOK (u : Upstream) : Prop :=
  if IsSOCKS u then
    Iface u = "" ∧ Gateway u = "" ∧ is_ok (validateSOCKSURL (SOCKS u)) = true ∧
    0 ≤ DialTimeout u ∧ 0 ≤ HandshakeTimeout u
  else
    ifaceRe (Iface u) = true ∧ (Gateway u = "" ∨ is_Some (ParseIP (Gateway u))) ∧
    DialTimeout u = 0 ∧ HandshakeTimeout u = 0.

Definition InBand (t : Z) : Prop := tableBase ≤ t < tableBase + 64.

Definition UpstreamOK (u : Upstream) : Prop :=
  nameRe (ID u) = true ∧ ModeOK u ∧ InBand (Table u).

Definition ids (ups : list Upstream) : list string := ID <$> ups.
Definition tables (ups : list Upstream) : list Z := Table <$> ups.

Record Valid (c : Config) : Prop := {
  valid_each : Forall UpstreamOK (Upstreams c);
  valid_ids : NoDup (ids (Upstreams c));
  valid_tables : NoDup (tables (Upstreams c));
  valid_default : Default c = "" ∨ Default c ∈ ids (Upstreams c);
  valid_percn : ∀ cn id, PerCN c !! cn = Some id → id ∈ ids (Upstreams c) }.

Lemma validate_mode_Ok u : validate_mode u = Ok tt ↔ ModeOK u.
Proof.
  unfold validate_mode, ModeOK. destruct (IsSOCKS u).
  - destruct (validateSOCKSURL (SOCKS u)) as [[]|e] eqn:E; simpl;
      autorewrite with ovcp_rw ovcp_bool; naive_solver.
  - autorewrite with ovcp_rw ovcp_bool. done.
Qed.

Lemma in_band_spec t : in_band t = true ↔ InBand t.
Proof. unfold in_band, InBand. bprop. done. Qed.

Lemma validate_loop_Ok seen tabs ups r :
  validate_loop seen tabs ups = Ok r ↔
  Forall UpstreamOK ups ∧ NoDup (ids ups) ∧ NoDup (tables ups) ∧
  (∀ u, u ∈ ups → ID u ∉ seen ∧ Table u ∉ tabs) ∧
  r = (list_to_set (ids ups) ∪ seen).
Proof.
  revert seen tabs; induction ups as [|u ups IH]; intros seen tabs; simpl.
  { split; [|intros (_&_&_&_&->); f_equal; set_solver].
    intros [= <-]. conjs; try constructor; set_solver. }
  unfold CheckName. autorewrite with ovcp_rw ovcp_bool. rewrite bind_Ok.
  rewrite Forall_cons, !NoDup_cons. unfold UpstreamOK at 1.
  split.
  - intros (Hne&Hn&Hseen&[]&Hm%validate_mode_Ok&Hb).
    autorewrite with ovcp_rw ovcp_bool in Hb. rewrite in_band_spec, IH in Hb.
    destruct Hb as (Hb&Ht&Hall&Hi&Htt&Hdis&->).
    conjs; try done.
    + intros Hin. apply list_elem_of_fmap in Hin as (u'&E&Hu'). apply Hdis in Hu'. set_solver.
    + intros Hin. apply list_elem_of_fmap in Hin as (u'&E&Hu'). apply Hdis in Hu'. set_solver.
    + intros u' Hu'. apply elem_of_cons in Hu' as [->|Hu']; [done|]. apply Hdis in Hu'. set_solver.
    + set_solver.
  - intros (((Hn&Hm&Hb)&Hall)&(Hi&Hid)&(Ht&Htd)&Hdis&->).
    conjs; [by apply nameRe_ne|done|apply Hdis; set_solver|].
    exists tt. split; [by apply validate_mode_Ok|].
    autorewrite with ovcp_rw ovcp_bool. rewrite in_band_spec, IH.
    conjs; try done; [apply Hdis; set_solver| |set_solver].
    intros u' Hu'. destruct (Hdis u') as [??]; [set_solver|].
    assert (ID u' ∈ ids ups) by (by apply list_elem_of_fmap_2).
    assert (Table u' ∈ tables ups) by (by apply list_elem_of_fmap_2).
    set_solver.
Qed.

Lemma validate_percn_Ok seen m :
  validate_percn seen m = Ok tt ↔ ∀ cn id, m !! cn = Some id → id ∈ seen.
Proof.
  unfold validate_percn.
  destruct (List.find _ (map_to_list m)) as [[cn id]|] eqn:E.
  - apply find_Some_elem in E as [Hin Hf]. apply elem_of_map_to_list in Hin. simpl in Hf.
    split; [done|]. intros H. apply H in Hin. bprop. done.
  - split; [|done]. intros _ cn id Hl.
    pose proof (proj1 (find_None_elem _ _) E (cn, id)) as Hf.
    rewrite elem_of_map_to_list in Hf. specialize (Hf Hl). simpl in Hf. bprop. done.
Qed.

Lemma Validate_Ok c : Validate c = Ok tt ↔ Valid c.
Proof.
  unfold Validate. rewrite bind_Ok. setoid_rewrite validate_loop_Ok. split.
  - intros (r&(Hall&Hi&Ht&_&->)&H). autorewrite with ovcp_rw ovcp_bool in H.
    rewrite validate_percn_Ok in H. destruct H as [Hd Hp].
    constructor; try done.
    + set_solver.
    + intros cn id Hl. apply Hp in Hl. set_solver.
  - intros [Hall Hi Ht Hd Hp]. eexists. split; [by conjs|].
    autorewrite with ovcp_rw ovcp_bool. rewrite validate_percn_Ok.
    split; [set_solver|]. intros cn id Hl. apply Hp in Hl. set_solver.
Qed.

Lemma Validate_result c : Validate c = Ok tt ∨ ∃ e, Validate c = Err e.
Proof. destruct (Validate c) as [[]|e]; eauto. Qed.

#[export] Instance Valid_dec c : Decision (Valid c).
Proof.
  destruct (Validate c) as [[]|e] eqn:E.
  - left. by apply Validate_Ok.
  - right. intros H%Validate_Ok. by rewrite E in H.
Defined.

(** ** Edits preserve validity *)

Lemma Find_Some c id u : Find c id = Some u → u ∈ Upstreams c ∧ ID u = id.
Proof. unfold Find. intros [??]%find_Some_elem. bprop. done. Qed.

Lemma Find_None c id : Find c id = None ↔ id ∉ ids (Upstreams c).
Proof.
  unfold Find. rewrite find_None_elem. split.
  - intros H (u&->&Hu)%list_elem_of_fmap. apply H in Hu. by rewrite String.eqb_refl in Hu.
  - intros H u Hu. apply String.eqb_neq. intros <-. apply H. by apply list_elem_of_fmap_2.
Qed.

Lemma Find_elem c u : Valid c → u ∈ Upstreams c → Find c (ID u) = Some u.
Proof.
  intros Hv Hu. destruct (Find c (ID u)) as [u'|] eqn:E.
  - apply Find_Some in E as [Hu' E]. f_equal.
    eapply (NoDup_fmap_elem_inj ID); eauto. apply Hv.
  - apply Find_None in E. destruct E. by apply list_elem_of_fmap_2.
Qed.

Lemma find_app {A} (f : A → bool) l k :
  List.find f (l ++ k) = match List.find f l with Some x => Some x | None => List.find f k end.
Proof. induction l as [|x l IH]; simpl; [done|]. by destruct (f x). Qed.

(** The least free slot, when there is one. *)
Lemma NextTable_Ok ups t : NextTable ups = Ok t ↔
  InBand t ∧ t ∉ tables ups ∧ ∀ t', tableBase ≤ t' < t → t' ∈ tables ups.
Proof.
  unfold NextTable, InBand.
  assert (∀ n k, List.find (λ t, negb (bool_decide (t ∈ (list_to_set (Table <$> ups) : gset Z))))
      ((λ i, tableBase + Z.of_nat i) <$> seq n k) = Some t ↔
    tableBase + Z.of_nat n ≤ t < tableBase + Z.of_nat (n + k) ∧ t ∉ tables ups ∧
    ∀ t', tableBase + Z.of_nat n ≤ t' < t → t' ∈ tables ups) as Hgen.
  { intros n k. revert n; induction k as [|k IH]; intros n; simpl.
    - split; [done|]. lia.
    - destruct (bool_decide (tableBase + Z.of_nat n ∈ _)) eqn:E; simpl;
        bprop; rewrite elem_of_list_to_set in E; fold (tables ups) in E.
      + rewrite IH. split; intros (?&?&Hlow); (split; [|split; [done|]]).
        * lia.
        * intros t' ?. destruct (decide (t' = tableBase + Z.of_nat n)) as [->|]; [done|].
          apply Hlow. lia.
        * assert (t ≠ tableBase + Z.of_nat n) by (by intros ->). lia.
        * intros t' ?. apply Hlow. lia.
      + split.
        * intros [= <-]. split; [lia|]. split; [done|]. lia.
        * intros (?&?&Hlow). f_equal.
          destruct (decide (t = tableBase + Z.of_nat n)) as [->|]; [done|].
          destruct E. apply Hlow. lia. }
  specialize (Hgen O maxUpstreams). rewrite Z.add_0_r in Hgen.
  rewrite <-Hgen. destruct (List.find _ _); naive_solver.
Qed.

Definition band : list Z := (λ i : nat, tableBase + Z.of_nat i) <$> seq 0 maxUpstreams.

Lemma elem_of_band t : t ∈ band ↔ InBand t.
Proof.
  unfold band, InBand. rewrite list_elem_of_fmap. split.
  - intros (i&->&Hi%elem_of_seq). unfold maxUpstreams in Hi. lia.
  - intros Ht. exists (Z.to_nat (t - tableBase)). split; [lia|].
    apply elem_of_seq. unfold maxUpstreams. lia.
Qed.

Lemma NoDup_band : NoDup band.
Proof. apply NoDup_fmap_2; [|apply NoDup_seq]. intros i j. lia. Qed.

Lemma tables_in_band c t : Valid c → t ∈ tables (Upstreams c) → InBand t.
Proof.
  intros Hv (u&->&Hu)%list_elem_of_fmap.
  pose proof (valid_each _ Hv) as HF. rewrite Forall_forall in HF. by apply HF.
Qed.

(** A slot is free exactly while fewer than [maxUpstreams] are configured. *)
Lemma NextTable_free c : Valid c →
  (∃ t, NextTable (Upstreams c) = Ok t) ↔ (length (Upstreams c) < maxUpstreams)%nat.
Proof.
  intros Hv. pose proof (valid_tables _ Hv) as Hnd.
  assert (tables (Upstreams c) ⊆+ band) as Hsub.
  { apply NoDup_submseteq; [done|]. intros t Ht. apply elem_of_band. by eapply tables_in_band. }
  assert (length band = maxUpstreams) as Hlen by done.
  pose proof (submseteq_length _ _ Hsub) as Hle. unfold tables in Hle. rewrite length_fmap in Hle.
  split.
  - intros (t&Hb%elem_of_band&Hnot&_)%(exist_proper _ _ (λ t, NextTable_Ok _ t)).
    destruct (decide (length (Upstreams c) = maxUpstreams)) as [E|]; [|lia].
    apply submseteq_length_Permutation in Hsub; [|unfold tables; rewrite length_fmap; lia].
    by rewrite Hsub in Hnot.
  - intros Hlt. destruct (NextTable (Upstreams c)) as [t|e] eqn:E; [by eauto|].
    exfalso. unfold NextTable in E. destruct (List.find _ _) eqn:Hf in E; [done|].
    rewrite find_None_elem in Hf. fold band in Hf.
    assert (band ⊆+ tables (Upstreams c)) as H%submseteq_length.
    { apply NoDup_submseteq; [apply NoDup_band|]. intros t Ht. apply Hf in Ht.
      bprop. by rewrite elem_of_list_to_set in Ht. }
    unfold tables in H. rewrite length_fmap in H. lia.
Qed.

Lemma ids_app l k : ids (l ++ k) = ids l ++ ids k.
Proof. apply fmap_app. Qed.
Lemma tables_app l k : tables (l ++ k) = tables l ++ tables k.
Proof. apply fmap_app. Qed.
Lemma ids_elem u ups : u ∈ ups → ID u ∈ ids ups.
Proof. apply list_elem_of_fmap_2. Qed.
Lemma tables_elem u ups : u ∈ ups → Table u ∈ tables ups.
Proof. apply list_elem_of_fmap_2. Qed.

Lemma NoDup_snoc {A} (l : list A) x : NoDup (l ++ [x]) ↔ NoDup l ∧ x ∉ l.
Proof.
  rewrite NoDup_app. split.
  - intros (?&H&_). split; [done|]. intros Hx. apply H in Hx. set_solver.
  - intros [??]. split; [done|]. split; [set_solver|apply NoDup_singleton].
Qed.

Lemma Valid_app c u : Valid c →
  Valid (mkConfig (Upstreams c ++ [u]) (Default c) (PerCN c)) ↔
  UpstreamOK u ∧ ID u ∉ ids (Upstreams c) ∧ Table u ∉ tables (Upstreams c).
Proof.
  intros [Ha Hi Ht Hd Hp]. split.
  - intros [Ha' Hi' Ht' _ _]; simpl in *.
    rewrite ids_app in Hi'. rewrite tables_app in Ht'.
    apply NoDup_snoc in Hi' as [_ ?]. apply NoDup_snoc in Ht' as [_ ?].
    apply Forall_app in Ha' as [_ Ha']. by inversion Ha'.
  - intros (Hu&Hni&Hnt). constructor; simpl; rewrite ?ids_app, ?tables_app.
    + apply Forall_app. by rewrite Forall_singleton.
    + by apply NoDup_snoc.
    + by apply NoDup_snoc.
    + rewrite elem_of_app. naive_solver.
    + intros cn id H%Hp. rewrite elem_of_app. by left.
Qed.

Lemma elem_ids_filter id id' ups :
  id' ∈ ids (filter (λ u, ID u ≠ id) ups) ↔ id' ≠ id ∧ id' ∈ ids ups.
Proof.
  unfold ids. rewrite !list_elem_of_fmap. setoid_rewrite list_elem_of_filter. naive_solver.
Qed.

Lemma Without_PerCN c id cn id' :
  PerCN (Without c id).1 !! cn = Some id' ↔ PerCN c !! cn = Some id' ∧ id' ≠ id.
Proof. simpl. by rewrite map_lookup_filter_Some. Qed.

Lemma Valid_without c id : Valid c → Valid (Without c id).1.
Proof.
  intros [Ha Hi Ht Hd Hp]. constructor.
  - simpl. rewrite Forall_forall in Ha |- *. intros u [_ Hu]%list_elem_of_filter. by apply Ha.
  - eapply sublist_NoDup; [apply Hi|]. apply fmap_sublist, sublist_filter.
  - eapply sublist_NoDup; [apply Ht|]. apply fmap_sublist, sublist_filter.
  - simpl. rewrite elem_ids_filter. destruct (String.eqb_spec (Default c) id); naive_solver.
  - intros cn id' [Hl Hne]%Without_PerCN. simpl. rewrite elem_ids_filter. naive_solver.
Qed.

Lemma Find_without c id id' : id' ≠ id → Find (Without c id).1 id' = Find c id'.
Proof.
  intros Hne. unfold Find. simpl. induction (Upstreams c) as [|u ups IH]; [done|].
  rewrite filter_cons. destruct (decide (ID u ≠ id)) as [Hu|Hu]; simpl.
  - by rewrite IH.
  - rewrite IH. destruct (String.eqb_spec (ID u) id'); [|done]. destruct Hu; congruence.
Qed.

Lemma Resolve_defined c cn : Valid c → Resolve c cn = "" ∨ Resolve c cn ∈ ids (Upstreams c).
Proof.
  intros Hv. unfold Resolve. destruct (PerCN c !! cn) eqn:E.
  - right. by eapply valid_percn.
  - by apply valid_default.
Qed.
(** A whole line: [split]'s pieces of the ruleset, in order. *)
Definition ruleset_lines (ifx : string → bool) (cfg : Config) : list string :=
  let r s := tab +:+ tab +:+ s in
  ["table inet ovcp-upstreams {"; tab +:+ "chain ovcp-prerouting {";
   r "type filter hook prerouting priority mangle; policy accept;"] ++
  (match Find cfg (Resolve cfg "") with Some u => [r (mark_rule u)] | None => [] end) ++
  [tab +:+ "}"; tab +:+ "chain ovcp-redirect {";
   r "type nat hook prerouting priority dstnat; policy accept;"] ++
  ((λ u, r (redirect_rule u)) <$> List.filter IsSOCKS (Upstreams cfg)) ++
  [tab +:+ "}"; tab +:+ "chain ovcp-postrouting {";
   r "type nat hook postrouting priority srcnat; policy accept;"] ++
  ((λ u, r (masquerade_rule u)) <$>
     List.filter (λ u, negb (IsSOCKS u) && ifx (Iface u)) (Upstreams cfg)) ++
  [r transparent_rule; tab +:+ "}"; "}"].

Lemma unlines_rules {A} (f : A → string) l :
  concat_s ((λ x, rule_text (f x)) <$> l) = unlines ((λ x, tab +:+ tab +:+ f x) <$> l).
Proof.
  induction l as [|x l IH]; [done|]. rewrite !fmap_cons, unlines_cons. cbn [concat_s].
  rewrite IH. unfold rule_text. by rewrite !s_app_assoc.
Qed.
Lemma unlines_nil : unlines [] = "".
Proof. done. Qed.

Lemma quote_TunDev : no_char LF (quote TunDev) = true.
Proof. apply quote_no_nl. Qed.

Lemma tables_nonneg c u : Valid c → u ∈ Upstreams c → 0 ≤ Table u ∧ 0 ≤ socksPort u.
Proof.
  intros Hv Hu. assert (InBand (Table u)) as Hb.
  { eapply tables_in_band; [done|]. by apply tables_elem. }
  unfold InBand, socksPort, socksPortBase, tableBase in *. lia.
Qed.

Lemma rule_lines_clean ifx c : Valid c →
  Forall (λ x, no_char LF x = true) (ruleset_lines ifx c).
Proof.
  intros Hv. unfold ruleset_lines.
  repeat (apply Forall_app_2 || apply Forall_cons_2); try done; try by constructor.
  - destruct (Find c _) as [u|] eqn:E; [|by constructor].
    apply Find_Some in E as [Hu _]. apply Forall_singleton.
    unfold mark_rule. rewrite !no_char_app, quote_TunDev.
    rewrite itoa_clean; [done|by eapply tables_nonneg|done].
  - apply Forall_fmap, Forall_forall. intros u Hu.
    apply list_elem_of_In, filter_In in Hu as [Hu _]. apply list_elem_of_In in Hu.
    change (no_char LF (tab +:+ tab +:+ redirect_rule u) = true). unfold redirect_rule. rewrite !no_char_app.
    rewrite !itoa_clean; try done; by eapply tables_nonneg.
  - apply Forall_fmap, Forall_forall. intros u Hu.
    apply list_elem_of_In, filter_In in Hu as [Hu _]. apply list_elem_of_In in Hu.
    change (no_char LF (tab +:+ tab +:+ masquerade_rule u) = true). unfold masquerade_rule. rewrite !no_char_app, quote_no_nl.
    rewrite itoa_clean; [done|by eapply tables_nonneg|done].
Qed.

Lemma nftRuleset_unlines ifx c : nftRuleset ifx c = unlines (ruleset_lines ifx c).
Proof.
  unfold nftRuleset, ruleset_lines. rewrite !unlines_app, !unlines_rules, !unlines_cons.
  rewrite !unlines_nil.
  assert (List.filter (λ u, negb (IsSOCKS u || negb (ifx (Iface u)))) (Upstreams c) =
          List.filter (λ u, negb (IsSOCKS u) && ifx (Iface u)) (Upstreams c)) as ->.
  { apply filter_ext. intros u. by rewrite negb_orb, negb_involutive. }
  destruct (Find c (Resolve c "")); rewrite ?unlines_cons, ?unlines_nil;
    unfold rule_text; rewrite ?s_app_nil_r, <-!s_app_assoc; done.
Qed.
Lemma Valid_percn c m : Valid c →
  Valid (mkConfig (Upstreams c) (Default c) m) ↔
  ∀ cn id, m !! cn = Some id → id ∈ ids (Upstreams c).
Proof. intros [????]. split; [by intros [???? Hm]|]. by constructor. Qed.

Lemma validated_cases c f :
  (Valid (f c) ∧ validated c f = (f c, None)) ∨
  (¬ Valid (f c) ∧ ∃ e, validated c f = (c, Some e)).
Proof.
  unfold validated. rewrite <-Validate_Ok.
  destruct (Validate (f c)) as [[]|e] eqn:E; [left|right]; eauto.
Qed.

Lemma iface_plain s : ifaceRe s = true → s_forallb plain_char s = true.
Proof.
  assert (∀ c, iface_rest c = true → plain_char c = true) as Hp.
  { by apply ascii_impl; vm_compute. }
  destruct s as [|c s]; [done|]. cbn [ifaceRe].
  intros H. bprop. destruct H as [[Hc Hs] _].
  unfold s_forallb. rewrite chars_cons. cbn [forallb]. apply andb_true_iff. split.
  - apply Hp. unfold iface_rest. unfold iface_first in Hc. by rewrite Hc.
  - by eapply s_forallb_impl.
Qed.

(** * Claims *)

(** C21: [Config.Validate] accepts a configuration exactly when it satisfies the
    declarative specification: well-formed ids, one of the two modes with its
    own fields, a table inside the managed band, ids and tables all distinct,
    and every default and per-CN reference to a defined upstream. *)
Theorem Validate_correct c : is_ok (Validate c) = true ↔ Valid c.
Proof.
  rewrite <-Validate_Ok. destruct (Validate c) as [[]|e]; naive_solver.
Qed.

(** Adding to a valid configuration succeeds exactly when a slot is free
    and the new upstream is well formed with an unused id; it then appends the
    upstream with the least free table and stays valid, and on any error the
    configuration comes back unchanged. *)
Theorem WithAdded_correct c u (Hv : Valid c) :
  let '(c', added, err) := WithAdded c u in
  (err = None ↔ (length (Upstreams c) < maxUpstreams)%nat ∧ nameRe (ID u) = true ∧
                ModeOK u ∧ ID u ∉ ids (Upstreams c)) ∧
  (err = None → Valid c' ∧ ∃ t, NextTable (Upstreams c) = Ok t ∧ added = set_table u t ∧
                c' = mkConfig (Upstreams c ++ [added]) (Default c) (PerCN c)) ∧
  (err ≠ None → c' = c).
Proof.
  pose proof (NextTable_free c Hv) as Hslot. unfold WithAdded.
  destruct (NextTable (Upstreams c)) as [t|e] eqn:Et; [|naive_solver].
  assert (length (Upstreams c) < maxUpstreams)%nat by (apply Hslot; eauto).
  pose proof (Valid_app c (set_table u t) Hv) as Hadd. rewrite <-Validate_Ok in Hadd.
  apply NextTable_Ok in Et as Et'. destruct Et' as (Hb&Hfree&_).
  destruct (Validate _) as [[]|e] eqn:E.
  - destruct (proj1 Hadd eq_refl) as ((?&?&?)&?&?). apply Validate_Ok in E. naive_solver.
  - split; [|naive_solver]. split; [done|]. intros (_&?&?&?).
    assert (Err e = Ok tt); [|done]. by apply Hadd.
Qed.

(** Removing an upstream from a valid configuration keeps it valid, reports
    whether it was there, leaves no reference to it (no client resolves to it,
    those it was assigned to fall back to the default), and touches no other
    upstream and no other client's assignment. *)
Theorem Without_correct c id (Hv : Valid c) :
  let '(c', found) := Without c id in
  Valid c' ∧ (found = true ↔ id ∈ ids (Upstreams c)) ∧
  (∀ cn, id ≠ "" → Resolve c' cn ≠ id) ∧
  (∀ cn, PerCN c !! cn = Some id → Resolve c' cn = Default c') ∧
  (∀ cn, Resolve c cn ≠ id → Resolve c' cn = Resolve c cn) ∧
  (∀ id', id' ≠ id → Find c' id' = Find c id') ∧ Find c' id = None.
Proof.
  pose proof (Valid_without c id Hv) as Hv'. pose proof (Find_without c id) as Hf.
  assert (∀ cn, PerCN (Without c id).1 !! cn =
                match PerCN c !! cn with
                | Some id' => if decide (id' = id) then None else Some id'
                | None => None end) as Hl.
  { intros cn. apply option_eq. intros id'. rewrite Without_PerCN.
    destruct (PerCN c !! cn); [case_decide|]; naive_solver. }
  assert (Find (Without c id).1 id = None) as Hn.
  { apply Find_None. simpl. rewrite elem_ids_filter. naive_solver. }
  destruct (Without c id) as [c' found] eqn:E. simpl in *.
  assert (Default c' = (if String.eqb (Default c) id then "" else Default c) ∧
          found = existsb (λ u, String.eqb (ID u) id) (Upstreams c)) as [Hd ->].
  { unfold Without in E. by injection E as <- <-. }
  split; [done|]. split.
  { rewrite existsb_elem. setoid_rewrite String.eqb_eq. unfold ids.
    rewrite list_elem_of_fmap. naive_solver. }
  unfold Resolve. setoid_rewrite Hl. rewrite Hd.
  split_and!; try done; intros cn; destruct (PerCN c !! cn) as [id'|];
    repeat case_match; bprop; naive_solver.
Qed.

(** [Assign] on a valid configuration succeeds exactly when it is given a
    name and either a defined id or the clear flag; the result is valid, the
    client then resolves to that id (or to the default), every other client is
    unaffected, and an error changes nothing. *)
Theorem Assign_correct c cn id clear (Hv : Valid c) :
  let '(c', err) := Assign c cn id clear in
  (err = None ↔ cn ≠ "" ∧ (if clear : bool then id = "" else id ∈ ids (Upstreams c))) ∧
  (err = None → Valid c' ∧ Upstreams c' = Upstreams c ∧
                Resolve c' cn = (if clear then Default c else id) ∧
                ∀ cn', cn' ≠ cn → Resolve c' cn' = Resolve c cn') ∧
  (err ≠ None → c' = c).
Proof.
  assert ("" ∉ ids (Upstreams c)) as Hne.
  { intros (u&E&Hu)%list_elem_of_fmap. pose proof (valid_each _ Hv) as HF.
    rewrite Forall_forall in HF. destruct (HF _ Hu) as [H%nameRe_ne _]. congruence. }
  unfold Assign. destruct (String.eqb_spec cn "") as [->|Hcn]; simpl; [naive_solver|].
  destruct (eqb clear _) eqn:Eb.
  { destruct clear, (String.eqb_spec id ""); naive_solver. }
  assert (clear = String.eqb id "") as -> by (destruct clear, (String.eqb id ""); done).
  destruct (validated_cases c (λ cfg, mkConfig (Upstreams cfg) (Default cfg)
     (if String.eqb id "" then delete cn (PerCN c) else <[cn := id]> (PerCN c))))
    as [[Hv' ->]|[Hv' [e ->]]]; rewrite Valid_percn in Hv' by done;
    destruct (String.eqb_spec id "") as [->|Hid].
  - split; [naive_solver|]. split; [|done]. intros _.
    split; [by apply Valid_percn|]. split; [done|]. unfold Resolve; simpl.
    split; [by simplify_map_eq|]. intros cn' ?. by simplify_map_eq.
  - split.
    { split; [|done]. intros _. split; [done|]. apply (Hv' cn). by simplify_map_eq. }
    split; [|done]. intros _. split; [by apply Valid_percn|]. split; [done|].
    unfold Resolve; simpl. split; [by simplify_map_eq|]. intros cn' ?. by simplify_map_eq.
  - exfalso. apply Hv'. intros cn' id' [_ H]%lookup_delete_Some. by eapply valid_percn.
  - split; [|naive_solver]. split; [done|]. intros [_ Hin]. exfalso. apply Hv'.
    intros cn' id' [[_ <-]|[_ H]]%lookup_insert_Some; [done|]. by eapply valid_percn.
Qed.

(** The nft ruleset of a valid configuration is, line by line, the three
    chains with exactly one mark rule for the default upstream, one redirect
    per SOCKS upstream and one masquerade per live interface: no configured
    value (interface names are quoted verbatim) can add or break a line, and
    the relay ports it redirects to are distinct. *)
Theorem nftRuleset_lines ifx c (Hv : Valid c) :
  split LF (nftRuleset ifx c) = ruleset_lines ifx c ++ [""] ∧
  (∀ u, u ∈ Upstreams c → IsSOCKS u = false →
        quote (Iface u) = String DQ (Iface u) +:+ String DQ "") ∧
  NoDup (socksPort <$> Upstreams c).
Proof.
  split; [|split].
  - rewrite nftRuleset_unlines. by apply split_unlines, rule_lines_clean.
  - intros u Hu Hs. pose proof (valid_each _ Hv) as HF. rewrite Forall_forall in HF.
    destruct (HF _ Hu) as (_&Hm&_). unfold ModeOK in Hm. rewrite Hs in Hm.
    apply quote_plain, iface_plain, Hm.
  - replace (socksPort <$> Upstreams c) with ((λ t, socksPortBase + (t - tableBase)) <$> tables (Upstreams c)).
    + apply NoDup_fmap_2; [|apply Hv]. intros x y. lia.
    + unfold tables. by rewrite <-list_fmap_compose.
Qed.

(** ** Witnesses *)

Definition wan : Upstream := mkUpstream "wan2" "eth1" "192.0.2.1" "" 0 0 100 "".
Definition tor : Upstream := mkUpstream "tor" "" "" "socks5://u:pw@127.0.0.1:9050" 5 60 101 "".
Definition demo : Config := mkConfig [wan; tor] "wan2" {[ "alice" := "tor" ]}.

Lemma demo_valid : Valid demo.
Proof. apply (bool_decide_unpack _). by vm_compute. Qed.

Lemma WithAdded_correct_witness :
  let '(_, added, err) := WithAdded demo (mkUpstream "wan3" "eth2" "" "" 0 0 0 "") in
  err = None ∧ Table added = 102.
Proof.
  pose proof (WithAdded_correct demo (mkUpstream "wan3" "eth2" "" "" 0 0 0 "") demo_valid) as H.
  destruct (WithAdded demo _) as [[c' added] err] eqn:E. destruct H as (H1&H2&_).
  assert (err = None) as He.
  { apply H1. split; [vm_compute; lia|]. split; [done|]. split; [by vm_compute; auto 10|].
    apply (bool_decide_unpack _). by vm_compute. }
  split; [exact He|]. destruct (H2 He) as (_&t&Ht&->&_).
  assert (NextTable (Upstreams demo) = Ok 102) as Ht' by by vm_compute.
  rewrite Ht' in Ht. by injection Ht as <-.
Defined.

Lemma Without_correct_witness : Resolve (Without demo "tor").1 "alice" = "wan2" ∧ Valid (Without demo "tor").1.
Proof.
  pose proof (Without_correct demo "tor" demo_valid) as (Hv&_&_&Ha&_).
  split; [etrans; [exact (Ha "alice" eq_refl)|by vm_compute]|exact Hv].
Defined.

Lemma Assign_correct_witness :
  let '(c', err) := Assign demo "bob" "tor" false in
  err = None ∧ Resolve c' "bob" = "tor".
Proof.
  pose proof (Assign_correct demo "bob" "tor" false demo_valid) as H.
  destruct (Assign demo "bob" "tor" false) as [c' err]. destruct H as (H1&H2&_).
  assert (err = None) as He.
  { apply H1. split; [done|]. apply (bool_decide_unpack _). by vm_compute. }
  split; [exact He|]. by apply H2.
Defined.

Lemma nftRuleset_lines_witness :
  split LF (nftRuleset (λ _, true) demo) = ruleset_lines (λ _, true) demo ++ [""] ∧
  length (ruleset_lines (λ _, true) demo) = 15%nat.
Proof.
  split; [|by vm_compute].
  exact (proj1 (nftRuleset_lines (λ _, true) demo demo_valid)).
Defined.

End upstream.
