(* ===== verification/UpstreamApply.v ===== *)
(** * UpstreamApply: running the upstream configuration against the host

    The stateful half of src/internal/upstream/upstream.go and the relay
    reconciliation of socks.go: [Apply], [Teardown] and the per-client rule
    tracker, over a host that runs ip(8) and nft(8) ([Host]) and, for the
    tracker, over what nft promises about its own rules ([NftLaws]). Every
    operation holds [applyMu] for its whole run, so each is one step. *)

From Stdlib Require Import Ascii.
From Stdlib Require Import DecimalString DecimalZ DecimalPos.
From S2P Require Import Prelude GoStr NetIP GoURL Names Socks Upstream.
Import upstream socks.

Module tracker.

(** ** The host: processes, interfaces, listeners *)

Class HostOps (W : Type) := {
  (** [exec.Command(bin, args...)] with standard input: output and error. *)
  host_exec : W → string → list string → string → W * (string * option goerr);
  host_iface : W → string → bool;
  host_listen : W → Z → W * option goerr;
  host_close : W → Z → W }.

Record trackedRule := mkTracked { tr_ip : string; tr_cn : string; tr_handle : Z }.

(** What a run did on the host, in order, each step with its success. *)
Inductive event :=
  | Ran (bin : string) (args : list string) (stdin : string) (ok : bool)
  | Listened (port : Z) (be : socksBackend) (ok : bool)
  | ClosedRelay (port : Z).

Definition event_ok (e : event) : bool :=
  match e with Ran _ _ _ ok | Listened _ _ ok => ok | ClosedRelay _ => true end.

Definition is_relay_event (e : event) : bool :=
  match e with Ran _ _ _ _ => false | _ => true end.

(** The package variables, the host and the history. *)
Record St (W : Type) := mkSt {
  world : W; tracked : gmap string trackedRule; socksRelays : gmap Z Upstream;
  trace : list event }.
Arguments mkSt {W}. Arguments world {W}. Arguments tracked {W}.
Arguments socksRelays {W}. Arguments trace {W}.

Section Ops.
  Context {W : Type} `{HostOps W} (getenv : string → string).

Definition M (A : Type) := St W → A * St W.

#[export] Instance M_ret : MRet M := λ _ a s, (a, s).
#[export] Instance M_bind : MBind M := λ _ _ f m s, let '(a, s') := m s in f a s'.

Definition get : M (St W) := λ s, (s, s).
Definition set_tracked (t : gmap string trackedRule) : M unit := λ s,
  (tt, mkSt (world s) t (socksRelays s) (trace s)).
Definition set_relays (r : gmap Z Upstream) : M unit := λ s,
  (tt, mkSt (world s) (tracked s) r (trace s)).

(** Run every element's action, collecting the errors. *)
Fixpoint collect {A} (f : A → M (option goerr)) (l : list A) : M (list goerr) :=
  match l with
  | [] => mret []
  | x :: l' => e ← f x; es ← collect f l'; mret (option_list e ++ es)
  end.

(** ** Commands *)

Definition exec (bin : string) (args : list string) (stdin : string) : M (string * option goerr) :=
  λ s, let '(w', (out, err)) := host_exec (world s) bin args stdin in
       ((out, err), mkSt w' (tracked s) (socksRelays s)
                         (trace s ++ [Ran bin args stdin (bool_decide (err = None))])).

Definition ipBin : string := "ip".
Definition nftBin : string := "nft".

Definition cmd_error (bin : string) (args : list string) (out : string) (e : goerr) : goerr :=
  Wrapf "upstream: %s %s: %w: %s" [bin; join " " args; trim_space out] e.

Definition run (bin : string) (args : list string) : M (option goerr) :=
  '(out, err) ← exec bin args "";
  mret (cmd_error bin args out <$> err).

Definition runNFTStdin (args : list string) (ruleset : string) : M (option goerr) :=
  '(out, err) ← exec nftBin args ruleset;
  mret (cmd_error nftBin args out <$> err).

Definition clearBand : M unit :=
  collect (run ipBin) teardownArgs ;;
  run nftBin ["delete"; "table"; "inet"; nftTable] ;; mret tt.

(** ** Per-client rules *)

Definition addRule (ip : string) (table : Z) : M (result Z) :=
  match ParseIP ip ≫= To4 with
  | None => mret (Err (Errorf "upstream: bad client ip %q" [ip]))
  | Some _ =>
      '(out, err) ← exec nftBin (addRuleArgs ip table) "";
      mret (match err with
            | Some e => Err (Wrapf "upstream: add client rule: %w: %s" [trim_space out] e)
            | None => parseHandle out
            end)
  end.

Definition removeRule (handle : Z) : M (option goerr) := run nftBin (removeRuleArgs handle).

Definition addTracked (cid cn ip : string) (up : Upstream) : M (option goerr) :=
  r ← addRule ip (Table up);
  match r with
  | Err e => mret (Some e)
  | Ok handle => s ← get; set_tracked (<[cid := mkTracked ip cn handle]> (tracked s)) ;; mret None
  end.

(** A removal that fails is only logged. *)
Definition installRule (cid cn ip : string) (up : Upstream) : M (option goerr) :=
  s ← get;
  let old := tracked s !! cid in
  e ← addTracked cid cn ip up;
  match e with
  | Some e => mret (Some e)
  | None => match old with
            | Some o => removeRule (tr_handle o) ;; mret None
            | None => mret None
            end
  end.

Definition uninstallRule (cid : string) : M (option goerr) :=
  s ← get;
  match tracked s !! cid with
  | None => mret None
  | Some e =>
      r ← removeRule (tr_handle e);
      match r with
      | Some err => mret (Some err)
      | None => s ← get; set_tracked (delete cid (tracked s)) ;; mret None
      end
  end.

Definition gone (id : string) : goerr := Errorf "upstream: assigned upstream %q no longer exists" [id].

Definition Establish (cid cn ip : string) (cfg : Config) : M (option goerr) :=
  match PerCN cfg !! cn with
  | None => mret None
  | Some id =>
      match Find cfg id with
      | None => mret (Some (gone id))
      | Some up => addTracked cid cn ip up
      end
  end.

Definition Disconnect (cid : string) : M unit := uninstallRule cid ;; mret tt.

Definition Reassign (cid cn ip : string) (cfg : Config) : M (option goerr) :=
  match PerCN cfg !! cn with
  | None => uninstallRule cid
  | Some id =>
      match Find cfg id with
      | None => mret (Some (gone id))
      | Some up => installRule cid cn ip up
      end
  end.

(** [for cid := range tracked]: entries removed on the way are the ones
    already visited, so the keys at the start are the ones visited. *)
Definition tracked_cids (s : St W) : list string := (map_to_list (tracked s)).*1.

Definition ClearAll : M unit :=
  s ← get; collect uninstallRule (tracked_cids s) ;; mret tt.

Definition drop_tracked (cid : string) : M unit :=
  s ← get; set_tracked (delete cid (tracked s)).

Definition reinstall_one (cfg : Config) (p : string * trackedRule) : M (option goerr) :=
  let '(cid, e) := p in
  match PerCN cfg !! tr_cn e with
  | None => drop_tracked cid ;; mret None
  | Some id =>
      match Find cfg id with
      | None =>
          drop_tracked cid ;;
          mret (Some (Errorf "upstream: reinstall %q: assigned upstream %q no longer exists" [tr_cn e; id]))
      | Some up =>
          r ← addTracked cid (tr_cn e) (tr_ip e) up;
          match r with
          | Some err => drop_tracked cid ;; mret (Some (Wrapf "upstream: reinstall %q: %w" [tr_cn e] err))
          | None => mret None
          end
      end
  end.

Definition reinstall (cfg : Config) : M (list goerr) :=
  s ← get; collect (reinstall_one cfg) (map_to_list (tracked s)).

(** ** SOCKS relays *)

Definition wanted (cfg : Config) : gmap Z Upstream :=
  foldl (λ m u, if IsSOCKS u then <[socksPort u := u]> m else m) ∅ (Upstreams cfg).

Definition close_relay (port : Z) : M (option goerr) := λ s,
  (None, mkSt (host_close (world s) port) (tracked s) (delete port (socksRelays s))
              (trace s ++ [ClosedRelay port])).

Definition open_relay (port : Z) (u : Upstream) (be : socksBackend) : M (option goerr) := λ s,
  let '(w', err) := host_listen (world s) port in
  match err with
  | Some e => (Some (Wrapf "upstream: %q: socks relay listen: %w" [ID u] e),
               mkSt w' (tracked s) (socksRelays s) (trace s ++ [Listened port be false]))
  | None => (None, mkSt w' (tracked s) (<[port := u]> (socksRelays s))
                        (trace s ++ [Listened port be true]))
  end.

Definition stop_stale (want : gmap Z Upstream) (p : Z * Upstream) : M (option goerr) :=
  let '(port, u) := p in
  if bool_decide (default no_upstream (want !! port) = u) then mret None else close_relay port.

Definition start_missing (p : Z * Upstream) : M (option goerr) :=
  let '(port, u) := p in
  s ← get;
  if bool_decide (is_Some (socksRelays s !! port)) then mret None else
  match Parse (SOCKS u) return M (option goerr) with
  | None => mret (Some (Errorf "upstream: %q: unparseable socks url" [ID u]))
  | Some parsed =>
      open_relay port u
        (mkBackend parsed (resolveTimeout (DialTimeout u) (dialTimeout getenv))
                          (resolveTimeout (HandshakeTimeout u) (handshakeTimeout getenv)))
  end.

Definition syncSOCKSRelays (cfg : Config) : M (option goerr) :=
  s ← get;
  collect (stop_stale (wanted cfg)) (map_to_list (socksRelays s)) ;;
  errs ← collect start_missing (map_to_list (wanted cfg));
  mret (errors_join errs).

(** ** Apply and Teardown *)

Definition iface_ups (cfg : Config) : list Upstream :=
  List.filter (λ u, negb (IsSOCKS u)) (Upstreams cfg).

Definition Apply (cfg : Config) : M (option goerr) :=
  match Validate cfg with
  | Err e => mret (Some e)
  | Ok _ =>
      clearBand ;;
      errs ← collect (run ipBin) (flat_map routeArgs (iface_ups cfg));
      rel ← syncSOCKSRelays cfg;
      let errs := errs ++ option_list rel in
      s ← get;
      let ruleset := nftRuleset (host_iface (world s)) cfg in
      chk ← runNFTStdin ["-c"; "-f"; "-"] ruleset;
      match chk with
      | Some e => mret (errors_join (errs ++ [Wrapf "upstream: nft ruleset check: %w" [] e]))
      | None =>
          ld ← runNFTStdin ["-f"; "-"] ruleset;
          match ld with
          | Some e => mret (errors_join (errs ++ [Wrapf "upstream: nft apply: %w" [] e]))
          | None => errs' ← reinstall cfg; mret (errors_join (errs ++ errs'))
          end
      end
  end.

Definition no_config : Config := mkConfig [] "" ∅.

Definition Teardown : M (option goerr) := clearBand ;; syncSOCKSRelays no_config.

(** ** What an operation does on the host *)

(** Running [m] appends some events, related to its result by [Q]. *)
Definition emits {A} (m : M A) (Q : A → list event → Prop) : Prop :=
  ∀ s, ∃ evs, trace (m s).2 = trace s ++ evs ∧ Q (m s).1 evs.

Lemma emits_mono {A} (m : M A) (Q R : A → list event → Prop) :
  emits m Q → (∀ a evs, Q a evs → R a evs) → emits m R.
Proof. intros Hm HQ s. destruct (Hm s) as (evs&?&?). eauto. Qed.

Lemma emits_ret {A} (a : A) (Q : A → list event → Prop) : Q a [] → emits (mret a) Q.
Proof. intros HQ s. exists []. by rewrite app_nil_r. Qed.

Lemma emits_bind {A B} (m : M A) (f : A → M B) (Q : A → list event → Prop) R :
  emits m Q →
  (∀ a, emits (f a) (λ b evs, ∀ pre, Q a pre → R b (pre ++ evs))) →
  emits (m ≫= f) R.
Proof.
  intros Hm Hf s. destruct (Hm s) as (pre&Hpre&HQ).
  unfold mbind, M_bind. destruct (m s) as [a s1]. simpl in *.
  destruct (Hf a s1) as (evs&Hevs&HR). exists (pre ++ evs). split; [|by apply HR].
  by rewrite Hevs, Hpre, app_assoc.
Qed.

Lemma emits_get {B} (f : St W → M B) R : (∀ s, emits (f s) R) → emits (s ← get; f s) R.
Proof. intros Hf s. apply (Hf s s). Qed.

Lemma emits_set_tracked t (Q : unit → list event → Prop) : Q tt [] → emits (set_tracked t) Q.
Proof. intros HQ s. exists []. by rewrite app_nil_r. Qed.

Lemma emits_collect {A} (f : A → M (option goerr)) (l : list A) (Q : A → option goerr → list event → Prop) :
  (∀ x, x ∈ l → emits (f x) (Q x)) →
  emits (collect f l) (λ errs evs, ∃ steps : list (option goerr * list event),
    errs = flat_map (λ p, option_list p.1) steps ∧ evs = mjoin steps.*2 ∧
    Forall2 (λ x p, Q x p.1 p.2) l steps).
Proof.
  induction l as [|x l IH]; intros Hf; simpl.
  { apply emits_ret. exists []. by repeat constructor. }
  eapply emits_bind; [apply Hf; set_solver|]. intros e.
  eapply emits_bind; [apply IH; set_solver|]. intros es.
  apply emits_ret. intros pre2 (steps&->&->&HF) pre HQ.
  exists ((e, pre) :: steps). rewrite app_nil_r. split_and!; [done|done|by constructor].
Qed.

(** One command, reporting its success faithfully. *)
Definition one_cmd (bin : string) (args : list string) (stdin : string)
    (r : option goerr) (evs : list event) : Prop :=
  evs = [Ran bin args stdin (bool_decide (r = None))].

Lemma emits_exec bin args stdin :
  emits (exec bin args stdin) (λ r evs, one_cmd bin args stdin r.2 evs).
Proof.
  intros s. unfold exec. destruct (host_exec _ _ _ _) as [w' [out err]]; simpl. by eexists.
Qed.

Lemma emits_run bin args : emits (run bin args) (one_cmd bin args "").
Proof.
  eapply emits_bind; [apply emits_exec|]. intros [out err]. apply emits_ret.
  intros pre ->. rewrite app_nil_r. unfold one_cmd. by destruct err.
Qed.

Lemma emits_nft args rs : emits (runNFTStdin args rs) (one_cmd nftBin args rs).
Proof.
  eapply emits_bind; [apply emits_exec|]. intros [out err]. apply emits_ret.
  intros pre ->. rewrite app_nil_r. unfold one_cmd. by destruct err.
Qed.

(** The command of an event, its outcome aside. *)
Definition cmd_of (e : event) : option (string * list string * string) :=
  match e with Ran b a i _ => Some (b, a, i) | _ => None end.

Definition cmds (bin : string) (l : list (list string)) : list (option (string * list string * string)) :=
  (λ args, Some (bin, args, "")) <$> l.

(** A list of commands runs to its end whatever fails on the way. *)
Lemma emits_runs bin l :
  emits (collect (run bin) l) (λ errs evs,
    cmd_of <$> evs = cmds bin l ∧ (errs = [] → Forall (λ e, event_ok e = true) evs)).
Proof.
  eapply emits_mono; [apply (emits_collect _ _ (λ args, one_cmd bin args "")); intros; apply emits_run|].
  intros errs evs (steps&->&->&HF).
  induction HF as [|args [e ev] l steps Hx HF [IH1 IH2]]; simpl; [done|].
  simpl in Hx. rewrite Hx. simpl. split; [by f_equal|].
  destruct e as [e|]; [done|]. simpl. intros E. constructor; [done|auto].
Qed.

Lemma emits_clearBand :
  emits clearBand (λ _ evs,
    cmd_of <$> evs = cmds ipBin teardownArgs ++ cmds nftBin [["delete"; "table"; "inet"; nftTable]]).
Proof.
  eapply emits_bind; [apply emits_runs|]. intros errs.
  eapply emits_bind; [apply emits_run|]. intros e. apply emits_ret.
  intros pre2 -> pre [Hpre _]. rewrite app_nil_r, fmap_app, Hpre. done.
Qed.

Definition relay_events (err : option goerr) (evs : list event) : Prop :=
  Forall (λ e, is_relay_event e = true) evs ∧ (err = None → Forall (λ e, event_ok e = true) evs).

Lemma relay_events_nil : relay_events None [].
Proof. by split. Qed.

Lemma emits_stop want p : emits (stop_stale want p) relay_events.
Proof.
  destruct p as [port u]. unfold stop_stale. case_bool_decide.
  - apply emits_ret, relay_events_nil.
  - intros s. exists [ClosedRelay port]. split; [done|]. by repeat constructor.
Qed.

Lemma emits_start p : emits (start_missing p) relay_events.
Proof.
  destruct p as [port u]. unfold start_missing. apply emits_get. intros s.
  case_bool_decide; [apply emits_ret, relay_events_nil|].
  destruct (Parse (SOCKS u)); [|apply emits_ret; by split].
  intros s1. unfold open_relay. destruct (host_listen (world s1) port) as [w' [e|]]; simpl; eexists; (split; [done|]);
    split; try done; by repeat constructor.
Qed.

Lemma relay_steps {A} (l : list A) steps :
  Forall2 (λ _ p, relay_events p.1 p.2) l steps →
  Forall (λ e, is_relay_event e = true) (mjoin steps.*2) ∧
  (flat_map (λ p, option_list p.1) steps = [] → Forall (λ e, event_ok e = true) (mjoin steps.*2)).
Proof.
  induction 1 as [|x [e ev] l steps [H1 H2] HF [IH1 IH2]]; simpl; [done|].
  split; [by apply Forall_app|]. destruct e as [e|]; [done|]. simpl. intros E.
  apply Forall_app; auto.
Qed.

Lemma emits_stops want l :
  emits (collect (stop_stale want) l) (λ _ evs,
    Forall (λ e, is_relay_event e = true) evs ∧ Forall (λ e, event_ok e = true) evs).
Proof.
  eapply emits_mono; [apply (emits_collect _ _ (λ _ _ evs,
    Forall (λ e, is_relay_event e = true) evs ∧ Forall (λ e, event_ok e = true) evs))|].
  - intros [port u] _. unfold stop_stale. case_bool_decide; [by apply emits_ret|].
    intros s. exists [ClosedRelay port]. split; [done|]. by repeat constructor.
  - intros errs evs (steps&_&->&HF).
    induction HF as [|x [e ev] l' steps [H1 H2] HF [IH1 IH2]]; simpl; [done|].
    split; by apply Forall_app.
Qed.

Lemma emits_sync cfg : emits (syncSOCKSRelays cfg) relay_events.
Proof.
  apply emits_get. intros s. eapply emits_bind; [apply emits_stops|]. intros e1.
  eapply emits_bind; [apply (emits_collect _ _ (λ _, relay_events)); intros; apply emits_start|].
  intros errs. apply emits_ret. intros pre2 (steps&->&->&HF) pre [Hr Ho].
  rewrite app_nil_r. apply relay_steps in HF as [HF1 HF2].
  split; [by apply Forall_app|]. rewrite errors_join_None. intros E. apply Forall_app; auto.
Qed.

Definition is_add (e : event) : Prop :=
  ∃ ip table ok, e = Ran nftBin (addRuleArgs ip table) "" ok.

Definition adds (err : option goerr) (evs : list event) : Prop :=
  Forall is_add evs ∧ (err = None → Forall (λ e, event_ok e = true) evs).

Lemma emits_addTracked cid cn ip up : emits (addTracked cid cn ip up) adds.
Proof.
  eapply emits_bind with (Q := λ r evs, Forall is_add evs ∧ (is_ok r = true → Forall (λ e, event_ok e = true) evs)).
  - unfold addRule. destruct (ParseIP ip ≫= To4); [|by apply emits_ret].
    eapply emits_bind; [apply emits_exec|]. intros [out err]. apply emits_ret.
    intros pre ->. simpl. split.
    + constructor; [|done]. by eexists _, _, _.
    + destruct err; [done|]. by constructor.
  - intros [h|e]; [|apply emits_ret; intros pre [??]; rewrite app_nil_r; by split].
    apply emits_get. intros s. eapply emits_bind; [by apply (emits_set_tracked _ (λ _ evs, evs = []))|].
    intros []. apply emits_ret. intros ? -> pre [??]. rewrite !app_nil_r. split; auto.
Qed.

Lemma emits_drop cid : emits (drop_tracked cid) (λ _ evs, evs = []).
Proof. apply emits_get. intros s. by apply emits_set_tracked. Qed.

Lemma emits_reinstall_one cfg p : emits (reinstall_one cfg p) adds.
Proof.
  destruct p as [cid e]. unfold reinstall_one.
  destruct (PerCN cfg !! tr_cn e) as [id|].
  - destruct (Find cfg id) as [up|].
    + eapply emits_bind; [apply emits_addTracked|]. intros [err|].
      * eapply emits_bind; [apply emits_drop|]. intros []. apply emits_ret.
        intros ? -> pre [??]. rewrite !app_nil_r. by split.
      * apply emits_ret. intros pre [??]. rewrite app_nil_r. by split.
    + eapply emits_bind; [apply emits_drop|]. intros []. apply emits_ret.
      intros ? ->. by repeat constructor.
  - eapply emits_bind; [apply emits_drop|]. intros []. apply emits_ret.
    intros ? ->. by repeat constructor.
Qed.

Lemma emits_reinstall cfg : emits (reinstall cfg) (λ errs evs,
  Forall is_add evs ∧ (errs = [] → Forall (λ e, event_ok e = true) evs)).
Proof.
  apply emits_get. intros s.
  eapply emits_mono; [apply (emits_collect _ _ (λ _, adds)); intros; apply emits_reinstall_one|].
  intros errs evs (steps&->&->&HF).
  induction HF as [|x [e ev] l steps [H1 H2] HF [IH1 IH2]]; simpl; [done|].
  split; [by apply Forall_app|]. destruct e as [e|]; [done|]. simpl. intros E.
  apply Forall_app; auto.
Qed.

(** The nft half of a run: checked, then loaded when the check passed, then
    the clients' rules re-added when it loaded. *)
Inductive nft_half (rs : string) (err : bool) : list event → Prop :=
  | nft_refused : err = true → nft_half rs err [Ran nftBin ["-c"; "-f"; "-"] rs false]
  | nft_failed : err = true →
      nft_half rs err [Ran nftBin ["-c"; "-f"; "-"] rs true; Ran nftBin ["-f"; "-"] rs false]
  | nft_loaded evs : Forall is_add evs → (err = false → Forall (λ e, event_ok e = true) evs) →
      nft_half rs err ([Ran nftBin ["-c"; "-f"; "-"] rs true; Ran nftBin ["-f"; "-"] rs true] ++ evs).

(** The whole run of [Apply] on a valid configuration. *)
Inductive apply_run (cfg : Config) (err : bool) : list event → Prop :=
  mk_apply_run down routes relays nft ifx :
    cmd_of <$> down =
      cmds ipBin teardownArgs ++ cmds nftBin [["delete"; "table"; "inet"; nftTable]] →
    cmd_of <$> routes = cmds ipBin (flat_map routeArgs (iface_ups cfg)) →
    Forall (λ e, is_relay_event e = true) relays →
    nft_half (nftRuleset ifx cfg) err nft →
    (err = false → Forall (λ e, event_ok e = true) (routes ++ relays ++ nft)) →
    apply_run cfg err (down ++ routes ++ relays ++ nft).

Lemma bool_decide_is_None {A} (x : option A) : bool_decide (is_Some x) = negb (bool_decide (x = None)).
Proof. by destruct x. Qed.

Lemma emits_Apply cfg : Valid cfg →
  emits (Apply cfg) (λ err evs, apply_run cfg (bool_decide (is_Some err)) evs).
Proof.
  intros Hv. unfold Apply. rewrite (proj2 (Validate_Ok cfg) Hv).
  eapply emits_bind; [apply emits_clearBand|]. intros [].
  eapply emits_bind; [apply emits_runs|]. intros errs.
  eapply emits_bind; [apply emits_sync|]. intros rel.
  apply emits_get. intros s.
  eapply emits_bind; [apply emits_nft|]. intros [e|].
  { apply emits_ret. intros nft Hnft relays [Hr1 Hr2] routes [Hc Ho] down Hdown.
    unfold one_cmd in Hnft. subst nft. rewrite bool_decide_is_None, bool_decide_false.
    2:{ intros E%errors_join_None. by apply app_nil in E as [_ ?]. }
    apply (mk_apply_run _ _ down routes relays _ (host_iface (world s))); [done..| |done].
    by apply nft_refused. }
  eapply emits_bind; [apply emits_nft|]. intros [e|].
  { apply emits_ret. intros ld Hld nft Hnft relays [Hr1 Hr2] routes [Hc Ho] down Hdown.
    unfold one_cmd in Hnft, Hld. subst nft ld. rewrite bool_decide_is_None, bool_decide_false.
    2:{ intros E%errors_join_None. by apply app_nil in E as [_ ?]. }
    apply (mk_apply_run _ _ down routes relays _ (host_iface (world s))); [done..| |done].
    by apply nft_failed. }
  eapply emits_bind; [apply emits_reinstall|]. intros errs'.
  apply emits_ret. intros ra [Ha1 Ha2] ld Hld nft Hnft relays [Hr1 Hr2] routes [Hc Ho] down Hdown.
  unfold one_cmd in Hnft, Hld. subst nft ld. rewrite app_nil_r.
  set (err := bool_decide _).
  assert (err = false → errs = [] ∧ rel = None ∧ errs' = []) as Herr.
  { subst err. rewrite bool_decide_eq_false, <-eq_None_not_Some, errors_join_None.
    intros [[? E]%app_nil ?]%app_nil. by destruct rel. }
  apply (mk_apply_run _ _ down routes relays _ (host_iface (world s))); [done..| |].
  - apply nft_loaded; [done|]. intros He. by apply Ha2, Herr.
  - intros He. destruct (Herr He) as (->&->&->).
    apply Forall_app; split; [auto|]. apply Forall_app; split; [auto|].
    apply Forall_app; split; [by repeat constructor|].
    apply Forall_app; split; [by repeat constructor|auto].
Qed.

End Ops.

(** ** What nft promises about the rules it keeps

    [client_rules]: the per-client mark rules of the prerouting chain, by
    handle, each its source address and mark. Each command does what nft(8)
    says when it succeeds and, being one transaction, nothing when it fails,
    whatever the reason; ip(8) and the relays' listeners are not nft's. *)
Class NftLaws (W : Type) `{HostOps W} := {
  client_rules : W → gmap Z (string * Z);
  law_ip : ∀ w args i, client_rules (host_exec w ipBin args i).1 = client_rules w;
  (** A table goes with its rules. *)
  law_delete_table : ∀ w,
    let '(w', (_, err)) := host_exec w nftBin ["delete"; "table"; "inet"; nftTable] "" in
    client_rules w' = match err with None => ∅ | Some _ => client_rules w end;
  (** [-c]: check only, without applying. *)
  law_check : ∀ w rs, client_rules (host_exec w nftBin ["-c"; "-f"; "-"] rs).1 = client_rules w;
  (** Loading adds what the text lists to what is there, and the texts [Apply]
      makes ([nftRuleset]) list no client's rule. *)
  law_load : ∀ w ifx cfg, client_rules (host_exec w nftBin ["-f"; "-"] (nftRuleset ifx cfg)).1 = client_rules w;
  (** [-a -e]: the rule's handle, one no other rule has, is echoed. *)
  law_add : ∀ w ip table,
    let '(w', (out, err)) := host_exec w nftBin (addRuleArgs ip table) "" in
    match err with
    | None => ∃ h, parseHandle out = Ok h ∧ client_rules w !! h = None ∧
                   client_rules w' = <[h := (ip, table)]> (client_rules w)
    | Some _ => client_rules w' = client_rules w
    end;
  law_remove : ∀ w h,
    let '(w', (_, err)) := host_exec w nftBin (removeRuleArgs h) "" in
    client_rules w' = match err with None => delete h (client_rules w) | Some _ => client_rules w end;
  law_listen : ∀ w p, client_rules (host_listen w p).1 = client_rules w;
  law_close : ∀ w p, client_rules (host_close w p) = client_rules w }.

(** *** Tracked sessions against the rules, as maps *)

(** Every tracked session has its own rule, for its own address. *)
Record SyncedM (tr : gmap string trackedRule) (ru : gmap Z (string * Z)) : Prop := {
  sy_rule : ∀ cid e, tr !! cid = Some e → ∃ t, ru !! tr_handle e = Some (tr_ip e, t);
  sy_inj : ∀ c1 c2 e1 e2, tr !! c1 = Some e1 → tr !! c2 = Some e2 →
    tr_handle e1 = tr_handle e2 → c1 = c2 }.

(** ... and nft holds no other client rule. *)
Record ExactM (tr : gmap string trackedRule) (ru : gmap Z (string * Z)) : Prop := {
  ex_synced : SyncedM tr ru;
  ex_cover : ∀ h x, ru !! h = Some x → ∃ cid e, tr !! cid = Some e ∧ tr_handle e = h }.

Lemma SyncedM_delete tr ru cid e : SyncedM tr ru → tr !! cid = Some e →
  SyncedM (delete cid tr) (delete (tr_handle e) ru).
Proof.
  intros [Hr Hi] He. split.
  - intros c x [Hne Hx]%lookup_delete_Some.
    destruct (Hr _ _ Hx) as [t Hx']. exists t. rewrite lookup_delete_ne; [done|].
    intros E. apply Hne. by eapply Hi.
  - intros c1 c2 e1 e2 [_ ?]%lookup_delete_Some [_ ?]%lookup_delete_Some. by eapply Hi.
Qed.

Lemma ExactM_delete tr ru cid e : ExactM tr ru → tr !! cid = Some e →
  ExactM (delete cid tr) (delete (tr_handle e) ru).
Proof.
  intros [Hs Hc] He. split; [by apply SyncedM_delete|].
  intros h x [Hne Hx]%lookup_delete_Some. destruct (Hc _ _ Hx) as (c&e'&Hc'&<-).
  exists c, e'. split; [|done]. apply lookup_delete_Some. split; [|done]. intros <-. naive_solver.
Qed.

Lemma SyncedM_empty ru : SyncedM ∅ ru.
Proof.
  split.
  - by intros ? ? ?%lookup_empty_Some.
  - by intros ? ? ? ? ?%lookup_empty_Some.
Qed.

Lemma ExactM_empty : ExactM ∅ ∅.
Proof. split; [apply SyncedM_empty|]. by intros ? ? ?%lookup_empty_Some. Qed.

Lemma SyncedM_fresh tr ru c e h : SyncedM tr ru → ru !! h = None → tr !! c = Some e → tr_handle e ≠ h.
Proof. intros [Hr _] Hh He <-. destruct (Hr _ _ He). congruence. Qed.

Lemma SyncedM_insert tr ru cid e t : SyncedM tr ru → ru !! tr_handle e = None →
  SyncedM (<[cid := e]> tr) (<[tr_handle e := (tr_ip e, t)]> ru).
Proof.
  intros Hs Hh. pose proof (λ c e0, SyncedM_fresh tr ru c e0 _ Hs Hh) as Hfresh.
  destruct Hs as [Hr Hi]. split.
  - intros c x [[<- <-]|[Hne Hx]]%lookup_insert_Some.
    + exists t. by simplify_map_eq.
    + destruct (Hr _ _ Hx) as [t' Ht]. exists t'. rewrite lookup_insert_ne; [done|].
      intros E. by eapply Hfresh.
  - intros c1 c2 e1 e2 [[<- <-]|[? Ha]]%lookup_insert_Some [[<- <-]|[? Hb]]%lookup_insert_Some E;
      try done.
    + by destruct (Hfresh _ _ Hb).
    + by destruct (Hfresh _ _ Ha).
    + by eapply Hi.
Qed.

Lemma ExactM_insert tr ru cid e t : ExactM tr ru → ru !! tr_handle e = None → tr !! cid = None →
  ExactM (<[cid := e]> tr) (<[tr_handle e := (tr_ip e, t)]> ru).
Proof.
  intros [Hs Hc] Hh Hn. split; [by apply SyncedM_insert|].
  intros h x [[<- <-]|[Hne Hx]]%lookup_insert_Some.
  - exists cid, e. by simplify_map_eq.
  - destruct (Hc _ _ Hx) as (c&e'&He&<-). exists c, e'. split; [|done].
    rewrite lookup_insert_ne; [done|]. congruence.
Qed.

(** ... and beside the tracked rules only ones of [old]. *)
Record OverM (old : gmap Z (string * Z)) (tr : gmap string trackedRule) (ru : gmap Z (string * Z)) : Prop := {
  ov_synced : SyncedM tr ru;
  ov_kept : old ⊆ ru;
  ov_cover : ∀ h x, ru !! h = Some x → old !! h = Some x ∨ ∃ cid e, tr !! cid = Some e ∧ tr_handle e = h }.

Lemma OverM_empty old : OverM old ∅ old.
Proof. split; [apply SyncedM_empty|done|by left]. Qed.

Lemma OverM_Exact tr ru : OverM ∅ tr ru → ExactM tr ru.
Proof. intros [Hs _ Hc]. split; [done|]. intros h x Hx. destruct (Hc _ _ Hx) as [[]%lookup_empty_Some|?]; done. Qed.

Lemma OverM_insert old tr ru cid e t : OverM old tr ru → ru !! tr_handle e = None → tr !! cid = None →
  OverM old (<[cid := e]> tr) (<[tr_handle e := (tr_ip e, t)]> ru).
Proof.
  intros [Hs Hk Hc] Hh Hn. split; [by apply SyncedM_insert|apply insert_subseteq_r; [by eapply lookup_weaken_None|done]|].
  intros h x [[<- <-]|[Hne Hx]]%lookup_insert_Some; [right; exists cid, e; by simplify_map_eq|].
  destruct (Hc _ _ Hx) as [?|(c&e'&He&<-)]; [by left|right]. exists c, e'. split; [|done].
  rewrite lookup_insert_ne; [done|]. congruence.
Qed.

(** A session's rule replaced: the new one added, then the old one removed. *)
Lemma replace_maps tr ru cid o e t : SyncedM tr ru → ru !! tr_handle e = None → tr !! cid = Some o →
  <[cid := e]> tr = <[cid := e]> (delete cid tr) ∧
  delete (tr_handle o) (<[tr_handle e := (tr_ip e, t)]> ru) =
    <[tr_handle e := (tr_ip e, t)]> (delete (tr_handle o) ru) ∧
  delete (tr_handle o) ru !! tr_handle e = None.
Proof.
  intros Hs Hh Ho. pose proof (SyncedM_fresh _ _ _ _ _ Hs Hh Ho) as Hne.
  split; [by rewrite insert_delete_eq|]. split.
  - by rewrite delete_insert_ne.
  - by rewrite lookup_delete_None; right.
Qed.

Lemma SyncedM_replace tr ru cid o e t : SyncedM tr ru → ru !! tr_handle e = None → tr !! cid = Some o →
  SyncedM (<[cid := e]> tr) (delete (tr_handle o) (<[tr_handle e := (tr_ip e, t)]> ru)).
Proof.
  intros Hs Hh Ho. destruct (replace_maps tr ru cid o e t Hs Hh Ho) as (->&->&Hf).
  apply SyncedM_insert; [by apply SyncedM_delete|done].
Qed.

Lemma ExactM_replace tr ru cid o e t : ExactM tr ru → ru !! tr_handle e = None → tr !! cid = Some o →
  ExactM (<[cid := e]> tr) (delete (tr_handle o) (<[tr_handle e := (tr_ip e, t)]> ru)).
Proof.
  intros Hs Hh Ho. destruct (replace_maps tr ru cid o e t (ex_synced _ _ Hs) Hh Ho) as (->&->&Hf).
  apply ExactM_insert; [by apply ExactM_delete|done|]. apply lookup_delete_eq.
Qed.

Section Tracking.
  Context {W : Type} `{NftLaws W} (getenv : string → string).

Definition rules (s : St W) : gmap Z (string * Z) := client_rules (world s).

(** Every command of the step succeeded. *)
Definition quiet (s s' : St W) : Prop :=
  ∃ evs, trace s' = trace s ++ evs ∧ Forall (λ e, event_ok e = true) evs.

Definition Synced (s : St W) : Prop := SyncedM (tracked s) (rules s).
Definition Exact (s : St W) : Prop := ExactM (tracked s) (rules s).

Lemma removeRule_spec h s :
  let '(r, s') := removeRule h s in
  tracked s' = tracked s ∧
  rules s' = match r with None => delete h (rules s) | Some _ => rules s end.
Proof.
  unfold removeRule, run, exec, mbind, M_bind, mret, M_ret. unfold nftBin at 1.
  pose proof (law_remove (world s) h) as Hl. unfold nftBin in Hl.
  destruct (host_exec _ _ _ _) as [w' [out err]]. simpl. split; [done|].
  unfold rules; simpl. rewrite Hl. by destruct err.
Qed.

Lemma addTracked_spec cid cn ip up s :
  let '(r, s') := addTracked cid cn ip up s in
  match r with
  | None => ∃ h, rules s !! h = None ∧ rules s' = <[h := (ip, Table up)]> (rules s) ∧
                 tracked s' = <[cid := mkTracked ip cn h]> (tracked s)
  | Some _ => rules s' = rules s ∧ tracked s' = tracked s
  end.
Proof.
  unfold addTracked, addRule. destruct (ParseIP ip ≫= To4); [|done].
  unfold mbind, M_bind, mret, M_ret, exec, get, set_tracked.
  pose proof (law_add (world s) ip (Table up)) as Hl.
  destruct (host_exec _ _ _ _) as [w' [out err]]. simpl.
  destruct err as [e|]; simpl; [done|].
  destruct Hl as (h&->&Hh&Hr). simpl. eauto.
Qed.

Lemma uninstall_cases cid s :
  let '(r, s') := uninstallRule cid s in
  match tracked s !! cid, r with
  | None, _ => r = None ∧ s' = s
  | Some e, None => tracked s' = delete cid (tracked s) ∧ rules s' = delete (tr_handle e) (rules s)
  | Some e, Some _ => tracked s' = tracked s ∧ rules s' = rules s
  end.
Proof.
  unfold uninstallRule, mbind, M_bind, get, mret, M_ret.
  destruct (tracked s !! cid) as [e|] eqn:E; [|done].
  pose proof (removeRule_spec (tr_handle e) s) as Hs.
  destruct (removeRule _ s) as [[err|] s1]; [by destruct Hs|].
  destruct Hs as [Ht Hr]. simpl. unfold rules in *; simpl. by rewrite Ht.
Qed.

Lemma uninstall_inv cid s :
  (Synced s → Synced (uninstallRule cid s).2) ∧ (Exact s → Exact (uninstallRule cid s).2).
Proof.
  pose proof (uninstall_cases cid s) as Hc. unfold Synced, Exact.
  destruct (uninstallRule cid s) as [r s']; simpl.
  destruct (tracked s !! cid) as [e|] eqn:E; [|by destruct Hc as [_ ->]].
  destruct r; destruct Hc as [-> ->]; [done|].
  split; intros; [by apply SyncedM_delete|by apply ExactM_delete].
Qed.

Lemma addTracked_inv cid cn ip up s :
  (Synced s → Synced (addTracked cid cn ip up s).2) ∧
  (Exact s → tracked s !! cid = None → Exact (addTracked cid cn ip up s).2).
Proof.
  pose proof (addTracked_spec cid cn ip up s) as Hs. unfold Synced, Exact.
  destruct (addTracked cid cn ip up s) as [[e|] s']; simpl; [by destruct Hs as [-> ->]|].
  destruct Hs as (h&Hh&->&->). split; intros.
  - by apply (SyncedM_insert _ _ cid (mkTracked ip cn h)).
  - by apply (ExactM_insert _ _ cid (mkTracked ip cn h)).
Qed.

Lemma installRule_inv cid cn ip up s :
  (Synced s → Synced (installRule cid cn ip up s).2) ∧
  (Exact s → quiet s (installRule cid cn ip up s).2 → Exact (installRule cid cn ip up s).2).
Proof.
  unfold installRule, mbind, M_bind, get, mret, M_ret.
  pose proof (addTracked_spec cid cn ip up s) as Hs.
  pose proof (addTracked_inv cid cn ip up s) as [Hi1 Hi2].
  destruct (addTracked cid cn ip up s) as [[e|] s1] eqn:Eadd; simpl in *.
  { split; [done|]. intros. unfold Exact. by destruct Hs as [-> ->]. }
  destruct (tracked s !! cid) as [o|] eqn:Eo; simpl; [|by split; [|intros; apply Hi2]].
  destruct Hs as (h&Hh&Hr1&Ht1).
  pose proof (removeRule_spec (tr_handle o) s1) as Hrem.
  pose proof (emits_run (W := W) nftBin (removeRuleArgs (tr_handle o)) s1) as (evs&Htr&Hev).
  change (run nftBin (removeRuleArgs (tr_handle o)) s1) with (removeRule (tr_handle o) s1) in *.
  destruct (removeRule (tr_handle o) s1) as [r s2]; simpl in *.
  destruct Hrem as [Ht2 Hr2]. unfold Synced, Exact in *. rewrite Ht2, Hr2, Hr1, Ht1 in *.
  split.
  - intros Hs. destruct r; [by apply Hi1|].
    by apply (SyncedM_replace _ _ cid o (mkTracked ip cn h)).
  - intros Hex Hq. destruct r as [e|].
    + exfalso. unfold one_cmd in Hev. subst evs.
      pose proof (emits_addTracked cid cn ip up s) as (evs1&Htr1&_). rewrite Eadd in Htr1; simpl in Htr1.
      destruct Hq as (evs&Htr'&Hok). rewrite Htr, Htr1, <-app_assoc in Htr'.
      apply app_inv_head in Htr' as <-. apply Forall_app in Hok as [_ Hok]. by inversion Hok.
    + by apply (ExactM_replace _ _ cid o (mkTracked ip cn h)).
Qed.

Lemma collect_inv {A} (f : A → M (option goerr)) l (P : St W → Prop) s :
  (∀ x s, P s → P (f x s).2) → P s → P (collect f l s).2.
Proof.
  intros Hf. revert s. induction l as [|x l IH]; intros s Hs; [done|].
  simpl. unfold mbind, M_bind. pose proof (Hf x s Hs) as Hx. destruct (f x s) as [e s1].
  pose proof (IH s1 Hx) as Hy. by destruct (collect f l s1).
Qed.

Lemma bind_run {A B} (m : M A) (f : A → M B) (s : St W) : (m ≫= f) s = f (m s).1 (m s).2.
Proof. unfold mbind, M_bind. by destruct (m s). Qed.

Lemma bind_tt {A} (m : M A) (s : St W) : (m ;; mret tt : M unit) s = (tt, (m s).2).
Proof. unfold mbind, M_bind. by destruct (m s). Qed.

(** *** Rebuilding *)

(** [m] touches neither the tracker nor the client rules. *)
Definition keeps {A} (m : M A) : Prop :=
  ∀ s, tracked (m s).2 = tracked s ∧ rules (m s).2 = rules s.

Lemma keeps_bind {A B} (m : M A) (f : A → M B) :
  keeps m → (∀ a, keeps (f a)) → keeps (m ≫= f).
Proof.
  intros Hm Hf s. unfold mbind, M_bind. destruct (Hm s) as [Ht Hr].
  destruct (m s) as [a s1]; simpl in *. destruct (Hf a s1) as [Ht' Hr']. by rewrite Ht', Hr'.
Qed.
Lemma keeps_ret {A} (a : A) : keeps (mret a).
Proof. by intros s. Qed.
Lemma keeps_get {B} (f : St W → M B) : (∀ x, keeps (f x)) → keeps (s ← get; f s).
Proof. intros Hf s. apply (Hf s s). Qed.
Lemma keeps_collect {A} (f : A → M (option goerr)) l : (∀ x, x ∈ l → keeps (f x)) → keeps (collect f l).
Proof.
  induction l as [|x l IH]; intros Hf; simpl; [apply keeps_ret|].
  apply keeps_bind; [apply Hf; set_solver|]. intros e.
  apply keeps_bind; [apply IH; set_solver|]. intros es. apply keeps_ret.
Qed.

Lemma exec_rules bin args i (s : St W) :
  tracked (exec bin args i s).2 = tracked s ∧
  rules (exec bin args i s).2 = client_rules (host_exec (world s) bin args i).1.
Proof. unfold exec, rules. by destruct (host_exec _ _ _ _) as [w' [out err]]. Qed.

Lemma keeps_run_ip args : keeps (run ipBin args).
Proof.
  apply keeps_bind; [|by intros [] ; apply keeps_ret]. intros s.
  destruct (exec_rules ipBin args "" s) as [-> ->]. by rewrite law_ip.
Qed.

Lemma keeps_check rs : keeps (runNFTStdin ["-c"; "-f"; "-"] rs).
Proof.
  apply keeps_bind; [|by intros []; apply keeps_ret]. intros s.
  destruct (exec_rules nftBin ["-c"; "-f"; "-"] rs s) as [-> ->]. split; [done|apply law_check].
Qed.

Lemma keeps_load ifx cfg : keeps (runNFTStdin ["-f"; "-"] (nftRuleset ifx cfg)).
Proof.
  apply keeps_bind; [|by intros []; apply keeps_ret]. intros s.
  destruct (exec_rules nftBin ["-f"; "-"] (nftRuleset ifx cfg) s) as [-> ->]. split; [done|apply law_load].
Qed.

(** *** What a run did to the table, read off its commands *)

Definition is_nft (args : list string) (e : event) : bool :=
  match e with Ran bin a _ ok => ok && String.eqb bin nftBin && bool_decide (a = args) | _ => false end.
Definition is_delete : event → bool := is_nft ["delete"; "table"; "inet"; nftTable].
Definition is_load : event → bool := is_nft ["-f"; "-"].

Definition news (s s' : St W) : list event := drop (length (trace s)) (trace s').
Definition deleted (s s' : St W) : bool := existsb is_delete (news s s').
Definition loaded (s s' : St W) : bool := existsb is_load (news s s').

(** [m] neither deletes the table nor loads it, whatever happens. *)
Definition spares (evs : list event) : Prop := Forall (λ e, is_delete e = false ∧ is_load e = false) evs.
Lemma spares_none evs : spares evs → existsb is_delete evs = false ∧ existsb is_load evs = false.
Proof. induction 1 as [|e evs [H1 H2] _ [IH1 IH2]]; [done|]. cbn. by rewrite H1, H2, IH1, IH2. Qed.
Lemma spares_cmds l evs : cmd_of <$> evs = cmds ipBin l → spares evs.
Proof.
  revert evs. induction l as [|args l IH]; intros [|e evs]; try done; [intros; constructor|].
  cbn. intros [= He Hl]. constructor; [|by apply IH]. destruct e; try done. injection He as -> -> ->.
  unfold is_delete, is_load, is_nft. by rewrite andb_false_r.
Qed.
Lemma spares_relays evs : Forall (λ e, is_relay_event e = true) evs → spares evs.
Proof. intros H1. eapply Forall_impl; [exact H1|]. by intros []. Qed.
Lemma spares_adds evs : Forall is_add evs → spares evs.
Proof.
  intros H1. eapply Forall_impl; [exact H1|]. intros e (ip&table&ok&->). unfold is_delete, is_load, is_nft, addRuleArgs.
  by rewrite !bool_decide_false, !andb_false_r by done.
Qed.

Lemma clearBand_spec (s : St W) : ∃ evs ok,
  trace (clearBand s).2 = trace s ++ evs ++ [Ran nftBin ["delete"; "table"; "inet"; nftTable] "" ok] ∧ spares evs ∧
  tracked (clearBand s).2 = tracked s ∧ rules (clearBand s).2 = if ok : bool then ∅ else rules s.
Proof.
  unfold clearBand. rewrite bind_run, bind_tt. cbn [snd].
  destruct (keeps_collect (run ipBin) teardownArgs (λ args _, keeps_run_ip args) s) as [Ht Hr].
  destruct (emits_runs (W := W) ipBin teardownArgs s) as (evs&He&Hc&_).
  set (s1 := (collect _ _ s).2) in *. exists evs.
  destruct (emits_run (W := W) nftBin ["delete"; "table"; "inet"; nftTable] s1) as (ev&Hd&->).
  eexists. rewrite Hd, He, <-app_assoc. split; [done|]. split; [by eapply spares_cmds|].
  unfold run. rewrite bind_run. pose proof (law_delete_table (world s1)) as Hlaw.
  unfold exec, rules in *. destruct (host_exec _ _ _ _) as [w' [out err]]. cbn in *. rewrite Hlaw, Ht. split; [done|]. by destruct err.
Qed.

Lemma keeps_sync cfg : keeps (syncSOCKSRelays getenv cfg).
Proof.
  apply keeps_get. intros s0. apply keeps_bind; [|intros e1; apply keeps_bind].
  - apply keeps_collect. intros [port u] _. unfold stop_stale. case_bool_decide; [apply keeps_ret|].
    intros s. split; [done|]. apply law_close.
  - apply keeps_collect. intros [port u] _. apply keeps_get. intros s1.
    case_bool_decide; [apply keeps_ret|]. destruct (Parse (SOCKS u)); [|apply keeps_ret].
    intros s. unfold open_relay. pose proof (law_listen (world s) port) as Hl.
    by destruct (host_listen _ _) as [w' [e|]].
  - intros errs. apply keeps_ret.
Qed.

Lemma news_of s s' evs : trace s' = trace s ++ evs → news s s' = evs.
Proof. intros E. unfold news. by rewrite E, drop_app_length. Qed.

(** One more nft command, and what it was. *)
Lemma emits_keeps {A} (m : M A) (Q : A → list event → Prop) (s : St W) : emits m Q → keeps m →
  ∃ evs, trace (m s).2 = trace s ++ evs ∧ Q (m s).1 evs ∧ tracked (m s).2 = tracked s ∧ rules (m s).2 = rules s.
Proof. intros He Hk. destruct (He s) as (evs&?&?), (Hk s). by exists evs. Qed.

(** What the table holds once [Apply] has cleared the band: nothing if nft
    deleted it, else what it held. *)
Definition cleared (s s' : St W) : gmap Z (string * Z) := if deleted s s' then ∅ else rules s.

(** Where [Apply] ends: nft has not loaded the ruleset, and the tracker is as
    it was over what was left of the table, or the clients were reinstalled
    there. *)
Lemma Apply_shape cfg s : Valid cfg →
  let '(err, s') := Apply getenv cfg s in
  if loaded s s' then
    ∃ s1, tracked s1 = tracked s ∧ rules s1 = cleared s s' ∧ s' = (reinstall cfg s1).2 ∧
          (err = None → (reinstall cfg s1).1 = [])
  else err ≠ None ∧ tracked s' = tracked s ∧ rules s' = cleared s s'.
Proof.
  intros Hv. unfold Apply. rewrite (proj2 (Validate_Ok cfg) Hv).
  unfold mbind, M_bind at 1. destruct (clearBand_spec s) as (e0&ok&E0&Q0&Ht0&Hr0).
  destruct (clearBand s) as [[] s0]; simpl in *.
  unfold M_bind at 1. destruct (emits_keeps _ _ s0 (emits_runs ipBin (flat_map routeArgs (iface_ups cfg)))
    (keeps_collect (run ipBin) _ (λ args _, keeps_run_ip args))) as (e1&E1&[Q1 _]&Ht1&Hr1).
  destruct (collect (run ipBin) _ s0) as [errs s1]; simpl in *.
  unfold M_bind at 1. destruct (emits_keeps _ _ s1 (emits_sync getenv cfg) (keeps_sync cfg)) as (e2&E2&[Q2 _]&Ht2&Hr2).
  destruct (syncSOCKSRelays getenv cfg s1) as [rel s2]; simpl in *.
  unfold M_bind at 1, get. set (rs := nftRuleset _ _).
  unfold M_bind at 1. destruct (emits_keeps _ _ s2 (emits_nft ["-c"; "-f"; "-"] rs) (keeps_check rs)) as (e3&E3&Q3&Ht3&Hr3).
  apply spares_cmds in Q1. apply spares_relays in Q2. apply spares_none in Q0 as [D0 L0], Q1 as [D1 L1], Q2 as [D2 L2].
  destruct (runNFTStdin ["-c"; "-f"; "-"] rs s2) as [chk s3]; simpl in *.
  assert (existsb is_delete e3 = false ∧ existsb is_load e3 = false) as [D3 L3].
  { unfold one_cmd in Q3. subst e3. unfold is_delete, is_load, is_nft. cbn. by rewrite !andb_false_r. }
  assert (∀ s' evs, trace s' = trace s3 ++ evs → existsb is_delete evs = false →
    deleted s s' = ok ∧ loaded s s' = existsb is_load evs) as Hnews.
  { intros s' evs E D. unfold deleted, loaded. rewrite (news_of s s' (e0 ++ [Ran nftBin ["delete"; "table"; "inet"; nftTable] "" ok] ++ e1 ++ e2 ++ e3 ++ evs))
      by (rewrite E, E3, E2, E1, E0; by rewrite <-!app_assoc).
    rewrite !existsb_app, D0, D1, D2, D3, D, L0, L1, L2, L3. cbn. rewrite !andb_true_r, !andb_false_r. split; [by destruct ok|done]. }
  assert (rules s3 = if ok then ∅ else rules s) as Hr by congruence.
  destruct chk as [e|]; simpl.
  { destruct (Hnews s3 []) as [Hd Hl]; [by rewrite app_nil_r|done|]. unfold cleared. rewrite Hl, Hd. cbn.
    split; [by intros [_ ?]%errors_join_None%app_nil|]. split; [congruence|done]. }
  unfold M_bind at 1. destruct (emits_keeps _ _ s3 (emits_nft ["-f"; "-"] rs) (keeps_load _ _)) as (e4&E4&Q4&Ht4&Hr4).
  fold rs in E4, Q4, Ht4, Hr4. destruct (runNFTStdin ["-f"; "-"] rs s3) as [[e|] s4]; simpl in *; unfold one_cmd in Q4; subst e4.
  { destruct (Hnews s4 _ E4) as [Hd Hl]; [done|]. unfold cleared. rewrite Hl, Hd. cbn.
    split; [by intros [_ ?]%errors_join_None%app_nil|]. split; congruence. }
  unfold M_bind at 1. destruct (emits_reinstall cfg s4) as (e5&E5&[Q5 _]). apply spares_adds in Q5. apply spares_none in Q5 as [D5 _].
  destruct (reinstall cfg s4) as [errs' s5] eqn:E; simpl in *.
  destruct (Hnews s5 (Ran nftBin ["-f"; "-"] rs true :: e5)) as [Hd Hl]; [by rewrite E5, E4, <-app_assoc|done|].
  unfold cleared. rewrite Hl, Hd. cbn. exists s4. rewrite E. split_and!; [congruence|congruence|done|].
  by intros [_ ?]%errors_join_None%app_nil.
Qed.

(** A tracked session's rule carries its assigned upstream's mark. *)
Definition Routed (cfg : Config) (tr : gmap string trackedRule) (ru : gmap Z (string * Z)) : Prop :=
  ∀ cid e, tr !! cid = Some e → ∃ id up, PerCN cfg !! tr_cn e = Some id ∧
    Find cfg id = Some up ∧ ru !! tr_handle e = Some (tr_ip e, Table up).

Definition same_session (e e' : trackedRule) : Prop := tr_ip e' = tr_ip e ∧ tr_cn e' = tr_cn e.

(** The loop over [l] still to visit, from the tracker [T0]. *)
Record reinstalling (cfg : Config) (T0 : gmap string trackedRule) (old : gmap Z (string * Z))
    (l : list (string * trackedRule)) (s : St W) : Prop := {
  ri_rest : ∀ cid e, (cid, e) ∈ l → tracked s !! cid = Some e;
  ri_over : OverM old (foldr delete (tracked s) l.*1) (rules s);
  ri_routed : Routed cfg (foldr delete (tracked s) l.*1) (rules s);
  ri_origin : ∀ cid e, tracked s !! cid = Some e →
    ∃ e0, T0 !! cid = Some e0 ∧ same_session e0 e }.

Lemma Routed_insert cfg tr ru cid e id up : Routed cfg tr ru → ru !! tr_handle e = None →
  PerCN cfg !! tr_cn e = Some id → Find cfg id = Some up →
  Routed cfg (<[cid := e]> tr) (<[tr_handle e := (tr_ip e, Table up)]> ru).
Proof.
  intros Hr Hh Hp Hf c e' [[<- <-]|[_ He]]%lookup_insert_Some.
  - exists id, up. by simplify_map_eq.
  - destruct (Hr _ _ He) as (id'&up'&?&?&?). exists id', up'.
    rewrite lookup_insert_ne; [done|]. congruence.
Qed.

Definition keeps_sessions (cfg : Config) (T0 : gmap string trackedRule) (s s' : St W) : Prop :=
  ∀ cid e0, T0 !! cid = Some e0 → is_Some (PerCN cfg !! tr_cn e0) →
    is_Some (tracked s !! cid) → is_Some (tracked s' !! cid).

Lemma reinstalling_drop cfg T0 old cid e l s s' :
  reinstalling cfg T0 old ((cid, e) :: l) s → cid ∉ l.*1 →
  tracked s' = delete cid (tracked s) → rules s' = rules s → reinstalling cfg T0 old l s'.
Proof.
  intros [Ha He Hr Ho] Hnot Ht Hru. simpl in *. constructor; rewrite ?Ht, ?Hru.
  - intros c x Hin. apply lookup_delete_Some. split; [|apply Ha; set_solver].
    intros <-. apply Hnot, list_elem_of_fmap. by exists (cid, x).
  - by rewrite <-delete_foldr_delete.
  - by rewrite <-delete_foldr_delete.
  - intros c x [_ Hx]%lookup_delete_Some. by apply Ho.
Qed.

Lemma reinstall_step cfg T0 old cid e l s :
  reinstalling cfg T0 old ((cid, e) :: l) s → cid ∉ l.*1 →
  let '(r, s') := reinstall_one cfg (cid, e) s in
  reinstalling cfg T0 old l s' ∧ (r = None → keeps_sessions cfg T0 s s').
Proof.
  intros Hri Hnot. unfold reinstall_one.
  assert (tracked s !! cid = Some e) as Hcid by (apply Hri; set_solver).
  destruct (PerCN cfg !! tr_cn e) as [id|] eqn:Ep.
  2:{ split; [by eapply reinstalling_drop|]. intros _ c e0 Hc0 Hp Hs.
      unfold drop_tracked; simpl. rewrite lookup_delete_ne; [done|]. intros <-.
      destruct (ri_origin _ _ _ _ _ Hri _ _ Hcid) as (e1&Hc1&[_ Hcn]).
      rewrite Hcn in Ep. rewrite Hc0 in Hc1. injection Hc1 as <-. rewrite Ep in Hp. by destruct Hp. }
  destruct (Find cfg id) as [up|] eqn:Ef; [|split; [by eapply reinstalling_drop|done]].
  unfold mbind, M_bind. pose proof (addTracked_spec cid (tr_cn e) (tr_ip e) up s) as Ha.
  destruct (addTracked cid (tr_cn e) (tr_ip e) up s) as [[err|] s1].
  { destruct Ha as [Hr Ht]. split; [|done]. eapply reinstalling_drop; [done..| |]; simpl; [by rewrite Ht|done]. }
  destruct Ha as (h&Hh&Hr&Ht). destruct Hri as [Hrest He Hro Hor]. simpl in *.
  split.
  - constructor; rewrite ?Ht, ?Hr.
    + intros c x Hin. rewrite lookup_insert_ne; [apply Hrest; set_solver|].
      intros <-. apply Hnot, list_elem_of_fmap. by exists (cid, x).
    + rewrite foldr_delete_insert_notin by done. rewrite <-insert_delete_eq.
      by apply (OverM_insert _ _ _ cid (mkTracked (tr_ip e) (tr_cn e) h)); [| |apply lookup_delete_eq].
    + rewrite foldr_delete_insert_notin by done. rewrite <-insert_delete_eq.
      by apply (Routed_insert _ _ _ cid (mkTracked (tr_ip e) (tr_cn e) h) id up).
    + intros c x [[<- <-]|[_ Hx]]%lookup_insert_Some; [|by apply Hor].
      destruct (Hor _ _ Hcid) as (e0&He0&?&?). by exists e0.
  - intros _ c e0 _ _ Hs. rewrite Ht. destruct (decide (c = cid)) as [->|]; by simplify_map_eq.
Qed.

Lemma reinstall_loop cfg T0 old l s : NoDup l.*1 → reinstalling cfg T0 old l s →
  let '(errs, s') := collect (reinstall_one cfg) l s in
  reinstalling cfg T0 old [] s' ∧ (errs = [] → keeps_sessions cfg T0 s s').
Proof.
  revert s. induction l as [|[cid e] l IH]; intros s Hnd Hri.
  { simpl. split; [done|]. by intros _ c e0. }
  simpl in Hnd. apply NoDup_cons in Hnd as [Hnot Hnd].
  pose proof (reinstall_step cfg T0 old cid e l s Hri Hnot) as Hstep.
  cbn [collect]. unfold mbind, M_bind.
  destruct (reinstall_one cfg (cid, e) s) as [r s1]. destruct Hstep as [Hs1 Hs2].
  pose proof (IH s1 Hnd Hs1) as Hl. destruct (collect (reinstall_one cfg) l s1) as [errs s2].
  destruct Hl as [Hs3 Hs4]. simpl. split; [done|]. destruct r as [r|]; [done|]. simpl.
  intros -> c e0 Hc Hp Hs. eapply Hs4; eauto. by eapply Hs2.
Qed.

Lemma reinstall_spec cfg s :
  let '(errs, s') := reinstall cfg s in
  OverM (rules s) (tracked s') (rules s') ∧ Routed cfg (tracked s') (rules s') ∧
  (∀ cid e, tracked s' !! cid = Some e → ∃ e0, tracked s !! cid = Some e0 ∧ same_session e0 e) ∧
  (errs = [] → ∀ cid e, tracked s !! cid = Some e → is_Some (PerCN cfg !! tr_cn e) →
     is_Some (tracked s' !! cid)).
Proof.
  unfold reinstall, get. unfold mbind, M_bind.
  assert (foldr delete (tracked s) (map_to_list (tracked s)).*1 = ∅) as Hempty.
  { apply map_empty. intros c. destruct (tracked s !! c) as [e|] eqn:E.
    - apply lookup_foldr_delete. apply list_elem_of_fmap. exists (c, e).
      split; [done|]. by apply elem_of_map_to_list.
    - rewrite lookup_foldr_delete_not_elem_of; [done|]. intros ([c' e]&->&Hc)%list_elem_of_fmap.
      apply elem_of_map_to_list in Hc. naive_solver. }
  pose proof (reinstall_loop cfg (tracked s) (rules s) (map_to_list (tracked s)) s
    (NoDup_fst_map_to_list _)) as Hl.
  destruct (collect (reinstall_one cfg) _ s) as [errs s'].
  destruct Hl as [[_ He Hro Hor] Hk].
  { constructor; rewrite ?Hempty.
    - intros c e. by rewrite elem_of_map_to_list.
    - apply OverM_empty.
    - by intros c e Hc%lookup_empty_Some.
    - intros c e Hc. exists e. by split. }
  split_and!; auto. intros -> c e Hc Hp. eapply Hk; eauto.
Qed.

(** ** Sessions as a transition system *)

(** One call into the tracker. The flag says that the table is behind it: nft
    has deleted it for an [Apply] and refused the new one, and no [Apply] has
    loaded one since. [clean] adds what the callers normally see: a session id
    is established once, the commands of a reassignment work, and a table with
    rules that is rebuilt was deleted first. *)
Inductive session_step (clean : bool) : bool * St W → bool * St W → Prop :=
  | ss_establish b cid cn ip cfg s :
      (clean = true → tracked s !! cid = None) →
      session_step clean (b, s) (b, (Establish cid cn ip cfg s).2)
  | ss_disconnect b cid s : session_step clean (b, s) (b, (Disconnect cid s).2)
  | ss_clear b s : session_step clean (b, s) (b, (ClearAll s).2)
  | ss_reassign b cid cn ip cfg s :
      (clean = true → quiet s (Reassign cid cn ip cfg s).2) →
      session_step clean (b, s) (b, (Reassign cid cn ip cfg s).2)
  | ss_apply b cfg s s' : s' = (Apply getenv cfg s).2 →
      (clean = true → loaded s s' = true → deleted s s' = true ∨ rules s = ∅) →
      session_step clean (b, s) (if loaded s s' then false else deleted s s' || b, s').

Definition fresh_start (s : St W) : Prop := tracked s = ∅ ∧ rules s = ∅.

(** What [Apply] leaves, on any configuration. *)
Lemma Apply_leaves cfg s s' : s' = (Apply getenv cfg s).2 →
  if loaded s s' then OverM (cleared s s') (tracked s') (rules s')
  else tracked s' = tracked s ∧ rules s' = cleared s s'.
Proof.
  intros ->. destruct (Validate cfg) as [[]|e] eqn:Ev.
  - pose proof (Apply_shape cfg s (proj1 (Validate_Ok _) Ev)) as Hs.
    destruct (Apply getenv cfg s) as [err s']. cbn [snd]. destruct (loaded s s'); [|by destruct Hs].
    destruct Hs as (s1&_&Hr&->&_). rewrite <-Hr. pose proof (reinstall_spec cfg s1) as Hsp.
    by destruct (reinstall cfg s1) as [? ?]; apply Hsp.
  - unfold Apply. rewrite Ev. cbn. unfold cleared, loaded, deleted, news. by rewrite drop_all.
Qed.

Lemma ClearAll_inv (P : St W → Prop) (s : St W) :
  (∀ cid s, P s → P (uninstallRule cid s).2) → P s → P (ClearAll s).2.
Proof.
  intros HP Hs. unfold ClearAll. rewrite bind_run, bind_tt. cbn [snd].
  apply collect_inv; [|done]. intros cid s1. apply HP.
Qed.

Definition not_behind (P : St W → Prop) (p : bool * St W) : Prop := p.1 = false → P p.2.

Lemma session_step_Synced clean p p' : not_behind Synced p → session_step clean p p' → not_behind Synced p'.
Proof.
  unfold not_behind. intros Hs Hstep. destruct Hstep as [b cid cn ip cfg s _|b cid s|b s|b cid cn ip cfg s _|b cfg s s' E _];
    cbn in *; intros Hb; try specialize (Hs Hb).
  - unfold Establish. destruct (PerCN cfg !! cn) as [id|]; [|done].
    destruct (Find cfg id); [|done]. exact (proj1 (addTracked_inv _ _ _ _ _) Hs).
  - unfold Disconnect. rewrite bind_tt. exact (proj1 (uninstall_inv _ _) Hs).
  - apply ClearAll_inv; [|done]. intros c s1. exact (proj1 (uninstall_inv c s1)).
  - unfold Reassign. destruct (PerCN cfg !! cn) as [id|]; [|exact (proj1 (uninstall_inv _ _) Hs)].
    destruct (Find cfg id); [|done]. exact (proj1 (installRule_inv _ _ _ _ _) Hs).
  - pose proof (Apply_leaves cfg s s' E) as Hl. destruct (loaded s s'); [by destruct Hl|].
    apply orb_false_iff in Hb as [Hd Hb]. unfold cleared in Hl. rewrite Hd in Hl.
    unfold Synced. destruct Hl as [-> ->]. by apply Hs.
Qed.

Lemma session_step_Exact p p' : not_behind Exact p → session_step true p p' → not_behind Exact p'.
Proof.
  unfold not_behind. intros Hs Hstep. destruct Hstep as [b cid cn ip cfg s Hf|b cid s|b s|b cid cn ip cfg s Hq|b cfg s s' E Hc];
    cbn in *; intros Hb; try specialize (Hs Hb).
  - unfold Establish. destruct (PerCN cfg !! cn) as [id|]; [|done].
    destruct (Find cfg id); [|done]. exact (proj2 (addTracked_inv _ _ _ _ _) Hs (Hf eq_refl)).
  - unfold Disconnect. rewrite bind_tt. exact (proj2 (uninstall_inv _ _) Hs).
  - apply ClearAll_inv; [|done]. intros c s1. exact (proj2 (uninstall_inv c s1)).
  - specialize (Hq eq_refl). revert Hq. unfold Reassign.
    destruct (PerCN cfg !! cn) as [id|]; [|intros _; exact (proj2 (uninstall_inv _ _) Hs)].
    destruct (Find cfg id); [|done]. intros Hq. exact (proj2 (installRule_inv _ _ _ _ _) Hs Hq).
  - pose proof (Apply_leaves cfg s s' E) as Hl. unfold cleared in Hl. destruct (loaded s s').
    + apply OverM_Exact. destruct (Hc eq_refl eq_refl) as [Hd|Hr]; [by rewrite Hd in Hl|].
      rewrite Hr in Hl. by destruct (deleted s s').
    + apply orb_false_iff in Hb as [Hd Hb]. rewrite Hd in Hl. unfold Exact. destruct Hl as [-> ->]. by apply Hs.
Qed.

(** C7: whatever sequence of connects, disconnects, reassignments, exits and
    applies runs, and whichever commands fail on the way, every tracked session
    keeps a live rule of its own for its own address, except from an [Apply]
    for which nft deleted the table and then refused the new one until the next
    that loads one. When session ids are not reused, reassignments' commands
    work and no table with rules is rebuilt without being deleted, nft holds no
    client rule that is not tracked either. *)
Theorem tracker_invariant s :
  (reachable (λ p, p.1 = false ∧ tracked p.2 = ∅) (session_step false) (false, s) → Synced s) ∧
  (reachable (λ p, p.1 = false ∧ fresh_start p.2) (session_step true) (false, s) → Exact s).
Proof.
  split; intros Hre.
  - refine (reachable_invariant _ _ (not_behind Synced) _ (session_step_Synced false) _ Hre eq_refl).
    intros [b s0] [_ Ht] _. unfold Synced. cbn in *. rewrite Ht. apply SyncedM_empty.
  - refine (reachable_invariant _ _ (not_behind Exact) _ session_step_Exact _ Hre eq_refl).
    intros [b s0] (_&Ht&Hr) _. unfold Exact. cbn in *. rewrite Ht, Hr. apply ExactM_empty.
Qed.

(** C22: what [Apply] leaves of the client rules, on a valid configuration. If
    nft did not load the ruleset, an error is reported and the tracker is
    untouched, over an empty table if nft had deleted it and else over the
    rules as they were. If it did, every tracked session has a live rule of its
    own marking its address with the table of the upstream its CN is assigned in
    the new configuration, no session is invented or altered, none whose CN is
    still assigned is dropped unless an error is reported, and these are all
    the client rules there are, unless nft failed to delete a table with rules,
    which then stay beside them. *)
Theorem Apply_resyncs cfg s (Hv : Valid cfg) :
  let '(err, s') := Apply getenv cfg s in
  if loaded s s' then
    Synced s' ∧ Routed cfg (tracked s') (rules s') ∧
    (∀ cid e, tracked s' !! cid = Some e → ∃ e0, tracked s !! cid = Some e0 ∧ same_session e0 e) ∧
    (err = None → ∀ cid e, tracked s !! cid = Some e → is_Some (PerCN cfg !! tr_cn e) →
      is_Some (tracked s' !! cid)) ∧
    OverM (cleared s s') (tracked s') (rules s') ∧
    (deleted s s' = true ∨ rules s = ∅ → Exact s')
  else err ≠ None ∧ tracked s' = tracked s ∧ rules s' = if deleted s s' then ∅ else rules s.
Proof.
  pose proof (Apply_shape cfg s Hv) as Hs. destruct (Apply getenv cfg s) as [err s'].
  destruct (loaded s s'); [|done]. destruct Hs as (s1&Ht&Hr&E&He).
  pose proof (reinstall_spec cfg s1) as Hsp. rewrite Ht, Hr in Hsp.
  destruct (reinstall cfg s1) as [errs s2]; simpl in *. subst s2. destruct Hsp as (Ho&Hrt&Hor&Hk).
  split_and!; [apply Ho|done|done|intros ?; by apply Hk, He|done|].
  intros Hd. apply OverM_Exact. revert Ho. unfold cleared. destruct Hd as [->|Hd]; [done|]. rewrite Hd. by destruct (deleted s s').
Qed.

End Tracking.

(** C19: [Apply] on a valid configuration, whatever fails on the host: it runs
    the whole band teardown, then every interface upstream's route, kill-switch
    fallback and mark rule, then reconciles the relays, then has nft check the
    whole ruleset, loads it exactly when the check passed and re-adds client
    rules exactly when it loaded; a nil error means every step after the
    teardown succeeded. *)
Theorem Apply_trace {W} `{HostOps W} getenv cfg (s : St W) (Hv : Valid cfg) :
  let '(err, s') := Apply getenv cfg s in
  ∃ evs, trace s' = trace s ++ evs ∧ apply_run cfg (bool_decide (is_Some err)) evs.
Proof.
  destruct (emits_Apply getenv cfg Hv s) as (evs&Ht&Hr).
  destruct (Apply getenv cfg s) as [err s']. by exists evs.
Qed.

(** ** A concrete host *)

Module demo_host.

Record World := mkWorld { w_rules : gmap Z (string * Z); w_next : Z; w_broken : bool }.

Definition int_arg (s : string) : Z := from_option Z.of_int 0 (NilZero.int_of_string s).

Definition failed : goerr := ExternalErr "exit status 1".

Definition step (w : World) (bin : string) (args : list string) : World * (string * option goerr) :=
  if String.eqb bin ipBin then (w, ("", None)) else
  match args with
  | [_; _] => (w, ("", None))
  | [_; _; _] => if w_broken w then (w, ("", Some failed)) else (w, ("", None))
  | [_; _; _; _] => (mkWorld ∅ (w_next w) (w_broken w), ("", None))
  | [_; _; _; _; _; _; h] =>
      match w_rules w !! int_arg h with
      | Some _ => (mkWorld (delete (int_arg h) (w_rules w)) (w_next w) (w_broken w), ("", None))
      | None => (w, ("", Some failed))
      end
  | [_; _; _; _; _; _; _; _; _; _; _; ip; _; _; _; t] =>
      if bool_decide (w_rules w !! w_next w = None) && (0 <=? w_next w) && (w_next w <=? max_int64)
      then (mkWorld (<[w_next w := (ip, int_arg t)]> (w_rules w)) (w_next w + 1) (w_broken w),
            ("# handle " +:+ itoa (w_next w), None))
      else (w, ("", Some failed))
  | _ => (w, ("", None))
  end.

#[export] Instance host : HostOps World := {
  host_exec w bin args _ := step w bin args;
  host_iface _ _ := true;
  host_listen w _ := (w, None);
  host_close w _ := w }.

Lemma int_arg_itoa z : int_arg (itoa z) = z.
Proof.
  unfold int_arg, itoa. rewrite NilZero.isi.
  - simpl. apply DecimalZ.of_to.
  - destruct z; simpl; try done. intros [= E]. by apply DecimalPos.Unsigned.to_uint_nonnil in E.
  - destruct z; simpl; try done. intros [= E]. by apply DecimalPos.Unsigned.to_uint_nonnil in E.
Qed.

Lemma parse_out h : 0 ≤ h ≤ max_int64 → parseHandle ("# handle " +:+ itoa h) = Ok h.
Proof.
  intros Hh. unfold parseHandle. rewrite split_no_char.
  - assert (after_handle ("# handle " +:+ itoa h) = Some (itoa h)) as Ha.
    { unfold after_handle. rewrite cut_before_here. exact (cut_prefix_app _ _). }
    cbn [first_some]. rewrite Ha.
    rewrite trim_space_none, atoi_itoa; [done|done|].
    eapply s_forallb_impl; [|apply itoa_digits; lia]. apply ascii_impl. by vm_compute.
  - rewrite no_char_app. by rewrite itoa_clean by (done || lia).
Qed.

Lemma step_add w ip t : step w nftBin (addRuleArgs ip t) =
  if bool_decide (w_rules w !! w_next w = None) && (0 <=? w_next w) && (w_next w <=? max_int64)
  then (mkWorld (<[w_next w := (ip, int_arg (itoa t))]> (w_rules w)) (w_next w + 1) (w_broken w),
        ("# handle " +:+ itoa (w_next w), None))
  else (w, ("", Some failed)).
Proof. done. Qed.

Lemma step_remove w h : step w nftBin (removeRuleArgs h) =
  match w_rules w !! int_arg (itoa h) with
  | Some _ => (mkWorld (delete (int_arg (itoa h)) (w_rules w)) (w_next w) (w_broken w), ("", None))
  | None => (w, ("", Some failed))
  end.
Proof. done. Qed.

#[export] Instance laws : NftLaws World.
Proof.
  refine {| client_rules := w_rules |}; try done.
  - intros w rs. change (host_exec w nftBin ["-c"; "-f"; "-"] rs) with
      (if w_broken w then (w, ("", Some failed)) else (w, ("", None))).
    by destruct (w_broken w).
  - intros w ip table. change (host_exec w nftBin _ "") with (step w nftBin (addRuleArgs ip table)).
    rewrite step_add, int_arg_itoa.
    destruct (bool_decide _ && _ && _) eqn:E; [|done].
    bprop. destruct E as [[E1 E2] E3]. exists (w_next w).
    split; [apply parse_out; lia|done].
  - intros w h. change (host_exec w nftBin _ "") with (step w nftBin (removeRuleArgs h)).
    rewrite step_remove, int_arg_itoa. by destruct (w_rules w !! h).
Defined.

Definition start : St World := mkSt (mkWorld ∅ 7 false) ∅ ∅ [].
Definition no_env (_ : string) : string := "".

(** alice connects, then the configuration is applied again. *)
Definition connected : St World := (Establish "3" "alice" "10.8.0.2" demo start).2.

End demo_host.
Import demo_host.

Lemma Apply_trace_witness :
  let '(err, s') := Apply no_env demo start in
  (∃ evs, trace s' = [] ++ evs ∧ apply_run demo (bool_decide (is_Some err)) evs) ∧
  length (trace s') = 135%nat.
Proof.
  pose proof (Apply_trace no_env demo start demo_valid) as Ht.
  assert (length (trace (Apply no_env demo start).2) = 135%nat) as Hl by by vm_compute.
  destruct (Apply no_env demo start) as [err s']. split; [exact Ht|exact Hl].
Defined.

Lemma Apply_resyncs_witness :
  tracked (Apply no_env demo connected).2 !! "3" = Some (mkTracked "10.8.0.2" "alice" 8) ∧
  Exact (Apply no_env demo connected).2.
Proof.
  assert (tracked (Apply no_env demo connected).2 !! "3" = Some (mkTracked "10.8.0.2" "alice" 8) ∧
    loaded connected (Apply no_env demo connected).2 = true ∧
    deleted connected (Apply no_env demo connected).2 = true) as (Hl&Hld&Hd) by (split_and!; by vm_compute).
  pose proof (Apply_resyncs no_env demo connected demo_valid) as Hs.
  destruct (Apply no_env demo connected) as [err s']. cbn [snd] in *. rewrite Hld in Hs.
  split; [exact Hl|]. destruct Hs as (_&_&_&_&_&Hex). apply Hex. by left.
Defined.

(** A ruleset nft refuses after the table is gone: alice stays tracked, without
    a rule. *)
Definition refusing : St World :=
  mkSt (mkWorld (w_rules (world connected)) 8 true) (tracked connected) ∅ [].
Example refused_leaves_tracked :
  let s' := (Apply no_env demo refusing).2 in
  loaded refusing s' = false ∧ deleted refusing s' = true ∧
  tr_handle <$> tracked s' !! "3" = Some 7 ∧ bool_decide (rules s' = ∅) = true.
Proof. vm_compute. by repeat split. Qed.

Lemma tracker_invariant_witness : Exact connected ∧ size (tracked connected) = 1%nat.
Proof.
  split; [|by vm_compute].
  apply (tracker_invariant no_env connected). exists (false, start). split; [done|].
  apply rtc_once. by apply ss_establish.
Defined.

End tracker.
