(* ===== verification/Supervisor.v ===== *)
(** * Supervisor: one worker process (src/internal/controller/supervisor.go)

    The supervisor as a transition system. A state holds the fields guarded by
    [stMu], the child processes, the lifecycle operation that holds [opMu] and
    its program counter, and the goroutines still running: the reaper of each
    launched child and the pending automatic restarts. Each label is one
    atomic section of one goroutine, so the interleavings of the code are the
    sequences of labels. *)

From S2P Require Import Prelude GoStr.

Module supervisor.

(** ** Configuration *)

Record Settings := mkSettings {
  Name : string; Bin : string; LogPath : string;
  CrashRestartDelay : Z; CrashLoopWindow : Z; CrashLoopMax : Z;
  (** The hook's value when it is called at a given instant; [None] is nil. *)
  PreStart : option (Z → list string) }.

Definition or_default (v d : Z) : Z := if v =? 0 then d else v.
Definition delay (c : Settings) : Z := or_default (CrashRestartDelay c) (3 * second).
Definition window (c : Settings) : Z := or_default (CrashLoopWindow c) (60 * second).
Definition max_crashes (c : Settings) : Z := or_default (CrashLoopMax c) 5.

(** ** State *)

Inductive opkind := KStart | KStop | KRestart | KReconnect | KAuto (streak : Z).

(** Where the holder of [opMu] is. [pid] is the child it took a snapshot of. *)
Inductive pc :=
  | PEntry (k : opkind)
  | PStopSnap (k : opkind)
  | PStopMark (k : opkind) (pid : nat)
  | PStopSignal (k : opkind) (pid : nat)
  | PStopWait (k : opkind) (pid : nat)
  | PStartCheck (k : opkind)
  | PLaunch (k : opkind)
  | PRecord (k : opkind) (pid : nat)
  | PReturn (k : opkind) (err : option goerr).

(** [supervise] after the launch: waiting for the child, the fields cleared,
    the [done] channel closed. *)
Inductive reaper :=
  | RWait (pid : nat)
  | RReaped (pid : nat) (stopped desired : bool)
  | RClosed (pid : nat) (stopped desired : bool).

Inductive auto :=
  | AEntry
  | ASleep (streak wake : Z).

Inductive sup_event :=
  | EvLaunch (pid : nat) (argv : list string)
  | EvSignal (pid : nat) (sig : string)
  | EvOnExit (pid : nat)
  | EvGiveUp (streak : Z)
  | EvReturn (k : opkind) (err : option goerr).

Record Sup := mkSup {
  running : bool; cmd : option nat; desired : bool; stopped : bool;
  startedAt : Z; crashAt : Z; crashStreak : Z; Args : list string;
  alive : gmap nat (list string);   (* live children and their argv *)
  closed : gset nat;                (* children whose done channel is closed *)
  reapers : list reaper; autos : list auto; op : option pc;
  now : Z; nextPid : nat; events : list sup_event }.

Definition init (args : list string) (t : Z) : Sup :=
  mkSup false None false false zero_time zero_time 0 args ∅ ∅ [] [] None t 0 [].

(** The fields under [stMu]. *)
Definition set_fields (s : Sup) (run : bool) (c : option nat) (st : bool) (at' : Z) : Sup :=
  mkSup run c (desired s) st at' (crashAt s) (crashStreak s) (Args s) (alive s) (closed s)
        (reapers s) (autos s) (op s) (now s) (nextPid s) (events s).
Definition set_desired (s : Sup) (d : bool) : Sup :=
  mkSup (running s) (cmd s) d (stopped s) (startedAt s) (crashAt s) (crashStreak s) (Args s)
        (alive s) (closed s) (reapers s) (autos s) (op s) (now s) (nextPid s) (events s).
Definition set_crash (s : Sup) (at' streak : Z) : Sup :=
  mkSup (running s) (cmd s) (desired s) (stopped s) (startedAt s) at' streak (Args s)
        (alive s) (closed s) (reapers s) (autos s) (op s) (now s) (nextPid s) (events s).
Definition set_args (s : Sup) (a : list string) : Sup :=
  mkSup (running s) (cmd s) (desired s) (stopped s) (startedAt s) (crashAt s) (crashStreak s) a
        (alive s) (closed s) (reapers s) (autos s) (op s) (now s) (nextPid s) (events s).
Definition set_alive (s : Sup) (a : gmap nat (list string)) : Sup :=
  mkSup (running s) (cmd s) (desired s) (stopped s) (startedAt s) (crashAt s) (crashStreak s) (Args s)
        a (closed s) (reapers s) (autos s) (op s) (now s) (nextPid s) (events s).
Definition set_closed (s : Sup) (c : gset nat) : Sup :=
  mkSup (running s) (cmd s) (desired s) (stopped s) (startedAt s) (crashAt s) (crashStreak s) (Args s)
        (alive s) c (reapers s) (autos s) (op s) (now s) (nextPid s) (events s).
Definition set_threads (s : Sup) (r : list reaper) (a : list auto) : Sup :=
  mkSup (running s) (cmd s) (desired s) (stopped s) (startedAt s) (crashAt s) (crashStreak s) (Args s)
        (alive s) (closed s) r a (op s) (now s) (nextPid s) (events s).
Definition set_op (s : Sup) (o : option pc) : Sup :=
  mkSup (running s) (cmd s) (desired s) (stopped s) (startedAt s) (crashAt s) (crashStreak s) (Args s)
        (alive s) (closed s) (reapers s) (autos s) o (now s) (nextPid s) (events s).
Definition set_clock (s : Sup) (t : Z) (p : nat) : Sup :=
  mkSup (running s) (cmd s) (desired s) (stopped s) (startedAt s) (crashAt s) (crashStreak s) (Args s)
        (alive s) (closed s) (reapers s) (autos s) (op s) t p (events s).
Definition emit (s : Sup) (e : sup_event) : Sup :=
  mkSup (running s) (cmd s) (desired s) (stopped s) (startedAt s) (crashAt s) (crashStreak s) (Args s)
        (alive s) (closed s) (reapers s) (autos s) (op s) (now s) (nextPid s) (events s ++ [e]).

(** ** Readers *)

Definition Running (s : Sup) : bool := running s.
Definition Pid (s : Sup) : nat := if running s then default O (cmd s) else O.
Definition StartedAt (s : Sup) : Z := if running s then startedAt s else zero_time.

(** ** Operations *)

(** [opMu.TryLock]: claimed, or busy. *)
Definition acquireOp (c : Settings) (s : Sup) : result unit :=
  match op s with
  | Some _ => Err (Wrapf "controller: %s: %w" [Name c] (Sentinel ErrBusy))
  | None => Ok tt
  end.

Definition goto (s : Sup) (p : pc) : option Sup := Some (set_op s (Some p)).

(** After [stop()] succeeded: [Restart] goes on to [start()]. *)
Definition after_stop (k : opkind) : pc :=
  match k with KRestart => PStartCheck k | _ => PReturn k None end.

Section Steps.
  Context (c : Settings).

(** The next atomic section of the operation holding [opMu]. *)
Definition op_step (s : Sup) : option Sup :=
  p ← op s;
  match p with
  | PEntry k =>
      match k with
      | KStart => goto (set_desired s true) (PStartCheck k)
      | KStop => goto (set_desired s false) (PStopSnap k)
      | KRestart => goto (set_desired s true) (PStopSnap k)
      | KReconnect =>
          match running s, cmd s with
          | true, Some pid => goto (emit s (EvSignal pid "SIGUSR1")) (PReturn k None)
          | _, _ => goto s (PReturn k (Some (Errorf "controller: openvpn not running" [])))
          end
      | KAuto _ =>
          if desired s && negb (running s) then goto s (PStartCheck k) else goto s (PReturn k None)
      end
  | PStopSnap k =>
      match running s, cmd s with
      | true, Some pid => goto s (PStopMark k pid)
      | _, _ => goto s (after_stop k)
      end
  | PStopMark k pid =>
      goto (set_fields s (running s) (cmd s) true (startedAt s)) (PStopSignal k pid)
  | PStopSignal k pid => goto (emit s (EvSignal pid "SIGTERM")) (PStopWait k pid)
  | PStopWait k pid => if bool_decide (pid ∈ closed s) then goto s (after_stop k) else None
  | PStartCheck k =>
      if Running s then goto s (PReturn k None)
      else goto (match PreStart c with Some f => set_args s (f (now s)) | None => s end) (PLaunch k)
  | PLaunch k =>
      if String.eqb (Bin c) "" then
        goto s (PReturn k (Some (Errorf "controller: %s not found on PATH" [Name c])))
      else
        let pid := nextPid s in
        goto (emit (set_alive (set_clock s (now s) (S pid)) (<[pid := Args s]> (alive s)))
                   (EvLaunch pid (Args s))) (PRecord k pid)
  | PRecord k pid =>
      goto (set_threads (set_fields s true (Some pid) (stopped s) (now s))
                        (reapers s ++ [RWait pid]) (autos s)) (PReturn k None)
  | PReturn k err => Some (set_op (emit s (EvReturn k err)) None)
  end.

(** The launch fails: log file, pipe or [cmd.Start]; or the signal of a
    reconnect does, to a child just gone. *)
Definition launch_fails (s : Sup) (e : goerr) : option Sup :=
  match op s with
  | Some (PLaunch k) => goto s (PReturn k (Some e))
  | Some (PEntry KReconnect) =>
      match running s, cmd s with
      | true, Some _ => goto s (PReturn KReconnect (Some e))
      | _, _ => None
      end
  | _ => None
  end.

(** The stop timeout has passed: SIGKILL. *)
Definition kill_step (s : Sup) : option Sup :=
  match op s with
  | Some (PStopWait k pid) => Some (set_alive (emit s (EvSignal pid "SIGKILL")) (delete pid (alive s)))
  | _ => None
  end.

(** The [i]-th reaper's next atomic section. The first comes when the child has
    been waited for and its log pipe is drained, which is as late as the
    interleaving has it: the drain also waits for a process of the child's own
    that keeps the pipe open. *)
Definition reap_step (i : nat) (s : Sup) : option Sup :=
  r ← reapers s !! i;
  let rest := take i (reapers s) ++ drop (S i) (reapers s) in
  match r with
  | RWait pid =>
      if bool_decide (pid ∈ dom (alive s)) then None else
      Some (set_threads (set_fields s false None false zero_time)
                        (<[i := RReaped pid (stopped s) (desired s)]> (reapers s)) (autos s))
  | RReaped pid st de =>
      Some (set_threads (set_closed s ({[pid]} ∪ closed s)) (<[i := RClosed pid st de]> (reapers s)) (autos s))
  | RClosed pid st de =>
      let s := emit s (EvOnExit pid) in
      if st then Some (set_threads s rest (autos s))
      else if de then Some (set_threads s rest (autos s ++ [AEntry]))
      else Some (set_threads s rest (autos s))
  end.

(** [autoRestart]'s bookkeeping of one unexpected exit: the crash streak
    after it. *)
Definition count_crash (s : Sup) : Sup * Z :=
  let streak := (if window c <? time_sub (now s) (crashAt s) then 0 else crashStreak s) + 1 in
  (set_crash s (now s) streak, streak).

Definition auto_step (i : nat) (s : Sup) : option Sup :=
  a ← autos s !! i;
  let rest := take i (autos s) ++ drop (S i) (autos s) in
  match a with
  | AEntry =>
      let '(s, streak) := count_crash s in
      if max_crashes c <? streak then Some (set_threads (emit s (EvGiveUp streak)) (reapers s) rest)
      else Some (set_threads s (reapers s) (<[i := ASleep streak (now s + delay c)]> (autos s)))
  | ASleep streak wake =>
      if (wake <=? now s) && bool_decide (op s = None)
      then Some (set_op (set_threads s (reapers s) rest) (Some (PEntry (KAuto streak))))
      else None
  end.

(** [Start], [Stop], [Restart], [Reconnect] called when [opMu] is free. *)
Definition call_step (k : opkind) (s : Sup) : option Sup :=
  match k, acquireOp c s with
  | KAuto _, _ | _, Err _ => None
  | _, Ok _ => goto s (PEntry k)
  end.

Inductive label :=
  | LCall (k : opkind) | LOp | LLaunchFails (e : goerr) | LKill
  | LExit (pid : nat) | LReap (i : nat) | LAuto (i : nat) | LTick (d : Z).

Definition fire (l : label) (s : Sup) : option Sup :=
  match l with
  | LCall k => call_step k s
  | LOp => op_step s
  | LLaunchFails e => launch_fails s e
  | LKill => kill_step s
  | LExit pid => if bool_decide (pid ∈ dom (alive s)) then Some (set_alive s (delete pid (alive s))) else None
  | LReap i => reap_step i s
  | LAuto i => auto_step i s
  | LTick d => if 0 <=? d then Some (set_clock s (now s + d) (nextPid s)) else None
  end.

Definition step (s s' : Sup) : Prop := ∃ l, fire l s = Some s'.

Fixpoint fires (ls : list label) (s : Sup) : option Sup :=
  match ls with [] => Some s | l :: ls' => s' ← fire l s; fires ls' s' end.
End Steps.

Definition initial (s : Sup) : Prop := ∃ args t, s = init args t.
Definition Reachable (c : Settings) : Sup → Prop := reachable initial (step c).


(** ** The invariant *)

Definition waits (r : reaper) : option nat := match r with RWait p => Some p | _ => None end.
Definition waiting (rs : list reaper) : list nat := omap waits rs.

Definition pid_of (r : reaper) : nat :=
  match r with RWait p | RReaped p _ _ | RClosed p _ _ => p end.

(** The child's done channel is closed, or a reaper will close it. *)
Definition done_coming (s : Sup) (pid : nat) : Prop :=
  pid ∈ closed s ∨ RWait pid ∈ reapers s ∨ ∃ a b, RReaped pid a b ∈ reapers s.

Definition stop_kind (s : Sup) (k : opkind) : Prop :=
  (k = KStop ∧ desired s = false) ∨ (k = KRestart ∧ desired s = true).

(** Nobody wants the worker and nobody is stopping it: it is down. *)
Definition settled (s : Sup) : Prop := desired s = false → running s = false.

Definition pc_ok (s : Sup) (p : pc) : Prop :=
  match p with
  | PEntry _ | PReturn _ _ => settled s
  | PStopSnap k => stop_kind s k
  | PStopMark k pid | PStopSignal k pid | PStopWait k pid =>
      stop_kind s k ∧ (cmd s = Some pid ∨ cmd s = None) ∧ done_coming s pid
  | PStartCheck _ => desired s = true
  | PLaunch _ => desired s = true ∧ cmd s = None
  | PRecord _ pid => desired s = true ∧ cmd s = None ∧ (pid < nextPid s)%nat ∧
      pid ∉ closed s ∧ ∀ r, r ∈ reapers s → pid_of r ≠ pid
  end.

Record Inv (s : Sup) : Prop := {
  inv_wait : waiting (reapers s) = option_list (cmd s);
  inv_run : running s = bool_decide (is_Some (cmd s));
  inv_alive : ∀ pid, pid ∈ dom (alive s) → cmd s = Some pid ∨ ∃ k, op s = Some (PRecord k pid);
  inv_closed : ∀ pid, cmd s = Some pid → pid ∉ closed s;
  inv_reaped : ∀ pid a b, RReaped pid a b ∈ reapers s → cmd s ≠ Some pid;
  inv_fresh_closed : ∀ pid, pid ∈ closed s → (pid < nextPid s)%nat;
  inv_fresh : ∀ r, r ∈ reapers s → (pid_of r < nextPid s)%nat;
  inv_op : from_option (pc_ok s) (settled s) (op s) }.

Lemma elem_waiting p rs : p ∈ waiting rs ↔ RWait p ∈ rs.
Proof.
  unfold waiting. rewrite list_elem_of_omap. split.
  - intros (r&Hr&Hw). destruct r; naive_solver.
  - intros Hr. by exists (RWait p).
Qed.

Lemma cmd_waits s p : Inv s → cmd s = Some p ↔ RWait p ∈ reapers s.
Proof.
  intros Hi. rewrite <-elem_waiting, (inv_wait _ Hi). destruct (cmd s); set_solver.
Qed.

Lemma waiting_update i rs r r' : rs !! i = Some r →
  waiting rs = waiting (take i rs) ++ option_list (waits r) ++ waiting (drop (S i) rs) ∧
  waiting (<[i := r']> rs) = waiting (take i rs) ++ option_list (waits r') ++ waiting (drop (S i) rs).
Proof.
  intros Hl. pose proof (lookup_lt_Some _ _ _ Hl) as Hlt. unfold waiting. split.
  - rewrite <-(take_drop_middle rs i r) at 1 by done. rewrite omap_app. f_equal.
    simpl. by destruct (waits r).
  - rewrite insert_take_drop by done. rewrite omap_app. f_equal.
    simpl. by destruct (waits r').
Qed.

Lemma waiting_remove i rs r : rs !! i = Some r → waits r = None →
  waiting (take i rs ++ drop (S i) rs) = waiting rs.
Proof.
  intros Hl Hw. destruct (waiting_update i rs r r Hl) as [-> _]. rewrite Hw.
  unfold waiting. by rewrite omap_app.
Qed.

Lemma elem_remove {A} i (l : list A) x : x ∈ take i l ++ drop (S i) l → x ∈ l.
Proof.
  rewrite elem_of_app. intros [H|H].
  - rewrite <-(take_drop i l), elem_of_app. by left.
  - rewrite <-(take_drop (S i) l), elem_of_app. by right.
Qed.

Lemma elem_update {A} i (l : list A) x y : y ∈ <[i := x]> l → y = x ∨ y ∈ l.
Proof.
  intros (j&Hj)%list_elem_of_lookup. destruct (decide (i = j)) as [->|].
  - destruct (decide (j < length l)%nat).
    + rewrite list_lookup_insert_eq in Hj by done. left. congruence.
    + rewrite list_insert_ge in Hj by lia. right. by eapply list_elem_of_lookup_2.
  - rewrite list_lookup_insert_ne in Hj by done. right. by eapply list_elem_of_lookup_2.
Qed.

(** What is kept where it is, in an updated or shortened list. *)
Lemma keep_update {A} i (l : list A) x y r : l !! i = Some r → y ≠ r → y ∈ l → y ∈ <[i := x]> l.
Proof.
  intros Hi Hne (j&Hj)%list_elem_of_lookup. apply (list_elem_of_lookup_2 _ j).
  rewrite list_lookup_insert_ne; [done|]. intros ->. congruence.
Qed.

Lemma new_update {A} i (l : list A) x r : l !! i = Some r → x ∈ <[i := x]> l.
Proof.
  intros Hi. apply (list_elem_of_lookup_2 _ i). apply list_lookup_insert_eq.
  by eapply lookup_lt_Some.
Qed.

Lemma keep_remove {A} i (l : list A) y r : l !! i = Some r → y ≠ r → y ∈ l →
  y ∈ take i l ++ drop (S i) l.
Proof.
  intros Hi Hne Hy. rewrite <-(take_drop_middle l i r) in Hy by done.
  rewrite elem_of_app, elem_of_cons in Hy. rewrite elem_of_app. naive_solver.
Qed.

Lemma init_Inv args t : Inv (init args t).
Proof. constructor; simpl; try done; set_solver. Qed.

(** The children and reapers of two states agree. *)
Definition same_core (s s' : Sup) : Prop :=
  reapers s' = reapers s ∧ cmd s' = cmd s ∧ running s' = running s ∧ alive s' = alive s ∧
  closed s' = closed s ∧ nextPid s' = nextPid s.

Definition not_recording (s : Sup) : Prop := ∀ k pid, op s ≠ Some (PRecord k pid).

(** Moving the program counter keeps all but the counter's own claim. *)
Lemma move_Inv s s' : Inv s → same_core s s' → not_recording s →
  from_option (pc_ok s') (settled s') (op s') → Inv s'.
Proof.
  intros [Hw Hr Ha Hc Hre Hfc Hf _] (E1&E2&E3&E4&E5&E6) Hnr Hp.
  constructor; rewrite ?E1, ?E2, ?E3, ?E4, ?E5, ?E6; auto.
  intros pid Hpid. destruct (Ha pid Hpid) as [?|[k E]]; [by left|]. by destruct (Hnr k pid).
Qed.

(** The same, with the counter where it is. *)
Lemma same_op_Inv s s' : Inv s → same_core s s' → op s' = op s → desired s' = desired s → Inv s'.
Proof.
  intros [Hw Hr Ha Hc Hre Hfc Hf Ho] (E1&E2&E3&E4&E5&E6) Eo Ed.
  constructor; rewrite ?E1, ?E2, ?E3, ?E4, ?E5, ?E6, ?Eo; auto.
  destruct (op s) as [[]|]; simpl in *; unfold settled, stop_kind, done_coming in *;
    rewrite ?E1, ?E2, ?E3, ?E5, ?E6, ?Ed; auto.
Qed.

Lemma core_refl s : same_core s s.
Proof. done. Qed.

Lemma after_stop_ok s k : stop_kind s k → running s = false → pc_ok (set_op s (Some (after_stop k))) (after_stop k).
Proof.
  intros [[-> Hd]|[-> Hd]] Hr; simpl; [|done]. by intros _.
Qed.

Lemma wait_done s pid : Inv s → (cmd s = Some pid ∨ cmd s = None) → pid ∈ closed s → running s = false.
Proof.
  intros Hi [Hc|Hc] Hcl; rewrite (inv_run _ Hi), Hc; [|done].
  by destruct (inv_closed _ Hi pid Hc).
Qed.

Section Preserve.
  Context (c : Settings).

Lemma snapshot_done s pid : Inv s → cmd s = Some pid → done_coming s pid.
Proof. intros Hi Hc. right; left. by apply cmd_waits. Qed.

(** The launch: the new child is alive, its pid fresh, and the operation is
    about to record it. *)
Lemma launch_Inv k s : Inv s → op s = Some (PLaunch k) →
  Inv (set_op (emit (set_alive (set_clock s (now s) (S (nextPid s)))
                               (<[nextPid s := Args s]> (alive s)))
                    (EvLaunch (nextPid s) (Args s)))
              (Some (PRecord k (nextPid s)))).
Proof.
  intros [Iw Ir Ia Ic Ire Ifc If Io] Eo. rewrite Eo in Io. destruct Io as [Hd Hc].
  constructor; simpl; auto.
  - intros pid. rewrite dom_insert_L, elem_of_union, elem_of_singleton.
    intros [->|Hp]; [right; eauto|]. destruct (Ia _ Hp) as [?|[k' E]]; [by left|congruence].
  - intros pid Hp%Ifc. lia.
  - intros r Hr%If. lia.
  - split_and!; auto; [|intros r Hr%If; lia]. intros Hp%Ifc. lia.
Qed.

(** The record: the launched child becomes the worker, and gets a reaper. *)
Lemma record_Inv k pid s : Inv s → op s = Some (PRecord k pid) →
  Inv (set_op (set_threads (set_fields s true (Some pid) (stopped s) (now s))
                           (reapers s ++ [RWait pid]) (autos s))
              (Some (PReturn k None))).
Proof.
  intros [Iw Ir Ia Ic Ire Ifc If Io] Eo. rewrite Eo in Io. destruct Io as (Hd&Hc&Hlt&Hncl&Hnr).
  constructor; simpl; auto.
  - unfold waiting in *. by rewrite omap_app, Iw, Hc.
  - intros pid' Hp. destruct (Ia _ Hp) as [?|[k' E]]; [congruence|].
    rewrite Eo in E. injection E as _ ->. by left.
  - by intros pid' [= <-].
  - intros pid' a b. rewrite elem_of_app, list_elem_of_singleton. intros [Hr|?]; [|done].
    intros [= <-]. by eapply Hnr.
  - intros r. rewrite elem_of_app, list_elem_of_singleton. intros [Hr| ->]; [by apply If|done].
  - unfold settled; simpl. congruence.
Qed.

Lemma op_step_Inv s s' : Inv s → op_step c s = Some s' → Inv s'.
Proof.
  intros Hi. unfold op_step. pose proof (inv_op _ Hi) as Hop.
  destruct (op s) as [p|] eqn:Eo; [|done]. cbn [mbind option_bind]. simpl in Hop.
  assert (∀ p0, p = p0 → (∀ k pid, p0 ≠ PRecord k pid) → not_recording s) as Hnr.
  { intros p0 -> Hp k pid E. rewrite Eo in E. naive_solver. }
  pose proof (inv_run _ Hi) as Hrun.
  destruct p as [k|k|k pid|k pid|k pid|k|k|k pid|k err].
  - specialize (Hnr _ eq_refl ltac:(done)).
    destruct k as [| | | |streak]; unfold goto; intros H.
    + injection H as <-. by apply (move_Inv s).
    + injection H as <-. apply (move_Inv s); [done..|]. by left.
    + injection H as <-. apply (move_Inv s); [done..|]. by right.
    + destruct (running s), (cmd s); injection H as <-; by apply (move_Inv s).
    + destruct (desired s) eqn:Ed, (running s) eqn:Er; simpl in H; injection H as <-;
        apply (move_Inv s); try done; simpl; unfold settled; simpl; congruence.
  - specialize (Hnr _ eq_refl ltac:(done)). rewrite Hrun. unfold goto.
    destruct (cmd s) as [pid|] eqn:Ec; simpl; intros [= <-]; apply (move_Inv s); try done.
    + simpl. split; [done|]. split; [by left|]. exact (snapshot_done s pid Hi Ec).
    + apply after_stop_ok; [done|]. by rewrite Hrun.
  - specialize (Hnr _ eq_refl ltac:(done)). intros [= <-]. by apply (move_Inv s).
  - specialize (Hnr _ eq_refl ltac:(done)). intros [= <-]. by apply (move_Inv s).
  - specialize (Hnr _ eq_refl ltac:(done)). destruct Hop as (Hk&Hc&_).
    clear Hrun. case_bool_decide as Hcl; [|done]. intros [= <-]. apply (move_Inv s); try done.
    apply after_stop_ok; [done|]. by eapply wait_done.
  - specialize (Hnr _ eq_refl ltac:(done)). unfold Running.
    destruct (running s) eqn:Er; intros H; injection H as <-.
    + apply (move_Inv s); try done. simpl. unfold settled. simpl. congruence.
    + assert (cmd s = None) by (destruct (cmd s); done).
      destruct (PreStart c); by apply (move_Inv s).
  - specialize (Hnr _ eq_refl ltac:(done)). destruct Hop as [Hd Hc].
    assert (running s = false) as Er by by rewrite Hrun, Hc.
    destruct (String.eqb (Bin c) ""); intros H; injection H as <-.
    { apply (move_Inv s); try done. simpl. unfold settled; simpl. congruence. }
    by apply launch_Inv.
  - intros [= <-]. by apply record_Inv.
  - specialize (Hnr _ eq_refl ltac:(done)). intros [= <-]. by apply (move_Inv s).
Qed.

Lemma done_coming_update s i r r' pid (s' : Sup) : reapers s !! i = Some r →
  reapers s' = <[i := r']> (reapers s) →
  closed s ⊆ closed s' →
  (pid_of r = pid → done_coming s' pid) →
  done_coming s pid → done_coming s' pid.
Proof.
  intros Hl Hr Hcl Hp Hd. destruct (decide (pid_of r = pid)) as [E|E]; [by apply Hp|].
  destruct Hd as [?|[Hw|(a&b&Hw)]]; [left; set_solver|right; left|right; right; exists a, b];
    rewrite Hr; eapply keep_update; eauto; intros <-; by apply E.
Qed.

(** A reaper's three sections: its child has been waited for, its child's done
    channel is closed, and it is gone. *)
Lemma waited_Inv i s pid : Inv s → reapers s !! i = Some (RWait pid) → pid ∉ dom (alive s) →
  Inv (set_threads (set_fields s false None false zero_time)
                   (<[i := RReaped pid (stopped s) (desired s)]> (reapers s)) (autos s)).
Proof.
  intros Hi El Hal. pose proof (list_elem_of_lookup_2 _ _ _ El) as Hin.
  assert (cmd s = Some pid) as Hc by by apply cmd_waits.
  destruct Hi as [Iw Ir Ia Ic Ire Ifc If Io].
  destruct (waiting_update i (reapers s) _ (RReaped pid (stopped s) (desired s)) El) as [E1 E2].
  rewrite Iw, Hc in E1. simpl in E1, E2.
  assert (waiting (take i (reapers s)) = [] ∧ waiting (drop (S i) (reapers s)) = []) as [Et Ed].
  { apply (f_equal length) in E1. rewrite !length_app in E1. simpl in E1.
    split; apply length_zero_iff_nil; lia. }
  constructor; simpl; try done.
  - by rewrite E2, Et, Ed.
  - intros p Hp. destruct (Ia _ Hp) as [E|?]; [|by right]. rewrite Hc in E. naive_solver.
  - intros r [->|Hr]%elem_update; [|by apply If]. by apply (If _ Hin).
  - assert (∀ p, done_coming s p → done_coming (set_threads (set_fields s false None false zero_time)
       (<[i:=RReaped pid (stopped s) (desired s)]> (reapers s)) (autos s)) p) as Hdc.
    { intros p. eapply done_coming_update; [done..|]. simpl. intros ->. right; right.
      eexists _, _. by eapply new_update. }
    destruct (op s) as [[]|]; simpl in *; unfold settled in *; simpl; auto; try done.
    all: try (destruct Io as (?&?&?); split; [done|]; split; [by right|by apply Hdc]).
    + naive_solver.
    + destruct Io as (?&?&?&?&Hp). split_and!; try done.
      intros r [->|Hr]%elem_update; [by apply (Hp _ Hin)|by apply Hp].
Qed.

Lemma done_closed_Inv i s pid st de : Inv s → reapers s !! i = Some (RReaped pid st de) →
  Inv (set_threads (set_closed s ({[pid]} ∪ closed s))
                   (<[i := RClosed pid st de]> (reapers s)) (autos s)).
Proof.
  intros [Iw Ir Ia Ic Ire Ifc If Io] El. pose proof (list_elem_of_lookup_2 _ _ _ El) as Hin.
  destruct (waiting_update i (reapers s) _ (RClosed pid st de) El) as [E1 E2]. simpl in E1, E2.
  constructor; simpl; auto.
  - by rewrite E2, <-E1.
  - intros p Hp. rewrite elem_of_union, elem_of_singleton. intros [->|?]; [by eapply Ire|by eapply Ic].
  - intros p a b [?|Hr]%elem_update; [done|by eapply Ire].
  - intros p. rewrite elem_of_union, elem_of_singleton. intros [->|?]; [by apply (If _ Hin)|auto].
  - intros r [->|Hr]%elem_update; [by apply (If _ Hin)|by apply If].
  - assert (∀ p, done_coming s p → done_coming (set_threads (set_closed s ({[pid]} ∪ closed s))
       (<[i:=RClosed pid st de]> (reapers s)) (autos s)) p) as Hdc.
    { intros p. eapply done_coming_update; [done..|simpl; set_solver|]. simpl. intros ->. left; simpl. set_solver. }
    destruct (op s) as [[]|]; simpl in *; unfold settled in *; simpl; auto.
    all: try (destruct Io as (?&?&?); split; [done|]; split; [done|by apply Hdc]).
    destruct Io as (?&?&?&?&Hp). split_and!; try done.
    + rewrite elem_of_union, elem_of_singleton. intros [->|?]; [by apply (Hp _ Hin)|done].
    + intros r [->|Hr]%elem_update; [by apply (Hp _ Hin)|by apply Hp].
Qed.

Lemma reaper_gone_Inv i s pid st de a : Inv s → reapers s !! i = Some (RClosed pid st de) →
  Inv (set_threads (emit s (EvOnExit pid)) (take i (reapers s) ++ drop (S i) (reapers s)) a).
Proof.
  intros [Iw Ir Ia Ic Ire Ifc If Io] El. constructor; simpl; auto.
  - by rewrite (waiting_remove _ _ _ El).
  - intros p x y Hr%elem_remove. by eapply Ire.
  - intros r Hr%elem_remove. by apply If.
  - assert (∀ p, done_coming s p → done_coming (set_threads (emit s (EvOnExit pid))
       (take i (reapers s) ++ drop (S i) (reapers s)) a) p) as Hdc.
    { intros p [?|[Hw|(x&y&Hw)]]; [by left|right; left|right; right; exists x, y]; simpl;
        by eapply keep_remove. }
    destruct (op s) as [[]|]; simpl in *; unfold settled in *; simpl; auto.
    all: try (destruct Io as (?&?&?); split; [done|]; split; [done|by apply Hdc]).
    destruct Io as (?&?&?&?&Hp). split_and!; try done. intros r Hr%elem_remove. by apply Hp.
Qed.

Lemma reap_step_Inv i s s' : Inv s → reap_step i s = Some s' → Inv s'.
Proof.
  intros Hi. unfold reap_step. destruct (reapers s !! i) as [r|] eqn:El; [|done].
  cbn [mbind option_bind]. destruct r as [pid|pid st de|pid st de].
  - case_bool_decide as Hal; [done|]. intros [= <-]. by apply waited_Inv.
  - intros [= <-]. by apply done_closed_Inv.
  - destruct st, de; intros [= <-]; by eapply reaper_gone_Inv.
Qed.

Lemma fewer_alive_Inv s al ev : Inv s → dom al ⊆ dom (alive s) → Inv (set_alive (foldl emit s ev) al).
Proof.
  intros [Iw Ir Ia Ic Ire Ifc If Io] Hsub.
  assert (∀ s, same_core s (foldl emit s ev) ∧ op (foldl emit s ev) = op s ∧
               desired (foldl emit s ev) = desired s) as Hf.
  { induction ev as [|e ev IH]; intros s0; [done|]. simpl. apply (IH (emit s0 e)). }
  destruct (Hf s) as ((E1&E2&E3&E4&E5&E6)&Eo&Ed).
  constructor; simpl; rewrite ?E1, ?E2, ?E3, ?E4, ?E5, ?E6, ?Eo; auto.
  destruct (op s) as [[]|]; simpl in *; unfold settled, stop_kind, done_coming in *; simpl;
    rewrite ?E1, ?E2, ?E3, ?E5, ?E6, ?Ed; auto.
Qed.

Lemma fire_Inv l s s' : Inv s → fire c l s = Some s' → Inv s'.
Proof.
  intros Hi Hf. destruct l as [k| |e| |pid|i|i|d]; simpl in Hf.
  - unfold call_step, acquireOp in Hf. destruct (op s) eqn:Eo; [by destruct k|].
    assert (not_recording s) by (intros ??; by rewrite Eo).
    pose proof (inv_op _ Hi) as Ho. rewrite Eo in Ho.
    unfold goto in Hf. destruct k; simplify_eq/=; by apply (move_Inv s).
  - by eapply op_step_Inv.
  - unfold launch_fails in Hf. pose proof (inv_op _ Hi) as Ho.
    assert (not_recording s) as Hnr by (intros ??; destruct (op s) as [[]|]; congruence).
    destruct (op s) as [[[]|k|k pid|k pid|k pid|k|k|k pid|k err]|] eqn:Eo; try done.
    + destruct (running s), (cmd s); try done. injection Hf as <-. by apply (move_Inv s).
    + injection Hf as <-. apply (move_Inv s); [done..|]. simpl in *. unfold settled. simpl. destruct Ho; congruence.
  - unfold kill_step in Hf. destruct (op s) as [[]|] eqn:Eo; try done. injection Hf as <-.
    apply (fewer_alive_Inv s _ [EvSignal pid "SIGKILL"]); [done|]. set_solver.
  - case_bool_decide; [|done]. injection Hf as <-. apply (fewer_alive_Inv s _ []); [done|]. set_solver.
  - by eapply reap_step_Inv.
  - unfold auto_step in Hf. destruct (autos s !! i) as [[|streak wake]|]; simpl in Hf; [| |done].
    + destruct (_ <? _); injection Hf as <-; by apply (same_op_Inv s).
    + destruct (wake <=? now s); [|done]. simpl in Hf. case_bool_decide as Eo; [|done].
      injection Hf as <-. pose proof (inv_op _ Hi) as Ho. rewrite Eo in Ho.
      apply (move_Inv s); [done|done|intros ??; by rewrite Eo|done].
  - destruct (0 <=? d); [|done]. injection Hf as <-. by apply (same_op_Inv s).
Qed.

Lemma Reachable_Inv s : Reachable c s → Inv s.
Proof.
  apply reachable_invariant.
  - intros s0 (args&t&->). apply init_Inv.
  - intros s0 s1 Hi [l Hf]. by eapply fire_Inv.
Qed.
End Preserve.

(** ** Runs *)

Lemma fires_app c ls1 ls2 s : fires c (ls1 ++ ls2) s = (s' ← fires c ls1 s; fires c ls2 s').
Proof.
  revert s. induction ls1 as [|l ls1 IH]; intros s; [done|]. simpl.
  destruct (fire c l s); simpl; [apply IH|done].
Qed.

Lemma fires_reachable c ls s s' : Reachable c s → fires c ls s = Some s' → Reachable c s'.
Proof.
  revert s. induction ls as [|l ls IH]; intros s Hr Hf; simpl in Hf; [by injection Hf as <-|].
  destruct (fire c l s) as [s1|] eqn:E; [|done]. simpl in Hf. eapply IH; [|done].
  eapply reachable_step; [done|]. by exists l.
Qed.

Definition wants_start (l : label) : bool :=
  match l with LCall KStart | LCall KRestart => true | _ => false end.

Definition entering_start (s : Sup) : bool :=
  match op s with Some (PEntry KStart) | Some (PEntry KRestart) => true | _ => false end.

(** The launches in a history. *)
Definition launches (evs : list sup_event) : list nat :=
  omap (λ e, match e with EvLaunch pid _ => Some pid | _ => None end) evs.

Lemma launches_snoc evs e : launches (evs ++ [e]) =
  launches evs ++ match e with EvLaunch pid _ => [pid] | _ => [] end.
Proof. unfold launches. rewrite omap_app. by destruct e. Qed.

(** While the worker is unwanted and nobody asks for it, nothing launches. *)
Lemma unwanted_step c l s s' : Inv s → desired s = false → entering_start s = false →
  wants_start l = false → fire c l s = Some s' →
  desired s' = false ∧ entering_start s' = false ∧ launches (events s') = launches (events s).
Proof.
  intros Hi Hd He Hl Hf. pose proof (inv_op _ Hi) as Ho. unfold entering_start in *.
  destruct l as [k| |e| |pid|i|i|d]; simpl in Hf.
  - unfold call_step, acquireOp, goto in Hf. destruct (op s) eqn:Eo; [by destruct k|].
    destruct k; simplify_eq/=; done.
  - unfold op_step, goto in Hf. destruct (op s) as [p|] eqn:Eo; [|done]. simpl in Hf, Ho.
    destruct p as [[| | | |?]|k|k pid|k pid|k pid|k|k|k pid|k err]; simpl in *; try done;
      repeat case_match; simplify_eq/=; rewrite ?launches_snoc, ?app_nil_r; try done;
      try congruence; try (by destruct k); try (destruct Ho; congruence).
  - unfold launch_fails, goto in Hf. destruct (op s) as [[[]|k|k pid|k pid|k pid|k|k|k pid|k err]|]; repeat case_match; simplify_eq/=; done.
  - unfold kill_step in Hf. destruct (op s) as [[]|] eqn:Eo; simplify_eq/=.
    by rewrite launches_snoc, app_nil_r, ?Eo.
  - case_bool_decide; simplify_eq/=; done.
  - unfold reap_step in Hf. destruct (reapers s !! i) as [[pid|pid st de|pid st de]|]; simpl in Hf; try done.
    + case_bool_decide; simplify_eq/=; done.
    + by simplify_eq/=.
    + destruct st, de; simplify_eq/=; by rewrite launches_snoc, app_nil_r.
  - unfold auto_step in Hf. destruct (autos s !! i) as [[|streak wake]|]; simpl in Hf; [| |done].
    + destruct (_ <? _); simplify_eq/=; [by rewrite launches_snoc, app_nil_r|done].
    + destruct (wake <=? now s); [|done]. simpl in Hf. case_bool_decide; simplify_eq/=; done.
  - destruct (0 <=? d); simplify_eq/=; done.
Qed.

Lemma unwanted_run c ls s s' : Reachable c s → desired s = false → entering_start s = false →
  forallb (λ l, negb (wants_start l)) ls = true → fires c ls s = Some s' →
  desired s' = false ∧ entering_start s' = false ∧ launches (events s') = launches (events s).
Proof.
  revert s. induction ls as [|l ls IH]; intros s Hr Hd He Hl Hf; simpl in *; [by simplify_eq|].
  apply andb_true_iff in Hl as [Hl Hls]. apply negb_true_iff in Hl.
  destruct (fire c l s) as [s1|] eqn:E; [|done]. simpl in Hf.
  destruct (unwanted_step c l s s1 (Reachable_Inv c s Hr) Hd He Hl E) as (Hd1&He1&Hl1).
  destruct (IH s1) as (?&?&?); try done.
  - eapply reachable_step; [done|]. by exists l.
  - split_and!; congruence.
Qed.

Lemma quiescent_dead s : Inv s → desired s = false → op s = None → alive s = ∅.
Proof.
  intros Hi Hd Ho. pose proof (inv_op _ Hi) as Hs. rewrite Ho in Hs. specialize (Hs Hd).
  rewrite (inv_run _ Hi) in Hs. apply dom_empty_inv_L, elem_of_equiv_empty_L.
  intros pid Hp. destruct (inv_alive _ Hi _ Hp) as [E|[k E]]; [by rewrite E in Hs|congruence].
Qed.

(** Some continuation without a new request completes the operation. *)
Definition Fin (c : Settings) (s : Sup) : Prop := ∃ ls s',
  fires c ls s = Some s' ∧ op s' = None ∧ forallb (λ l, negb (wants_start l)) ls = true.

Section Finish.
  Context (c : Settings).

Lemma Fin_nil s : op s = None → Fin c s.
Proof. intros E. by exists [], s. Qed.

Lemma Fin_cons l s s1 : wants_start l = false → fire c l s = Some s1 → Fin c s1 → Fin c s.
Proof.
  intros Hl Hf (ls&s'&H1&H2&H3). exists (l :: ls), s'. simpl. by rewrite Hf, Hl.
Qed.

Ltac op_fires E := eapply (Fin_cons LOp); [done|simpl; unfold op_step; rewrite E; reflexivity|].

Lemma Fin_return s k err : op s = Some (PReturn k err) → Fin c s.
Proof. intros E. op_fires E. by apply Fin_nil. Qed.

Lemma Fin_record s k pid : op s = Some (PRecord k pid) → Fin c s.
Proof. intros E. op_fires E. by eapply Fin_return. Qed.

Lemma Fin_launch s k : op s = Some (PLaunch k) → Fin c s.
Proof.
  intros E. eapply (Fin_cons (LLaunchFails (ExternalErr "start"))); [done| |].
  - simpl. unfold launch_fails. by rewrite E.
  - by eapply Fin_return.
Qed.

Lemma Fin_start s k : op s = Some (PStartCheck k) → Fin c s.
Proof.
  intros E. destruct (Running s) eqn:Er.
  - eapply (Fin_cons LOp); [done|simpl; unfold op_step; rewrite E; simpl; rewrite Er; reflexivity|].
    by eapply Fin_return.
  - eapply (Fin_cons LOp); [done|simpl; unfold op_step; rewrite E; simpl; rewrite Er; reflexivity|].
    by eapply Fin_launch.
Qed.

Lemma Fin_after s k : op s = Some (after_stop k) → Fin c s.
Proof. destruct k; simpl; intros E; first [by eapply Fin_return|by eapply Fin_start]. Qed.

Lemma Fin_closed s k pid : op s = Some (PStopWait k pid) → pid ∈ closed s → Fin c s.
Proof.
  intros E Hc. eapply (Fin_cons LOp); [done| |].
  - simpl. unfold op_step. rewrite E. simpl. by rewrite bool_decide_true by done.
  - by eapply Fin_after.
Qed.

Lemma Fin_reaped s k pid i a b : op s = Some (PStopWait k pid) →
  reapers s !! i = Some (RReaped pid a b) → Fin c s.
Proof.
  intros E Hi. eapply (Fin_cons (LReap i)); [done| |].
  - simpl. unfold reap_step. by rewrite Hi.
  - eapply Fin_closed; [done|]. simpl. set_solver.
Qed.

Lemma Fin_wait s k pid : op s = Some (PStopWait k pid) → done_coming s pid → Fin c s.
Proof.
  intros E [Hc|[(i&Hi)%list_elem_of_lookup|(a&b&(i&Hi)%list_elem_of_lookup)]].
  - by eapply Fin_closed.
  - eapply (Fin_cons LKill); [done|simpl; unfold kill_step; by rewrite E|].
    eapply (Fin_cons (LReap i)); [done| |].
    + simpl. unfold reap_step. simpl. rewrite Hi. simpl.
      rewrite bool_decide_false; [reflexivity|]. rewrite dom_delete_L. set_solver.
    + eapply (Fin_reaped _ k pid i); [done|]. simpl. apply list_lookup_insert_eq.
      by eapply lookup_lt_Some.
  - by eapply Fin_reaped.
Qed.

Lemma Fin_signal s k pid : op s = Some (PStopSignal k pid) → done_coming s pid → Fin c s.
Proof. intros E Hd. op_fires E. by eapply Fin_wait. Qed.

Lemma Fin_mark s k pid : op s = Some (PStopMark k pid) → done_coming s pid → Fin c s.
Proof. intros E Hd. op_fires E. by eapply Fin_signal. Qed.

Lemma Fin_snap s k : Inv s → op s = Some (PStopSnap k) → Fin c s.
Proof.
  intros Hi E. destruct (running s) eqn:Er, (cmd s) as [pid|] eqn:Ec;
    (eapply (Fin_cons LOp);
      [done|simpl; unfold op_step; rewrite E; simpl; rewrite Er, ?Ec; reflexivity|]);
    try (by eapply Fin_after).
  eapply (Fin_mark _ k pid); [done|]. exact (snapshot_done s pid Hi Ec).
Qed.

Lemma Fin_entry s k : Inv s → op s = Some (PEntry k) → Fin c s.
Proof.
  intros Hi E. destruct (op_step c s) as [s1|] eqn:Es.
  2:{ unfold op_step, goto in Es. rewrite E in Es. simpl in Es. destruct k; repeat case_match; done. }
  pose proof (op_step_Inv c _ _ Hi Es) as Hi1. eapply (Fin_cons LOp); [done|exact Es|].
  unfold op_step, goto in Es. rewrite E in Es. simpl in Es.
  destruct k; repeat case_match; simplify_eq/=;
    (by eapply Fin_start) || (by eapply Fin_snap) || (by eapply Fin_return).
Qed.

Lemma op_finishes s : Inv s → Fin c s.
Proof.
  intros Hi. pose proof (inv_op _ Hi) as Ho. destruct (op s) as [p|] eqn:E; [|by apply Fin_nil].
  simpl in Ho. destruct p.
  - by eapply Fin_entry.
  - by eapply Fin_snap.
  - eapply Fin_mark; [done|apply Ho].
  - eapply Fin_signal; [done|apply Ho].
  - eapply Fin_wait; [done|apply Ho].
  - by eapply Fin_start.
  - by eapply Fin_launch.
  - by eapply Fin_record.
  - by eapply Fin_return.
Qed.
End Finish.

(** ** The crash-loop breaker *)

(** [autoRestart]'s bookkeeping over a series of unexpected exits at the
    given instants: the last crash and the streak. *)
Definition crash_at (c : Settings) (st : Z * Z) (t : Z) : Z * Z :=
  (t, (if window c <? time_sub t st.1 then 0 else st.2) + 1).

Lemma count_crash_at c s :
  (count_crash c s).2 = (crash_at c (crashAt s, crashStreak s) (now s)).2 ∧
  (crashAt (count_crash c s).1, crashStreak (count_crash c s).1) =
    crash_at c (crashAt s, crashStreak s) (now s).
Proof. done. Qed.

(** Instants each within [w] of the one before. *)
Fixpoint burst (w : Z) (prev : Z) (ts : list Z) : Prop :=
  match ts with [] => True | t :: ts' => time_sub t prev ≤ w ∧ burst w t ts' end.

Lemma burst_streak c st ts : burst (window c) st.1 ts →
  (foldl (crash_at c) st ts).2 = st.2 + Z.of_nat (length ts).
Proof.
  revert st. induction ts as [|t ts IH]; intros [at' n]; simpl; [lia|].
  intros [Ht Hb]. assert (crash_at c (at', n) t = (t, n + 1)) as ->.
  { unfold crash_at. cbn [fst snd]. by rewrite (proj2 (Z.ltb_ge _ _) Ht). }
  rewrite IH by done. cbn [snd]. lia.
Qed.

(** * Claims *)

(** C6: in every interleaving of requests, crashes, reaping and automatic
    restarts there is at most one live child, and outside the instants of a
    launch it is the one [Running] and [Pid] report. *)
Theorem one_child c s (Hr : Reachable c s) :
  (size (alive s) ≤ 1)%nat ∧
  (not_recording s → ∀ pid, pid ∈ dom (alive s) → Running s = true ∧ Pid s = pid) ∧
  (Running s = true → RWait (Pid s) ∈ reapers s ∧ Pid s ∉ closed s).
Proof.
  pose proof (Reachable_Inv c s Hr) as Hi. pose proof (inv_run _ Hi) as Hrun.
  split; [|split].
  - rewrite <-size_dom.
    destruct (decide (dom (alive s) = ∅)) as [->|Hne]; [rewrite size_empty; lia|].
    apply set_choose_L in Hne as [pid Hp].
    assert (dom (alive s) ⊆ {[pid]}) as Hsub.
    { intros q Hq. pose proof (inv_op _ Hi) as Ho.
      destruct (inv_alive _ Hi _ Hp) as [E|[k E]], (inv_alive _ Hi _ Hq) as [E'|[k' E']].
      - set_solver.
      - rewrite E' in Ho. destruct Ho as (_&Hc&_). congruence.
      - rewrite E in Ho. destruct Ho as (_&Hc&_). congruence.
      - set_solver. }
    apply subseteq_size in Hsub. by rewrite size_singleton in Hsub.
  - intros Hnr pid Hp. destruct (inv_alive _ Hi _ Hp) as [E|[k E]]; [|by destruct (Hnr k pid)].
    unfold Running, Pid. rewrite Hrun, E. done.
  - unfold Running, Pid. intros E. rewrite E in *. destruct (cmd s) as [pid|] eqn:Ec; [|done].
    simpl. split; [by apply cmd_waits|by eapply inv_closed].
Qed.

(** C14: once [Stop] is done (nothing wanted, no operation in progress) the
    worker is dead, and until the next [Start] or [Restart] request no
    schedule of pending restarts, reapers, reconnects and stops launches it
    again. *)
Theorem stop_is_final c s (Hr : Reachable c s) (Hd : desired s = false) (Ho : op s = None) :
  alive s = ∅ ∧ Running s = false ∧
  ∀ ls s', forallb (λ l, negb (wants_start l)) ls = true → fires c ls s = Some s' →
    launches (events s') = launches (events s) ∧ (op s' = None → alive s' = ∅).
Proof.
  pose proof (Reachable_Inv c s Hr) as Hi. split; [by apply quiescent_dead|].
  split; [pose proof (inv_op _ Hi) as Hs; rewrite Ho in Hs; by apply Hs|].
  intros ls s' Hl Hf.
  destruct (unwanted_run c ls s s') as (Hd'&_&Hla); try done.
  - unfold entering_start. by rewrite Ho.
  - split; [done|]. apply quiescent_dead; [|done].
    apply (Reachable_Inv c). by eapply fires_reachable.
Qed.

(** C24: no lifecycle operation can hang: from every reachable state some
    continuation without any new request completes the one in progress (in
    particular [stop()] never waits for a [done] channel nobody will close),
    and until then every other request is refused as busy. A child's log pipe
    is taken to drain once the child is gone. *)
Theorem operations_complete c s (Hr : Reachable c s) :
  (∃ ls s', fires c ls s = Some s' ∧ op s' = None ∧
            forallb (λ l, negb (wants_start l)) ls = true) ∧
  (op s ≠ None → ∀ k, fire c (LCall k) s = None ∧
     ∃ e, acquireOp c s = Err e ∧ errors_is e ErrBusy = true).
Proof.
  split; [apply op_finishes; by eapply Reachable_Inv|].
  intros Ho k. simpl. unfold call_step, acquireOp. destruct (op s); [|done].
  split; [by destruct k|]. eexists. split; [done|]. done.
Qed.

(** C25: the crash-loop breaker: after an unexpected exit more than a window
    after the previous one, the streak is one; each further exit within the
    window of the one before it adds one; and [autoRestart] schedules a
    restart after the delay exactly while the streak is at most the maximum,
    giving up, once, for good, beyond it. *)
Theorem crash_loop_breaker c t0 ts at0 n0
    (Hfar : window c < time_sub t0 at0) (Hb : burst (window c) t0 ts) :
  (foldl (crash_at c) (at0, n0) (t0 :: ts)).2 = 1 + Z.of_nat (length ts) ∧
  ∀ s i, autos s !! i = Some AEntry → now s = List.last ts t0 →
    (crashAt s, crashStreak s) = foldl (crash_at c) (at0, n0) (removelast (t0 :: ts)) →
    ∃ s', fire c (LAuto i) s = Some s' ∧ crashStreak s' = 1 + Z.of_nat (length ts) ∧
      if max_crashes c <? 1 + Z.of_nat (length ts)
      then events s' = events s ++ [EvGiveUp (1 + Z.of_nat (length ts))] ∧
           autos s' = take i (autos s) ++ drop (S i) (autos s)
      else events s' = events s ∧
           autos s' !! i = Some (ASleep (1 + Z.of_nat (length ts)) (now s + delay c)).
Proof.
  assert ((foldl (crash_at c) (at0, n0) (t0 :: ts)).2 = 1 + Z.of_nat (length ts)) as Hs.
  { simpl. assert (crash_at c (at0, n0) t0 = (t0, 1)) as ->.
    { unfold crash_at. simpl. by rewrite (proj2 (Z.ltb_lt _ _) Hfar). }
    by rewrite burst_streak. }
  split; [done|]. intros s i Hi Hnow Hst.
  assert ((count_crash c s).2 = 1 + Z.of_nat (length ts)) as Hc.
  { destruct (count_crash_at c s) as [-> _]. rewrite Hst, Hnow, <-Hs.
    assert (t0 :: ts = removelast (t0 :: ts) ++ [List.last ts t0]) as Hsplit.
    { rewrite (app_removelast_last t0 (l := t0 :: ts)) at 1 by done. do 2 f_equal. by destruct ts. }
    transitivity (foldl (crash_at c) (at0, n0) (removelast (t0 :: ts) ++ [List.last ts t0])).2.
    - by rewrite foldl_app.
    - by rewrite <-Hsplit. }
  simpl. unfold auto_step. rewrite Hi. simpl.
  change ((if window c <? time_sub (now s) (crashAt s) then 0 else crashStreak s) + 1)
    with ((count_crash c s).2). rewrite Hc.
  destruct (max_crashes c <? _); eexists; (split; [done|]); (split; [done|]); simpl; [done|].
  split; [done|]. apply list_lookup_insert_eq. by eapply lookup_lt_Some.
Qed.

(** ** Witnesses, and a lost restart *)

Definition demo : Settings := mkSettings "openvpn" "/usr/sbin/openvpn" "/log" 0 0 0 None.
Definition s0 : Sup := init ["--config"; "server.conf"] 0.

Definition start_labels : list label := [LCall KStart; LOp; LOp; LOp; LOp; LOp].
Definition restart_tail : list label := [LOp; LOp; LOp; LOp; LOp; LOp; LOp].
Definition die (pid : nat) : list label := [LExit pid; LReap 0; LReap 0; LReap 0].

Definition started : Sup := default s0 (fires demo start_labels s0).
Definition stopped_state : Sup :=
  default s0 (fires demo [LCall KStop; LOp; LOp; LOp; LOp; LExit 0; LReap 0; LReap 0; LOp; LOp; LReap 0] started).

Lemma init_reachable c args t : Reachable c (init args t).
Proof. exists (init args t). split; [by exists args, t|done]. Qed.

Lemma started_reachable : Reachable demo started.
Proof. eapply (fires_reachable demo start_labels); [apply init_reachable|]. by vm_compute. Qed.

Lemma stopped_reachable : Reachable demo stopped_state.
Proof.
  eapply (fires_reachable demo [LCall KStop; LOp; LOp; LOp; LOp; LExit 0; LReap 0; LReap 0; LOp; LOp; LReap 0]);
    [apply started_reachable|]. by vm_compute.
Qed.

(** A child that crashes between [stop()]'s snapshot and its [stopped = true]
    leaves the mark behind: the restarted child's next crash is then taken
    for a requested exit, and nothing restarts it although it is wanted. *)
Example stale_stop_loses_worker :
  match fires demo (start_labels ++ [LCall KRestart; LOp; LOp] ++ die 0 ++ restart_tail ++
                    [LAuto 0; LTick (3 * second); LAuto 0; LOp; LOp] ++ die 1) s0 with
  | Some s => desired s = true ∧ Running s = false ∧ op s = None ∧ autos s = [] ∧ reapers s = []
  | None => False
  end.
Proof. by vm_compute. Qed.

Lemma one_child_witness : (size (alive started) ≤ 1)%nat ∧ Running started = true.
Proof. split; [exact (proj1 (one_child demo started started_reachable))|by vm_compute]. Defined.

Lemma stop_is_final_witness : alive stopped_state = ∅ ∧ launches (events stopped_state) = [O].
Proof.
  split; [|by vm_compute].
  refine (proj1 (stop_is_final demo stopped_state stopped_reachable _ _)); by vm_compute.
Defined.

Lemma operations_complete_witness :
  ∃ ls s', fires demo ls started = Some s' ∧ op s' = None ∧
           forallb (λ l, negb (wants_start l)) ls = true.
Proof. exact (proj1 (operations_complete demo started started_reachable)). Defined.

Lemma crash_loop_breaker_witness :
  (foldl (crash_at demo) (zero_time, 0)
     [100 * second; 110 * second; 150 * second]).2 = 3.
Proof.
  refine (proj1 (crash_loop_breaker demo (100 * second) [110 * second; 150 * second] zero_time 0 _ _)).
  - by vm_compute.
  - simpl. split; [|split]; [by vm_compute..|done].
Defined.

End supervisor.
