(* ===== verification/WorkerLog.v ===== *)
(** * WorkerLog: what a worker's output leaves in its log (internal/controller/supervisor.go)

    Every line of a worker's output goes to its log with the time it was read;
    a line the scanner's buffer cannot hold ends the copying, and with it the
    pipe the worker writes to. *)

From Stdlib Require Import Ascii.
From S2P Require Import Prelude GoStr GoTime.

Module workerlog.

(** [sc.Buffer(…, 1024*1024)]. *)
Definition line_limit : Z := 1024 * 1024.

Section Log.
  Context (offset : Z → Z) (now : nat → Z).

Definition stamped (i : nat) (l : string) : string := rfc3339 offset (now i) +:+ " " +:+ l.

(** [logLines]: what is appended to the log for a whole output. *)
Definition logLines (output : string) : string := unlines (imap stamped (scan_lines line_limit output)).

(** The scanner gave up on a line, so the pipe is closed on the worker. *)
Definition cut_off (output : string) : bool := existsb (λ l, line_limit <=? Z.of_nat (slen l)) (split LF output).

Lemma until_long_fits ls : Forall (λ l, Z.of_nat (slen l) < line_limit) ls → until_long line_limit ls = drop_cr <$> ls.
Proof.
  induction 1 as [|l ls Hl _ IH]; [done|]. cbn [until_long]. rewrite (proj2 (Z.leb_gt _ _)) by done. by rewrite IH.
Qed.
Lemma until_long_stops ls l more : Forall (λ l, Z.of_nat (slen l) < line_limit) ls → line_limit ≤ Z.of_nat (slen l) →
  until_long line_limit (ls ++ l :: more) = drop_cr <$> ls.
Proof.
  intros Hls Hl. induction Hls as [|x ls Hx _ IH]; cbn [until_long app].
  - by rewrite (proj2 (Z.leb_le _ _)).
  - rewrite (proj2 (Z.leb_gt _ _)) by done. by rewrite IH.
Qed.

(** Lines that fit are all logged, in order, each under its own time, as they
    were but for a carriage return at the end. *)
Lemma logLines_lines ls : Forall (λ l, no_char LF l = true) ls → Forall (λ l, Z.of_nat (slen l) < line_limit) ls →
  logLines (unlines ls) = unlines (imap stamped (drop_cr <$> ls)) ∧ cut_off (unlines ls) = false.
Proof.
  intros Hn Hl. unfold logLines, cut_off, scan_lines. rewrite split_unlines by done. rewrite last_snoc, removelast_last. split.
  - by rewrite until_long_fits.
  - rewrite existsb_app. cbn. rewrite orb_false_r. induction Hl as [|l ls Hx _ IH]; [done|]. cbn.
    rewrite (proj2 (Z.leb_gt _ _)) by done. apply IH. by apply Forall_inv_tail in Hn.
Qed.

(** One line too long, and neither it nor anything after it is logged. *)
Lemma logLines_cut ls l more : Forall (λ l, no_char LF l = true) (ls ++ l :: more) → Forall (λ l, Z.of_nat (slen l) < line_limit) ls →
  line_limit ≤ Z.of_nat (slen l) →
  logLines (unlines (ls ++ l :: more)) = logLines (unlines ls) ∧ cut_off (unlines (ls ++ l :: more)) = true.
Proof.
  intros Hn Hls Hl. assert (Forall (λ l, no_char LF l = true) ls) as Hn' by (by apply Forall_app in Hn as [? _]).
  rewrite (proj1 (logLines_lines ls Hn' Hls)). unfold logLines, cut_off, scan_lines. rewrite split_unlines by done.
  rewrite last_snoc, removelast_last. split; [by rewrite until_long_stops|].
  rewrite !existsb_app. cbn. rewrite (proj2 (Z.leb_le _ _)) by done. by rewrite orb_true_r.
Qed.
End Log.

Example stamped_ex : logLines (λ _, 0) (λ i, Z.of_nat i * 1000000000) ("up" +:+ nl +:+ "down") =
  "1970-01-01T00:00:00Z up" +:+ nl +:+ "1970-01-01T00:00:01Z down" +:+ nl.
Proof. by vm_compute. Qed.
End workerlog.
