(* ===== verification/Mgmt.v ===== *)
(** * Mgmt: openvpn's management socket (src/internal/controller/mgmt.go)

    The status-file parser, the reader goroutine that demultiplexes
    notifications from replies, and the command layer ([exec], [simple],
    [Kill]) over a server given as an interface. *)

From Stdlib Require Import Ascii.
From S2P Require Import Prelude GoStr.

Module mgmt.

(** ** Data *)

Record VPNClient := mkVPNClient {
  CID : string; CN : string; RealAddress : string; VirtualAddress : string;
  BytesRecv : Z; BytesSent : Z; ConnectedSince : Z; Cipher : string }.

#[export] Instance VPNClient_eq_dec : EqDecision VPNClient.
Proof. solve_decision. Defined.

(** A line as the parsers see it: [TrimRight(line, CR LF)]. *)
Definition chomp (l : string) : string := trim_right is_crlf l.

(** ** The status file *)

Definition fld (i : nat) (f : list string) : string := default "" (f !! i).

Definition client_of_fields (f : list string) : VPNClient :=
  mkVPNClient (fld 10 f) (fld 1 f) (fld 2 f) (fld 3 f)
    (parse_uint_or_zero (fld 5 f)) (parse_uint_or_zero (fld 6 f))
    (match atoi (fld 8 f) with Some ts => ts * second | None => zero_time end)
    (if (13 <=? length f)%nat then fld 12 f else "").

(** The loop of [parseStatusFile] over the lines a newline ends: the clients
    and the lines left unread. *)
Fixpoint parse_status_lines (ls : list string) (out : list VPNClient)
    : result (list VPNClient * list string) :=
  match ls with
  | [] => Err (Wrapf "controller: status file: no END line (torn read): %w" [] (Sentinel ErrEOF))
  | raw :: ls' =>
      let line := chomp raw in
      if String.eqb line "END" then Ok (out, ls')
      else if has_prefix ("CLIENT_LIST" +:+ tab) line then
        let f := split TAB line in
        if (length f <? 12)%nat then parse_status_lines ls' out
        else parse_status_lines ls' (out ++ [client_of_fields f])
      else parse_status_lines ls' out
  end.

Definition parseStatusFile (s : string) : result (list VPNClient) :=
  fst <$> parse_status_lines (complete_lines s) [].

(** [Status]: the file is opened afresh on each call. *)
Definition Status (file : result string) : result (list VPNClient) :=
  match file with
  | Err e => Err (Wrapf "controller: status file: %w" [] e)
  | Ok s => parseStatusFile s
  end.

(** ** The reader goroutine *)

Definition Env := gmap string string.

(** [readClientEnv]: the block, and the lines after it. *)
Fixpoint readClientEnv (ls : list string) (env : Env) : result Env * list string :=
  match ls with
  | [] => (Err (Sentinel ErrEOF), [])
  | raw :: ls' =>
      let line := chomp raw in
      match cut_prefix ">CLIENT:ENV," line with
      | None => (Err (Errorf "controller: expected >CLIENT:ENV, got %q" [line]), ls')
      | Some rest =>
          if String.eqb rest "END" then (Ok env, ls')
          else let '(name, val, _) := cut "=" rest in readClientEnv ls' (<[name := val]> env)
      end
  end.

(** What the reader does, in order. *)
Inductive action :=
  | AWrite (s : string)                     (* client-auth reply *)
  | AEstablished (cid cn ip : string) (env : Env)
  | ADisconnect (cid : string) (env : Env)
  | AReply (raw : string)                   (* handed to the waiting command *)
  | ADrop.                                  (* the peer hung up *)

Definition handleConnect (header : string) (ls : list string) : list action * list string :=
  match splitn "," 3 header with
  | [_; cid; kid] =>
      match readClientEnv ls ∅ with
      | (Err _, ls') => ([], ls')
      | (Ok _, ls') => ([AWrite ("client-auth-nt " +:+ cid +:+ " " +:+ kid +:+ nl)], ls')
      end
  | _ => ([], ls)
  end.

Definition env_get (env : Env) (k : string) : string := default "" (env !! k).

Definition handleEstablished (header : string) (ls : list string) : list action * list string :=
  let '(_, cid, ok) := cut "," header in
  if negb ok then ([], ls) else
  match readClientEnv ls ∅ with
  | (Err _, ls') => ([], ls')
  | (Ok env, ls') =>
      ([AEstablished cid (env_get env "common_name") (env_get env "ifconfig_pool_remote_ip") env], ls')
  end.

Definition handleDisconnect (header : string) (ls : list string) : list action * list string :=
  let '(_, cid, ok) := cut "," header in
  if negb ok then ([], ls) else
  match readClientEnv ls ∅ with
  | (Err _, ls') => ([], ls')
  | (Ok env, ls') => ([ADisconnect cid env], ls')
  end.

(** One round of [readLoop] on a line and those after it. [AReply] offers the
    line to a command; whether one takes it in time is [MgmtConn]'s. *)
Definition read_one (raw : string) (ls : list string) : list action * list string :=
  let line := chomp raw in
  if has_prefix ">CLIENT:CONNECT," line || has_prefix ">CLIENT:REAUTH," line then handleConnect line ls
  else if has_prefix ">CLIENT:ESTABLISHED," line then handleEstablished line ls
  else if has_prefix ">CLIENT:DISCONNECT," line then handleDisconnect line ls
  else if has_prefix ">" line then ([], ls)
  else ([AReply raw], ls).

(** [readLoop] until the stream ends: a round consumes at least its line, so
    as many rounds as lines are enough. *)
Fixpoint read_rounds (fuel : nat) (ls : list string) : list action :=
  match fuel, ls with
  | _, [] => [ADrop]
  | O, _ => []
  | S fuel, raw :: ls' => let '(acts, ls'') := read_one raw ls' in acts ++ read_rounds fuel ls''
  end.

Definition readLoop (s : string) : list action :=
  let ls := complete_lines s in read_rounds (length ls) ls.

(** ** Commands *)

(** What a command's parser makes of the reply lines it is given: an answer
    and the unread lines, or the lines ran out. [AppErr] is [appErr]. *)
Inductive parsed (A : Type) :=
  | PDone (a : A) (rest : list string)
  | PAppErr (e : goerr) (rest : list string)
  | PMore.
Arguments PDone {A}. Arguments PAppErr {A}. Arguments PMore {A}.

Fixpoint parse_simple (ls : list string) : parsed unit :=
  match ls with
  | [] => PMore
  | raw :: ls' =>
      let line := chomp raw in
      if has_prefix ">" line then parse_simple ls'
      else if has_prefix "SUCCESS" line then PDone tt ls'
      else if has_prefix "ERROR" line then PAppErr (Errorf "controller: %s" [line]) ls'
      else parse_simple ls'
  end.

Definition parse_status (ls : list string) : parsed (list VPNClient) :=
  match parse_status_lines ls [] with Ok (l, rest) => PDone l rest | Err _ => PMore end.

(** [releaseHold]'s loop, on the stream after the banner; the lines left are
    the reader's. *)
Fixpoint releaseHold (ls : list string) : result (list string) :=
  match ls with
  | [] => Err (Sentinel ErrEOF)
  | raw :: ls' =>
      let line := chomp raw in
      if has_prefix ">" line then releaseHold ls'
      else if has_prefix "SUCCESS" line then Ok ls'
      else if has_prefix "ERROR" line then Err (Errorf "controller: hold release: %s" [line])
      else releaseHold ls'
  end.

Definition replies (acts : list action) : list string :=
  omap (λ a, match a with AReply r => Some r | _ => None end) acts.

(** How a server answers one command: the write fails, or the reader gets
    reply lines and then silence ([false]) or a hang-up ([true]). *)
Inductive reply := WriteFails (e : goerr) | Lines (ls : list string) (hangup : bool).

Class Server (S : Type) := {
  (** A fresh connection: what it sends up to its answer to hold release. *)
  srv_dial : S → S * result string;
  srv_cmd : S → string → S * reply }.

(** The client: the server's side, whether a connection is held, the reply
    lines not yet read, and the commands written so far. *)
Record Client (S : Type) := mkClient {
  srv : S; live : bool; queue : list string; sent : list string }.
Arguments mkClient {S}. Arguments srv {S}. Arguments live {S}.
Arguments queue {S}. Arguments sent {S}.

Inductive xerr := IOErr (e : goerr) | AppErr (e : goerr).

Section Commands.
  Context {S : Type} `{Server S}.

Definition drop_conn (c : Client S) : Client S := mkClient (srv c) false [] (sent c).

Definition connect (c : Client S) : Client S * option goerr :=
  let '(s', r) := srv_dial (srv c) in
  let dead := mkClient s' false [] (sent c) in
  match r with
  | Err e => (dead, Some (Wrapf "controller: mgmt socket unavailable: %w" [] e))
  | Ok text =>
      match complete_lines text with
      | [] => (dead, Some (Sentinel ErrEOF))
      | _ :: ls =>
          match releaseHold ls with
          | Err e => (dead, Some e)
          | Ok rest =>
              (mkClient s' true (replies (read_rounds (length rest) rest)) (sent c), None)
          end
      end
  end.

Definition Connect (c : Client S) : Client S * option goerr :=
  if live c then (c, None) else connect c.

Definition tryExec {A} (cmd : string) (parse : list string → parsed A) (c : Client S)
    : Client S * (A + xerr) :=
  let '(c, e) := if live c then (c, None) else connect c in
  match e with
  | Some e => (c, inr (IOErr e))
  | None =>
      let '(s', r) := srv_cmd (srv c) cmd in
      match r with
      | WriteFails e => (mkClient s' (live c) (queue c) (sent c), inr (IOErr e))
      | Lines ls hangup =>
          let c := mkClient s' (negb hangup) (queue c ++ ls) (sent c ++ [cmd]) in
          match parse (queue c) with
          | PDone a rest => (mkClient (srv c) (live c) rest (sent c), inl a)
          | PAppErr e rest => (mkClient (srv c) (live c) rest (sent c), inr (AppErr e))
          | PMore =>
              if hangup then (mkClient (srv c) (live c) [] (sent c), inr (IOErr (Sentinel ErrEOF)))
              else (drop_conn c, inr (IOErr (Errorf "controller: mgmt command timed out" [])))
          end
      end
  end.

(** [for attempt := 0; attempt < 2; attempt++]: [n] attempts left. *)
Fixpoint attempts {A} (n : nat) (cmd : string) (parse : list string → parsed A)
    (err : goerr) (c : Client S) : Client S * result A :=
  match n with
  | O => (c, Err err)
  | Datatypes.S n =>
      let '(c, r) := tryExec cmd parse c in
      match r with
      | inl a => (c, Ok a)
      | inr (AppErr e) => (c, Err e)
      | inr (IOErr e) => attempts n cmd parse e (drop_conn c)
      end
  end.

Definition exec {A} (cmd : string) (parse : list string → parsed A) (c : Client S)
    : Client S * result A := attempts 2 cmd parse (Sentinel ErrEOF) c.

Definition simple (cmd : string) (c : Client S) : Client S * result unit :=
  exec cmd parse_simple c.

(** [Kill]'s loop: the sessions reached so far, and the error that stopped it. *)
Fixpoint kill_all (cn msg : string) (l : list VPNClient) (n : Z) (c : Client S)
    : Client S * (Z * option goerr) :=
  match l with
  | [] => (c, (n, None))
  | v :: l' =>
      if String.eqb (CN v) cn then
        let '(c, r) := simple ("client-kill " +:+ CID v +:+ " " +:+ msg) c in
        match r with
        | Err e => (c, (n, Some e))
        | Ok _ => kill_all cn msg l' (n + 1) c
        end
      else kill_all cn msg l' n c
  end.

Definition Kill (cn msg : string) (c : Client S) : Client S * (Z * option goerr) :=
  if negb (String.eqb msg "HALT") && negb (String.eqb msg "RESTART") then
    (c, (0, Some (Errorf "controller: invalid kill message %q" [msg])))
  else
    let '(c, r) := exec "status 3" parse_status c in
    match r with
    | Err e => (c, (0, Some e))
    | Ok live => kill_all cn msg live 0 c
    end.
End Commands.

(** ** Writers: what openvpn puts in the file and on the socket *)

(** A text field: no tab, no line end. *)
Definition field_ok (s : string) : bool := no_char TAB s && clean_line s.

(** The columns of a CLIENT_LIST line that ovcp does not read. *)
Record extras := mkExtras { x_virt6 : string; x_since : string; x_user : string; x_pid : string }.

Definition status_fields (v : VPNClient) (ts : Z) (x : extras) : list string :=
  ["CLIENT_LIST"; CN v; RealAddress v; VirtualAddress v; x_virt6 x; itoa (BytesRecv v);
   itoa (BytesSent v); x_since x; itoa ts; x_user x; CID v; x_pid x; Cipher v].

Definition status_line (v : VPNClient) (ts : Z) (x : extras) : string := join tab (status_fields v ts x).

Record client_ok (v : VPNClient) (ts : Z) (x : extras) : Prop := {
  ok_text : Forall (λ s, field_ok s = true)
    [CN v; RealAddress v; VirtualAddress v; CID v; Cipher v; x_virt6 x; x_since x; x_user x; x_pid x];
  ok_recv : 0 ≤ BytesRecv v < 2 ^ 64;
  ok_sent : 0 ≤ BytesSent v < 2 ^ 64;
  ok_since : 0 ≤ ts ≤ max_int64 ∧ ConnectedSince v = ts * second }.

(** A line of the file: a session, or any other line but END. *)
Inductive status_entry := Session (v : VPNClient) (ts : Z) (x : extras) | Noise (s : string).

Definition entry_line (e : status_entry) : string :=
  match e with Session v ts x => status_line v ts x | Noise s => s end.

Definition entry_ok (e : status_entry) : Prop :=
  match e with
  | Session v ts x => client_ok v ts x
  | Noise s => clean_line s = true ∧ s ≠ "END" ∧ has_prefix ("CLIENT_LIST" +:+ tab) s = false
  end.

Definition sessions (es : list status_entry) : list VPNClient :=
  omap (λ e, match e with Session v _ _ => Some v | Noise _ => None end) es.

Definition status_file (es : list status_entry) : string := unlines ((entry_line <$> es) ++ ["END"]).

(** *** Lemmas *)

Lemma clean_chomp s : clean_line s = true → chomp s = s.
Proof. apply trim_right_none. Qed.

Lemma clean_no_LF s : clean_line s = true → no_char LF s = true.
Proof.
  apply s_forallb_impl. intros c. unfold is_crlf. rewrite negb_true_iff, orb_false_iff.
  by intros [_ ->].
Qed.

Lemma digits_field s : s_forallb is_digit s = true → field_ok s = true.
Proof.
  intros H. apply andb_true_iff; split.
  - by apply (no_char_of_forallb is_digit).
  - eapply s_forallb_impl; [|exact H]. intros [[] [] [] [] [] [] [] []]; vm_compute; congruence.
Qed.

Lemma fields_ok v ts x : client_ok v ts x → Forall (λ s, field_ok s = true) (status_fields v ts x).
Proof.
  intros [Ht Hr Hs [Hts _]]. repeat (apply Forall_cons in Ht as [? Ht]).
  assert (∀ z, 0 ≤ z → field_ok (itoa z) = true) by (intros; by apply digits_field, itoa_digits).
  unfold status_fields. repeat (apply Forall_cons; split); auto with lia; try (apply H; lia).
Qed.

Lemma join_clean l : Forall (λ s, field_ok s = true) l → clean_line (join tab l) = true.
Proof.
  induction 1 as [|s l Hs HF IH]; [done|]. apply andb_true_iff in Hs as [_ Hs].
  destruct l as [|s' l]; [done|]. rewrite join_cons by done.
  rewrite !clean_line_app, Hs, IH. done.
Qed.

Lemma entry_clean e : entry_ok e → clean_line (entry_line e) = true.
Proof.
  destruct e as [v ts x|s]; [|by intros [? _]]. intros H%fields_ok. by apply join_clean.
Qed.

Lemma entry_not_END e : entry_ok e → entry_line e ≠ "END".
Proof.
  destruct e as [v ts x|s]; [|by intros (_&?&_)]. intros _. unfold entry_line, status_line, status_fields.
  rewrite join_cons by done. sapp. done.
Qed.

Lemma session_parse v ts x : client_ok v ts x →
  has_prefix ("CLIENT_LIST" +:+ tab) (status_line v ts x) = true ∧
  split TAB (status_line v ts x) = status_fields v ts x ∧
  client_of_fields (status_fields v ts x) = v.
Proof.
  intros H. split; [|split].
  - unfold status_line, status_fields. rewrite join_cons by done. rewrite s_app_assoc. apply has_prefix_app.
  - apply split_join; [done|]. eapply Forall_impl; [by apply fields_ok|].
    by intros s [? _]%andb_true_iff.
  - destruct H as [_ Hr Hs [Hts Hc]]. unfold client_of_fields, fld. simpl.
    rewrite !parse_uint_or_zero_itoa, atoi_itoa, <-Hc by done. by destruct v.
Qed.

Lemma parse_entry e ls out : entry_ok e →
  parse_status_lines (entry_line e :: ls) out = parse_status_lines ls (out ++ sessions [e]).
Proof.
  intros He. cbn [parse_status_lines]. rewrite clean_chomp by by apply entry_clean.
  rewrite (proj2 (String.eqb_neq _ _)) by by apply entry_not_END.
  destruct e as [v ts x|s]; simpl in He.
  - cbn [entry_line]. destruct (session_parse v ts x He) as (->&->&E). cbn [length status_fields Nat.ltb Nat.leb].
    by rewrite E.
  - cbn [entry_line]. destruct He as (_&_&->). by rewrite app_nil_r.
Qed.

Lemma parse_entries es ls out : Forall entry_ok es →
  parse_status_lines ((entry_line <$> es) ++ ls) out = parse_status_lines ls (out ++ sessions es).
Proof.
  intros HF. revert out. induction HF as [|e es He HF IH]; intros out.
  - by rewrite app_nil_r.
  - rewrite fmap_cons, <-app_comm_cons, parse_entry, IH by done. f_equal.
    rewrite <-app_assoc. f_equal. unfold sessions. simpl. by destruct e.
Qed.

Lemma file_lines es : Forall entry_ok es →
  Forall (λ y, no_char LF y = true) ((entry_line <$> es) ++ ["END"]).
Proof.
  intros HF. apply Forall_app; split; [|by repeat constructor].
  apply Forall_fmap. eapply Forall_impl; [done|]. intros e He. by apply clean_no_LF, entry_clean.
Qed.

(** *** Messages *)

Inductive msg :=
  | MConnect (reauth : bool) (cid kid : string) (env : list (string * string))
  | MEstablished (cid : string) (env : list (string * string))
  | MDisconnect (cid : string) (env : list (string * string))
  | MNotice (s : string)
  | MReply (s : string).

Definition env_lines (env : list (string * string)) : list string :=
  ((λ p, ">CLIENT:ENV," +:+ p.1 +:+ "=" +:+ p.2) <$> env) ++ [">CLIENT:ENV,END"].

Definition encode (m : msg) : list string :=
  match m with
  | MConnect re cid kid env =>
      ((if re then ">CLIENT:REAUTH," else ">CLIENT:CONNECT,") +:+ cid +:+ "," +:+ kid) :: env_lines env
  | MEstablished cid env => (">CLIENT:ESTABLISHED," +:+ cid) :: env_lines env
  | MDisconnect cid env => (">CLIENT:DISCONNECT," +:+ cid) :: env_lines env
  | MNotice s => [">" +:+ s]
  | MReply s => [s]
  end.

Definition env_map (env : list (string * string)) : Env := foldl (λ m p, <[p.1 := p.2]> m) ∅ env.

Definition react (m : msg) : list action :=
  match m with
  | MConnect _ cid kid _ => [AWrite ("client-auth-nt " +:+ cid +:+ " " +:+ kid +:+ nl)]
  | MEstablished cid env =>
      [AEstablished cid (env_get (env_map env) "common_name")
                    (env_get (env_map env) "ifconfig_pool_remote_ip") (env_map env)]
  | MDisconnect cid env => [ADisconnect cid (env_map env)]
  | MNotice _ => []
  | MReply s => [AReply s]
  end.

Definition env_ok (env : list (string * string)) : Prop :=
  Forall (λ p, clean_line p.1 = true ∧ no_char "=" p.1 = true ∧ clean_line p.2 = true) env.

Definition msg_ok (m : msg) : Prop :=
  match m with
  | MConnect _ cid kid env =>
      clean_line cid = true ∧ no_char "," cid = true ∧ clean_line kid = true ∧ env_ok env
  | MEstablished cid env | MDisconnect cid env => clean_line cid = true ∧ env_ok env
  | MNotice s => clean_line s = true ∧
      has_prefix "CLIENT:CONNECT," s = false ∧ has_prefix "CLIENT:REAUTH," s = false ∧
      has_prefix "CLIENT:ESTABLISHED," s = false ∧ has_prefix "CLIENT:DISCONNECT," s = false
  | MReply s => clean_line s = true ∧ has_prefix ">" s = false
  end.

Lemma readClientEnv_lines env ls m : env_ok env →
  readClientEnv (env_lines env ++ ls) m = (Ok (foldl (λ m p, <[p.1 := p.2]> m) m env), ls).
Proof.
  intros HF. revert m. induction HF as [|[k v] env (Hk&He&Hv) HF IH]; intros m; [done|].
  unfold env_lines in *. rewrite fmap_cons, <-!app_comm_cons. cbn [readClientEnv fst snd] in *.
  rewrite clean_chomp by by rewrite !clean_line_app, Hk, Hv.
  rewrite cut_prefix_app.
  assert ((k +:+ "=" +:+ v) ≠ "END") as Hne.
  { intros E. apply (f_equal (no_char "=")) in E. rewrite no_char_app, (no_char_app _ "=" v) in E.
    rewrite andb_false_l, andb_false_r in E || (cbn in E; rewrite andb_false_r in E). done. }
  rewrite (proj2 (String.eqb_neq _ _) Hne). sapp. rewrite cut_found by done.
  by rewrite <-IH, app_assoc || by rewrite IH.
Qed.

Lemma encode_clean m : msg_ok m → Forall (λ s, clean_line s = true) (encode m).
Proof.
  assert (∀ env, env_ok env → Forall (λ s, clean_line s = true) (env_lines env)) as Henv.
  { intros env HF. apply Forall_app; split; [|by repeat constructor].
    apply Forall_fmap. eapply Forall_impl; [done|]. intros [k v] (Hk&_&Hv). simpl in *.
    by rewrite !clean_line_app, Hk, Hv. }
  destruct m as [re cid kid env|cid env|cid env|s|s]; simpl.
  - intros (Hc&_&Hk&He). apply Forall_cons; split; [|auto].
    rewrite !clean_line_app, Hc, Hk. by destruct re.
  - intros (Hc&He). apply Forall_cons; split; [|auto]. by rewrite clean_line_app, Hc.
  - intros (Hc&He). apply Forall_cons; split; [|auto]. by rewrite clean_line_app, Hc.
  - intros (Hc&_). apply Forall_singleton. by rewrite clean_line_app, Hc.
  - intros (Hc&_). by apply Forall_singleton.
Qed.

Lemma read_one_connect re cid kid env ls : msg_ok (MConnect re cid kid env) →
  read_one ((if re then ">CLIENT:REAUTH," else ">CLIENT:CONNECT,") +:+ cid +:+ "," +:+ kid)
           (env_lines env ++ ls) = (react (MConnect re cid kid env), ls).
Proof.
  intros Hm. pose proof (encode_clean _ Hm) as Hcl. simpl in Hcl. apply Forall_cons in Hcl as [Hcl _].
  destruct Hm as (_&Hc&_&He). unfold read_one. rewrite clean_chomp by done.
  assert (∀ p, no_char "," p = true →
    handleConnect (p +:+ String "," (cid +:+ String "," kid)) (env_lines env ++ ls) =
    (react (MConnect re cid kid env), ls)) as Hh.
  { intros p Hp. unfold handleConnect. rewrite splitn_3 by done. by rewrite readClientEnv_lines. }
  destruct re.
  - exact (Hh ">CLIENT:REAUTH" eq_refl).
  - exact (Hh ">CLIENT:CONNECT" eq_refl).
Qed.

Lemma read_one_message m ls h t : msg_ok m → encode m = h :: t →
  read_one h (t ++ ls) = (react m, ls).
Proof.
  intros Hm Ee. pose proof (encode_clean _ Hm) as Hcl. rewrite Ee in Hcl.
  apply Forall_cons in Hcl as [Hcl _].
  destruct m as [re cid kid env|cid env|cid env|s|s]; simpl in Ee; injection Ee as <- <-.
  - by apply read_one_connect.
  - destruct Hm as (_&He). unfold read_one. rewrite clean_chomp by done.
    change (handleEstablished (">CLIENT:ESTABLISHED" +:+ String "," cid) (env_lines env ++ ls) =
            (react (MEstablished cid env), ls)).
    unfold handleEstablished. rewrite cut_found by done. simpl negb. cbn iota.
    by rewrite readClientEnv_lines.
  - destruct Hm as (_&He). unfold read_one. rewrite clean_chomp by done.
    change (handleDisconnect (">CLIENT:DISCONNECT" +:+ String "," cid) (env_lines env ++ ls) =
            (react (MDisconnect cid env), ls)).
    unfold handleDisconnect. rewrite cut_found by done. simpl negb. cbn iota.
    by rewrite readClientEnv_lines.
  - destruct Hm as (_&H1&H2&H3&H4). unfold read_one. rewrite clean_chomp by done.
    change (has_prefix ">CLIENT:CONNECT," (">" +:+ s)) with (has_prefix "CLIENT:CONNECT," s).
    change (has_prefix ">CLIENT:REAUTH," (">" +:+ s)) with (has_prefix "CLIENT:REAUTH," s).
    change (has_prefix ">CLIENT:ESTABLISHED," (">" +:+ s)) with (has_prefix "CLIENT:ESTABLISHED," s).
    change (has_prefix ">CLIENT:DISCONNECT," (">" +:+ s)) with (has_prefix "CLIENT:DISCONNECT," s).
    rewrite H1, H2, H3, H4. by rewrite (has_prefix_app ">").
  - destruct Hm as (Hs&Hn). unfold read_one. rewrite clean_chomp by done.
    assert (∀ p, has_prefix (String ">" p) s = false) as Hp.
    { intros p. apply not_true_iff_false. intros [r ->]%has_prefix_spec.
      sapp. by cbn in Hn. }
    by rewrite !Hp.
Qed.

Lemma read_rounds_messages ms fuel : Forall msg_ok ms →
  (length (flat_map encode ms) ≤ fuel)%nat →
  read_rounds fuel (flat_map encode ms) = flat_map react ms ++ [ADrop].
Proof.
  intros HF. revert fuel. induction HF as [|m ms Hm HF IH]; intros fuel Hf; [by destruct fuel|].
  cbn [flat_map] in *. destruct (encode m) as [|h t] eqn:Ee; [by destruct m|].
  rewrite <-app_comm_cons in *. cbn [length] in Hf. destruct fuel as [|fuel]; [lia|].
  cbn [read_rounds]. rewrite (read_one_message m _ h t) by done.
  rewrite length_app in Hf. rewrite IH by lia. by rewrite app_assoc.
Qed.

(** * Claims *)

(** The status file: whatever openvpn lists in it, [parseStatusFile]
    returns exactly the sessions, in order and with every field, when the
    file is whole (anything may follow its END line), and returns an error,
    never partial data, for every proper prefix of it. *)
Theorem parseStatusFile_correct es (Hes : Forall entry_ok es) :
  (∀ tail, parseStatusFile (status_file es +:+ tail) = Ok (sessions es)) ∧
  (∀ n, (n < slen (status_file es))%nat →
     ∃ e, parseStatusFile (s_take n (status_file es)) = Err e).
Proof.
  split.
  - intros tail. unfold parseStatusFile, status_file.
    assert (complete_lines (unlines ((entry_line <$> es) ++ ["END"]) +:+ tail) =
            ((entry_line <$> es) ++ ["END"]) ++ complete_lines tail) as ->.
    { pose proof (file_lines es Hes) as HF. revert HF.
      generalize ((entry_line <$> es) ++ ["END"]). intros l HF.
      induction HF as [|x l Hx HF IH]; [done|].
      rewrite unlines_cons, <-!s_app_assoc, complete_lines_cons, IH by done. done. }
    rewrite <-app_assoc, parse_entries by done. done.
  - intros n Hn. unfold parseStatusFile, status_file in *.
    destruct (complete_lines_take (entry_line <$> es) "END" n (file_lines es Hes) Hn) as [k Hk].
    set (ls := complete_lines _) in *.
    assert (∃ es', ls = entry_line <$> es' ∧ Forall entry_ok es') as (es'&->&HF).
    { apply fmap_app_inv in Hk as (es1&es2&->&_&->).
      exists es1. split; [done|]. by apply Forall_app in Hes as [? _]. }
    rewrite <-(app_nil_r (entry_line <$> es')), parse_entries by done. simpl. eauto.
Qed.

(** C26: the reader goroutine demultiplexes: for every sequence of well-formed
    notifications and replies openvpn sends, it approves each connecting
    client by its own ids, reports each established and disconnected session
    with its environment, skips other notices, hands every reply line to the
    commands unchanged, all in order, and drops the connection at the end. *)
Theorem readLoop_demux ms (Hms : Forall msg_ok ms) :
  readLoop (unlines (flat_map encode ms)) = flat_map react ms ++ [ADrop].
Proof.
  unfold readLoop. rewrite complete_lines_unlines.
  - by apply read_rounds_messages.
  - induction Hms as [|m ms Hm HF IH]; [done|]. simpl. apply Forall_app; split; [|done].
    eapply Forall_impl; [by apply encode_clean|]. intros s. apply clean_no_LF.
Qed.

Section KillSpec.
  Context {S : Type} `{Server S}.

Definition kill_cmd (msg : string) (v : VPNClient) : string :=
  "client-kill " +:+ CID v +:+ " " +:+ msg.

(** The server answers a command with one SUCCESS line. *)
Definition answers_ok (cmd : string) : Prop :=
  ∀ s, ∃ s' l, srv_cmd s cmd = (s', Lines [l] false) ∧ has_prefix "SUCCESS" (chomp l) = true.

Lemma success_not_notice l : has_prefix "SUCCESS" l = true → has_prefix ">" l = false.
Proof. rewrite has_prefix_spec. by intros [r ->]. Qed.

Lemma simple_ok cmd (c : Client S) : answers_ok cmd → live c = true → queue c = [] →
  ∃ s', simple cmd c = (mkClient s' true [] (sent c ++ [cmd]), Ok tt).
Proof.
  intros Ha Hl Hq. destruct (Ha (srv c)) as (s'&l&Hs&Hp). exists s'.
  unfold simple, exec. cbn [attempts]. unfold tryExec. rewrite Hl, Hs, Hq. simpl.
  by rewrite (success_not_notice _ Hp), Hp.
Qed.

Lemma kill_all_ok cn msg l n (c : Client S) :
  (∀ v, v ∈ l → CN v = cn → answers_ok (kill_cmd msg v)) → live c = true → queue c = [] →
  ∃ s', kill_all cn msg l n c =
    (mkClient s' true [] (sent c ++ (kill_cmd msg <$> List.filter (λ v, String.eqb (CN v) cn) l)),
     (n + Z.of_nat (length (List.filter (λ v, String.eqb (CN v) cn) l)), None)).
Proof.
  revert n c. induction l as [|v l IH]; intros n c Ha Hl Hq; cbn [kill_all List.filter].
  { exists (srv c). simpl. rewrite app_nil_r, Z.add_0_r. destruct c; simpl in *. by subst. }
  destruct (String.eqb_spec (CN v) cn) as [E|E].
  - destruct (simple_ok (kill_cmd msg v) c) as [s1 Hs1]; [apply Ha; set_solver|done..|].
    unfold kill_cmd in Hs1. rewrite Hs1.
    destruct (IH (n + 1) (mkClient s1 true [] (sent c ++ [kill_cmd msg v]))) as [s2 Hs2].
    { intros w Hw. apply Ha. set_solver. } { done. } { done. }
    exists s2. unfold kill_cmd in Hs2 at 1. rewrite Hs2. cbn [sent length fmap list_fmap].
    rewrite <-app_assoc. f_equal. f_equal. lia.
  - apply IH; try done. intros w Hw. apply Ha. set_solver.
Qed.

(** [Kill] with a valid message asks once for the live sessions and kills
    exactly those of the given name, one command each in listing order, and
    counts them; an invalid message sends nothing at all. *)
Theorem Kill_correct cn msg (c : Client S) s1 ls l
    (Hl : live c = true) (Hq : queue c = [])
    (Hst : srv_cmd (srv c) "status 3" = (s1, Lines ls false))
    (Hls : parse_status_lines ls [] = Ok (l, []))
    (Hkill : ∀ v, v ∈ l → CN v = cn → answers_ok (kill_cmd msg v)) :
  let targets := List.filter (λ v, String.eqb (CN v) cn) l in
  let '(c', (n, err)) := Kill cn msg c in
  if String.eqb msg "HALT" || String.eqb msg "RESTART" then
    sent c' = sent c ++ ["status 3"] ++ (kill_cmd msg <$> targets) ∧
    n = Z.of_nat (length targets) ∧ err = None ∧ queue c' = []
  else c' = c ∧ n = 0 ∧ err ≠ None.
Proof.
  unfold Kill. rewrite <-negb_orb. destruct (_ || _); simpl; [|done].
  unfold exec. cbn [attempts]. unfold tryExec. rewrite Hl, Hst, Hq. simpl.
  unfold parse_status. rewrite Hls. simpl.
  destruct (kill_all_ok cn msg l 0 (mkClient s1 true [] (sent c ++ ["status 3"]))) as [s' Hs'];
    [done..|]. rewrite Hs'. simpl. by rewrite <-app_assoc.
Qed.
End KillSpec.

(** ** Witnesses *)

Definition alice : VPNClient :=
  mkVPNClient "3" "alice" "203.0.113.9:41" "10.8.0.2" 1200 3400 (1700000000 * second) "AES-256-GCM".
Definition bob : VPNClient :=
  mkVPNClient "4" "bob" "203.0.113.8:42" "10.8.0.3" 0 7 (1700000100 * second) "AES-256-GCM".
Definition some_extras : extras := mkExtras "" "2023-11-14 22:13:20" "UNDEF" "0".
Definition demo_entries : list status_entry :=
  [Noise "TITLE"; Session alice 1700000000 some_extras; Session bob 1700000100 some_extras;
   Noise ("ROUTING_TABLE" +:+ tab +:+ "10.8.0.2")].

Lemma demo_entries_ok : Forall entry_ok demo_entries.
Proof.
  repeat (apply Forall_cons; split); try done; constructor; simpl; try done;
    repeat (apply Forall_cons; split); done.
Qed.

Lemma parseStatusFile_correct_witness :
  parseStatusFile (status_file demo_entries) = Ok [alice; bob] ∧
  ∃ e, parseStatusFile (s_take 100 (status_file demo_entries)) = Err e.
Proof.
  destruct (parseStatusFile_correct demo_entries demo_entries_ok) as [Hw Ht].
  split; [rewrite <-(s_app_nil_r (status_file demo_entries)); exact (Hw "")|].
  apply (Ht 100%nat). vm_compute. lia.
Defined.

Definition demo_messages : list msg :=
  [MNotice "INFO:OpenVPN"; MConnect false "3" "1" [("common_name", "alice")];
   MEstablished "3" [("common_name", "alice"); ("ifconfig_pool_remote_ip", "10.8.0.2")];
   MReply "SUCCESS: client-auth command succeeded"; MDisconnect "3" [("common_name", "alice")]].

Lemma readLoop_demux_witness :
  readLoop (unlines (flat_map encode demo_messages)) = flat_map react demo_messages ++ [ADrop] ∧
  length (flat_map react demo_messages) = 4%nat.
Proof.
  split; [|done]. apply readLoop_demux.
  repeat (apply Forall_cons; split); try done; simpl; split_and?; try done;
    repeat (apply Forall_cons; split); done.
Defined.

#[export] Instance demo_server : Server unit := {
  srv_dial s := (s, Err (ExternalErr "refused"));
  srv_cmd s cmd := (s, if String.eqb cmd "status 3"
                       then Lines ((entry_line <$> demo_entries) ++ ["END"]) false
                       else Lines ["SUCCESS: 1 client(s) killed"] false) }.

Lemma Kill_correct_witness :
  let '(c', (n, err)) := Kill "bob" "HALT" (mkClient tt true [] []) in
  sent c' = ["status 3"; "client-kill 4 HALT"] ∧ n = 1 ∧ err = None ∧ queue c' = [].
Proof.
  refine (Kill_correct "bob" "HALT" (mkClient tt true [] []) tt
            ((entry_line <$> demo_entries) ++ ["END"]) [alice; bob] eq_refl eq_refl eq_refl _ _).
  - by vm_compute.
  - intros v Hv Hcn. assert (v = bob) as ->.
    { apply elem_of_cons in Hv as [->|Hv]; [done|]. by apply list_elem_of_singleton in Hv. }
    intros []. by eexists tt, _.
Defined.

End mgmt.
