(* ===== verification/MgmtConn.v ===== *)
(** * MgmtConn: the shared management connection (src/internal/controller/mgmt.go)

    How the goroutines of one [Client] share a connection. First [chanReader],
    which lets a command's parser read the channel its replies arrive on as a
    stream: it takes exactly one line from it for each line read, so the
    parsers of [Mgmt], which see a list of lines, lose none. Then the client
    as a labelled transition system: the command in progress under [c.mu], the
    reader goroutine of every connection dialled so far, and openvpn. *)

From S2P Require Import Prelude GoStr Mgmt.

Module mgmtconn.

(** ** The parser's end of the channel *)

(** What is in the channel or will be sent on it, whether it stays open after
    that, and what of the last line has not been handed out. *)
Record chanReader := mkChanReader { lines : list string; open_end : bool; rbuf : string }.

Inductive chunk := Bytes (s : string) | EOF.

(** [chanReader.Read] into [n] bytes; [None] while it waits. *)
Definition Read (n : nat) (r : chanReader) : option (chunk * chanReader) :=
  let hand (b : string) (ls : list string) := Some (Bytes (s_take n b), mkChanReader ls (open_end r) (s_drop n b)) in
  match rbuf r with
  | "" => match lines r with
          | line :: ls => hand line ls
          | [] => if open_end r then None else Some (EOF, r)
          end
  | b => hand b (lines r)
  end.

(** [bufio.Reader.ReadString('\n')] with a buffer of [size] bytes, holding
    [buf]: the line and what is left buffered. A full buffer without a newline
    is put aside, an empty one is filled by one [Read]. *)
Fixpoint ReadString (size fuel : nat) (acc buf : string) (r : chanReader) : option (result string * string * chanReader) :=
  match fuel with
  | O => None
  | S fuel =>
      let '(line, rest, found) := cut LF buf in
      if found : bool then Some (Ok (acc +:+ line +:+ nl), rest, r)
      else if (size <=? slen buf)%nat then ReadString size fuel (acc +:+ buf) "" r
      else match Read (size - slen buf) r with
           | None => None
           | Some (EOF, r) => Some (Err (Sentinel ErrEOF), "", r)
           | Some (Bytes s, r) => ReadString size fuel acc (buf +:+ s) r
           end
  end.

Lemma Read_buf n b ls o : Read n (mkChanReader ls o (b +:+ nl)) =
  Some (Bytes (s_take n (b +:+ nl)), mkChanReader ls o (s_drop n (b +:+ nl))).
Proof. by destruct b. Qed.

Lemma cut_line a : no_char LF a = true → cut LF (a +:+ nl) = (a, "", true).
Proof. apply cut_found. Qed.

(** The rest [b] of a line is in the reader, its start [buf] in the buffer. *)
Lemma ReadString_rest size b buf acc ls o :
  (0 < size)%nat → no_char LF (buf +:+ b) = true →
  ∃ fuel, ReadString size fuel acc buf (mkChanReader ls o (b +:+ nl)) = Some (Ok (acc +:+ buf +:+ b +:+ nl), "", mkChanReader ls o "").
Proof.
  intros Hs. remember (slen b) as n eqn:En. revert b buf acc En.
  induction n as [n IH] using lt_wf_ind. intros b buf acc En Hb.
  assert (∀ buf acc, no_char LF (buf +:+ b) = true → (slen buf < size)%nat → ∃ fuel,
    ReadString size fuel acc buf (mkChanReader ls o (b +:+ nl)) = Some (Ok (acc +:+ buf +:+ b +:+ nl), "", mkChanReader ls o "")) as Hfill.
  { clear buf acc Hb. intros buf acc Hb Hlt. rewrite no_char_app, andb_true_iff in Hb. destruct Hb as [Hbuf Hb].
    set (k := (size - slen buf)%nat). assert (0 < k)%nat as Hk by lia.
    destruct (decide (k ≤ slen b)%nat) as [Hle|Hgt].
    - assert (no_char LF ((buf +:+ s_take k b) +:+ s_drop k b) = true) as Hnl by (by rewrite <-s_app_assoc, s_take_drop, no_char_app, Hbuf).
      destruct (IH (slen (s_drop k b)) ltac:(rewrite s_length_drop; lia) (s_drop k b) _ acc eq_refl Hnl) as [f Hf].
      exists (S f). cbn [ReadString]. rewrite cut_not_found by done. rewrite (proj2 (Nat.leb_gt _ _)) by lia. fold k.
      rewrite Read_buf, s_take_app_le, s_drop_app_le by done. rewrite Hf.
      do 3 f_equal. rewrite <-(s_app_assoc buf), (s_app_assoc _ _ nl), s_take_drop. done.
    - exists 2%nat. cbn [ReadString]. rewrite cut_not_found by done. rewrite (proj2 (Nat.leb_gt _ _)) by lia. fold k.
      assert (slen (b +:+ nl) ≤ k)%nat as Hl by (rewrite s_length_app; change (slen nl) with 1%nat; lia).
      rewrite Read_buf, s_take_all, s_drop_all by done.
      rewrite (s_app_assoc buf b), cut_line by (by rewrite no_char_app, Hbuf). done. }
  destruct (decide (size ≤ slen buf)%nat) as [Hf|Hf]; [|by apply Hfill; [|lia]].
  rewrite no_char_app, andb_true_iff in Hb. destruct Hb as [Hbuf Hb].
  destruct (Hfill "" (acc +:+ buf) ltac:(done) ltac:(simpl; lia)) as [f E].
  exists (S f). cbn [ReadString]. rewrite cut_not_found by done. rewrite (proj2 (Nat.leb_le _ _)) by done. rewrite E, <-s_app_assoc. done.
Qed.

Lemma ReadString_first size f b ls o : (0 < size)%nat →
  ReadString size (S f) "" "" (mkChanReader ((b +:+ nl) :: ls) o "") = ReadString size (S f) "" "" (mkChanReader ls o (b +:+ nl)).
Proof.
  intros Hs. cbn [ReadString]. change (cut LF "") with ("", "", false). cbv iota beta. rewrite (proj2 (Nat.leb_gt _ _)) by done.
  by rewrite Read_buf.
Qed.

(** One line read is one line received, however long and whatever the
    buffer's size: nothing of the next is taken and nothing is left behind, so
    the next command's parser starts on a line of its own. *)
Theorem chanReader_lines size body ls o (Hs : (0 < size)%nat) (Hb : no_char LF body = true) :
  ∃ fuel, ReadString size fuel "" "" (mkChanReader ((body +:+ nl) :: ls) o "") = Some (Ok (body +:+ nl), "", mkChanReader ls o "").
Proof.
  destruct (ReadString_rest size body "" "" ls o Hs Hb) as [[|f] E]; [done|]. exists (S f). etrans; [|exact E].
  apply ReadString_first. lia.
Qed.

(** A closed channel is the end of the stream. *)
Lemma chanReader_end size (Hs : (0 < size)%nat) :
  ReadString size 1 "" "" (mkChanReader [] false "") = Some (Err (Sentinel ErrEOF), "", mkChanReader [] false "").
Proof. destruct size; [lia|done]. Qed.

Lemma chanReader_lines_witness : ∃ fuel,
  ReadString 4 fuel "" "" (mkChanReader ["SUCCESS: hold" +:+ nl; "END" +:+ nl] true "") =
  Some (Ok ("SUCCESS: hold" +:+ nl), "", mkChanReader ["END" +:+ nl] true "").
Proof. apply (chanReader_lines 4 "SUCCESS: hold" ["END" +:+ nl] true); [lia|reflexivity]. Defined.

(** ** The client

    A connection dialled: what [Mgmt.readLoop] will make of what openvpn has
    sent on it and the reader has not read, whether openvpn has hung up and
    whether we have closed it, the channel of replies and whether it is closed,
    where the reader is; and, for the theorems, the replies read, those taken
    from the channel, how many were dropped, and what we wrote. *)
Inductive rpc :=
  | Reads
  | Offers (raw : string)          (* in the select of the default branch *)
  | Forgets                        (* about to take c.conn in drop *)
  | Closes (g : option nat)        (* about to close what it took *)
  | Leaves                         (* the deferred close(resp) *)
  | Gone.

Record Link := mkLink {
  wire : list mgmt.action; hung : bool; shut : bool; chan : list string; chan_closed : bool; reader : rpc;
  heard : list string; taken : list string; lost : nat; wrote : list string }.

(** A command, and which parser its reply goes to: what it makes of the lines
    taken so far. *)
Inductive parser := ParseSimple | ParseStatus.
Record command := mkCommand { text : string; its : parser }.
Definition simple (text : string) : command := mkCommand text ParseSimple.
Definition status3 : command := mkCommand "status 3" ParseStatus.

Definition verdict {A} (r : mgmt.parsed A) : option (option goerr) :=
  match r with mgmt.PDone _ _ => Some None | mgmt.PAppErr e _ => Some (Some e) | mgmt.PMore => None end.
Definition parse (c : command) (seen : list string) : option (option goerr) :=
  match its c with ParseSimple => verdict (mgmt.parse_simple seen) | ParseStatus => verdict (mgmt.parse_status seen) end.

(** [exec], which holds [c.mu]; [n] attempts are left, this one included. *)
Inductive xpc :=
  | Idle
  | Tries (c : command) (n : nat) (err : option goerr)    (* the head of the loop *)
  | Dials (c : command) (n : nat)
  | Writes (c : command) (n : nat)
  | Awaits (c : command) (n : nat) (g : nat) (seen : list string)
  | XForgets (c : command) (n : nat) (again : bool) (err : goerr)
  | XCloses (c : command) (n : nat) (again : bool) (err : goerr) (g : option nat).

(** [cur] is [c.conn], [resp] whose channel [c.resp] is; [late] the parsers
    of attempts given up on, which go on with the channel they had. *)
Record St := mkSt { links : list Link; cur : option nat; resp : option nat; exec : xpc; late : list nat;
  ended : list (string * option goerr) }.

Definition upd (g : nat) (f : Link → Link) (s : St) : St :=
  mkSt (alter f g (links s)) (cur s) (resp s) (exec s) (late s) (ended s).
Definition goto (x : xpc) (s : St) : St := mkSt (links s) (cur s) (resp s) x (late s) (ended s).
Definition finish (c : command) (e : option goerr) (s : St) : St :=
  mkSt (links s) (cur s) (resp s) Idle (late s) (ended s ++ [(text c, e)]).
(** The section of [drop] and [setConn] under [writeMu]. *)
Definition set_conn (g : option nat) (s : St) : St := mkSt (links s) g (resp s) (exec s) (late s) (ended s).

Definition with_reader (r : rpc) (l : Link) : Link :=
  mkLink (wire l) (hung l) (shut l) (chan l) (chan_closed l) r (heard l) (taken l) (lost l) (wrote l).
Definition Close (l : Link) : Link :=
  mkLink (wire l) (hung l) true (chan l) (chan_closed l) (reader l) (heard l) (taken l) (lost l) (wrote l).
Definition arrive (a : mgmt.action) (l : Link) : Link :=
  mkLink (wire l ++ [a]) (hung l) (shut l) (chan l) (chan_closed l) (reader l) (heard l) (taken l) (lost l) (wrote l).
Definition hang_up (l : Link) : Link :=
  mkLink (wire l) true (shut l) (chan l) (chan_closed l) (reader l) (heard l) (taken l) (lost l) (wrote l).
Definition take_line (ls : list string) (x : string) (l : Link) : Link :=
  mkLink (wire l) (hung l) (shut l) ls (chan_closed l) (reader l) (heard l) (taken l ++ [x]) (lost l) (wrote l).
Definition written (t : string) (l : Link) : Link :=
  mkLink (wire l) (hung l) (shut l) (chan l) (chan_closed l) (reader l) (heard l) (taken l) (lost l) (wrote l ++ [t]).
Definition close_close (g : option nat) (s : St) : St := match g with Some g => upd g Close s | None => s end.

(** [resp := make(chan string, 8)]. *)
Definition capacity : nat := 8.
Definition fresh_link (acts : list mgmt.action) : Link := mkLink acts false false [] false Reads [] [] 0 [].
(** [connect] when it succeeds: what came after the answer to hold release. *)
Definition connected (acts : list mgmt.action) (s : St) : St :=
  mkSt (links s ++ [fresh_link acts]) (Some (length (links s))) (Some (length (links s))) (exec s) (late s) (ended s).

(** [c.write]: on whatever connection is held now. *)
Definition write (ok : bool) (t : string) (s : St) : option (nat * St) :=
  g ← cur s; l ← links s !! g; if ok && negb (shut l) then Some (g, upd g (written t) s) else None.

Inductive label :=
  (* commands *)
  | Call (c : command) | Connects (acts : list mgmt.action)
  | Attempt | Dial (acts : list mgmt.action) | DialFails (e : goerr) | Write (ok : bool) | Take | Ends | TimesOut | XForget | XClose
  (* a parser given up on, and the readers *)
  | Late (g : nat) | RRead (g : nat) (ok : bool) | RFails (g : nat) | ROffer (g : nat) | RGivesUp (g : nat)
  | RForget (g : nat) | RClose (g : nat) | RLeave (g : nat)
  (* openvpn *)
  | Arrives (g : nat) (a : mgmt.action) | HangsUp (g : nat).

Definition not_connected : goerr := Errorf "controller: mgmt not connected" [].
Definition timed_out : goerr := Errorf "controller: mgmt command timed out" [].

(** A line from the channel to the command's parser. *)
Definition take_step (c : command) (n g : nat) (seen : list string) (s : St) : option St :=
  l ← links s !! g;
  match chan l with
  | [] => None
  | x :: rest =>
      let s := upd g (take_line rest x) s in
      Some match parse c (seen ++ [x]) with Some e => finish c e s | None => goto (Awaits c n g (seen ++ [x])) s end
  end.

(** [exec], [tryExec], [connect] and [drop], by the command in progress. *)
Definition exec_step (l : label) (s : St) : option St :=
  match exec s, l with
  | Idle, Call c => Some (goto (Tries c 2 None) s)
  | Idle, Connects acts => Some (if cur s is Some _ then s else connected acts s)
  | Tries c O err, Attempt => Some (finish c err s)
  | Tries c (S n) _, Attempt => Some (goto (if cur s is Some _ then Writes c n else Dials c n) s)
  | Dials c n, Dial acts => Some (goto (Writes c n) (connected acts s))
  | Dials c n, DialFails e => Some (goto (XForgets c n false e) s)
  | Writes c n, Write ok =>
      match write ok (text c +:+ nl) s with
      | Some (_, s) => g ← resp s; Some (goto (Awaits c n g []) s)
      | None => Some (goto (XForgets c n false not_connected) s)
      end
  | Awaits c n g seen, Take => take_step c n g seen s
  | Awaits c n g _, Ends =>
      l ← links s !! g;
      match chan l with [] => if chan_closed l then Some (goto (XForgets c n false (Sentinel ErrEOF)) s) else None | _ => None end
  | Awaits c n g _, TimesOut =>
      Some (mkSt (links s) (cur s) (resp s) (XForgets c n true timed_out) (g :: late s) (ended s))
  | XForgets c n again e, XForget => Some (goto (XCloses c n again e (cur s)) (set_conn None s))
  | XCloses c n again e g, XClose =>
      Some (goto (if again then XForgets c n false e else Tries c n (Some e)) (close_close g s))
  | _, _ => None
  end.

(** [readLoop] of link [g], a round at a time; a client-auth reply goes out
    through [c.write]. *)
Definition read_step (g : nat) (ok : bool) (l : Link) (s : St) : option St :=
  match wire l with
  | [] => None
  | a :: rest =>
      let read r heard := mkLink rest (hung l) (shut l) (chan l) (chan_closed l) r heard (taken l) (lost l) (wrote l) in
      match a with
      | mgmt.AReply raw => Some (upd g (λ _, read (Offers raw) (heard l ++ [raw])) s)
      | mgmt.AWrite t =>
          let s := upd g (λ _, read Reads (heard l)) s in
          Some match write ok t s with Some (_, s) => s | None => s end
      | _ => Some (upd g (λ _, read Reads (heard l)) s)
      end
  end.

Definition reader_step (lb : label) (g : nat) (l : Link) (s : St) : option St :=
  match reader l, lb with
  | Reads, RRead _ ok => read_step g ok l s
  | Reads, RFails _ =>
      if shut l || hung l && bool_decide (length (wire l) = 0%nat) then Some (upd g (with_reader Forgets) s) else None
  | Offers raw, ROffer _ =>
      if (length (chan l) <? capacity)%nat then
        Some (upd g (λ l, mkLink (wire l) (hung l) (shut l) (chan l ++ [raw]) (chan_closed l) Reads (heard l) (taken l) (lost l) (wrote l)) s)
      else None
  | Offers raw, RGivesUp _ =>
      Some (upd g (λ l, mkLink (wire l) (hung l) (shut l) (chan l) (chan_closed l) Reads (heard l) (taken l) (S (lost l)) (wrote l)) s)
  | Forgets, RForget _ => Some (upd g (with_reader (Closes (cur s))) (set_conn None s))
  | Closes g', RClose _ => Some (close_close g' (upd g (with_reader Leaves) s))
  | Leaves, RLeave _ =>
      Some (upd g (λ l, mkLink (wire l) (hung l) (shut l) (chan l) true Gone (heard l) (taken l) (lost l) (wrote l)) s)
  | _, _ => None
  end.

Definition late_step (g : nat) (l : Link) (s : St) : option St :=
  if bool_decide (g ∈ late s) then
    match chan l with x :: rest => Some (upd g (take_line rest x) s) | [] => None end
  else None.

Definition fire (lb : label) (s : St) : option St :=
  match lb with
  | Late g => l ← links s !! g; late_step g l s
  | RRead g _ | RFails g | ROffer g | RGivesUp g | RForget g | RClose g | RLeave g => l ← links s !! g; reader_step lb g l s
  | Arrives g a => l ← links s !! g; if hung l then None else Some (upd g (arrive a) s)
  | HangsUp g => Some (upd g hang_up s)
  | _ => exec_step lb s
  end.

Definition step (s s' : St) : Prop := ∃ lb, fire lb s = Some s'.
Fixpoint run (ls : list label) (s : St) : option St :=
  match ls with [] => Some s | lb :: ls => s ← fire lb s; run ls s end.
Definition NewClient : St := mkSt [] None None Idle [] [].
Definition Reachable : St → Prop := reachable (eq NewClient) step.

(** ** A connection's replies *)

Definition offering (r : rpc) : list string := match r with Offers raw => [raw] | _ => [] end.
Lemma sublist_full {A} (l k : list A) : l `sublist_of` k → (length k ≤ length l)%nat → l = k.
Proof.
  induction 1 as [|x l k H IH|x l k H IH]; cbn; intros Hle; [done|f_equal; apply IH; lia|].
  apply sublist_length in H. lia.
Qed.

(** Every reply read is taken, in the channel or on offer, in order, except
    those dropped; the channel holds eight at most, and is closed last. *)
Record Linv (l : Link) : Prop := {
  li_order : taken l ++ chan l ++ offering (reader l) `sublist_of` heard l;
  li_count : length (heard l) = (length (taken l ++ chan l ++ offering (reader l)) + lost l)%nat;
  li_cap : (length (chan l) ≤ capacity)%nat;
  li_closed : chan_closed l = true → reader l = Gone }.

Definition Links (s : St) : Prop := Forall Linv (links s).

Lemma Linv_idle l : Linv l → offering (reader l) = [] → taken l ++ chan l `sublist_of` heard l ∧
  length (heard l) = (length (taken l ++ chan l) + lost l)%nat.
Proof. intros [Ho Hc _ _] E. by rewrite E, !app_nil_r in Ho, Hc. Qed.

Lemma Linv_same l l' : Linv l → taken l' = taken l → chan l' = chan l → heard l' = heard l → lost l' = lost l →
  offering (reader l') = offering (reader l) → (chan_closed l' = true → reader l' = Gone) → Linv l'.
Proof. intros [Ho Hc Hk Hd] Et Ec Eh El Er Hg. split; rewrite ?Et, ?Ec, ?Eh, ?El, ?Er; done. Qed.

Lemma Linv_open l : Linv l → reader l ≠ Gone → chan_closed l = true → reader l = Gone.
Proof. intros [_ _ _ Hd] Hr Hx. by apply Hd in Hx. Qed.

Lemma Links_upd g f s : Links s → (∀ l, links s !! g = Some l → Linv l → Linv (f l)) → Links (upd g f s).
Proof. intros H Hf. by apply Forall_alter. Qed.

Ltac keeps := let H := fresh in intros ? ? H; apply (Linv_same _ _ H); cbn; try done; apply H.

Lemma Links_Close g s : Links s → Links (close_close g s).
Proof. destruct g as [g|]; [|done]. intros H. apply Links_upd; [done|]. keeps. Qed.

Lemma Links_write ok t s g s' : write ok t s = Some (g, s') → Links s → Links s'.
Proof.
  unfold write. destruct (cur s) as [g'|]; [|done]. cbn. destruct (links s !! g') as [l|]; [|done]. cbn.
  destruct (_ && _); [|done]. intros [= <- <-] H. apply Links_upd; [done|]. keeps.
Qed.

Lemma Links_connected acts s : Links s → Links (connected acts s).
Proof. intros H. apply Forall_app. split; [done|]. apply Forall_singleton. split; cbn; auto with lia. Qed.

Lemma Linv_take x rest l : chan l = x :: rest → Linv l → Linv (take_line rest x l).
Proof.
  intros E [Ho Hc Hk Hd]. rewrite E in Ho, Hc, Hk. split; cbn in *; [by rewrite <-app_assoc| |lia|done].
  by rewrite Hc, <-app_assoc.
Qed.

Lemma Links_take g x rest l s : links s !! g = Some l → chan l = x :: rest → Links s → Links (upd g (take_line rest x) s).
Proof. intros Hg E H. apply Links_upd; [done|]. intros l' Hl'. rewrite Hg in Hl'. injection Hl' as <-. by apply Linv_take. Qed.

Lemma Links_exec lb s s' : exec_step lb s = Some s' → Links s → Links s'.
Proof.
  unfold exec_step. intros E H.
  destruct (exec s) as [|c [|n] err|c n|c n|c n g seen|c n again e|c n again e g], lb; try done.
  all: try (by injection E as <-).
  - injection E as <-. destruct (cur s); [done|by apply Links_connected].
  - injection E as <-. by apply Links_connected.
  - destruct (write _ _ _) as [[g s1]|] eqn:Ew; [|by injection E as <-].
    cbn in E. destruct (resp s1); [|done]. injection E as <-. exact (Links_write _ _ _ _ _ Ew H).
  - unfold take_step in E. destruct (links s !! g) as [l|] eqn:El; [|done]. cbn in E.
    destruct (chan l) as [|x rest] eqn:Ec; [done|]. injection E as <-.
    pose proof (Links_take _ _ _ _ _ El Ec H). by destruct (parse _ _).
  - destruct (links s !! g); [|done]. cbn in E. destruct (chan _); [|done]. destruct (chan_closed _); [|done]. by injection E as <-.
  - injection E as <-. by apply (Links_Close g s).
Qed.

(** The step of a reader that touches its own link only. *)
Lemma Links_here g l f s : links s !! g = Some l → Linv l → Linv (f l) → Links s → Links (upd g f s).
Proof. intros Hg Hl Hf H. apply Links_upd; [done|]. intros l' Hl' _. rewrite Hg in Hl'. by injection Hl' as <-. Qed.

Lemma Links_read g ok l s s' : links s !! g = Some l → reader l = Reads → read_step g ok l s = Some s' → Links s → Links s'.
Proof.
  intros Hg Hr E H. unfold read_step in E. destruct (wire l) as [|a rest]; [done|].
  assert (Linv l) as Hl by (by eapply Forall_lookup_1).
  assert (chan_closed l = true → False) as Hopen by (intros Hx; apply Linv_open in Hx; [congruence|done|congruence]).
  assert (∀ k : Link → Link, (∀ l, k l = mkLink rest (hung l) (shut l) (chan l) (chan_closed l) Reads (heard l) (taken l) (lost l) (wrote l)) →
    Links (upd g (λ _, k l) s)) as Hquiet.
  { intros k Hk. eapply (Links_here g l); [done..| |done]. rewrite Hk. apply (Linv_same _ _ Hl); rewrite ?Hr; done. }
  specialize (Hquiet (λ l, mkLink rest (hung l) (shut l) (chan l) (chan_closed l) Reads (heard l) (taken l) (lost l) (wrote l)) (λ _, eq_refl)).
  destruct a; injection E as <-; try exact Hquiet.
  - destruct (write _ _ _) as [[g' s1]|] eqn:Ew; [by eapply Links_write|done].
  - apply (Links_here g l); [done..| |done]. destruct (Linv_idle l Hl) as [Ho Hc]; [by rewrite Hr|].
    destruct Hl as [_ _ Hk _]. split; cbn; [| |done|by intros ?%Hopen].
    + rewrite app_assoc. by apply sublist_app.
    + rewrite length_app, app_assoc, length_app, Hc. cbn. lia.
Qed.

Lemma Links_reader lb g l s s' : links s !! g = Some l → reader_step lb g l s = Some s' → Links s → Links s'.
Proof.
  intros Hg E H. assert (Linv l) as Hl by (by eapply Forall_lookup_1). unfold reader_step in E.
  destruct (reader l) as [|raw| |g'| |] eqn:Er, lb; try done.
  - by eapply Links_read.
  - destruct (_ || _); [|done]. injection E as <-. apply (Links_here g l); [done..| |done].
    apply (Linv_same _ _ Hl); cbn; rewrite ?Er; try done. intros Hx. apply Linv_open in Hx; congruence.
  - destruct (Nat.ltb_spec (length (chan l)) capacity); [|done]. injection E as <-. apply (Links_here g l); [done..| |done].
    destruct Hl as [Ho Hc Hk Hd]. rewrite Er in *. cbn in *.
    split; cbn; rewrite ?app_nil_r; try done; [rewrite length_app; cbn; lia|]. intros Hx. by apply Hd in Hx.
  - injection E as <-. apply (Links_here g l); [done..| |done]. destruct Hl as [Ho Hc Hk Hd]. rewrite Er in *. cbn in *.
    split; cbn; rewrite ?app_nil_r; try done.
    + etrans; [|exact Ho]. rewrite app_assoc. by apply sublist_inserts_r.
    + rewrite Hc, app_assoc, (length_app (_ ++ _)). cbn. lia.
    + intros Hx. by apply Hd in Hx.
  - injection E as <-. apply Links_upd; [done|]. intros l' Hl' _. cbn in Hl'. rewrite Hg in Hl'. injection Hl' as <-.
    apply (Linv_same _ _ Hl); cbn; rewrite ?Er; try done. intros Hx. apply Linv_open in Hx; congruence.
  - injection E as <-. apply Links_Close, (Links_here g l); [done..| |done].
    apply (Linv_same _ _ Hl); cbn; rewrite ?Er; try done. intros Hx. apply Linv_open in Hx; congruence.
  - injection E as <-. apply (Links_here g l); [done..| |done]. apply (Linv_same _ _ Hl); cbn; by rewrite ?Er.
Qed.

Lemma Links_step s s' : Links s → step s s' → Links s'.
Proof.
  intros H [lb E]. destruct lb; cbn in E; try (by eapply Links_exec); try (by injection E as <-; apply Links_upd; [done|]; keeps);
    destruct (links s !! g) as [l|] eqn:Hg; try done; cbn in E; try (by eapply Links_reader).
  - unfold late_step in E. destruct (bool_decide _); [|done]. destruct (chan l) as [|x rest] eqn:Ec; [done|]. injection E as <-.
    by eapply Links_take.
  - destruct (hung l); [done|]. injection E as <-. apply Links_upd; [done|]. keeps.
Qed.

Lemma Reachable_Links s : Reachable s → Links s.
Proof. apply reachable_invariant; [by intros s0 <-; constructor|apply Links_step]. Qed.

(** ** Which connection is held *)

(** A goroutine about to close the connection it took out of [c.conn]. *)
Definition closing (g' : nat) (s : St) : Prop :=
  (∃ c n again e, exec s = XCloses c n again e (Some g')) ∨ ∃ g l, links s !! g = Some l ∧ reader l = Closes (Some g').
Definition giving_up (x : xpc) : Prop := match x with XForgets _ _ true _ => True | _ => False end.

Record Cinv (s : St) : Prop := {
  ci_resp g : resp s = Some g → S g = length (links s);
  ci_cur g : cur s = Some g → resp s = Some g;
  ci_open g l : cur s = Some g → links s !! g = Some l → shut l = false;
  ci_closing g : closing g s → (g < length (links s))%nat ∧ cur s ≠ Some g;
  ci_late g : g ∈ late s → (g < length (links s))%nat ∧ (cur s = Some g → giving_up (exec s));
  ci_await c n g seen : exec s = Awaits c n g seen → resp s = Some g ∧ g ∉ late s ∧
    ∃ l earlier, links s !! g = Some l ∧ taken l = earlier ++ seen ∧ text c +:+ nl ∈ wrote l }.

(** What the invariant sees of a link. *)
Definition same_view (l l' : Link) : Prop :=
  shut l' = shut l ∧ (∀ g, reader l' = Closes (Some g) → reader l = Closes (Some g)) ∧ wrote l ⊆ wrote l'.
Definition awaited (g : nat) (s : St) : Prop := ∃ c n seen, exec s = Awaits c n g seen.

Lemma links_upd g f s i : links (upd g f s) !! i = if decide (g = i) then f <$> links s !! i else links s !! i.
Proof.
  cbn [upd links]. rewrite list_lookup_alter. by destruct (decide (g = i)) as [->|].
Qed.

Lemma links_upd_inv g f s i l' : links (upd g f s) !! i = Some l' →
  (g = i ∧ ∃ l, links s !! i = Some l ∧ l' = f l) ∨ (g ≠ i ∧ links s !! i = Some l').
Proof.
  rewrite links_upd. destruct (decide (g = i)) as [->|]; [|by right].
  intros (l&E&->)%fmap_Some. left. split; [done|]. by exists l.
Qed.

Lemma length_upd g f s : length (links (upd g f s)) = length (links s).
Proof. apply length_alter. Qed.

Lemma Cinv_upd g f s : (∀ l, links s !! g = Some l → same_view l (f l) ∧ (awaited g s → taken (f l) = taken l)) →
  Cinv s → Cinv (upd g f s).
Proof.
  intros Hf [Hr Hc Ho Hcl Hl Ha]. split; rewrite ?length_upd; try done.
  - intros i l' Hi [(->&l&E&->)|[_ E]]%links_upd_inv; [|by eapply Ho]. destruct (Hf _ E) as [[-> _] _]. by eapply Ho.
  - intros i [Hx|(j&l'&[(->&l&E&->)|[_ E]]%links_upd_inv&Hj)]; apply Hcl; [by left| |right; by exists j, l'].
    destruct (Hf _ E) as [(_&Hk&_) _]. right. exists j, l. split; [done|]. by apply Hk.
  - intros c n i seen Hi. destruct (Ha _ _ _ _ Hi) as (?&?&l&earlier&E&Ht&Hw). split_and!; [done..|].
    rewrite links_upd. destruct (decide (g = i)) as [->|]; [|by exists l, earlier].
    destruct (Hf _ E) as [(_&_&Hw') Ht']. rewrite E. exists (f l), earlier. cbn. split_and!; [done| |by apply Hw'].
    rewrite Ht'; [done|]. by exists c, n, seen.
Qed.

(** Closing what no one holds. *)
Lemma Cinv_close g s : (∀ i, g = Some i → cur s ≠ Some i) → Cinv s → Cinv (close_close g s).
Proof.
  destruct g as [g|]; [|done]. intros Hg [Hr Hc Ho Hcl Hl Ha]. split; cbn [close_close]; rewrite ?length_upd; try done.
  - intros i l' Hi [(->&l&E&->)|[_ E]]%links_upd_inv; [by destruct (Hg i eq_refl Hi)|by eapply Ho].
  - intros i [Hx|(j&l'&[(->&l&E&->)|[_ E]]%links_upd_inv&Hj)]; apply Hcl; [by left|right; by exists j, l|right; by exists j, l'].
  - intros c n i seen Hi. destruct (Ha _ _ _ _ Hi) as (?&?&l&earlier&E&Ht&Hw). split_and!; [done..|].
    rewrite links_upd. destruct (decide (g = i)) as [->|]; [|by exists l, earlier]. rewrite E. by exists (Close l), earlier.
Qed.

Lemma Cinv_write ok t s g s' : write ok t s = Some (g, s') → Cinv s →
  cur s = Some g ∧ s' = upd g (written t) s ∧ Cinv s' ∧ ∃ l, links s !! g = Some l.
Proof.
  unfold write. destruct (cur s) as [g'|] eqn:Ec; [|done]. cbn. destruct (links s !! g') as [l|] eqn:El; [|done]. cbn.
  destruct (_ && _); [|done]. intros [= <- <-] H. split_and!; [done..| |by exists l].
  apply Cinv_upd; [|done]. intros ? _. split; [|done]. split_and!; try done. cbn. set_solver.
Qed.

(** Where the command goes next, when it waits for nothing there. *)
Lemma Cinv_goto x s : (∀ c n g seen, x ≠ Awaits c n g seen) → (∀ c n again e g, x ≠ XCloses c n again e (Some g)) →
  ¬ giving_up (exec s) → Cinv s → Cinv (goto x s).
Proof.
  intros Hx Hy Hn [Hr Hc Ho Hcl Hl Ha]. split; cbn; try done.
  - intros g [(c&n&a&e&E)|H]; [by apply Hy in E|]. apply Hcl. by right.
  - intros g Hg. destruct (Hl _ Hg) as [? Hg']. split; [done|]. intros Hi. by apply Hg' in Hi.
  - intros c n g seen E. by apply Hx in E.
Qed.

Lemma Cinv_finish c e s : ¬ giving_up (exec s) → Cinv s → Cinv (finish c e s).
Proof. intros Hn H. by destruct (Cinv_goto Idle s ltac:(done) ltac:(done) Hn H) as [Hr Hc Ho Hcl Hl Ha]. Qed.

(** [drop] takes the connection, whoever calls it. *)
Lemma Cinv_forget s : Cinv s → Cinv (set_conn None s).
Proof.
  intros [Hr Hc Ho Hcl Hl Ha]. split; cbn; try done.
  - intros g Hg. by destruct (Hcl g Hg).
  - intros g Hg. by destruct (Hl g Hg).
Qed.

Lemma links_connected acts s i l : links (connected acts s) !! i = Some l →
  links s !! i = Some l ∨ (i = length (links s) ∧ l = fresh_link acts).
Proof. cbn. intros [?|[? ?]]%lookup_app_Some; [by left|right]. apply list_lookup_singleton_Some in H0 as [??]. split; [lia|done]. Qed.

Lemma Cinv_connected acts s : (∀ c n g seen, exec s ≠ Awaits c n g seen) → Cinv s → Cinv (connected acts s).
Proof.
  intros Hx [Hr Hc Ho Hcl Hl Ha]. split; try rewrite !(length_app (links s)); cbn [cur resp links late exec connected length].
  - intros g [= <-]. rewrite length_app. cbn. lia.
  - done.
  - intros g l [= <-] [E|[_ ->]]%links_connected; [|done]. apply lookup_lt_Some in E. lia.
  - intros g Hg. assert (g < length (links s))%nat as Hlt.
    { destruct Hg as [H|(j&l&[E|[_ ->]]%links_connected&Hj)]; [|apply Hcl; right; by exists j, l|done]. apply Hcl. by left. }
    rewrite length_app. cbn. split; [lia|]. intros [= E]. lia.
  - intros g Hg. destruct (Hl _ Hg) as [Hlt _]. rewrite length_app. split; [cbn; lia|]. intros [= E]. lia.
  - intros c n g seen E. by apply Hx in E.
Qed.

Ltac calm Ex := apply Cinv_goto; [done..|by rewrite Ex; intros []|done].

(** The command waits on the connection held. *)
Lemma Cinv_await c n g seen s : resp s = Some g → g ∉ late s →
  (∃ l earlier, links s !! g = Some l ∧ taken l = earlier ++ seen ∧ text c +:+ nl ∈ wrote l) →
  ¬ giving_up (exec s) → Cinv s → Cinv (goto (Awaits c n g seen) s).
Proof.
  intros Hres Hlate Hl0 Hn [Hr Hc Ho Hcl Hl Ha]. split; cbn; try done.
  - intros i [(?&?&?&?&E)|H]; [done|]. apply Hcl. by right.
  - intros i Hi. destruct (Hl _ Hi) as [? Hg]. split; [done|]. intros Hi'. by apply Hg in Hi'.
  - by intros ? ? ? ? [= <- <- <- <-].
Qed.

Lemma Cinv_take c n g seen s s' : exec s = Awaits c n g seen → take_step c n g seen s = Some s' → Cinv s → Cinv s'.
Proof.
  intros Ex E H. destruct (ci_await _ H _ _ _ _ Ex) as (Hres&Hlate&l&earlier&El&Ht&Hw).
  unfold take_step in E. rewrite El in E. cbn [mbind option_bind] in E. destruct (chan l) as [|x rest]; [done|]. injection E as <-.
  assert (Cinv (upd g (take_line rest x) (goto Idle s))) as H0.
  { apply Cinv_upd; [|apply Cinv_goto; [done..|by rewrite Ex; intros []|done]]. intros ? _. split; [done|]. by intros (?&?&?&?). }
  destruct (parse c (seen ++ [x])) as [e|]; [by destruct H0; split|].
  apply (Cinv_await c n g (seen ++ [x])) in H0; [done..| |by intros []]. rewrite links_upd. cbn [goto links]. rewrite El.
  destruct (decide (g = g)); [|done]. exists (take_line rest x l), earlier. split_and!; [done| |done]. cbn. by rewrite Ht, app_assoc.
Qed.

Lemma Cinv_late g s : Cinv s → g ∈ late s → cur s = Some g → giving_up (exec s).
Proof. intros H Hg. by destruct (ci_late _ H g Hg). Qed.

Lemma Cinv_held g s : Cinv s → cur s = Some g → (g < length (links s))%nat.
Proof. intros H Hg. apply (ci_cur _ H), (ci_resp _ H) in Hg. lia. Qed.

Lemma Cinv_write_step c n ok s s' : exec s = Writes c n → exec_step (Write ok) s = Some s' → Cinv s → Cinv s'.
Proof.
  intros Ex E H. unfold exec_step in E. rewrite Ex in E. destruct (write _ _ _) as [[g s1]|] eqn:Ew.
  - destruct (Cinv_write _ _ _ _ _ Ew H) as (Hg&->&H1&l&El). cbn [resp upd] in E. rewrite (ci_cur _ H g Hg) in E. injection E as <-.
    apply Cinv_await; [by apply (ci_cur _ H)| | |by cbn; rewrite Ex; intros []|done].
    + intros Hl. apply (Cinv_late g s H) in Hl; [by rewrite Ex in Hl|done].
    + rewrite links_upd, El. destruct (decide (g = g)); [|done]. exists (written (text c +:+ nl) l), (taken l). cbn.
      split_and!; [done|by rewrite app_nil_r|]. apply elem_of_app. right. by left.
  - injection E as <-. calm Ex.
Qed.

Lemma Cinv_timeout c n g seen s : exec s = Awaits c n g seen → Cinv s →
  Cinv (mkSt (links s) (cur s) (resp s) (XForgets c n true timed_out) (g :: late s) (ended s)).
Proof.
  intros Ex [Hr Hc Ho Hcl Hl Ha]. destruct (Ha _ _ _ _ Ex) as (Hres&_). split; cbn; try done.
  - intros i [(?&?&?&?&E)|Hi]; [done|]. apply Hcl. by right.
  - intros i [->|Hi]%elem_of_cons; split; try done; [apply Hr in Hres; lia|by destruct (Hl _ Hi)].
Qed.

Lemma Cinv_xforget c n again e s : Cinv s → Cinv (goto (XCloses c n again e (cur s)) (set_conn None s)).
Proof.
  intros H. pose proof (Cinv_forget s H) as [Hr Hc Ho Hcl Hl Ha]. split; cbn; try done.
  - intros i [(c'&n'&a'&e'&E)|Hi]; [|apply Hcl; by right]. cbn in E. injection E as _ _ _ _ E.
    split; [by apply Cinv_held|done].
  - intros i Hi. by destruct (Hl _ Hi).
Qed.

Lemma Cinv_exec lb s s' : exec_step lb s = Some s' → Cinv s → Cinv s'.
Proof.
  intros E H. pose proof E as E'. unfold exec_step in E.
  destruct (exec s) as [|c [|n] err|c n|c n|c n g seen|c n again e|c n again e g] eqn:Ex, lb; try done;
    try (by eapply Cinv_write_step); try (by eapply Cinv_take); try (injection E as <-).
  - calm Ex.
  - destruct (cur s) eqn:Ec; [done|]. by apply Cinv_connected; [rewrite Ex|].
  - apply Cinv_finish; [by rewrite Ex; intros []|done].
  - by apply Cinv_goto; [destruct (cur s)..|rewrite Ex; intros []|].
  - apply Cinv_goto; [done..|by cbn; rewrite Ex; intros []|]. by apply Cinv_connected; [rewrite Ex|].
  - calm Ex.
  - destruct (links s !! g); [|done]. cbn in E. destruct (chan _); [|done]. destruct (chan_closed _); [|done]. injection E as <-.
    calm Ex.
  - by eapply Cinv_timeout.
  - by apply Cinv_xforget.
  - apply Cinv_goto; [by destruct again..|by destruct g; cbn; rewrite Ex; intros []|]. apply Cinv_close; [|done].
    intros i ->. apply (ci_closing _ H). left. by exists c, n, again, e.
Qed.

(** A reader's step on its own link, or openvpn's. *)
Lemma Cinv_here g l f s : links s !! g = Some l → same_view l (f l) → taken (f l) = taken l → Cinv s → Cinv (upd g f s).
Proof. intros Hg Hv Ht H. apply Cinv_upd; [|done]. intros l' Hl'. rewrite Hg in Hl'. by injection Hl' as <-. Qed.

Ltac same := unfold same_view; split_and!; cbn; try done; congruence.
Ltac here g l := apply (Cinv_here g l); [done|same|done|done].

Lemma Cinv_rforget g l s : links s !! g = Some l → reader l = Forgets → Cinv s →
  Cinv (upd g (with_reader (Closes (cur s))) (set_conn None s)).
Proof.
  intros Hg Hr H. pose proof (Cinv_forget s H) as [Hr' Hc' Ho' Hcl' Hl' Ha']. split; rewrite ?length_upd; try done.
  - intros i [Hx|(j&l'&[(->&l0&E&->)|[_ E]]%links_upd_inv&Hj)]; [apply Hcl'; by left| |apply Hcl'; right; by exists j, l'].
    cbn in Hj. injection Hj as Hj. split; [exact (Cinv_held _ _ H Hj)|done].
  - intros c n i seen Hi. destruct (Ha' _ _ _ _ Hi) as (?&?&l'&earlier&E&Ht&Hw). split_and!; [done..|].
    rewrite links_upd, E. destruct (decide (g = i)) as [->|]; cbn; eauto.
Qed.

Lemma Cinv_read g ok l s s' : links s !! g = Some l → reader l = Reads → read_step g ok l s = Some s' → Cinv s → Cinv s'.
Proof.
  intros Hg Hr E H. unfold read_step in E. destruct (wire l) as [|a rest]; [done|].
  destruct a; injection E as <-; try (here g l).
  destruct (write _ _ _) as [[g' s1]|] eqn:Ew; [|here g l].
  destruct (Cinv_write _ _ _ _ _ Ew) as (_&_&?&_); [here g l|done].
Qed.

Lemma Cinv_reader lb g l s s' : links s !! g = Some l → reader_step lb g l s = Some s' → Cinv s → Cinv s'.
Proof.
  intros Hg E H. unfold reader_step in E. destruct (reader l) as [|raw| |g'| |] eqn:Er, lb; try done; try (injection E as <-).
  - by eapply Cinv_read.
  - destruct (_ || _); [|done]. injection E as <-. here g l.
  - destruct (_ <? _)%nat; [|done]. injection E as <-. here g l.
  - here g l.
  - by eapply Cinv_rforget.
  - apply Cinv_close; [|here g l]. intros i ->. apply (ci_closing _ H). right. by exists g, l.
  - here g l.
Qed.

Lemma Cinv_step s s' : Cinv s → step s s' → Cinv s'.
Proof.
  intros H [lb E]. destruct lb; cbn in E; try (by eapply Cinv_exec);
    try (by injection E as <-; apply Cinv_upd; [|done]; intros l ?; split; [same|done]);
    destruct (links s !! g) as [l|] eqn:Hg; try done; cbn in E; try (by eapply Cinv_reader).
  - unfold late_step in E. destruct (bool_decide_reflect (g ∈ late s)); [|done].
    destruct (chan l) as [|x rest]; [done|]. injection E as <-. apply Cinv_upd; [|done]. intros l' _. split; [done|].
    intros (c&n&seen&Ex). by destruct (ci_await _ H _ _ _ _ Ex) as (_&?&_).
  - destruct (hung l); [done|]. injection E as <-. here g l.
Qed.

Lemma Reachable_Cinv s : Reachable s → Cinv s.
Proof.
  apply reachable_invariant; [|apply Cinv_step]. intros s0 <-. split; cbn; try done.
  - intros g [(?&?&?&?&?)|(?&?&?&?)]; done.
  - by intros g ?%not_elem_of_nil.
Qed.

(** ** What a command reads *)

(** C39: Whatever the goroutines do, a command in progress reads the replies of the
    connection it was written on, the newest one, in order, each once, none of
    another connection's; what the parsers of earlier commands and of attempts
    given up on took there comes before. Among these replies are openvpn's
    answers to the reader's own client-auth lines ([auth_reply_taken]). The
    reader keeps eight replies at most for a command, and one is lost only
    when the reader's wait to hand it on has timed out. *)
Theorem command_reads_its_own s c n g seen (Hs : Reachable s) (Ha : exec s = Awaits c n g seen) :
  S g = length (links s) ∧ ∃ l earlier, links s !! g = Some l ∧ text c +:+ nl ∈ wrote l ∧
    earlier ++ seen ++ chan l ++ offering (reader l) `sublist_of` heard l ∧
    (lost l = 0%nat → heard l = earlier ++ seen ++ chan l ++ offering (reader l)) ∧ (length (chan l) ≤ 8)%nat.
Proof.
  pose proof (Reachable_Cinv s Hs) as H. destruct (ci_await _ H _ _ _ _ Ha) as (Hr&_&l&earlier&El&Ht&Hw).
  split; [by apply (ci_resp _ H)|]. exists l, earlier.
  destruct (Forall_lookup_1 _ _ _ _ (Reachable_Links s Hs) El) as [Ho Hc Hk _]. rewrite Ht, <-app_assoc in Ho, Hc.
  split_and!; [done..| |done]. intros H0. symmetry. apply sublist_full; [done|]. lia.
Qed.

(** Every command returns: what is left of [exec] needs no one else. *)
Definition own (lb : label) : Prop :=
  match lb with Attempt | DialFails _ | Write _ | TimesOut | XForget | XClose => True | _ => False end.

Definition left_steps (x : xpc) : nat :=
  match x with
  | Idle => 0
  | Tries _ n _ => 7 * n + 1
  | Dials _ n | Writes _ n => 7 * n + 7
  | Awaits _ n _ _ => 7 * n + 6
  | XForgets _ n again _ => 7 * n + (if again then 5 else 3)
  | XCloses _ n again _ _ => 7 * n + (if again then 4 else 2)
  end.

Lemma own_step s : exec s ≠ Idle → ∃ lb s', own lb ∧ fire lb s = Some s' ∧ (left_steps (exec s') < left_steps (exec s))%nat.
Proof.
  intros H. destruct (exec s) as [|c [|n] err|c n|c n|c n g seen|c n again e|c n again e g] eqn:E; [done|..].
  - exists Attempt. eexists. cbn. unfold exec_step. rewrite E. split_and!; [done..|cbn; lia].
  - exists Attempt. eexists. cbn -[Nat.mul]. unfold exec_step. rewrite E. split_and!; [done..|]. destruct (cur s); cbn -[Nat.mul]; lia.
  - exists (DialFails not_connected). eexists. cbn. unfold exec_step. rewrite E. split_and!; [done..|cbn; lia].
  - exists (Write false). eexists. cbn. unfold exec_step. rewrite E. split; [done|].
    assert (write false (text c +:+ nl) s = None) as ->.
    { unfold write. destruct (cur s) as [g|]; [cbn|done]. by destruct (links s !! g). }
    split; [done|cbn; lia].
  - exists TimesOut. eexists. cbn. unfold exec_step. rewrite E. split_and!; [done..|cbn; lia].
  - exists XForget. eexists. cbn. unfold exec_step. rewrite E. split_and!; [done..|cbn; destruct again; lia].
  - exists XClose. eexists. cbn. unfold exec_step. rewrite E. split_and!; [done..|]. destruct again; cbn; lia.
Qed.

Theorem command_returns s :
  ∃ ls s', Forall own ls ∧ (length ls ≤ left_steps (exec s))%nat ∧ run ls s = Some s' ∧ exec s' = Idle.
Proof.
  remember (left_steps (exec s)) as n eqn:En. revert s En. induction n as [n IH] using lt_wf_ind. intros s ->.
  assert (exec s = Idle ∨ exec s ≠ Idle) as [E|E] by (destruct (exec s); [by left|by right..]).
  - exists [], s. split_and!; [done|cbn; lia|done..].
  - destruct (own_step s E) as (lb&s1&Ho&Hf&Hlt). destruct (IH _ Hlt s1 eq_refl) as (ls&s'&Hos&Hlen&Hrun&Hi).
    exists (lb :: ls), s'. split_and!; [by constructor|cbn; lia| |done]. cbn. by rewrite Hf.
Qed.

(** ** Concrete runs *)

Lemma run_reachable ls s s' : Reachable s → run ls s = Some s' → Reachable s'.
Proof.
  revert s. induction ls as [|lb ls IH]; intros s Hs; cbn; [by intros [= <-]|].
  destruct (fire lb s) as [s1|] eqn:E; [|done]. apply IH. eapply reachable_step; [done|]. by exists lb.
Qed.
Definition after (ls : list label) : St := default NewClient (run ls NewClient).
Lemma after_reachable ls : run ls NewClient = Some (after ls) → Reachable (after ls).
Proof. apply run_reachable. exists NewClient. split; [done|constructor]. Qed.

Definition auth_reply : string := "SUCCESS: client-auth command succeeded".
Definition kill : command := simple "client-kill 5 HALT".
(** A client is let in, and openvpn answers the reader's own reply to it. *)
Definition lets_in : list label :=
  [Arrives 0 (mgmt.AWrite ("client-auth-nt 5 1" +:+ nl)); RRead 0 true; Arrives 0 (mgmt.AReply auth_reply); RRead 0 true].
Definition asks : list label :=
  [Connects []; Call status3; Attempt; Write true; Arrives 0 (mgmt.AReply "END"); RRead 0 true; ROffer 0].

Lemma command_reads_its_own_witness : ∃ l earlier, links (after asks) !! 0%nat = Some l ∧ "status 3" +:+ nl ∈ wrote l ∧
  earlier ++ [] ++ chan l ++ offering (reader l) `sublist_of` heard l ∧ chan l = ["END"].
Proof.
  assert (Reachable (after asks)) as Hs by (apply after_reachable; vm_compute; reflexivity).
  destruct (command_reads_its_own (after asks) status3 1 0 [] Hs) as (_&l&earlier&El&Hw&Ho&_); [vm_compute; reflexivity|].
  exists l, earlier. split; [exact El|]. split; [exact Hw|]. split; [exact Ho|]. vm_compute in El. injection El as <-. reflexivity.
Defined.

(** A reader that finds its connection closed drops whatever is held by then:
    after a timeout, the connection dialled for the second attempt, which
    openvpn was serving. *)
Definition retries : list label :=
  [Call kill; Attempt; Dial []; Write true; TimesOut; XForget; XClose; XForget; XClose; Attempt; Dial []; Write true;
   RFails 0; RForget 0; RClose 0; RFails 1; RForget 1; RClose 1; RLeave 1; Ends; XForget; XClose; Attempt].

Example stale_reader_drops : Reachable (after retries) ∧ ended (after retries) = [("client-kill 5 HALT", Some (Sentinel ErrEOF))] ∧
  ((λ l, (hung l, shut l, wrote l)) <$> links (after retries) !! 1%nat) = Some (false, true, ["client-kill 5 HALT" +:+ nl]).
Proof. split; [apply after_reachable|]; vm_compute; [reflexivity|split; reflexivity]. Qed.

(** openvpn's answer to a client-auth is no command's, but waits for one: the
    next takes it for its own. *)
Example auth_reply_taken :
  let s := after ([Connects []] ++ lets_in ++ [ROffer 0; Call kill; Attempt; Write true; Take]) in
  Reachable s ∧ ended s = [("client-kill 5 HALT", None)] ∧ heard <$> links s !! 0%nat = Some [auth_reply].
Proof. split; [apply after_reachable|]; vm_compute; [reflexivity|split; reflexivity]. Qed.

(** With no command to take them, eight such answers fill the channel; the
    reader then waits with the ninth, and with it whatever openvpn says next,
    until it gives up on the answer. *)
Example reader_waits :
  let s := after ([Connects []] ++ mjoin (replicate 8 (lets_in ++ [ROffer 0])) ++ lets_in ++
    [Arrives 0 (mgmt.AEstablished "9" "bob" "10.8.0.9" ∅)]) in
  Reachable s ∧ (length ∘ wire <$> links s !! 0%nat) = Some 1%nat ∧
  ∀ lb, (lb = ROffer 0 ∨ lb = RFails 0 ∨ ∃ ok, lb = RRead 0 ok) → fire lb s = None.
Proof.
  split; [apply after_reachable; vm_compute; reflexivity|]. split; [vm_compute; reflexivity|].
  intros lb [->|[->|[ok ->]]]; vm_compute; reflexivity.
Qed.
End mgmtconn.
