(* ===== verification/Control.v ===== *)
(** * Control: the control socket (src/internal/controller/control.go)

    The lifecycle dispatcher [RunOp], the server side of the control socket
    and the client side of each request, composed into one exchange. The
    operations a serve process is given (workers, management client,
    upstream hooks, poller) are a record of operations over its state, any
    of which may panic; [encoding/json] of the reply types is an interface. *)

From Stdlib Require Import Ascii.
From Stdlib Require Import DecimalString DecimalZ DecimalPos.
From S2P Require Import Prelude GoStr GoErr Names Mgmt.
Import mgmt.

Module control.

(** ** Data *)

Record TelegramStatus := mkTelegramStatus {
  tg_Running : bool; tg_TokenSet : bool; tg_Admin : string; tg_ChatLinked : bool; tg_Changed : bool }.

Record ControlResult := mkControlResult {
  cr_Pid : Z; cr_Changed : bool; cr_StartedAt : Z; cr_ServeStartedAt : Z }.

(** A computation of the serve process: its state after it, and a result, or
    [None] when it panicked. *)
Definition P (D A : Type) : Type := D → D * option A.

#[export] Instance P_ret {D} : MRet (P D) := λ _ a d, (d, Some a).
#[export] Instance P_bind {D} : MBind (P D) := λ _ _ f m d,
  match m d with (d', Some a) => f a d' | (d', None) => (d', None) end.

(** [Lifecycle]: a worker's operations over the state it lives in. *)
Record Lifecycle (D : Type) := mkLifecycle {
  lc_Start : P D (option goerr); lc_Stop : P D (option goerr);
  lc_Restart : P D (option goerr); lc_Reconnect : P D (option goerr);
  lc_Pid : P D Z; lc_StartedAt : P D Z }.
Arguments lc_Start {D}. Arguments lc_Stop {D}. Arguments lc_Restart {D}.
Arguments lc_Reconnect {D}. Arguments lc_Pid {D}. Arguments lc_StartedAt {D}.

Record TelegramController (D : Type) := mkTelegramController {
  tc_Start : P D (option goerr); tc_Stop : P D (option goerr); tc_Restart : P D (option goerr);
  tc_Status : P D TelegramStatus }.
Arguments tc_Start {D}. Arguments tc_Stop {D}. Arguments tc_Restart {D}. Arguments tc_Status {D}.

(** ** Lifecycle operations *)

Definition lift_op {D} (m : P D (option goerr)) : P D (result unit) :=
  e ← m; mret (of_error e).

(** The verb's operation, or [None] for an unknown one. *)
Definition lifecycle_verb {D} (target : Lifecycle D) (verb : string) (canReconnect : bool)
    : option (P D (result unit)) :=
  if String.eqb verb "status" then Some (mret (Ok tt))
  else if String.eqb verb "start" then Some (lift_op (lc_Start target))
  else if String.eqb verb "stop" then Some (lift_op (lc_Stop target))
  else if String.eqb verb "restart" then Some (lift_op (lc_Restart target))
  else if String.eqb verb "reconnect" then
    if canReconnect then Some (lift_op (lc_Reconnect target)) else None
  else None.

Definition starts (verb : string) : bool := String.eqb verb "start" || String.eqb verb "restart".

Definition RunOp {D} (processStartedAt : Z) (target : Lifecycle D) (verb : string)
    (canReconnect : bool) (afterStart : option (P D (option goerr))) : P D (result ControlResult) :=
  before ← lc_Pid target;
  match lifecycle_verb target verb canReconnect with
  | None => mret (Err (Sentinel ErrUnknownOp))
  | Some m =>
      r ← m;
      match r with
      | Err e => mret (Err e)
      | Ok _ =>
          after ← (match afterStart with
                   | Some f => if starts verb then f else mret None
                   | None => mret None
                   end);
          match after with
          | Some e => mret (Err (Wrapf "upstream reapply: %w" [] e))
          | None =>
              pid ← lc_Pid target;
              started ← (if pid =? 0 then mret zero_time else lc_StartedAt target);
              mret (Ok (mkControlResult pid (negb (pid =? before)) started processStartedAt))
          end
      end
  end.

Definition telegram_verb {D} (t : TelegramController D) (verb : string) : P D (option goerr) :=
  if String.eqb verb "status" then mret None
  else if String.eqb verb "start" then tc_Start t
  else if String.eqb verb "stop" then tc_Stop t
  else if String.eqb verb "restart" then tc_Restart t
  else mret (Some (Sentinel ErrUnknownOp)).

Definition RunTelegramOp {D} (t : TelegramController D) (verb : string) : P D (result TelegramStatus) :=
  before ← tc_Status t;
  e ← telegram_verb t verb;
  match e with
  | Some e => mret (Err e)
  | None =>
      st ← tc_Status t;
      mret (Ok (mkTelegramStatus (tg_Running st) (tg_TokenSet st) (tg_Admin st) (tg_ChatLinked st)
                                 (negb (eqb (tg_Running st) (tg_Running before)))))
  end.

(** ** The server *)

Record ControlDeps (D : Type) := mkDeps {
  VPN : Lifecycle D; DNS : Lifecycle D;
  mgmt_Kill : string → string → P D (Z * option goerr);
  mgmt_Status : P D (result (list VPNClient));
  set_debug : bool → P D unit;
  Telegram : TelegramController D;
  UpstreamRewrite : string → P D (option goerr);
  UpstreamReapply : P D (option goerr);
  ProcessStartedAt : Z }.
Arguments VPN {D}. Arguments DNS {D}. Arguments mgmt_Kill {D}. Arguments mgmt_Status {D}.
Arguments set_debug {D}. Arguments Telegram {D}. Arguments UpstreamRewrite {D}.
Arguments UpstreamReapply {D}. Arguments ProcessStartedAt {D}.

(** [json.Marshal] and [json.Unmarshal] of a reply type: a value prints as
    one line without surrounding white space, and reads back. *)
Class Json (A : Type) := {
  marshal : A → string;
  unmarshal : string → option A;
  marshal_line : ∀ a, line_safe (marshal a) = true;
  marshal_ne : ∀ a, marshal a ≠ "";
  unmarshal_marshal : ∀ a, unmarshal (marshal a) = Some a }.

Definition err_line (e : goerr) : string := "ERR " +:+ Error e +:+ nl.

Definition replyOK (e : option goerr) : string :=
  match e with Some e => err_line e | None => "OK" +:+ nl end.

Definition replyJSON {A} `{Json A} (r : result A) : string :=
  match r with Err e => err_line e | Ok v => "OK " +:+ marshal v +:+ nl end.

Section Exchange.
  Context {D : Type} `{Json ControlResult} `{Json TelegramStatus} `{Json (list VPNClient)}.
  Context (d : ControlDeps D).

(** The dispatch on the trimmed request, to the reply. *)
Definition dispatch (op : string) : P D string :=
  match cut_prefix "kill " op with
  | Some arg =>
      let '(msg, cn, _) := cut " " arg in
      '(n, e) ← mgmt_Kill d cn msg;
      mret (match e with Some e => replyOK (Some e) | None => "OK " +:+ itoa n +:+ nl end)
  | None =>
  if String.eqb op "clients" then r ← mgmt_Status d; mret (replyJSON r) else
  match cut_prefix "upstream-assign " op with
  | Some cn => e ← UpstreamRewrite d cn; mret (replyOK e)
  | None =>
  if String.eqb op "upstream-reapply" then e ← UpstreamReapply d; mret (replyOK e) else
  match cut_prefix "telegram-" op with
  | Some verb => r ← RunTelegramOp (Telegram d) verb; mret (replyJSON r)
  | None =>
  if String.eqb op "debug on" then set_debug d true ;; mret (replyOK None)
  else if String.eqb op "debug off" then set_debug d false ;; mret (replyOK None)
  else
  match cut_prefix "dns-" op with
  | Some verb => r ← RunOp (ProcessStartedAt d) (DNS d) verb false None; mret (replyJSON r)
  | None =>
      r ← RunOp (ProcessStartedAt d) (VPN d) op true (Some (UpstreamReapply d)); mret (replyJSON r)
  end end end end.

(** [serveControlConn]: what the peer sent to what it is answered. A request
    without its newline gets nothing; a panic is caught. *)
Definition serveControlConn (input : string) (s : D) : D * string :=
  match complete_lines input with
  | [] => (s, "")
  | line :: _ =>
      match dispatch (trim_space line) s with
      | (s', Some reply) => (s', reply)
      | (s', None) => (s', "ERR internal error" +:+ nl)
      end
  end.

(** ** The client *)

(** [resp, _ := ReadString('\n')]: the error is dropped, the text kept. *)
Definition first_line (s : string) : string := (cut LF s).1.1.

Definition parse_response (reply : string) : result string :=
  let resp := trim_space (first_line reply) in
  if has_prefix "ERR " resp then Err (Errorf "%s" [trim_prefix "ERR " resp])
  else match cut_prefix "OK" resp with
       | None => Err (Errorf "controller: unexpected control response %q" [resp])
       | Some payload => Ok (trim_space payload)
       end.

(** [controlRequest] against a running serve; [None] is one not running. The
    socket carries both lines: an exchange that passes its deadline, or whose
    connection breaks on the way, ends in an error with the operation run or
    not, and is left out. *)
Definition controlRequest (sockPath op : string) (s : option D) : option D * result string :=
  match s with
  | None => (None, Err (Wrapf "controller: %w at %s: dial" [sockPath] (Sentinel ErrServeDown)))
  | Some s =>
      let '(s', reply) := serveControlConn (op +:+ nl) s in (Some s', parse_response reply)
  end.

Definition decode {A} `{Json A} (e : string → goerr) (payload : string) : result A :=
  match unmarshal payload with Some a => Ok a | None => Err (e payload) end.

Definition Control (sockPath op : string) (s : option D) : option D * result ControlResult :=
  let '(s', r) := controlRequest sockPath op s in
  (s', p ← r; decode (λ p, Errorf "controller: unexpected control response %q" [p]) p).

Definition Clients (sockPath : string) (s : option D) : option D * result (list VPNClient) :=
  let '(s', r) := controlRequest sockPath "clients" s in
  (s', p ← r; decode (λ p, Wrapf "controller: bad clients response: %w" [] (ExternalErr "json")) p).

Definition ClientKill (sockPath cn msg : string) (s : option D) : option D * result Z :=
  let '(s', r) := controlRequest sockPath ("kill " +:+ msg +:+ " " +:+ cn) s in
  (s', p ← r; match atoi p with Some n => Ok n | None => Err (ExternalErr "strconv.Atoi") end).

Definition UpstreamAssign (sockPath cn : string) (s : option D) : option D * result unit :=
  let '(s', r) := controlRequest sockPath ("upstream-assign " +:+ cn) s in (s', _ ← r; Ok tt).

Definition ClientReapply (sockPath : string) (s : option D) : option D * result unit :=
  let '(s', r) := controlRequest sockPath "upstream-reapply" s in (s', _ ← r; Ok tt).

Definition Debug (sockPath : string) (on : bool) (s : option D) : option D * result unit :=
  let '(s', r) := controlRequest sockPath (if on then "debug on" else "debug off") s in (s', _ ← r; Ok tt).

Definition TelegramOp (sockPath verb : string) (s : option D) : option D * result TelegramStatus :=
  let '(s', r) := controlRequest sockPath ("telegram-" +:+ verb) s in
  (s', p ← r; decode (λ p, Wrapf "controller: bad %s response: %w" ["telegram-" +:+ verb] (ExternalErr "json")) p).

(** ** What a request means *)

Inductive request :=
  | RVPN (verb : string) | RDNS (verb : string) | RKill (cn msg : string) | RClients
  | RAssign (cn : string) | RReapply | RTelegram (verb : string) | RDebug (on : bool).

(** The text the client functions send for it. *)
Definition request_text (r : request) : string :=
  match r with
  | RVPN verb => verb
  | RDNS verb => "dns-" +:+ verb
  | RKill cn msg => "kill " +:+ msg +:+ " " +:+ cn
  | RClients => "clients"
  | RAssign cn => "upstream-assign " +:+ cn
  | RReapply => "upstream-reapply"
  | RTelegram verb => "telegram-" +:+ verb
  | RDebug on => if on then "debug on" else "debug off"
  end.

Definition none_ok (e : option goerr) : result string := match e with None => Ok "" | Some e => Err e end.

(** The operation it stands for, run directly: its payload or error. *)
Definition perform (r : request) : P D (result string) :=
  match r with
  | RVPN verb => x ← RunOp (ProcessStartedAt d) (VPN d) verb true (Some (UpstreamReapply d)); mret (marshal <$> x)
  | RDNS verb => x ← RunOp (ProcessStartedAt d) (DNS d) verb false None; mret (marshal <$> x)
  | RKill cn msg => '(n, e) ← mgmt_Kill d cn msg; mret (match e with Some e => Err e | None => Ok (itoa n) end)
  | RClients => x ← mgmt_Status d; mret (marshal <$> x)
  | RAssign cn => e ← UpstreamRewrite d cn; mret (none_ok e)
  | RReapply => e ← UpstreamReapply d; mret (none_ok e)
  | RTelegram verb => x ← RunTelegramOp (Telegram d) verb; mret (marshal <$> x)
  | RDebug on => set_debug d on ;; mret (Ok "")
  end.

Definition verbs : list string := ["status"; "start"; "stop"; "restart"; "reconnect"].

(** The requests the program makes: known verbs, checked names, and a kill
    message without a space. *)
Definition request_ok (r : request) : Prop :=
  match r with
  | RVPN verb | RDNS verb | RTelegram verb => verb ∈ verbs
  | RKill cn msg => nameRe cn = true ∧ s_forallb not_space msg = true
  | RAssign cn => nameRe cn = true
  | RClients | RReapply | RDebug _ => True
  end.

(** What the wire keeps of an error: the first line of its text, trimmed. *)
Definition wire_error (e : goerr) : result string := parse_response (err_line e).

(** ** The exchange, piece by piece *)

Definition reply_text (r : result string) : string :=
  match r with
  | Err e => err_line e
  | Ok p => if String.eqb p "" then "OK" +:+ nl else "OK " +:+ p +:+ nl
  end.

Lemma first_line_nl s t : no_char LF s = true → first_line (s +:+ nl +:+ t) = s.
Proof. intros Hs. unfold first_line, nl. sapp. by rewrite cut_found. Qed.

Lemma response_ok p : line_safe p = true → parse_response (reply_text (Ok p)) = Ok p.
Proof.
  intros [Ht Hl]%andb_true_iff. unfold reply_text.
  destruct (String.eqb_spec p "") as [->|Hp]; [done|].
  unfold parse_response.
  assert (first_line ("OK " +:+ p +:+ nl) = "OK" +:+ " " +:+ p) as ->.
  { assert (("OK " +:+ p +:+ nl) = ("OK " +:+ p) +:+ nl +:+ "") as ->.
    { by rewrite <-s_app_assoc. }
    apply first_line_nl. by rewrite !no_char_app, Hl. }
  rewrite trim_space_id by by apply tight_app.
  change (has_prefix "ERR " ("OK" +:+ " " +:+ p)) with false. cbn iota.
  rewrite cut_prefix_app. f_equal. by apply trim_space_lead.
Qed.

Lemma wire_error_safe e : line_safe (Error e) = true → Error e ≠ "" →
  wire_error e = Err (Errorf "%s" [Error e]).
Proof.
  intros [Ht Hl]%andb_true_iff Hne. unfold wire_error, parse_response, err_line.
  assert (first_line ("ERR " +:+ Error e +:+ nl) = "ERR" +:+ " " +:+ Error e) as ->.
  { assert (("ERR " +:+ Error e +:+ nl) = ("ERR " +:+ Error e) +:+ nl +:+ "") as ->.
    { by rewrite <-s_app_assoc. }
    apply first_line_nl. by rewrite !no_char_app, Hl. }
  rewrite trim_space_id by by apply tight_app.
  change ("ERR" +:+ " " +:+ Error e) with ("ERR " +:+ Error e).
  by rewrite has_prefix_app, trim_prefix_app.
Qed.

Lemma marshal_reply {A} `{Json A} (r : result A) : replyJSON r = reply_text (marshal <$> r).
Proof.
  destruct r as [v|e]; [|done]. simpl.
  by rewrite (proj2 (String.eqb_neq _ _) (marshal_ne v)).
Qed.

Lemma none_ok_reply e : replyOK e = reply_text (none_ok e).
Proof. by destruct e. Qed.

Definition payload_ok (r : result string) : Prop :=
  match r with Ok p => line_safe p = true | Err _ => True end.

Lemma P_bind_eq {A B} (m : P D A) (f : A → P D B) s :
  (m ≫= f) s = match m s with (s', Some a) => f a s' | (s', None) => (s', None) end.
Proof. done. Qed.

(** A handler's value goes out as the JSON reply, and a bare error as the OK
    reply; both payloads fit on a line. *)
Lemma reply_marshal {A} `{Json A} (m : P D (result A)) s :
  (x ← m; mret (replyJSON x) : P D string) s =
    (let '(s', x) := (x ← m; mret (marshal <$> x) : P D (result string)) s in (s', reply_text <$> x)) ∧
  (∀ s' x, (x ← m; mret (marshal <$> x) : P D (result string)) s = (s', Some x) → payload_ok x).
Proof.
  rewrite !P_bind_eq. destruct (m s) as [s1 [r1|]]; simpl; [|done].
  rewrite marshal_reply. split; [done|]. intros s' x [= <- <-].
  destruct r1; simpl; [apply marshal_line|done].
Qed.

Lemma reply_none_ok (m : P D (option goerr)) s :
  (e ← m; mret (replyOK e) : P D string) s =
    (let '(s', x) := (e ← m; mret (none_ok e) : P D (result string)) s in (s', reply_text <$> x)) ∧
  (∀ s' x, (e ← m; mret (none_ok e) : P D (result string)) s = (s', Some x) → payload_ok x).
Proof.
  rewrite !P_bind_eq. destruct (m s) as [s1 [e|]]; simpl; [|done].
  rewrite none_ok_reply. split; [done|]. intros s' x [= <- <-]. by destruct e.
Qed.

(** The server runs the operation a request stands for, and replies with it. *)
Lemma dispatch_perform r s : request_ok r →
  dispatch (request_text r) s =
    (let '(s', x) := perform r s in (s', reply_text <$> x)) ∧
  (∀ s' x, perform r s = (s', Some x) → payload_ok x).
Proof.
  intros Hr. destruct r as [verb|verb|cn msg| |cn| |verb|on]; cbn [request_ok request_text perform] in *.
  - unfold verbs in Hr. repeat (apply elem_of_cons in Hr as [->|Hr]; [apply reply_marshal|]). by apply elem_of_nil in Hr.
  - assert (dispatch ("dns-" +:+ verb) = (r ← RunOp (ProcessStartedAt d) (DNS d) verb false None; mret (replyJSON r))) as ->.
    { unfold verbs in Hr. repeat (apply elem_of_cons in Hr as [->|Hr]; [done|]). by apply elem_of_nil in Hr. }
    apply reply_marshal.
  - destruct Hr as [Hcn Hmsg]. unfold dispatch. rewrite (cut_prefix_app "kill ").
    change (" " +:+ cn) with (String " " cn).
    rewrite cut_found by (by apply (no_char_of_forallb not_space)).
    rewrite !P_bind_eq. destruct (mgmt_Kill d cn msg s) as [s1 [[n e]|]]; simpl; [|done].
    destruct e as [e|]; simpl.
    + split; [done|]. by intros s' x [= <- <-].
    + destruct (itoa_not_space n) as [Hn1 Hn2]. rewrite (proj2 (String.eqb_neq _ _) Hn2).
      split; [done|]. intros s' x [= <- <-]. by apply not_space_line_safe.
  - apply reply_marshal.
  - assert (dispatch ("upstream-assign " +:+ cn) = (e ← UpstreamRewrite d cn; mret (replyOK e))) as ->.
    { unfold dispatch. change (cut_prefix "kill " ("upstream-assign " +:+ cn)) with (@None string).
      change (String.eqb ("upstream-assign " +:+ cn) "clients") with false. cbn iota.
      by rewrite (cut_prefix_app "upstream-assign "). }
    apply reply_none_ok.
  - apply reply_none_ok.
  - assert (dispatch ("telegram-" +:+ verb) = (r ← RunTelegramOp (Telegram d) verb; mret (replyJSON r))) as ->.
    { unfold verbs in Hr. repeat (apply elem_of_cons in Hr as [->|Hr]; [done|]). by apply elem_of_nil in Hr. }
    apply reply_marshal.
  - assert (dispatch (if on then "debug on" else "debug off") = (set_debug d on;; mret (replyOK None))) as ->
      by by destruct on.
    rewrite !P_bind_eq. destruct (set_debug d on s) as [s1 [[]|]]; simpl; [|done].
    split; [done|]. by intros s' x [= <- <-].
Qed.

Lemma request_line r : request_ok r → tight (request_text r) = true ∧ no_char LF (request_text r) = true.
Proof.
  assert (∀ p x, x ≠ "" → s_forallb not_space x = true → p ≠ "" → tight p = true → no_char LF p = true →
    ∀ m, s_forallb is_ascii m = true → no_char LF m = true →
    tight (p +:+ m +:+ x) = true ∧ no_char LF (p +:+ m +:+ x) = true) as Happ.
  { intros p x Hx Hns Hp Htp Hlp m Hm Hlm. split.
    - apply tight_app; try done. by apply not_space_tight.
    - rewrite !no_char_app, Hlp, Hlm. by apply (no_char_of_forallb not_space). }
  intros Hr. destruct r as [verb|verb|cn msg| |cn| |verb|on]; cbn [request_ok request_text] in *.
  - unfold verbs in Hr. repeat (apply elem_of_cons in Hr as [->|Hr]; [done|]). by apply elem_of_nil in Hr.
  - unfold verbs in Hr. repeat (apply elem_of_cons in Hr as [->|Hr]; [done|]). by apply elem_of_nil in Hr.
  - destruct Hr as [Hcn Hmsg].
    replace ("kill " +:+ msg +:+ " " +:+ cn) with ("kill" +:+ (" " +:+ msg +:+ " ") +:+ cn)
      by by rewrite <-!s_app_assoc.
    apply Happ; try done.
    + by apply nameRe_ne.
    + by apply nameRe_not_space.
    + rewrite !s_forallb_app, (not_space_ascii _ Hmsg). done.
    + rewrite !no_char_app. by rewrite (no_char_of_forallb not_space LF msg).
  - done.
  - apply (Happ "upstream-assign" cn) with (m := " "); try done; [by apply nameRe_ne|by apply nameRe_not_space].
  - done.
  - unfold verbs in Hr. repeat (apply elem_of_cons in Hr as [->|Hr]; [done|]). by apply elem_of_nil in Hr.
  - by destruct on.
Qed.

(** * Claims *)

(** C27: the control socket is transparent: for every request the program
    makes, sending its text to a running serve runs exactly the operation it
    stands for, on the named worker with the given name and message, leaves
    serve in that operation's state, and returns its payload unchanged, its
    error as the first line of its text (the whole text when it is one line),
    and a panic as an error; without a running serve nothing happens and the
    error is [ErrServeDown]. This is of exchanges the socket carries within
    their deadline. *)
Theorem control_exchange sock r (Hr : request_ok r) :
  (∀ s, controlRequest sock (request_text r) (Some s) =
     let '(s', x) := perform r s in
     (Some s', match x with
               | Some (Ok p) => Ok p
               | Some (Err e) => wire_error e
               | None => Err (Errorf "%s" ["internal error"])
               end)) ∧
  (∀ e, line_safe (Error e) = true → Error e ≠ "" → wire_error e = Err (Errorf "%s" [Error e])) ∧
  (∃ e, controlRequest sock (request_text r) None = (None, Err e) ∧ errors_is e ErrServeDown = true).
Proof.
  split; [|split; [apply wire_error_safe|by eexists]].
  intros s. destruct (request_line r Hr) as [Ht Hl].
  unfold controlRequest, serveControlConn.
  assert (complete_lines (request_text r +:+ nl) = [request_text r]) as ->.
  { rewrite <-(s_app_nil_r nl), complete_lines_cons by done. done. }
  rewrite trim_space_id by done.
  destruct (dispatch_perform r s Hr) as [-> Hp].
  destruct (perform r s) as [s' [[p|e]|]]; simpl; [|done|done].
  f_equal. apply response_ok. exact (Hp s' (Ok p) eq_refl).
Qed.

End Exchange.

(** ** Witness: a serve that logs its operations *)

Module demo_control.

(** A codec for any countable type, through its numbering. *)
Definition number (s : string) : option positive :=
  match NilZero.int_of_string s with
  | Some i => match Z.of_int i with Zpos p => Some p | _ => None end
  | None => None
  end.

Lemma number_itoa p : number (itoa (Zpos p)) = Some p.
Proof.
  unfold number, itoa. rewrite NilZero.isi.
  - by rewrite DecimalZ.of_to.
  - simpl. intros [= E]. by apply DecimalPos.Unsigned.to_uint_nonnil in E.
  - done.
Qed.

Definition countable_json (A : Type) `{Countable A} : Json A.
Proof.
  refine {| marshal a := itoa (Zpos (countable.encode a));
            unmarshal s := number s ≫= countable.decode |}.
  - intros a. apply not_space_line_safe, itoa_not_space.
  - intros a. apply itoa_not_space.
  - intros a. rewrite number_itoa. simpl. apply decode_encode.
Defined.

#[export] Instance ControlResult_eq_dec : EqDecision ControlResult.
Proof. solve_decision. Defined.
#[export] Instance TelegramStatus_eq_dec : EqDecision TelegramStatus.
Proof. solve_decision. Defined.

#[export] Instance ControlResult_countable : Countable ControlResult.
Proof.
  refine (inj_countable' (λ r, (cr_Pid r, cr_Changed r, cr_StartedAt r, cr_ServeStartedAt r))
    (λ '(a, b, c, d), mkControlResult a b c d) _). by intros [].
Defined.
#[export] Instance TelegramStatus_countable : Countable TelegramStatus.
Proof.
  refine (inj_countable' (λ r, (tg_Running r, tg_TokenSet r, tg_Admin r, tg_ChatLinked r, tg_Changed r))
    (λ '(a, b, c, d, e), mkTelegramStatus a b c d e) _). by intros [].
Defined.
#[export] Instance VPNClient_countable : Countable VPNClient.
Proof.
  refine (inj_countable' (λ r, (CID r, CN r, RealAddress r, VirtualAddress r, BytesRecv r, BytesSent r,
                               ConnectedSince r, Cipher r))
    (λ '(a, b, c, d, e, f, g, h), mkVPNClient a b c d e f g h) _). by intros [].
Defined.

#[export] Instance json_result : Json ControlResult := countable_json ControlResult.
#[export] Instance json_telegram : Json TelegramStatus := countable_json TelegramStatus.
#[export] Instance json_clients : Json (list VPNClient) := countable_json (list VPNClient).

Definition logged {A} (what : string) (a : A) : P (list string) A := λ log, (log ++ [what], Some a).

Definition worker (name : string) : Lifecycle (list string) :=
  mkLifecycle _ (logged (name +:+ " start") None) (logged (name +:+ " stop") None)
    (logged (name +:+ " restart") (Some (Sentinel ErrBusy))) (λ log, (log, None))
    (mret 42) (mret 0).

Definition deps : ControlDeps (list string) :=
  mkDeps _ (worker "vpn") (worker "dns") (λ cn msg, logged ("kill " +:+ cn +:+ " " +:+ msg) (2, None))
    (mret (Ok [])) (λ _, logged "debug" tt)
    (mkTelegramController _ (mret None) (mret None) (mret None) (mret (mkTelegramStatus true true "" false false)))
    (λ cn, logged ("assign " +:+ cn) None) (logged "reapply" None) 0.

End demo_control.
Import demo_control.

Lemma control_exchange_witness :
  ClientKill deps "/run/ctrl" "alice" "HALT" (Some []) = (Some ["kill alice HALT"], Ok 2) ∧
  (Control deps "/run/ctrl" "restart" (Some [])).2 = Err (Errorf "%s" ["operation already in progress"]).
Proof.
  destruct (control_exchange deps "/run/ctrl" (RKill "alice" "HALT") (conj eq_refl eq_refl)) as [Hk _].
  destruct (control_exchange deps "/run/ctrl" (RVPN "restart") ltac:(apply (bool_decide_unpack _); by vm_compute))
    as (Hr&He&_).
  split.
  - unfold ClientKill.
    change ("kill " +:+ "HALT" +:+ " " +:+ "alice") with (request_text (RKill "alice" "HALT")).
    rewrite Hk. by vm_compute.
  - unfold Control. change "restart" with (request_text (RVPN "restart")) at 1.
    rewrite Hr. change (perform deps (RVPN "restart") []) with
      (["vpn restart"], Some (@Err string (Sentinel ErrBusy))).
    cbn [snd]. rewrite He by done. done.
Defined.

End control.
