(* ===== verification/Store.v ===== *)
(** * Store: the SQLite store — certificates, audit log, settings
    (internal/store/store.go, schema.sql)

    Tables are lists of rows in rowid order (maps where the primary key is the
    whole of the table's meaning); each SQL statement of the source is a
    function on them, with the constraints, unique indexes, foreign keys and
    triggers schema.sql declares. Every statement can also fail for a reason
    of its own (disk full, database locked): the store carries the sequence of
    such faults, and a failing statement changes nothing. A transaction that
    does not commit restores the tables. *)

From stdpp Require Import sorting.
From S2P Require Import Prelude GoStr Names.

Module store.

(** ** Tables *)

Record CertRow := mkCertRow {
  k_serial : string; k_cn : string; k_kind : string; k_pem : string;
  k_issued : Z; k_not_after : Z; k_revoked : option Z; k_dns : Z }.

Record UserRow := mkUserRow {
  u_id : Z; u_username : string; u_pass_hash : string; u_role : string;
  u_totp : option string; u_created : Z; u_disabled : Z }.

Record SessionRow := mkSessionRow { t_hash : string; t_user : Z; t_created : Z; t_expires : Z }.

Record AuditRow := mkAuditRow { a_id : Z; a_ts : Z; a_actor : string; a_action : string; a_detail : string }.

Record EndedRow := mkEndedRow {
  e_id : Z; e_cn : string; e_addr : string; e_connected : Z; e_disconnected : Z; e_recv : Z; e_sent : Z }.

Record Tables := mkTables {
  certs : list CertRow; users : list UserRow; sessions : list SessionRow; audit_log : list AuditRow;
  settings : gmap string string; client_samples : gmap (Z * string) (Z * Z); client_sessions : list EndedRow }.

Definition empty_tables : Tables := mkTables [] [] [] [] ∅ ∅ [].

Definition with_certs (t : Tables) (x : list CertRow) : Tables :=
  mkTables x (users t) (sessions t) (audit_log t) (settings t) (client_samples t) (client_sessions t).
Definition with_users (t : Tables) (x : list UserRow) : Tables :=
  mkTables (certs t) x (sessions t) (audit_log t) (settings t) (client_samples t) (client_sessions t).
Definition with_sessions (t : Tables) (x : list SessionRow) : Tables :=
  mkTables (certs t) (users t) x (audit_log t) (settings t) (client_samples t) (client_sessions t).
Definition with_audit (t : Tables) (x : list AuditRow) : Tables :=
  mkTables (certs t) (users t) (sessions t) x (settings t) (client_samples t) (client_sessions t).
Definition with_settings (t : Tables) (x : gmap string string) : Tables :=
  mkTables (certs t) (users t) (sessions t) (audit_log t) x (client_samples t) (client_sessions t).
Definition with_samples (t : Tables) (x : gmap (Z * string) (Z * Z)) : Tables :=
  mkTables (certs t) (users t) (sessions t) (audit_log t) (settings t) x (client_sessions t).
Definition with_ended (t : Tables) (x : list EndedRow) : Tables :=
  mkTables (certs t) (users t) (sessions t) (audit_log t) (settings t) (client_samples t) x.

(** ** The store and its statements *)

(** [totpKey] is fixed when the store opens; [hook] says whether [OnAudit]
    was called, [hooked] what the hook was run on. [faults] is what becomes of
    the coming statements, [clock] the time, [entropy] what [rand.Read] will
    deliver. *)
Record Store := mkStore {
  tables : Tables; totpKey : string; hook : bool; hooked : list (string * string * string);
  clock : Z; faults : list (option goerr); entropy : string }.

Definition set_tables (s : Store) (t : Tables) : Store :=
  mkStore t (totpKey s) (hook s) (hooked s) (clock s) (faults s) (entropy s).
Definition set_faults (s : Store) (f : list (option goerr)) : Store :=
  mkStore (tables s) (totpKey s) (hook s) (hooked s) (clock s) f (entropy s).
Definition set_hooked (s : Store) (h : list (string * string * string)) : Store :=
  mkStore (tables s) (totpKey s) (hook s) h (clock s) (faults s) (entropy s).
Definition set_entropy (s : Store) (e : string) : Store :=
  mkStore (tables s) (totpKey s) (hook s) (hooked s) (clock s) (faults s) e.

Definition M (A : Type) : Type := Store → Store * result A.

#[export] Instance M_ret : MRet M := λ _ a s, (s, Ok a).
#[export] Instance M_bind : MBind M := λ _ _ f m s,
  match m s with (s', Ok a) => f a s' | (s', Err e) => (s', Err e) end.

Definition fail {A} (e : goerr) : M A := λ s, (s, Err e).

(** [time.Now()]. *)
Definition now : M Z := λ s, (s, Ok (clock s)).

(** [rand.Read] of [n] bytes. *)
Definition rand_read (n : nat) : M string := λ s,
  if (n <=? slen (entropy s))%nat then (set_entropy s (s_drop n (entropy s)), Ok (s_take n (entropy s)))
  else (s, Err (ExternalErr "rand")).

(** One statement. *)
Definition exec {A} (f : Tables → result (Tables * A)) : M A := λ s,
  match faults s with
  | Some e :: fs => (set_faults s fs, Err e)
  | fs => let s' := set_faults s (tl fs) in
          match f (tables s) with
          | Ok (t, a) => (set_tables s' t, Ok a)
          | Err e => (s', Err e)
          end
  end.

Definition query {A} (f : Tables → result A) : M A := exec (λ t, a ← f t; Ok (t, a)).

(** [Begin … defer Rollback() … Commit]. *)
Definition transaction {A} (m : M A) : M A := λ s,
  match exec (λ t, Ok (t, tt)) s with
  | (s1, Err e) => (s1, Err e)
  | (s1, Ok _) =>
      match m s1 with
      | (s2, Err e) => (set_tables s2 (tables s), Err e)
      | (s2, Ok a) =>
          match exec (λ t, Ok (t, tt)) s2 with
          | (s3, Ok _) => (s3, Ok a)
          | (s3, Err e) => (set_tables s3 (tables s), Err e)
          end
      end
  end.

Definition constraint_unique : goerr := ExternalErr "SQLITE_CONSTRAINT_UNIQUE".
Definition constraint_primarykey : goerr := ExternalErr "SQLITE_CONSTRAINT_PRIMARYKEY".
Definition constraint_check : goerr := ExternalErr "SQLITE_CONSTRAINT_CHECK".
Definition constraint_foreignkey : goerr := ExternalErr "SQLITE_CONSTRAINT_FOREIGNKEY".

#[export] Instance option_string_eq_dec : EqDecision (option string) := _.

(** An INTEGER PRIMARY KEY left out of an INSERT: one more than the largest. *)
Definition next_id (ids : list Z) : Z := foldr Z.max 0 ids + 1.

(** ** Certificates *)

Record Cert := mkCert {
  Serial : string; CN : string; Kind : string; CertPEM : string;
  IssuedAt : Z; NotAfter : Z; RevokedAt : option Z; IncludeDNS : bool }.

Definition ExpiryWarnDays : Z := 30.

Definition Status (now : Z) (c : Cert) : string :=
  match RevokedAt c with
  | Some _ => "revoked"
  | None => if NotAfter c <? now then "expired"
            else if time_sub (NotAfter c) now <=? ExpiryWarnDays * 24 * hour then "expiring"
            else "valid"
  end.

Definition CertCounts (now : Z) (cs : list Cert) : Z * Z :=
  foldl (λ '(live, expiring) c,
    match RevokedAt c with
    | Some _ => (live, expiring)
    | None => (live + 1, if String.eqb (Status now c) "expiring" then expiring + 1 else expiring)
    end) (0, 0) cs.

Definition is_active (r : CertRow) : bool :=
  match k_revoked r with None => true | Some _ => false end.

(** The two partial unique indexes: rows that cannot stand side by side. *)
Definition clash_client (a b : CertRow) : bool :=
  String.eqb (k_kind a) "client" && is_active a && String.eqb (k_kind b) "client" && is_active b
  && String.eqb (k_cn a) (k_cn b).
Definition clash_server (a b : CertRow) : bool :=
  String.eqb (k_kind a) "server" && is_active a && String.eqb (k_kind b) "server" && is_active b.

(** [WHERE kind = ? AND (kind = 'server' OR cn = ?) AND revoked_at IS NULL] *)
Definition activeCert (kind cn : string) (r : CertRow) : bool :=
  String.eqb (k_kind r) kind && (String.eqb (k_kind r) "server" || String.eqb (k_cn r) cn) && is_active r.

Definition kind_ok (k : string) : bool := String.eqb k "server" || String.eqb k "client".

Definition boolInt (b : bool) : Z := if b then 1 else 0.

Definition certArgs (c : Cert) : CertRow :=
  mkCertRow (Serial c) (CN c) (Kind c) (CertPEM c) (unix (IssuedAt c)) (unix (NotAfter c)) None (boolInt (IncludeDNS c)).

(** The CHECK, then the indexes, the latest declared first. *)
Definition insertCert (r : CertRow) (t : Tables) : result (Tables * unit) :=
  if negb (kind_ok (k_kind r)) then Err constraint_check
  else if existsb (clash_server r) (certs t) || existsb (clash_client r) (certs t) then Err constraint_unique
  else if existsb (λ x, String.eqb (k_serial x) (k_serial r)) (certs t) then Err constraint_primarykey
  else Ok (with_certs t (certs t ++ [r]), tt).

Definition is_constraint_unique (e : goerr) : bool :=
  match e with ExternalErr w => String.eqb w "SQLITE_CONSTRAINT_UNIQUE" | _ => false end.

Definition dupCN (cn : string) (e : goerr) : goerr :=
  if is_constraint_unique e then Wrapf "store: %s: %w" [cn] (Sentinel ErrDuplicateCN) else e.

(** [return dupCN(cn, err)] on a failing statement. *)
Definition or_dupCN {A} (cn : string) (m : M A) : M A := λ s,
  match m s with (s', Err e) => (s', Err (dupCN cn e)) | r => r end.

Definition AddCert (c : Cert) : M unit := or_dupCN (CN c) (exec (insertCert (certArgs c))).

Definition RequireActiveCert (cn kind : string) : M unit :=
  n ← query (λ t, Ok (length (filter (λ r, activeCert kind cn r = true) (certs t))));
  if (n =? 0)%nat then fail (Wrapf "store: %s (%s): %w" [cn; kind] (Sentinel ErrNoActiveCert)) else mret tt.

Definition by_serial (serial : string) (r : CertRow) : bool := String.eqb (k_serial r) serial.

Definition active_client (serial : string) (r : CertRow) : bool :=
  by_serial serial r && String.eqb (k_kind r) "client" && is_active r.

Definition set_row_dns (d : Z) (r : CertRow) : CertRow :=
  mkCertRow (k_serial r) (k_cn r) (k_kind r) (k_pem r) (k_issued r) (k_not_after r) (k_revoked r) d.
Definition set_row_revoked (at' : Z) (r : CertRow) : CertRow :=
  mkCertRow (k_serial r) (k_cn r) (k_kind r) (k_pem r) (k_issued r) (k_not_after r) (Some at') (k_dns r).

(** [UPDATE … WHERE p]. *)
Definition update {A} (p : A → bool) (f : A → A) (l : list A) : list A :=
  (λ r, if p r then f r else r) <$> l.

Definition no_active_client (serial : string) : goerr :=
  Wrapf "store: client %s: %w" [serial] (Sentinel ErrNoActiveCert).

(** The CN, and whether anything changed. *)
Definition SetCertDNS (serial : string) (include : bool) : M (string * bool) :=
  row ← query (λ t, Ok (List.find (active_client serial) (certs t)));
  match row with
  | None => fail (no_active_client serial)
  | Some r =>
      if Bool.eqb (negb (k_dns r =? 0)) include then mret (k_cn r, false)
      else exec (λ t, Ok (with_certs t (update (by_serial serial) (set_row_dns (boolInt include)) (certs t)), tt)) ;;
           mret (k_cn r, true)
  end.

Definition retire (kind cn : string) (at' : Z) (t : Tables) : result (Tables * unit) :=
  Ok (with_certs t (update (activeCert kind cn) (set_row_revoked at') (certs t)), tt).

Definition ReplaceCert (c : Cert) : M unit :=
  transaction (
    t0 ← now;
    exec (retire (Kind c) (CN c) (unix t0)) ;;
    or_dupCN (CN c) (exec (insertCert (certArgs c)))).

Definition scanCert (r : CertRow) : Cert :=
  mkCert (k_serial r) (k_cn r) (k_kind r) (k_pem r) (k_issued r * second) (k_not_after r * second)
    ((λ x, x * second) <$> k_revoked r) (negb (k_dns r =? 0)).

Definition GetCert (serial : string) : M Cert :=
  query (λ t, match List.find (by_serial serial) (certs t) with
              | Some r => Ok (scanCert r) | None => Err (Sentinel ErrNoRows) end).

(** [ORDER BY issued_at DESC]. *)
Definition issued_desc (a b : CertRow) : Prop := k_issued b ≤ k_issued a.
#[export] Instance issued_desc_dec : RelDecision issued_desc := λ a b, decide (k_issued b ≤ k_issued a).

Definition ListCerts : M (list Cert) :=
  query (λ t, Ok (scanCert <$> merge_sort issued_desc (certs t))).

(** [CACert()] gives the CA's common name and expiry, when there is a CA. *)
Definition AllCerts (CACert : result (string * Z)) : M (list Cert) :=
  cs ← ListCerts;
  mret (match CACert with
        | Ok (cn, na) => cs ++ [mkCert "ca" cn "ca" "" zero_time na None false]
        | Err _ => cs
        end).

(** [UPDATE … RETURNING cn]: the first row returned, if any. *)
Definition Revoke (serial : string) (at' : Z) : M string :=
  row ← exec (λ t, Ok (with_certs t (update (active_client serial) (set_row_revoked (unix at')) (certs t)),
                       List.find (active_client serial) (certs t)));
  match row with
  | Some r => mret (k_cn r)
  | None => fail (no_active_client serial)
  end.

Definition RevokedCerts : M (list Cert) :=
  query (λ t, Ok (scanCert <$> filter (λ r, is_active r = false) (certs t))).

(** ** The audit log *)

Record AuditEntry := mkAuditEntry { ID : Z; TS : Z; Actor : string; Action : string; Detail : string }.

(** [s.auditHook(actor, action, detail)], when one is set. *)
Definition run_hook (actor action detail : string) : M unit := λ s,
  (if hook s then set_hooked s (hooked s ++ [(actor, action, detail)]) else s, Ok tt).

(** A call whose error the caller drops. *)
Definition ignore {A} (m : M A) : M unit := λ s, ((m s).1, Ok tt).

Definition Audit (actor action detail : string) : M unit :=
  t0 ← now;
  exec (λ t, Ok (with_audit t (audit_log t ++
    [mkAuditRow (next_id (a_id <$> audit_log t)) (unix t0) actor action detail]), tt)) ;;
  run_hook actor action detail.

Definition id_desc (a b : AuditRow) : Prop := a_id b ≤ a_id a.
#[export] Instance id_desc_dec : RelDecision id_desc := λ a b, decide (a_id b ≤ a_id a).

Definition limited {A} (limit : Z) (l : list A) : list A :=
  if limit <? 0 then l else take (Z.to_nat limit) l.

(** The entries [fn] is called on, in order. *)
Definition AuditEach (limit : Z) : M (list AuditEntry) :=
  query (λ t, Ok ((λ r, mkAuditEntry (a_id r) (a_ts r * second) (a_actor r) (a_action r) (a_detail r)) <$>
                  limited limit (merge_sort id_desc (audit_log t)))).

Definition AuditTail (limit : Z) : M (list AuditEntry) := AuditEach limit.

(** ** Settings *)

Definition GetSetting (key : string) : M string := query (λ t, Ok (default "" (settings t !! key))).

Definition SetSetting (key value : string) : M unit :=
  exec (λ t, Ok (with_settings t (<[key := value]> (settings t)), tt)).

(** [json.Marshal], and [json.Unmarshal] over a default. *)
Class JsonInto (A : Type) := {
  json_marshal : A → result string;
  json_unmarshal : string → A → result A }.

Definition LoadJSON {A} `{JsonInto A} (key : string) (def : A) : M A := λ s,
  let '(s', r) := GetSetting key s in
  let raw := match r with Ok raw => raw | Err _ => "" end in
  (s', Ok (if String.eqb raw "" then def
           else match json_unmarshal raw def with Ok cfg => cfg | Err _ => def end)).

Definition SaveJSON {A} `{JsonInto A} (key : string) (v : A) : M unit :=
  match json_marshal v with Ok enc => SetSetting key enc | Err e => fail e end.

(** The connection answers. *)
Definition Ping : M unit := query (λ _, Ok tt).

(** ** Statements *)

(** What no statement touches. *)
Record same_env (s s' : Store) : Prop := {
  se_clock : clock s' = clock s; se_key : totpKey s' = totpKey s;
  se_hook : hook s' = hook s; se_hooked : hooked s' = hooked s; se_entropy : entropy s' = entropy s }.

#[export] Instance same_env_refl : Reflexive same_env.
Proof. by split. Qed.
#[export] Instance same_env_trans : Transitive same_env.
Proof. intros a b c [] []. split; congruence. Qed.

(** No coming statement fails on its own account. *)
Definition healthy (s : Store) : Prop := Forall (λ f, f = None) (faults s).

Lemma exec_inv {A} (f : Tables → result (Tables * A)) s s' r : exec f s = (s', r) →
  same_env s s' ∧ (healthy s → healthy s') ∧
  ((∃ e, r = Err e ∧ tables s' = tables s ∧ (healthy s → f (tables s) = Err e)) ∨
   (∃ t a, f (tables s) = Ok (t, a) ∧ tables s' = t ∧ r = Ok a)).
Proof.
  unfold exec, healthy. intros H. destruct (faults s) as [|[e|] fs] eqn:F.
  - destruct (f (tables s)) as [[t a]|e] eqn:E; injection H as <- <-; simpl.
    + split; [by split|]. split; [done|]. right. eauto.
    + split; [by split|]. split; [done|]. left. eauto.
  - injection H as <- <-. split; [by split|]. split; [by intros ?%Forall_inv_tail|].
    left. exists e. split; [done|]. split; [done|]. intros ?%Forall_inv. done.
  - destruct (f (tables s)) as [[t a]|e] eqn:E; injection H as <- <-; simpl.
    + split; [by split|]. split; [by intros ?%Forall_inv_tail|]. right. eauto.
    + split; [by split|]. split; [by intros ?%Forall_inv_tail|]. left. eauto.
Qed.

Lemma query_inv {A} (f : Tables → result A) s s' r : query f s = (s', r) →
  same_env s s' ∧ (healthy s → healthy s') ∧ tables s' = tables s ∧
  (r = f (tables s) ∨ (∃ e, r = Err e) ∧ ¬ healthy s).
Proof.
  unfold query, exec, healthy. intros H. destruct (faults s) as [|[e|] fs] eqn:F.
  - destruct (f (tables s)) eqn:E; injection H as <- <-; simpl; split_and!; try done; by left.
  - injection H as <- <-. split; [by split|]. split; [by intros ?%Forall_inv_tail|].
    split; [done|]. right. split; [eauto|]. intros ?%Forall_inv. done.
  - destruct (f (tables s)) eqn:E; injection H as <- <-; simpl;
      (split; [by split|]; split; [by intros ?%Forall_inv_tail|]; split; [done|]; by left).
Qed.

Lemma or_dupCN_inv {A} cn (m : M A) s s' r : or_dupCN cn m s = (s', r) →
  ∃ r0, m s = (s', r0) ∧ r = match r0 with Err e => Err (dupCN cn e) | Ok a => Ok a end.
Proof. unfold or_dupCN. destruct (m s) as [s1 [a|e]]; intros [= <- <-]; eauto. Qed.

(** Split a run of bound statements. *)
Lemma store_bind_run {A B} (m : M A) (f : A → M B) s s' r : mbind f m s = (s', r) →
  (∃ s1 a, m s = (s1, Ok a) ∧ f a s1 = (s', r)) ∨ (∃ e, m s = (s', Err e) ∧ r = Err e).
Proof.
  unfold mbind, M_bind. destruct (m s) as [s1 [a|e]]; [eauto|]. intros [= <- <-]. eauto.
Qed.

Lemma transaction_inv {A} (m : M A) s s' r : (∀ s1 s2 r2, m s1 = (s2, r2) → same_env s1 s2 ∧ (healthy s1 → healthy s2)) →
  transaction m s = (s', r) →
  same_env s s' ∧ (healthy s → healthy s') ∧
  ((∃ e, r = Err e ∧ tables s' = tables s ∧
     (healthy s → ∃ s1 s2, healthy s1 ∧ same_env s s1 ∧ tables s1 = tables s ∧ m s1 = (s2, Err e))) ∨
   (∃ a s1 s2, r = Ok a ∧ same_env s s1 ∧ tables s1 = tables s ∧ (healthy s → healthy s1) ∧
               m s1 = (s2, Ok a) ∧ tables s' = tables s2)).
Proof.
  intros Hm. unfold transaction. destruct (exec _ s) as [s1 r1] eqn:E1.
  apply exec_inv in E1 as (Se1&Hh1&[(e&->&Ht1&He1)|(t&a1&[= <- <-]&Ht1&->)]).
  { intros [= <- <-]. split; [done|]. split; [done|]. left. exists e. split; [done|]. split; [done|].
    intros Hs. specialize (He1 Hs). done. }
  destruct (m s1) as [s2 [a|e]] eqn:E2; pose proof (Hm _ _ _ E2) as [Se2 Hh2].
  2:{ intros [= <- <-]. split; [etrans; [done|]; destruct Se2; by split|]. split; [by auto|].
      left. exists e. split; [done|]. split; [done|]. intros Hs. exists s1, s2. auto. }
  destruct (exec _ s2) as [s3 r3] eqn:E3.
  apply exec_inv in E3 as (Se3&Hh3&[(e&->&Ht3&He3)|(t3&a3&[= <- <-]&Ht3&->)]).
  - intros [= <- <-]. split; [etrans; [done|]; etrans; [done|]; destruct Se3; by split|]. split; [by auto|].
    left. exists e. split; [done|]. split; [done|]. intros Hs. by specialize (He3 (Hh2 (Hh1 Hs))).
  - intros [= <- <-]. split; [by repeat (etrans; [done|])|]. split; [auto|].
    right. exists a, s1, s2. split_and!; auto.
Qed.

(** ** Rows *)

Lemma elem_updated {A} (p : A → bool) f l x :
  x ∈ update p f l ↔ ∃ y, y ∈ l ∧ x = (if p y then f y else y).
Proof. unfold update. rewrite list_elem_of_fmap. naive_solver. Qed.

Lemma update_fmap {A B} (g : A → B) (p : A → bool) f l : (∀ x, g (f x) = g x) → g <$> update p f l = g <$> l.
Proof.
  intros Hg. unfold update. rewrite <-list_fmap_compose. apply list_fmap_ext. intros _ x _. simpl.
  destruct (p x); [apply Hg|done].
Qed.

Lemma update_none {A} (p : A → bool) f l : (∀ x, x ∈ l → p x = false) → update p f l = l.
Proof.
  induction l as [|x l IH]; [done|]. intros Hp. unfold update in *. rewrite fmap_cons, Hp by set_solver.
  f_equal. apply IH. set_solver.
Qed.

(** The indexes and the WHERE clause that names an active certificate agree. *)
Lemma clash_activeCert r x : kind_ok (k_kind r) = true → is_active r = true →
  clash_server r x || clash_client r x = activeCert (k_kind r) (k_cn r) x.
Proof.
  unfold kind_ok, clash_server, clash_client, activeCert. intros Hk ->.
  destruct (is_active x); [|by rewrite !andb_false_r, ?andb_false_l].
  rewrite !andb_true_r, (String.eqb_sym (k_cn x)).
  change (String.eqb "server" "client") with false. apply orb_true_iff in Hk.
  destruct Hk as [E%String.eqb_eq|E%String.eqb_eq]; rewrite E.
  - change (String.eqb "server" "server") with true. change (String.eqb "server" "client") with false.
    destruct (String.eqb (k_kind x) "server"); by rewrite ?andb_true_l, ?andb_false_l.
  - change (String.eqb "client" "server") with false. change (String.eqb "client" "client") with true.
    destruct (String.eqb_spec (k_kind x) "client") as [->|]; rewrite ?andb_true_l, ?andb_false_l; done.
Qed.

Lemma existsb_or {A} (f g : A → bool) l : existsb f l || existsb g l = existsb (λ x, f x || g x) l.
Proof. induction l as [|x l IH]; simpl; [done|]. rewrite <-IH. by destruct (f x), (g x), (existsb f l), (existsb g l). Qed.

Lemma existsb_ext_in {A} (f g : A → bool) l : (∀ x, f x = g x) → existsb f l = existsb g l.
Proof. intros Hfg. induction l as [|x l IH]; simpl; [done|]. by rewrite Hfg, IH. Qed.

(** INSERT succeeds on a good kind, no active namesake and a new serial. *)
Lemma insertCert_result c t : insertCert (certArgs c) t =
  if negb (kind_ok (Kind c)) then Err constraint_check
  else if existsb (activeCert (Kind c) (CN c)) (certs t) then Err constraint_unique
  else if existsb (by_serial (Serial c)) (certs t) then Err constraint_primarykey
  else Ok (with_certs t (certs t ++ [certArgs c]), tt).
Proof.
  unfold insertCert. simpl. destruct (kind_ok (Kind c)) eqn:Hk; simpl; [|done].
  rewrite existsb_or. rewrite (existsb_ext_in _ (activeCert (Kind c) (CN c))); [done|].
  intros x. by apply (clash_activeCert (certArgs c)).
Qed.

(** What a row must satisfy to be inserted. *)
Record insertable (c : Cert) (l : list CertRow) : Prop := {
  in_kind : kind_ok (Kind c) = true;
  in_active : ∀ x, x ∈ l → activeCert (Kind c) (CN c) x = false;
  in_serial : ∀ x, x ∈ l → k_serial x ≠ Serial c }.

Lemma existsb_none {A} (f : A → bool) l : existsb f l = false ↔ ∀ x, x ∈ l → f x = false.
Proof. rewrite <-not_true_iff_false, existsb_elem. setoid_rewrite <-not_true_iff_false. naive_solver. Qed.

Lemma insertCert_Ok c t t' : insertCert (certArgs c) t = Ok (t', tt) ↔
  insertable c (certs t) ∧ t' = with_certs t (certs t ++ [certArgs c]).
Proof.
  rewrite insertCert_result. split.
  - destruct (kind_ok (Kind c)) eqn:Hk; simpl; [|done].
    destruct (existsb (activeCert _ _) _) eqn:Ha; [done|].
    destruct (existsb (by_serial _) _) eqn:Hs; [done|]. intros [= <-]. split; [|done].
    rewrite existsb_none in Ha, Hs. split; try done. intros x Hx%Hs. by apply String.eqb_neq in Hx.
  - intros [[Hk Ha Hs] ->]. rewrite Hk. simpl. rewrite (proj2 (existsb_none _ _)) by done.
    rewrite (proj2 (existsb_none _ _)); [done|]. intros x Hx. apply String.eqb_neq. by apply Hs.
Qed.

Lemma dupCN_is cn e : errors_is (dupCN cn e) ErrDuplicateCN = is_constraint_unique e || errors_is e ErrDuplicateCN.
Proof. unfold dupCN. by destruct (is_constraint_unique e). Qed.

Lemma insertCert_Err c t e : insertCert (certArgs c) t = Err e →
  ¬ insertable c (certs t) ∧
  (errors_is (dupCN (CN c) e) ErrDuplicateCN = true ↔
   kind_ok (Kind c) = true ∧ ∃ x, x ∈ certs t ∧ activeCert (Kind c) (CN c) x = true).
Proof.
  intros H. split.
  { intros Hi. rewrite (proj2 (insertCert_Ok c t _) (conj Hi eq_refl)) in H. done. }
  rewrite <-existsb_elem, dupCN_is. rewrite insertCert_result in H.
  destruct (kind_ok (Kind c)); simpl in H; [|injection H as <-; naive_solver].
  destruct (existsb (activeCert _ _) _); [by injection H as <-|].
  destruct (existsb (by_serial _) _); [injection H as <-; naive_solver|done].
Qed.

Lemma exec_total {A} (f : Tables → result (Tables * A)) s s' e : healthy s → exec f s = (s', Err e) → f (tables s) = Err e.
Proof. intros Hs H. apply exec_inv in H as (_&_&[(e'&[= <-]&_&He)|(?&?&_&_&?)]); [auto|done]. Qed.

Lemma insert_run c s s' r : or_dupCN (CN c) (exec (insertCert (certArgs c))) s = (s', r) →
  same_env s s' ∧ (healthy s → healthy s') ∧
  match r with
  | Ok _ => insertable c (certs (tables s)) ∧
            tables s' = with_certs (tables s) (certs (tables s) ++ [certArgs c])
  | Err e => tables s' = tables s ∧ (healthy s → ¬ insertable c (certs (tables s)) ∧
      (errors_is e ErrDuplicateCN = true ↔
       kind_ok (Kind c) = true ∧ ∃ x, x ∈ certs (tables s) ∧ activeCert (Kind c) (CN c) x = true))
  end.
Proof.
  intros (r0&H&->)%or_dupCN_inv. apply exec_inv in H as (Hse&Hh&[(e&->&Ht&He)|(t&[]&Hf&Ht&->)]).
  - split; [done|]. split; [done|]. split; [done|]. intros Hs. by apply insertCert_Err, He.
  - split; [done|]. split; [done|]. apply insertCert_Ok in Hf as [Hi ->]. done.
Qed.

(** Retiring the active certificate makes room exactly for its namesake. *)
Lemma retire_insertable c at' l :
  insertable c (update (activeCert (Kind c) (CN c)) (set_row_revoked at') l) ↔
  kind_ok (Kind c) = true ∧ ∀ x, x ∈ l → k_serial x ≠ Serial c.
Proof.
  split.
  - intros [Hk _ Hs]. split; [done|]. intros x Hx.
    specialize (Hs (if activeCert (Kind c) (CN c) x then set_row_revoked at' x else x)).
    destruct (activeCert _ _ x) eqn:E; apply Hs, elem_updated; exists x; by rewrite E.
  - intros [Hk Hs]. split; [done| |].
    + intros x (y&Hy&->)%elem_updated. destruct (activeCert _ _ y) eqn:E; [|done].
      unfold activeCert, is_active. simpl. by rewrite !andb_false_r.
    + intros x (y&Hy&->)%elem_updated. destruct (activeCert _ _ y); exact (Hs y Hy).
Qed.

Lemma replace_body_env c s1 s2 r2 :
  (t0 ← now; exec (retire (Kind c) (CN c) (unix t0)) ;;
   or_dupCN (CN c) (exec (insertCert (certArgs c)))) s1 = (s2, r2) →
  same_env s1 s2 ∧ (healthy s1 → healthy s2).
Proof.
  intros [(s3&t0&[= <- <-]&H)|(e&[=]&_)]%store_bind_run.
  apply store_bind_run in H as [(s4&[]&H1&H2)|(e&H1&_)]; apply exec_inv in H1 as (S1&Hh1&_); [|done].
  apply insert_run in H2 as (S2&Hh2&_). split; [by etrans|auto].
Qed.

(** ** The theorems *)

(** Adding a certificate. It succeeds, when the database answers, exactly
    for a known kind, an unused serial and no active certificate under the
    same name (for the server: no active server certificate at all), and then
    appends that one row; otherwise the tables are as before, and the error is
    ErrDuplicateCN exactly when such an active certificate stands in the way. *)
Theorem AddCert_correct c s s' r (H : AddCert c s = (s', r)) :
  match r with
  | Ok _ => insertable c (certs (tables s)) ∧
            tables s' = with_certs (tables s) (certs (tables s) ++ [certArgs c])
  | Err e => tables s' = tables s ∧ (healthy s → ¬ insertable c (certs (tables s)) ∧
      (errors_is e ErrDuplicateCN = true ↔
       kind_ok (Kind c) = true ∧ ∃ x, x ∈ certs (tables s) ∧ activeCert (Kind c) (CN c) x = true))
  end.
Proof. by apply insert_run in H as (_&_&H). Qed.

(** Replacing a certificate is all or nothing. On success the active
    certificates of that name are revoked at the current time, the new one is
    appended, is the only active one of its name, and every other row is as
    before; on any failure, of whichever statement, nothing has changed. When
    the database answers it succeeds exactly for a known kind and an unused
    serial, whether or not there was something to replace. *)
Theorem ReplaceCert_correct c s s' r (H : ReplaceCert c s = (s', r)) :
  let old := certs (tables s) in
  match r with
  | Ok _ =>
      tables s' = with_certs (tables s)
        (update (activeCert (Kind c) (CN c)) (set_row_revoked (unix (clock s))) old ++ [certArgs c]) ∧
      (∀ x, x ∈ certs (tables s') ∧ activeCert (Kind c) (CN c) x = true ↔ x = certArgs c) ∧
      (∀ x, x ∈ old → activeCert (Kind c) (CN c) x = false → x ∈ certs (tables s'))
  | Err _ => tables s' = tables s
  end ∧
  (healthy s → is_ok r = true ↔ kind_ok (Kind c) = true ∧ ∀ x, x ∈ old → k_serial x ≠ Serial c).
Proof.
  apply transaction_inv in H as (Hse&_&[(e&->&Ht&He)|(u&s1&s2&->&S1&T1&Hh1&H&Ht)]); [| |apply replace_body_env].
  - split; [done|]. intros Hs. split; [done|]. intros Hc. exfalso.
    destruct (He Hs) as (s1&s2&Hh1&S1&T1&H). clear He.
    apply store_bind_run in H as [(s3&t0&[= <- <-]&H)|(e1&[=]&_)].
    apply store_bind_run in H as [(s4&[]&H1&H2)|(e1&H1&_)]; [|by apply exec_total in H1].
    apply exec_inv in H1 as (S4&Hh4&[(e1&[=]&_)|(t&[]&[= <-]&T4&_)]).
    apply insert_run in H2 as (_&_&_&Hi). destruct (Hi (Hh4 Hh1)) as [Hi' _].
    apply Hi'. rewrite T4. simpl. apply retire_insertable. by rewrite T1.
  - apply store_bind_run in H as [(s3&t0&[= <- <-]&H)|(e1&[=]&_)].
    apply store_bind_run in H as [(s4&[]&H1&H2)|(e1&H1&[=])].
    apply exec_inv in H1 as (S4&Hh4&[(e1&[=]&_)|(t&[]&[= <-]&T4&_)]).
    apply insert_run in H2 as (_&_&Hi&T2). rewrite Ht, T2, T4. simpl. rewrite T1.
    rewrite T4 in Hi. simpl in Hi. rewrite T1 in Hi. rewrite (se_clock _ _ S1) in *.
    split; [|intros _; apply retire_insertable in Hi; naive_solver].
    split; [done|]. split.
    + intros x. rewrite elem_of_app, list_elem_of_singleton. split.
      * intros [[Hx| ->] Ha]; [|done]. by rewrite (in_active _ _ Hi x Hx) in Ha.
      * intros ->. split; [by right|]. unfold activeCert, is_active. simpl.
        rewrite !String.eqb_refl. by rewrite orb_true_r.
    + intros x Hx Ha. apply elem_of_app. left. apply elem_updated. exists x. by rewrite Ha.
Qed.

(** Revoking by serial. It names the client certificate it revoked, dated
    in seconds, leaves every other row alone and succeeds, when the database
    answers, exactly when the serial is that of an active client certificate;
    the server's certificate and an already revoked one are refused with
    ErrNoActiveCert. A failure changes nothing. *)
Theorem Revoke_correct serial at' s s' r (H : Revoke serial at' s = (s', r)) :
  match r with
  | Ok cn => (∃ x, x ∈ certs (tables s) ∧ active_client serial x = true ∧ k_cn x = cn) ∧
             tables s' = with_certs (tables s)
               (update (active_client serial) (set_row_revoked (unix at')) (certs (tables s)))
  | Err e => tables s' = tables s ∧ (healthy s → errors_is e ErrNoActiveCert = true)
  end ∧
  (healthy s → is_ok r = true ↔ ∃ x, x ∈ certs (tables s) ∧ active_client serial x = true).
Proof.
  apply store_bind_run in H as [(s1&row&H1&H2)|(e&H1&->)].
  - apply exec_inv in H1 as (_&_&[(e&[=]&_)|(t&a&[= <- <-]&T1&[= ->])]).
    destruct (List.find _ _) as [x|] eqn:F; injection H2 as <- <-.
    + apply find_Some_elem in F as [Hx Ha]. split; [|naive_solver]. split; [eauto|done].
    + rewrite find_None_elem in F. split.
      * split; [|done]. rewrite T1. simpl. rewrite update_none by done. by destruct (tables s).
      * intros _. split; [done|]. intros (x&Hx&Ha). by rewrite (F _ Hx) in Ha.
  - apply exec_inv in H1 as (_&_&[(e'&[= <-]&T&He)|(?&?&_&_&[=])]). split.
    + split; [done|]. intros Hs. by specialize (He Hs).
    + intros Hs. by specialize (He Hs).
Qed.

(** A certificate added is read back by its serial: every field, with the
    two times cut to the second, and not revoked. *)
Theorem AddCert_GetCert c s s1 s2 r (Hadd : AddCert c s = (s1, Ok tt))
    (Hok : healthy s1) (Hget : GetCert (Serial c) s1 = (s2, r)) :
  r = Ok (mkCert (Serial c) (CN c) (Kind c) (CertPEM c) (unix (IssuedAt c) * second)
            (unix (NotAfter c) * second) None (IncludeDNS c)) ∧ tables s2 = tables s1.
Proof.
  apply insert_run in Hadd as (_&_&Hi&T1).
  apply query_inv in Hget as (_&_&T2&[->|[_ ?]]); [|done]. split; [|done]. rewrite T1. simpl.
  rewrite find_app_l, (proj2 (find_None_elem _ _)).
  - simpl. unfold by_serial. simpl. rewrite String.eqb_refl. unfold scanCert. simpl. by destruct (IncludeDNS c).
  - intros x Hx. apply String.eqb_neq. by apply (in_serial _ _ Hi).
Qed.

Lemma RequireActiveCert_run cn kind s s' r : RequireActiveCert cn kind s = (s', r) →
  same_env s s' ∧ tables s' = tables s ∧ (healthy s → healthy s') ∧
  match r with
  | Ok _ => ∃ x, x ∈ certs (tables s) ∧ activeCert kind cn x = true
  | Err e => healthy s → errors_is e ErrNoActiveCert = true ∧ ∀ x, x ∈ certs (tables s) → activeCert kind cn x = false
  end.
Proof.
  intros E. apply store_bind_run in E as [(s1&n&E1&E)|(e&E1&->)]; apply query_inv in E1 as (S1&H1&T1&E1).
  - destruct E1 as [[= ->]|[[? [=]] _]].
    destruct (filter (λ r, activeCert kind cn r = true) (certs (tables s))) as [|x l] eqn:F;
      injection E as <- <-; (split; [done|]; split; [done|]; split; [done|]).
    + intros _. split; [done|]. intros x Hx. destruct (activeCert kind cn x) eqn:A; [|done].
      assert (x ∈ filter (λ r, activeCert kind cn r = true) (certs (tables s))) as Hin by by apply list_elem_of_filter.
      rewrite F in Hin. by apply elem_of_nil in Hin.
    + exists x. assert (x ∈ filter (λ r, activeCert kind cn r = true) (certs (tables s))) as Hin by (rewrite F; left).
      apply list_elem_of_filter in Hin. tauto.
  - split; [done|]. split; [done|]. split; [done|]. intros Hs. destruct E1 as [[=]|[_ ?]]; done.
Qed.

Lemma Revoke_env serial at' s s' r : Revoke serial at' s = (s', r) → healthy s → healthy s'.
Proof.
  intros E Hs. apply store_bind_run in E as [(s1&row&E1&E)|(e&E1&_)]; apply exec_inv in E1 as (_&Hh&_); [|auto].
  destruct row; injection E as <- _; auto.
Qed.

(** ** A concrete store *)

Definition alice : Cert := mkCert "1a" "alice" "client" "PEM" (100 * second + 7) (1000 * second + 9) None true.
Definition alice2 : Cert := mkCert "1b" "alice" "client" "PEM2" (200 * second) (2000 * second) None false.
Definition demo_store : Store := mkStore empty_tables "" false [] (300 * second) [] "".
Definition with_alice : Store := (AddCert alice demo_store).1.

Lemma demo_healthy : healthy demo_store.
Proof. constructor. Qed.

Lemma AddCert_correct_witness :
  tables with_alice = with_certs empty_tables [certArgs alice] ∧
  errors_is (match (AddCert alice2 with_alice).2 with Err e => e | Ok _ => Joined [] end) ErrDuplicateCN = true.
Proof.
  split.
  - destruct (AddCert alice demo_store) as [s' r] eqn:E. pose proof (AddCert_correct alice demo_store s' r E) as H.
    assert (Hr : r = Ok tt) by (apply (f_equal snd) in E; by vm_compute in E). subst r.
    destruct H as [_ H]. assert (Hs : with_alice = s') by (unfold with_alice; by rewrite E). by rewrite Hs, H.
  - by vm_compute.
Defined.

Lemma ReplaceCert_correct_witness :
  certArgs alice2 ∈ certs (tables (ReplaceCert alice2 with_alice).1) ∧ activeCert "client" "alice" (certArgs alice2) = true.
Proof.
  destruct (ReplaceCert alice2 with_alice) as [s' r] eqn:E.
  pose proof (ReplaceCert_correct alice2 with_alice s' r E) as [H _].
  assert (Hr : r = Ok tt) by (apply (f_equal snd) in E; by vm_compute in E). subst r. by apply H.
Defined.

Lemma Revoke_correct_witness :
  ∃ x, x ∈ certs (tables with_alice) ∧ active_client "1a" x = true ∧ k_cn x = "alice".
Proof.
  destruct (Revoke "1a" (400 * second) with_alice) as [s' r] eqn:E.
  pose proof (Revoke_correct "1a" (400 * second) with_alice s' r E) as [H _].
  assert (Hr : r = Ok "alice") by (apply (f_equal snd) in E; by vm_compute in E). subst r. apply H.
Defined.

Lemma AddCert_GetCert_witness :
  (GetCert "1a" with_alice).2 = Ok (mkCert "1a" "alice" "client" "PEM" (100 * second) (1000 * second) None true).
Proof.
  destruct (GetCert "1a" with_alice) as [s2 r] eqn:E.
  pose proof (AddCert_GetCert alice demo_store with_alice s2 r) as H. apply H; [by vm_compute|constructor|done].
Defined.
End store.
