(* ===== verification/StoreUsers.v ===== *)
(** * StoreUsers: users, second factors and sessions
    (internal/store/users.go, schema.sql)

    The users and sessions tables with their foreign key, its cascade and the
    two triggers; TOTP secrets are sealed under the store's key by an
    authenticated cipher, here an interface whose one law is that it opens
    what it sealed. *)

From Stdlib Require Import Ascii.
From stdpp Require Import sorting.
From S2P Require Import Prelude GoStr GoErr GoEnc Names Store.

Module users.
Import store.

Record User := mkUser {
  ID : Z; Username : string; PassHash : string; Role : string; TOTPSecret : string;
  Disabled : bool; CreatedAt : Z }.

(** AES-GCM. *)
Definition nonce_size : nat := 12.
Class Aead := {
  gcm_seal : string → string → string → string;
  gcm_open : string → string → string → option string;
  gcm_open_seal : ∀ key nonce pt, gcm_open key nonce (gcm_seal key nonce pt) = Some pt }.

Section Users.
  Context `{Aead}.

(** [aes.NewCipher] takes keys of 16, 24 or 32 bytes. *)
Definition totpGCM (key : string) : result unit :=
  guard_ok ((slen key =? 16)%nat || (slen key =? 24)%nat || (slen key =? 32)%nat) (ExternalErr "crypto/aes: invalid key size").

Definition encryptTOTP (secret : string) : M string := λ s,
  if String.eqb secret "" then (s, Ok "")
  else match totpGCM (totpKey s) with
       | Err e => (s, Err e)
       | Ok _ =>
           match rand_read nonce_size s with
           | (s', Err e) => (s', Err e)
           | (s', Ok nonce) => (s', Ok (encode_padded base64_std (nonce +:+ gcm_seal (totpKey s) nonce secret)))
           end
       end.

Definition corrupt : goerr := Errorf "store: corrupt totp secret" [].

Definition decryptTOTP (key enc : string) : result string :=
  if String.eqb enc "" then Ok ""
  else match decode_padded base64_std enc with
       | Err e => Err (Wrapf "store: corrupt totp secret: %w" [] e)
       | Ok data =>
           totpGCM key ;;
           if (slen data <? nonce_size)%nat then Err corrupt
           else match gcm_open key (s_take nonce_size data) (s_drop nonce_size data) with
                | Some pt => Ok pt
                | None => Err (Wrapf "store: corrupt totp secret: %w" [] (ExternalErr "cipher: message authentication failed"))
                end
       end.

(** [COALESCE(totp_secret,'')] and the row's other columns. *)
Definition scanUser (key : string) (r : UserRow) : result User :=
  dec ← decryptTOTP key (default "" (u_totp r));
  Ok (mkUser (u_id r) (u_username r) (u_pass_hash r) (u_role r) dec (negb (u_disabled r =? 0)) (u_created r * second)).

Definition role_ok (r : string) : bool := String.eqb r "admin" || String.eqb r "operator" || String.eqb r "readonly".

Definition named (username : string) (r : UserRow) : bool := String.eqb (u_username r) username.

Definition insertUser (username passHash role : string) (created : Z) (t : Tables) : result (Tables * Z) :=
  if negb (role_ok role) then Err constraint_check
  else if existsb (named username) (users t) then Err constraint_unique
  else let id := next_id (u_id <$> users t) in
       Ok (with_users t (users t ++ [mkUserRow id username passHash role None created 0]), id).

Definition AddUser (username passHash role : string) : M Z :=
  match CheckName "username" username with
  | Err e => fail e
  | Ok _ => t0 ← now; exec (insertUser username passHash role (unix t0))
  end.

(** The key is the store's own. *)
Definition with_key {A} (f : string → M A) : M A := λ s, f (totpKey s) s.

Definition GetUser (username : string) : M User :=
  with_key (λ key, query (λ t,
    match List.find (named username) (users t) with
    | Some r => scanUser key r
    | None => Err (Sentinel ErrNoRows)
    end)).

Definition id_asc (a b : UserRow) : Prop := u_id a ≤ u_id b.
#[export] Instance id_asc_dec : RelDecision id_asc := λ a b, decide (u_id a ≤ u_id b).

Fixpoint scan_all (key : string) (l : list UserRow) : result (list User) :=
  match l with
  | [] => Ok []
  | r :: l' => u ← scanUser key r; us ← scan_all key l'; Ok (u :: us)
  end.

Definition ListUsers : M (list User) :=
  with_key (λ key, query (λ t, scan_all key (merge_sort id_asc (users t)))).

(** [mustAffect]: [n] is the number of rows the statement touched. *)
Definition mustAffect (n : nat) (notFoundMsg : string) : M unit :=
  if (n =? 0)%nat then fail (Errorf notFoundMsg []) else mret tt.

(** [UPDATE users SET … WHERE username=?], and how many rows it touched. *)
Definition update_user (username : string) (f : UserRow → UserRow) (t : Tables) : Tables * nat :=
  (with_users t (update (named username) f (users t)), length (filter (λ r, named username r = true) (users t))).

Definition SetUserDisabled (username : string) (disabled : bool) : M unit :=
  n ← exec (λ t, Ok (update_user username (λ r, mkUserRow (u_id r) (u_username r) (u_pass_hash r) (u_role r) (u_totp r)
                                            (u_created r) (boolInt disabled)) t));
  mustAffect n "store: no such user".

(** With the trigger [sessions_end_on_password]: the sessions of every row
    touched are deleted. *)
Definition SetUserPassword (username passHash : string) : M unit :=
  n ← exec (λ t,
    let '(t1, n) := update_user username (λ r, mkUserRow (u_id r) (u_username r) passHash (u_role r) (u_totp r)
                                                 (u_created r) (u_disabled r)) t in
    Ok (with_sessions t1 (filter (λ x, existsb (λ r, named username r && (u_id r =? t_user x)) (users t) = false)
                                 (sessions t)), n));
  mustAffect n "store: no such user".

Definition SetUserTOTP (username secret : string) : M unit :=
  enc ← encryptTOTP secret;
  n ← exec (λ t, Ok (update_user username (λ r, mkUserRow (u_id r) (u_username r) (u_pass_hash r) (u_role r) (Some enc)
                                             (u_created r) (u_disabled r)) t));
  mustAffect n "store: no such user".

(** With [ON DELETE CASCADE]. *)
Definition DeleteUser (username : string) : M unit :=
  n ← exec (λ t,
    Ok (with_sessions
          (with_users t (filter (λ r, named username r = false) (users t)))
          (filter (λ x, existsb (λ r, named username r && (u_id r =? t_user x)) (users t) = false) (sessions t)),
        length (filter (λ r, named username r = true) (users t))));
  mustAffect n "store: no such user".

(** ** Sessions *)

Definition has_token (tokenHash : string) (x : SessionRow) : bool := String.eqb (t_hash x) tokenHash.

(** With the trigger [sessions_sweep]. *)
Definition insertSession (x : SessionRow) (t : Tables) : result (Tables * unit) :=
  if existsb (has_token (t_hash x)) (sessions t) then Err constraint_primarykey
  else if negb (existsb (λ r, u_id r =? t_user x) (users t)) then Err constraint_foreignkey
  else Ok (with_sessions t (filter (λ y, t_expires y <=? t_created x = false) (sessions t ++ [x])), tt).

Definition AddSession (tokenHash : string) (userID ttl : Z) : M unit :=
  t0 ← now;
  exec (insertSession (mkSessionRow tokenHash userID (unix t0) (unix (t0 + ttl)))).

(** The join, in rowid order. *)
Definition session_rows (tokenHash : string) (at' : Z) (t : Tables) : list UserRow :=
  x ← filter (λ x, (has_token tokenHash x && (at' <? t_expires x)) = true) (sessions t);
  filter (λ r, ((u_id r =? t_user x) && (u_disabled r =? 0)) = true) (users t).

Definition SessionUser (tokenHash : string) : M (option User) :=
  t0 ← now;
  with_key (λ key, query (λ t,
    match session_rows tokenHash (unix t0) t with
    | r :: _ => Some <$> scanUser key r
    | [] => Ok None
    end)).

Definition DeleteSession (tokenHash : string) : M unit :=
  exec (λ t, Ok (with_sessions t (filter (λ x, has_token tokenHash x = false) (sessions t)), tt)).

(** ** Lemmas *)

Lemma rand_read_Ok n s s' x : rand_read n s = (s', Ok x) →
  slen x = n ∧ entropy s = x +:+ entropy s' ∧ s' = set_entropy s (entropy s').
Proof.
  unfold rand_read. destruct (n <=? slen (entropy s))%nat eqn:E; [|done]. intros [= <- <-]. bprop. simpl.
  split_and!; [|by rewrite s_take_drop|done]. rewrite s_length_take. lia.
Qed.

(** A sealed secret opens under the same key. *)
Lemma decrypt_encrypt secret s s' enc : encryptTOTP secret s = (s', Ok enc) →
  decryptTOTP (totpKey s) enc = Ok secret.
Proof.
  unfold encryptTOTP, decryptTOTP. destruct (String.eqb_spec secret "") as [->|]; [by intros [= <- <-]|].
  destruct (totpGCM (totpKey s)) as [[]|] eqn:G; [|done].
  destruct (rand_read _ _) as [s1 [nonce|]] eqn:R; [|done]. intros [= <- <-].
  apply rand_read_Ok in R as (Hn&_&_).
  rewrite decode_encode_padded by apply base64_std_readable.
  destruct (String.eqb_spec (encode_padded base64_std (nonce +:+ gcm_seal (totpKey s) nonce secret)) "") as [E|_].
  { pose proof (decode_encode_padded base64_std (nonce +:+ gcm_seal (totpKey s) nonce secret) base64_std_readable) as D.
    rewrite E in D. injection D as D. by destruct nonce. }
  destruct (Nat.ltb_spec (slen (nonce +:+ gcm_seal (totpKey s) nonce secret)) nonce_size) as [Hlt|_].
  { rewrite s_length_app in Hlt. lia. }
  cbn [mbind result_bind]. by rewrite <-Hn, s_take_app, s_drop_app, gcm_open_seal.
Qed.

Lemma find_update {A} (p : A → bool) f l : (∀ x, p (f x) = p x) →
  List.find p (update p f l) = f <$> List.find p l.
Proof.
  intros Hf. induction l as [|x l IH]; [done|]. unfold update in *. cbn.
  destruct (p x) eqn:E; [by rewrite Hf, E|by rewrite E].
Qed.

Lemma length_filter_0 {A} (p : A → bool) l :
  length (filter (λ x, p x = true) l) = O ↔ List.find p l = None.
Proof.
  rewrite find_None_elem. induction l as [|x l IH]; [split; [set_solver|done]|].
  rewrite filter_cons. case_decide as E; simpl.
  - split; [done|]. intros Hx. rewrite Hx in E by set_solver. done.
  - rewrite IH. apply not_true_is_false in E. set_solver.
Qed.

Lemma mustAffect_Ok n msg s s' u : mustAffect n msg s = (s', Ok u) → n ≠ O ∧ s' = s.
Proof. unfold mustAffect. destruct (Nat.eqb_spec n 0); [done|]. by intros [= -> _]. Qed.

(** Enrolling: the secret given is the secret read back. *)
Lemma SetUserTOTP_run username secret s s1 : SetUserTOTP username secret s = (s1, Ok tt) →
  ∃ enc row, decryptTOTP (totpKey s) enc = Ok secret ∧ totpKey s1 = totpKey s ∧
    List.find (named username) (users (tables s)) = Some row ∧
    tables s1 = with_users (tables s) (update (named username) (λ r, mkUserRow (u_id r) (u_username r) (u_pass_hash r)
      (u_role r) (Some enc) (u_created r) (u_disabled r)) (users (tables s))).
Proof.
  intros H1. apply store_bind_run in H1 as [(s2&enc&He&H1)|(e&_&[=])].
  apply store_bind_run in H1 as [(s3&n&Hx&H1)|(e&_&[=])].
  apply mustAffect_Ok in H1 as [Hn ->].
  apply exec_inv in Hx as (Hse&_&[(e&[=]&_)|(t&m&[= <- <-]&Ht&[= ->])]).
  assert (tables s2 = tables s ∧ totpKey s2 = totpKey s) as [T2 K2].
  { unfold encryptTOTP in He. destruct (String.eqb secret ""); [by injection He as <-|].
    destruct (totpGCM (totpKey s)); [|done]. destruct (rand_read _ _) as [s4 [nonce|]] eqn:R; [|done].
    injection He as <- _. apply rand_read_Ok in R as (_&_&R). rewrite R. done. }
  destruct (List.find (named username) (users (tables s))) as [row|] eqn:F.
  2:{ apply length_filter_0 in F. by rewrite T2 in Hn. }
  exists enc, row. rewrite Ht, T2, (se_key _ _ Hse), K2. split_and!; try done. by eapply decrypt_encrypt.
Qed.

(** Enrolling a second factor. When [SetUserTOTP] reports success for a
    user, reading the user back gives that secret (the empty one: no second
    factor) and every other field as it was. *)
Theorem SetUserTOTP_GetUser username secret s s1 s2 r
    (Hset : SetUserTOTP username secret s = (s1, Ok tt)) (Hok : healthy s1)
    (Hget : GetUser username s1 = (s2, r)) :
  ∃ row, List.find (named username) (users (tables s)) = Some row ∧
    r = Ok (mkUser (u_id row) (u_username row) (u_pass_hash row) (u_role row) secret
              (negb (u_disabled row =? 0)) (u_created row * second)).
Proof.
  apply SetUserTOTP_run in Hset as (enc&row&Hdec&Hk&Hf&T1). exists row. split; [done|].
  unfold GetUser, with_key in Hget. apply query_inv in Hget as (_&_&_&[->|[_ ?]]); [|done].
  rewrite T1. simpl. rewrite find_update by done. rewrite Hf. simpl.
  unfold scanUser. simpl. by rewrite Hk, Hdec.
Qed.
End Users.

(** ** A concrete cipher and store *)

(** The key in front, the rest in clear: enough to have the law. *)
#[export] Instance toy_aead : Aead.
Proof.
  refine {| gcm_seal key nonce pt := key +:+ pt;
            gcm_open key nonce ct := cut_prefix key ct |}.
  intros key _ pt. apply cut_prefix_app.
Defined.

Definition demo_key : string := "0123456789abcdef0123456789abcdef".
Definition demo_row : UserRow := mkUserRow 1 "root" "$argon2id$" "admin" None 100 0.
Definition demo_users : Store :=
  mkStore (with_users empty_tables [demo_row]) demo_key false [] (300 * second) [] "abcdefghijklmnop".

Lemma SetUserTOTP_GetUser_witness :
  ∃ row, List.find (named "root") (users (tables demo_users)) = Some row ∧
    (GetUser "root" (SetUserTOTP "root" "JBSWY3DP" demo_users).1).2 =
    Ok (mkUser (u_id row) (u_username row) (u_pass_hash row) (u_role row) "JBSWY3DP"
              (negb (u_disabled row =? 0)) (u_created row * second)).
Proof.
  destruct (GetUser "root" (SetUserTOTP "root" "JBSWY3DP" demo_users).1) as [s2 r] eqn:E.
  apply (SetUserTOTP_GetUser "root" "JBSWY3DP" demo_users (SetUserTOTP "root" "JBSWY3DP" demo_users).1 s2 r);
    [by vm_compute|constructor|done].
Defined.
End users.
