(* ===== verification/StoreStats.v ===== *)
(** * StoreStats: traffic history (internal/store/stats.go)

    Per-client samples, the aggregate and per-client series computed from
    them, finished sessions and pruning. Rates are computed in binary64, as
    the source does, with the Standard Library's executable specification of
    IEEE 754. *)

From Stdlib Require Import Ascii.
From Stdlib Require Import SpecFloat.
From stdpp Require Import sorting.
From S2P Require Import Prelude GoStr Names Store.

Module stats.
Import store.

(** ** Rates *)

(** [float64(n)] of an integer. *)
Definition float64_of_Z (z : Z) : spec_float := binary_normalize 53 1024 z 0 false.

(** [uint64(x)], truncating; beyond the range the language leaves the value
    to the implementation. *)
Definition uint64_of_float (x : spec_float) : Z :=
  match x with
  | S754_finite false m e => match e with Z0 => Zpos m | Zpos p => Z.shiftl (Zpos m) (Zpos p) | Zneg p => Z.shiftr (Zpos m) (Zpos p) end
  | _ => 0
  end.

(** [dt.Seconds()]. *)
Definition Seconds (dt : Z) : spec_float :=
  SFadd 53 1024 (float64_of_Z (Z.quot dt second))
    (SFdiv 53 1024 (float64_of_Z (Z.rem dt second)) (float64_of_Z second)).

Definition ClampedDelta (prev cur : Z) : Z := if cur <=? prev then 0 else cur - prev.

Definition Rate (prev cur dt : Z) : Z :=
  if dt <=? 0 then 0
  else uint64_of_float (SFdiv 53 1024 (float64_of_Z (ClampedDelta prev cur)) (Seconds dt)).

Example rate_ex : Rate 1000 61000 (30 * second) = 2000 ∧ Rate 61000 1000 (30 * second) = 0 ∧
  Rate 0 1000 (second / 2) = 2000 ∧ Rate 0 100 (7 * second) = 14.
Proof. by vm_compute. Qed.

(** ** Samples *)

Record Sample := mkSample {
  TS : Z; Clients : Z; BytesRecv : Z; BytesSent : Z; BytesRecvRate : Z; BytesSentRate : Z }.

(** database/sql refuses a uint64 with its high bit set. *)
Definition sql_uint64 (z : Z) : result unit :=
  guard_ok (z <? 2 ^ 63) (ExternalErr "uint64 values with high bit set are not supported").

Definition AddClientSample (ts : Z) (cn : string) (bytesRecv bytesSent : Z) : M unit :=
  match (sql_uint64 bytesRecv;; sql_uint64 bytesSent) with
  | Err e => fail e
  | Ok _ => exec (λ t, Ok (with_samples t (<[(unix ts, cn) := (bytesRecv, bytesSent)]> (client_samples t)), tt))
  end.

Abbreviation row := ((Z * string) * (Z * Z))%type.

(** [ORDER BY ts, cn]. *)
Definition row_le (a b : row) : Prop :=
  a.1.1 < b.1.1 ∨ (a.1.1 = b.1.1 ∧ String.leb a.1.2 b.1.2 = true).
#[export] Instance row_le_dec : RelDecision row_le.
Proof. intros a b. unfold row_le. apply _. Defined.

Definition sample_rows (since : Z) (t : Tables) : list row :=
  merge_sort row_le (filter (λ r : row, unix since ≤ r.1.1) (map_to_list (client_samples t))).

(** A tick: its time and each client's reading. *)
Abbreviation tick := (Z * gmap string (Z * Z))%type.

Definition push_row (ticks : list tick) (r : row) : list tick :=
  let '((ts, cn), v) := r in
  let ticks := match last ticks with
               | Some (t, _) => if t =? ts then ticks else ticks ++ [(ts, ∅)]
               | None => ticks ++ [(ts, ∅)]
               end in
  match last ticks with
  | Some (t, byCN) => removelast ticks ++ [(t, <[cn := v]> byCN)]
  | None => ticks
  end.

(** A sum over a map in uint64; the order of the range does not matter. *)
Definition sum_u64 (f : string → Z * Z → Z) (byCN : gmap string (Z * Z)) : Z :=
  map_fold (λ cn v acc, wrap_u64 (acc + f cn v)) 0 byCN.

(** What a client grew by since the previous tick: nothing if it was absent. *)
Definition grown (get : Z * Z → Z) (prev : gmap string (Z * Z)) (cn : string) (v : Z * Z) : Z :=
  match prev !! cn with Some p => ClampedDelta (get p) (get v) | None => 0 end.

Definition sample_of (prev : option tick) (tk : tick) : Sample :=
  let '(ts, byCN) := tk in
  let recv := sum_u64 (λ _ v, v.1) byCN in
  let sent := sum_u64 (λ _ v, v.2) byCN in
  match prev with
  | None => mkSample (ts * second) (Z.of_nat (size byCN)) recv sent 0 0
  | Some (pts, pm) =>
      let dt := (ts - pts) * second in
      mkSample (ts * second) (Z.of_nat (size byCN)) recv sent
        (Rate 0 (sum_u64 (grown fst pm) byCN) dt) (Rate 0 (sum_u64 (grown snd pm) byCN) dt)
  end.

(** [out[i]] from [ticks[i]] and [ticks[i-1]]. *)
Fixpoint samples_from (prev : option tick) (ticks : list tick) : list Sample :=
  match ticks with
  | [] => []
  | tk :: r => sample_of prev tk :: samples_from (Some tk) r
  end.

Definition Samples (since : Z) : M (list Sample) :=
  query (λ t, Ok (samples_from None (foldl push_row [] (sample_rows since t)))).

(** One client's rows, [ORDER BY ts]. *)
Definition ts_le (a b : Z * (Z * Z)) : Prop := a.1 ≤ b.1.
#[export] Instance ts_le_dec : RelDecision ts_le := λ a b, decide (a.1 ≤ b.1).

Definition client_rows (cn : string) (since : Z) (t : Tables) : list (Z * (Z * Z)) :=
  merge_sort ts_le (omap (λ r : row, if String.eqb r.1.2 cn && (unix since <=? r.1.1) then Some (r.1.1, r.2) else None)
                         (map_to_list (client_samples t))).

Fixpoint client_series (prev : option (Z * (Z * Z))) (rows : list (Z * (Z * Z))) : list Sample :=
  match rows with
  | [] => []
  | (ts, (recv, sent)) :: r =>
      match prev with
      | None => mkSample (ts * second) 0 recv sent 0 0
      | Some (pts, (precv, psent)) =>
          let dt := (ts - pts) * second in
          mkSample (ts * second) 0 recv sent (Rate precv recv dt) (Rate psent sent dt)
      end :: client_series (Some (ts, (recv, sent))) r
  end.

Definition ClientSamples (cn : string) (since : Z) : M (list Sample) :=
  query (λ t, Ok (client_series None (client_rows cn since t))).

(** ** Finished sessions *)

Record ClientSession := mkClientSession {
  ID : Z; CN : string; RealAddress : string; ConnectedAt : Z; DisconnectedAt : Z; sRecv : Z; sSent : Z }.

Definition EndSession (cs : ClientSession) : M unit :=
  match (sql_uint64 (sRecv cs);; sql_uint64 (sSent cs)) with
  | Err e => fail e
  | Ok _ => exec (λ t, Ok (with_ended t (client_sessions t ++
      [mkEndedRow (next_id (e_id <$> client_sessions t)) (CN cs) (RealAddress cs) (unix (ConnectedAt cs))
         (unix (DisconnectedAt cs)) (sRecv cs) (sSent cs)]), tt))
  end.

Definition ended_desc (a b : EndedRow) : Prop := e_disconnected b ≤ e_disconnected a.
#[export] Instance ended_desc_dec : RelDecision ended_desc := λ a b, decide (e_disconnected b ≤ e_disconnected a).

Definition Sessions (limit : Z) : M (list ClientSession) :=
  query (λ t, Ok ((λ r, mkClientSession (e_id r) (e_cn r) (e_addr r) (e_connected r * second)
                          (e_disconnected r * second) (e_recv r) (e_sent r)) <$>
                  limited limit (merge_sort ended_desc (client_sessions t)))).

Definition PruneStats (before : Z) : M unit :=
  exec (λ t, Ok (with_samples t (filter (λ r : row, (r.1.1 <? unix before) = false) (client_samples t)), tt)) ;;
  exec (λ t, Ok (with_ended t (filter (λ r, (e_disconnected r <? unix before) = false) (client_sessions t)), tt)).

(** ** Grouping *)

(** The readings at one time. *)
Definition at_ts (m : gmap (Z * string) (Z * Z)) (ts : Z) : gmap string (Z * Z) :=
  list_to_map (omap (λ r : row, if r.1.1 =? ts then Some (r.1.2, r.2) else None) (map_to_list m)).

Lemma at_ts_elem m ts cn v :
  (cn, v) ∈ omap (λ r : row, if r.1.1 =? ts then Some (r.1.2, r.2) else None) (map_to_list m) ↔ m !! (ts, cn) = Some v.
Proof.
  rewrite list_elem_of_omap. split.
  - intros ([[t c] w]&Hin%elem_of_map_to_list&E). simpl in E. destruct (Z.eqb_spec t ts); [|done]. by simplify_eq.
  - intros E. exists ((ts, cn), v). rewrite elem_of_map_to_list. simpl. by rewrite Z.eqb_refl.
Qed.

Lemma at_ts_lookup m ts cn : at_ts m ts !! cn = m !! (ts, cn).
Proof.
  apply option_eq. intros v. unfold at_ts.
  rewrite <-at_ts_elem. split; [apply elem_of_list_to_map_2|].
  intros Hin. apply elem_of_list_to_map_1'; [|done]. intros w Hw.
  rewrite at_ts_elem in Hin, Hw. congruence.
Qed.

(** A list of ticks that holds exactly the readings of a list of rows, in
    strictly increasing time. *)
Definition increasing (l : list Z) : Prop := StronglySorted Z.lt l.

Definition holds_reading (ticks : list tick) (ts : Z) (cn : string) (v : Z * Z) : Prop :=
  ∃ byCN, (ts, byCN) ∈ ticks ∧ byCN !! cn = Some v.

Record grouped (rows : list row) (ticks : list tick) : Prop := {
  g_inc : increasing (fst <$> ticks);
  g_rows : ∀ ts cn v, ((ts, cn), v) ∈ rows ↔ holds_reading ticks ts cn v;
  g_ne : ∀ ts m, (ts, m) ∈ ticks → m ≠ ∅ }.

Lemma last_snoc_tick (l : list tick) x : last (l ++ [x]) = Some x.
Proof. apply last_snoc. Qed.

Lemma push_row_same l t m cn v : push_row (l ++ [(t, m)]) ((t, cn), v) = l ++ [(t, <[cn := v]> m)].
Proof. unfold push_row. rewrite last_snoc, Z.eqb_refl, last_snoc, removelast_last. done. Qed.

Lemma push_row_new l ts cn v : (∀ x, last l = Some x → x.1 ≠ ts) →
  push_row l ((ts, cn), v) = l ++ [(ts, {[cn := v]})].
Proof.
  intros Hl. unfold push_row. destruct (last l) as [[t m]|] eqn:E.
  - rewrite (proj2 (Z.eqb_neq t ts)) by (by apply (Hl (t, m))). rewrite last_snoc, removelast_last. done.
  - rewrite last_snoc, removelast_last. done.
Qed.

Lemma increasing_snoc l x : increasing (l ++ [x]) ↔ increasing l ∧ ∀ y, y ∈ l → y < x.
Proof.
  unfold increasing. induction l as [|z l IH]; simpl.
  - split; [intros _; split; [constructor|set_solver]|intros _; repeat constructor].
  - split.
    + intros [Hs Hf]%StronglySorted_inv. apply IH in Hs as [Hs Hl]. rewrite Forall_app in Hf.
      destruct Hf as [Hf1 Hf2%Forall_inv]. split; [by constructor|].
      intros y [->|Hy]%elem_of_cons; auto.
    + intros [[Hs Hf]%StronglySorted_inv Hl]. constructor.
      * apply IH. split; [done|]. intros y Hy. apply Hl. by right.
      * apply Forall_app. split; [done|]. constructor; [|done]. apply Hl. by left.
Qed.

Lemma increasing_fst_inj (l : list tick) a b : increasing (fst <$> l) → a ∈ l → b ∈ l → a.1 = b.1 → a = b.
Proof.
  intros Hs. apply NoDup_fmap_elem_inj.
  induction (fst <$> l) as [|x k IH]; [constructor|]. apply StronglySorted_inv in Hs as [Hs Hf].
  constructor; [|auto]. intros Hx. rewrite Forall_forall in Hf. specialize (Hf _ Hx). lia.
Qed.

Lemma in_snoc {A} (l : list A) x y : y ∈ l ++ [x] ↔ y ∈ l ∨ y = x.
Proof. set_solver. Qed.

(** One more row at the time of the last tick. *)
Lemma push_same_grouped rows k ts m cn v : grouped rows (k ++ [(ts, m)]) → (ts, cn) ∉ (fst <$> rows) →
  grouped (rows ++ [((ts, cn), v)]) (k ++ [(ts, <[cn := v]> m)]).
Proof.
  intros [Hinc Hrows Hne] Hnew.
  assert (Hm : m !! cn = None).
  { destruct (m !! cn) as [w|] eqn:E; [|done]. destruct Hnew. apply list_elem_of_fmap.
    exists ((ts, cn), w). split; [done|]. apply Hrows. exists m. set_solver. }
  split.
  - by rewrite fmap_app in *.
  - intros t c w. rewrite in_snoc, Hrows. unfold holds_reading. setoid_rewrite in_snoc. split.
    + intros [(m'&[Hin|[= -> ->]]&Hw)|[= -> -> ->]]; [by eauto| |].
      * eexists. split; [by right|]. rewrite lookup_insert_ne; [done|]. intros ->. congruence.
      * eexists. split; [by right|]. by rewrite lookup_insert_eq.
    + intros (m'&[Hin|[= -> ->]]&Hw); [left; eauto|].
      apply lookup_insert_Some in Hw as [[-> ->]|[? Hw]]; [by right|]. left. exists m. auto.
  - intros t m'. rewrite in_snoc. intros [Hin|[= -> ->]]; [apply (Hne t), in_snoc; by left|apply insert_non_empty].
Qed.

(** One more row after the last tick. *)
Lemma push_new_grouped rows l ts cn v : grouped rows l → (∀ t m, (t, m) ∈ l → t < ts) →
  grouped (rows ++ [((ts, cn), v)]) (l ++ [(ts, {[cn := v]})]).
Proof.
  intros [Hinc Hrows Hne] Hlt. split.
  - rewrite fmap_app. apply increasing_snoc. split; [done|].
    intros y ([t m]&->&Hin)%list_elem_of_fmap. simpl. eauto.
  - intros t c w. rewrite in_snoc, Hrows. unfold holds_reading. setoid_rewrite in_snoc. split.
    + intros [(m'&Hin&Hw)|[= -> -> ->]]; [by eauto|]. eexists. split; [by right|]. by rewrite lookup_singleton_eq.
    + intros (m'&[Hin|[= -> ->]]&Hw); [left; eauto|]. right. apply lookup_singleton_Some in Hw. naive_solver.
  - intros t m'. rewrite in_snoc. intros [Hin|[= -> ->]]; [by eapply Hne|]. apply map_non_empty_singleton.
Qed.

(** One more row, not before the ones seen. *)
Lemma push_grouped rows l ts cn v : grouped rows l → (∀ r, r ∈ rows → r.1.1 ≤ ts) →
  (ts, cn) ∉ (fst <$> rows) → grouped (rows ++ [((ts, cn), v)]) (push_row l ((ts, cn), v)).
Proof.
  intros Hg Hle Hnew. pose proof Hg as [Hinc Hrows Hne].
  assert (Hts : ∀ t m, (t, m) ∈ l → t ≤ ts).
  { intros t m Hin. destruct (map_choose m (Hne _ _ Hin)) as (c&w&Hw).
    apply (Hle ((t, c), w)), Hrows. by exists m. }
  destruct (last l) as [[t m]|] eqn:Hl.
  - pose proof Hl as Hl'. apply last_Some in Hl as [k ->].
    destruct (Z.eq_dec t ts) as [->|Ht]; [rewrite push_row_same; by apply push_same_grouped|].
    rewrite push_row_new by (rewrite Hl'; by intros x [= <-]). apply push_new_grouped; [done|].
    assert (t < ts). { assert (t ≤ ts); [|lia]. apply (Hts t m), in_snoc. by right. }
    intros t' m' [Hin|[= -> ->]]%in_snoc; [|done]. rewrite fmap_app in Hinc.
    apply increasing_snoc in Hinc as [_ Hk]. etrans; [|done]. apply Hk, list_elem_of_fmap. by exists (t', m').
  - apply last_None in Hl as ->. rewrite push_row_new by done. apply push_new_grouped; [done|]. set_solver.
Qed.

Lemma rows_grouped rows : StronglySorted (λ a b : row, a.1.1 ≤ b.1.1) rows → NoDup (fst <$> rows) →
  grouped rows (foldl push_row [] rows).
Proof.
  induction rows as [|[[ts cn] v] rows IH] using rev_ind; intros Hs Hnd.
  - split; [constructor| |set_solver]. intros. split; [set_solver|]. intros (m&Hm&_). set_solver.
  - rewrite foldl_app. simpl. rewrite fmap_app in Hnd. apply NoDup_app in Hnd as (Hn1&Hn2&_).
    apply push_grouped.
    + apply IH; [|done]. eapply StronglySorted_app_1_l; eauto.
    + intros r Hr. apply (StronglySorted_app_1_elem_of _ _ _ r ((ts, cn), v)) in Hs; [done..|set_solver].
    + intros Hin. apply (Hn2 _ Hin). simpl. set_solver.
Qed.

Lemma row_le_total a b : row_le a b ∨ row_le b a.
Proof.
  unfold row_le. destruct (Z.lt_trichotomy a.1.1 b.1.1) as [?|[?|?]]; [auto| |auto].
  destruct (String.leb_total a.1.2 b.1.2); auto.
Qed.

Lemma Sorted_weaken {A} (R R' : relation A) l : (∀ a b, R a b → R' a b) → Sorted R l → Sorted R' l.
Proof.
  intros HR. induction 1 as [|x l Hs IH Hd]; constructor; [done|].
  destruct Hd as [|y l Hd]; constructor; auto.
Qed.

Lemma sample_rows_sorted since t : StronglySorted (λ a b : row, a.1.1 ≤ b.1.1) (sample_rows since t).
Proof.
  apply Sorted_StronglySorted; [intros a b c; lia|].
  unfold sample_rows. apply (Sorted_weaken row_le).
  - unfold row_le. intros a b. lia.
  - apply Sorted_merge_sort. intros a b. apply row_le_total.
Qed.

Lemma sample_rows_elem since t ts cn v :
  ((ts, cn), v) ∈ sample_rows since t ↔ unix since ≤ ts ∧ client_samples t !! (ts, cn) = Some v.
Proof.
  unfold sample_rows. rewrite merge_sort_Permutation, list_elem_of_filter, elem_of_map_to_list. done.
Qed.

Lemma sample_rows_NoDup since t : NoDup (fst <$> sample_rows since t).
Proof.
  unfold sample_rows. rewrite merge_sort_Permutation.
  apply NoDup_fmap_fst; [|apply NoDup_filter, NoDup_map_to_list].
  intros x y1 y2 [_ H1%elem_of_map_to_list]%list_elem_of_filter [_ H2%elem_of_map_to_list]%list_elem_of_filter.
  congruence.
Qed.

(** The ticks are the recorded times with their readings. *)
Lemma ticks_spec since t : ∃ tss, increasing tss ∧
  (∀ ts, ts ∈ tss ↔ unix since ≤ ts ∧ ∃ cn, is_Some (client_samples t !! (ts, cn))) ∧
  foldl push_row [] (sample_rows since t) = (λ ts, (ts, at_ts (client_samples t) ts)) <$> tss.
Proof.
  destruct (rows_grouped _ (sample_rows_sorted since t) (sample_rows_NoDup since t)) as [Hinc Hrows Hne].
  set (l := foldl push_row [] (sample_rows since t)) in *. exists (fst <$> l). split; [done|].
  assert (Hm : ∀ ts m, (ts, m) ∈ l → unix since ≤ ts ∧ m = at_ts (client_samples t) ts).
  { intros ts m Hin. assert (Hr : ∀ cn v, m !! cn = Some v ↔ ((ts, cn), v) ∈ sample_rows since t).
    { intros cn v. rewrite Hrows. split; [by exists m|]. intros (m'&Hin'&Hv).
      by assert ((ts, m) = (ts, m')) as [= ->] by by eapply increasing_fst_inj. }
    assert (unix since ≤ ts).
    { destruct (map_choose m (Hne _ _ Hin)) as (cn&v&Hv). apply Hr, sample_rows_elem in Hv. lia. }
    split; [done|]. apply map_eq. intros cn. apply option_eq. intros v.
    rewrite Hr, sample_rows_elem, at_ts_lookup. naive_solver. }
  split.
  - intros ts. rewrite list_elem_of_fmap. split.
    + intros ([ts' m]&->&Hin). destruct (Hm _ _ Hin) as [? ->]. split; [done|].
      destruct (map_choose _ (Hne _ _ Hin)) as (cn&v&Hv). exists cn. exists v. by rewrite at_ts_lookup in Hv.
    + intros (?&cn&v&Hv). assert (Hr : ((ts, cn), v) ∈ sample_rows since t) by by apply sample_rows_elem.
      apply Hrows in Hr as (m&Hin&_). by exists (ts, m).
  - rewrite <-list_fmap_compose. rewrite <-(list_fmap_id l) at 1. apply list_fmap_ext.
    intros i [ts m] Hi. apply list_elem_of_lookup_2 in Hi. simpl. by destruct (Hm _ _ Hi) as [_ ->].
Qed.

Lemma samples_from_lookup prev ticks i :
  samples_from prev ticks !! i = sample_of (match i with O => prev | S j => ticks !! j end) <$> ticks !! i.
Proof.
  revert prev i. induction ticks as [|tk r IH]; intros prev [|i]; simpl; try done.
Qed.

(** Sums over the clients of a tick. *)
Definition total (f : string → Z * Z → Z) (m : gmap string (Z * Z)) : Z :=
  foldr (λ '(cn, v) acc, f cn v + acc) 0 (map_to_list m).

Lemma sum_u64_total f m : sum_u64 f m = wrap_u64 (total f m).
Proof.
  unfold sum_u64, total. rewrite map_fold_foldr. induction (map_to_list m) as [|[cn v] l IH]; [done|].
  cbn [foldr uncurry]. rewrite IH. unfold wrap_u64. rewrite Zplus_mod_idemp_l. f_equal. lia.
Qed.

Lemma length_samples_from prev l : length (samples_from prev l) = length l.
Proof. revert prev. induction l as [|tk r IH]; intros; simpl; [done|]. by rewrite IH. Qed.

(** The traffic history. [Samples] reports one sample for each time at or
    after [since] at which any client was recorded, oldest first; each counts
    the clients recorded then and sums their counters, and its rate is
    computed from the growth of the clients present in both that sample and
    the one before it, each client's growth floored at zero on its own: a
    client that joins, leaves or reconnects never distorts the others. *)
Theorem Samples_correct since s s' out (H : Samples since s = (s', Ok out)) :
  let m := client_samples (tables s) in
  tables s' = tables s ∧ ∃ tss, increasing tss ∧
    (∀ ts, ts ∈ tss ↔ unix since ≤ ts ∧ ∃ cn, is_Some (m !! (ts, cn))) ∧
    length out = length tss ∧
    ∀ i ts sm, tss !! i = Some ts → out !! i = Some sm →
      TS sm = ts * second ∧ Clients sm = Z.of_nat (size (at_ts m ts)) ∧
      BytesRecv sm = wrap_u64 (total (λ _ v, v.1) (at_ts m ts)) ∧
      BytesSent sm = wrap_u64 (total (λ _ v, v.2) (at_ts m ts)) ∧
      match i with
      | O => BytesRecvRate sm = 0 ∧ BytesSentRate sm = 0
      | S j => ∃ pts, tss !! j = Some pts ∧
          BytesRecvRate sm = Rate 0 (wrap_u64 (total (grown fst (at_ts m pts)) (at_ts m ts))) ((ts - pts) * second) ∧
          BytesSentRate sm = Rate 0 (wrap_u64 (total (grown snd (at_ts m pts)) (at_ts m ts))) ((ts - pts) * second)
      end.
Proof.
  intros m. apply query_inv in H as (_&_&T&[[= ->]|[[? [=]] _]]). split; [done|].
  destruct (ticks_spec since (tables s)) as (tss&Hinc&Hel&->). exists tss.
  split; [done|]. split; [done|]. split; [by rewrite length_samples_from, length_fmap|].
  intros i ts sm Hts. rewrite samples_from_lookup, list_lookup_fmap, Hts. intros [= <-].
  unfold sample_of. cbn [fmap option_fmap option_map]. rewrite <-!sum_u64_total.
  destruct i as [|j].
  - split_and!; done.
  - rewrite list_lookup_fmap.
    destruct (lookup_lt_is_Some_2 tss j) as [pts Hp].
    { apply lookup_lt_Some in Hts. lia. }
    rewrite Hp. simpl. split_and!; try done. exists pts. by rewrite <-!sum_u64_total.
Qed.

(** ** One client's series *)

Lemma client_rows_elem cn since t ts v :
  (ts, v) ∈ client_rows cn since t ↔ unix since ≤ ts ∧ client_samples t !! (ts, cn) = Some v.
Proof.
  unfold client_rows. rewrite merge_sort_Permutation, list_elem_of_omap. split.
  - intros ([[t' c] w]&Hin%elem_of_map_to_list&E). simpl in E.
    destruct (String.eqb_spec c cn) as [->|]; [|done]. destruct (Z.leb_spec (unix since) t'); [|done]. by simplify_eq/=.
  - intros [Hts E]. exists ((ts, cn), v). rewrite elem_of_map_to_list. simpl.
    by rewrite String.eqb_refl, (proj2 (Z.leb_le _ _)).
Qed.

Lemma client_keys_NoDup cn since (l : list row) : NoDup (fst <$> l) →
  NoDup (fst <$> omap (λ r : row, if String.eqb r.1.2 cn && (unix since <=? r.1.1) then Some (r.1.1, r.2) else None) l).
Proof.
  induction l as [|[[t c] v] l IH]; simpl; [constructor|]. intros [Hx Hnd]%NoDup_cons.
  destruct (String.eqb_spec c cn) as [->|]; [|by apply IH]. destruct (unix since <=? t); [|by apply IH].
  simpl. constructor; [|by apply IH]. intros ([t' v']&->&Hin)%list_elem_of_fmap. simpl in Hx.
  apply list_elem_of_omap in Hin as ([[t2 c2] v2]&Hin&E). simpl in E.
  destruct (String.eqb_spec c2 cn) as [->|]; [|done]. destruct (unix since <=? t2); [|done].
  injection E as -> ->. apply Hx, list_elem_of_fmap. by exists (t', cn, v').
Qed.

Lemma client_rows_increasing cn since t : increasing (fst <$> client_rows cn since t).
Proof.
  assert (Hnd : NoDup (fst <$> client_rows cn since t)).
  { unfold client_rows. rewrite merge_sort_Permutation.
    apply client_keys_NoDup, NoDup_fst_map_to_list. }
  assert (Hs : StronglySorted Z.le (fst <$> client_rows cn since t)).
  { apply Sorted_StronglySorted; [intros a b c; lia|].
    assert (Sorted ts_le (client_rows cn since t)) as Hs.
    { apply Sorted_merge_sort. intros a b. unfold ts_le. lia. }
    induction Hs as [|x l Hs IH Hd]; simpl; constructor.
    - apply IH. by apply NoDup_cons in Hnd as [_ ?].
    - destruct Hd; simpl; by constructor. }
  unfold increasing. induction (fst <$> client_rows cn since t) as [|x l IH]; [constructor|].
  apply NoDup_cons in Hnd as [Hx Hnd]. apply StronglySorted_inv in Hs as [Hs Hf]. constructor; [auto|].
  rewrite Forall_forall in *. intros y Hy. specialize (Hf y Hy). assert (x ≠ y) by congruence. lia.
Qed.

Lemma client_series_lookup prev rows i : client_series prev rows !! i =
  (λ r : Z * (Z * Z),
    match (match i with O => prev | S j => rows !! j end) with
    | None => mkSample (r.1 * second) 0 r.2.1 r.2.2 0 0
    | Some p => mkSample (r.1 * second) 0 r.2.1 r.2.2
        (Rate p.2.1 r.2.1 ((r.1 - p.1) * second)) (Rate p.2.2 r.2.2 ((r.1 - p.1) * second))
    end) <$> rows !! i.
Proof.
  revert prev i. induction rows as [|[ts [a b]] rows IH]; intros prev [|i]; simpl; try done.
  by destruct prev as [[? [? ?]]|].
Qed.

(** One client's history. [ClientSamples] reports that client's recorded
    counters at or after [since], strictly oldest first, each exactly as
    recorded, with rates from the sample just before it in the answer. *)
Theorem ClientSamples_correct cn since s s' out (H : ClientSamples cn since s = (s', Ok out)) :
  let m := client_samples (tables s) in
  tables s' = tables s ∧ ∃ rows : list (Z * (Z * Z)), increasing (fst <$> rows) ∧
    (∀ ts v, (ts, v) ∈ rows ↔ unix since ≤ ts ∧ m !! (ts, cn) = Some v) ∧
    (∀ i, out !! i = match rows !! i, (match i with O => None | S j => rows !! j end) with
                     | Some (ts, (recv, sent)), None => Some (mkSample (ts * second) 0 recv sent 0 0)
                     | Some (ts, (recv, sent)), Some (pts, (precv, psent)) =>
                         Some (mkSample (ts * second) 0 recv sent
                           (Rate precv recv ((ts - pts) * second)) (Rate psent sent ((ts - pts) * second)))
                     | None, _ => None
                     end).
Proof.
  apply query_inv in H as (_&_&T&[[= ->]|[[? [=]] _]]). split; [done|].
  exists (client_rows cn since (tables s)). split; [apply client_rows_increasing|].
  split; [intros; apply client_rows_elem|]. intros i. rewrite client_series_lookup.
  destruct (client_rows cn since (tables s) !! i) as [[ts [a b]]|]; [|done]. simpl.
  destruct i as [|j]; [done|].
  destruct (client_rows cn since (tables s) !! j) as [[? [? ?]]|]; done.
Qed.

(** ** A concrete history *)

Definition demo : Store :=
  mkStore (with_samples empty_tables
    (list_to_map [((10, "a"), (100, 10)); ((10, "b"), (5000, 0)); ((20, "a"), (1100, 30)); ((20, "b"), (7, 0)); ((20, "c"), (900, 900))]))
    "" false [] 0 [] "".

Example demo_samples : (Samples 0 demo).2 =
  Ok [mkSample (10 * second) 2 5100 10 0 0; mkSample (20 * second) 3 2007 930 100 2].
Proof. by vm_compute. Qed.

Lemma Samples_correct_witness : ∃ tss, increasing tss ∧ length tss = 2%nat.
Proof.
  destruct (Samples 0 demo) as [s' r] eqn:E.
  assert (Hr : r = Ok [mkSample (10 * second) 2 5100 10 0 0; mkSample (20 * second) 3 2007 930 100 2])
    by (apply (f_equal snd) in E; by vm_compute in E). subst r.
  destruct (Samples_correct 0 demo s' _ E) as (_&tss&Hi&_&Hl&_).
  exists tss. exact (conj Hi (eq_sym Hl)).
Defined.

Lemma ClientSamples_correct_witness : ∃ rows : list (Z * (Z * Z)), increasing (fst <$> rows) ∧ (20, (1100, 30)) ∈ rows.
Proof.
  destruct (ClientSamples "a" 0 demo) as [s' r] eqn:E.
  assert (Hr : r = Ok [mkSample (10 * second) 0 100 10 0 0; mkSample (20 * second) 0 1100 30 100 2])
    by (apply (f_equal snd) in E; by vm_compute in E). subst r.
  destruct (ClientSamples_correct "a" 0 demo s' _ E) as (_&rows&Hi&Hel&_).
  exists rows. split; [done|]. apply Hel. split; [done|by vm_compute].
Defined.
End stats.
