(* ===== verification/StoreInv.v ===== *)
(** * StoreInv: what the store guarantees over its whole life

    Every operation of the store acts on the tables through the statements
    of [effect]; the invariant of the schema, the permanence of revocations
    and of the audit log, and the end of sessions are proved for the effects,
    and so for every sequence of operations with any faults in between. *)

From stdpp Require Import sorting.
From S2P Require Import Prelude GoStr GoEnc Names Store StoreUsers StoreStats.

Module storeinv.
Import store users stats.

Section Life.
  Context `{Aead}.

(** ** Operations *)

Inductive op :=
  | OAddCert (c : Cert) | OReplaceCert (c : Cert) | ORevoke (serial : string) (at' : Z)
  | OSetCertDNS (serial : string) (include : bool)
  | OAudit (actor action detail : string) | OSetSetting (key value : string)
  | OAddUser (username passHash role : string) | OSetUserDisabled (username : string) (disabled : bool)
  | OSetUserPassword (username passHash : string) | OSetUserTOTP (username secret : string)
  | ODeleteUser (username : string)
  | OAddSession (tokenHash : string) (userID ttl : Z) | ODeleteSession (tokenHash : string)
  | OAddClientSample (ts : Z) (cn : string) (recv sent : Z) | OEndSession (cs : ClientSession)
  | OPruneStats (before : Z)
  | OWorld (clock : Z) (faults : list (option goerr)) (entropy : string).

Definition run_op (o : op) (s : Store) : Store :=
  match o with
  | OAddCert c => (AddCert c s).1
  | OReplaceCert c => (ReplaceCert c s).1
  | ORevoke serial at' => (Revoke serial at' s).1
  | OSetCertDNS serial include => (SetCertDNS serial include s).1
  | OAudit actor action detail => (Audit actor action detail s).1
  | OSetSetting key value => (SetSetting key value s).1
  | OAddUser username passHash role => (AddUser username passHash role s).1
  | OSetUserDisabled username disabled => (SetUserDisabled username disabled s).1
  | OSetUserPassword username passHash => (SetUserPassword username passHash s).1
  | OSetUserTOTP username secret => (SetUserTOTP username secret s).1
  | ODeleteUser username => (DeleteUser username s).1
  | OAddSession tokenHash userID ttl => (AddSession tokenHash userID ttl s).1
  | ODeleteSession tokenHash => (DeleteSession tokenHash s).1
  | OAddClientSample ts cn recv sent => (AddClientSample ts cn recv sent s).1
  | OEndSession cs => (EndSession cs s).1
  | OPruneStats before => (PruneStats before s).1
  | OWorld c f e => mkStore (tables s) (totpKey s) (hook s) (hooked s) c f e
  end.

Definition run_ops (os : list op) (s : Store) : Store := foldl (λ s o, run_op o s) s os.

(** The token an operation may open a session for. *)
Definition op_token (o : op) : option string :=
  match o with OAddSession tok _ _ => Some tok | _ => None end.

(** ** Statements that change the tables *)

Definition touch_user (t : Tables) (username : string) (f : UserRow → UserRow) : Tables :=
  with_users t (update (named username) f (users t)).
Definition end_sessions (t : Tables) (username : string) (l : list UserRow) : Tables :=
  with_sessions t (filter (λ x, existsb (λ r, named username r && (u_id r =? t_user x)) l = false) (sessions t)).

Inductive effect (tok : option string) (t : Tables) : Tables → Prop :=
  | E_insert c t' : insertCert (certArgs c) t = Ok (t', tt) → effect tok t t'
  | E_revoke p at' : (∀ r, p r = true → is_active r = true) →
      effect tok t (with_certs t (update p (set_row_revoked at') (certs t)))
  | E_dns serial d : effect tok t (with_certs t (update (by_serial serial) (set_row_dns d) (certs t)))
  | E_audit ts actor action detail : effect tok t
      (with_audit t (audit_log t ++ [mkAuditRow (next_id (a_id <$> audit_log t)) ts actor action detail]))
  | E_settings m : effect tok t (with_settings t m)
  | E_user username passHash role created t' id : nameRe username = true →
      insertUser username passHash role created t = Ok (t', id) → effect tok t t'
  | E_touch username f : (∀ r, u_id (f r) = u_id r ∧ u_username (f r) = u_username r ∧ u_role (f r) = u_role r) →
      effect tok t (touch_user t username f)
  | E_password username f : (∀ r, u_id (f r) = u_id r ∧ u_username (f r) = u_username r ∧ u_role (f r) = u_role r) →
      effect tok t (end_sessions (touch_user t username f) username (users t))
  | E_delete username : effect tok t (end_sessions
      (with_users t (filter (λ r, named username r = false) (users t))) username (users t))
  | E_session x t' : tok = Some (t_hash x) → insertSession x t = Ok (t', tt) → effect tok t t'
  | E_logout tokenHash : effect tok t (with_sessions t (filter (λ x, has_token tokenHash x = false) (sessions t)))
  | E_samples m : effect tok t (with_samples t m)
  | E_ended l : effect tok t (with_ended t l).

Definition effects (tok : option string) : Tables → Tables → Prop := rtc (effect tok).

(** A computation acts on the tables through a relation. *)
Definition acts {A} (R : Tables → Tables → Prop) (m : M A) : Prop := ∀ s, R (tables s) (tables (m s).1).

Lemma acts_bind {A B} R (m : M A) (f : A → M B) : Transitive R → acts R m → (∀ a, acts R (f a)) → acts R (mbind f m).
Proof.
  intros HT Hm Hf s. specialize (Hm s). unfold mbind, M_bind. destruct (m s) as [s1 [a|e]]; [|done].
  etrans; [done|]. apply Hf.
Qed.

Lemma acts_exec {A} R `{!Reflexive R} (f : Tables → result (Tables * A)) : (∀ t t' a, f t = Ok (t', a) → R t t') → acts R (exec f).
Proof.
  intros Hf s. destruct (exec f s) as [s' r] eqn:E.
  apply exec_inv in E as (_&_&[(e&_&Ht&_)|(t&a&E&Ht&_)]); simpl; rewrite Ht; [done|eauto].
Qed.

Lemma acts_query {A} R `{!Reflexive R} (f : Tables → result A) : acts R (query f).
Proof. intros s. destruct (query f s) as [s' r] eqn:E. apply query_inv in E as (_&_&Ht&_). simpl. by rewrite Ht. Qed.

Lemma acts_same {A} R `{!Reflexive R} (m : M A) : (∀ s, tables (m s).1 = tables s) → acts R m.
Proof. intros Hm s. by rewrite Hm. Qed.

Lemma acts_or_dupCN {A} R cn (m : M A) : acts R m → acts R (or_dupCN cn m).
Proof. intros Hm s. specialize (Hm s). unfold or_dupCN. by destruct (m s) as [s' [a|e]]. Qed.

Lemma acts_transaction {A} R `{!Reflexive R} (m : M A) : acts R m → acts R (transaction m).
Proof.
  intros Hm s. unfold transaction. destruct (exec _ s) as [s1 r1] eqn:E1.
  apply exec_inv in E1 as (_&_&[(e&->&Ht&_)|(t&a&[= <- <-]&Ht&->)]); [simpl; by rewrite Ht|].
  specialize (Hm s1). destruct (m s1) as [s2 [b|e]]; simpl in *; [|done].
  destruct (exec _ s2) as [s3 r3] eqn:E3.
  apply exec_inv in E3 as (_&_&[(e&->&Ht3&_)|(t3&a3&[= <- <-]&Ht3&->)]); simpl; [done|]. by rewrite Ht3, <-Ht.
Qed.

#[local] Instance effects_preorder tok : PreOrder (effects tok) := _.

Lemma acts_run_hook R `{!Reflexive R} a b c : acts R (run_hook a b c).
Proof. apply acts_same; [done|]. intros s. unfold run_hook. simpl. by destruct (hook s). Qed.

Lemma acts_encryptTOTP R `{!Reflexive R} secret : acts R (encryptTOTP secret).
Proof.
  apply acts_same; [done|]. intros s. unfold encryptTOTP, rand_read.
  repeat case_match; by simplify_eq/=.
Qed.

(** Follow a computation down to the statements that change the tables. *)
Ltac act :=
  lazymatch goal with
  | |- acts _ (mbind _ _) => apply acts_bind; [apply _|act|intros ?; act]
  | |- acts _ (exec _) => apply acts_exec; [apply _|intros ? ? ? ?]
  | |- acts _ (query _) => apply acts_query; apply _
  | |- acts _ (or_dupCN _ _) => apply acts_or_dupCN; act
  | |- acts _ (transaction _) => apply acts_transaction; [apply _|act]
  | |- acts _ (mustAffect _ _) => unfold mustAffect; act
  | |- acts _ (encryptTOTP _) => apply acts_encryptTOTP; apply _
  | |- acts _ (run_hook _ _ _) => apply acts_run_hook; apply _
  | |- acts _ (if ?b then _ else _) => destruct b; act
  | |- acts _ (match ?x with Some _ => _ | None => _ end) => destruct x; act
  | |- acts _ (match ?x with Ok _ => _ | Err _ => _ end) => destruct x as [[]|] eqn:?; act
  | |- _ => apply acts_same; [apply _|done]
  end.

Definition op_act (o : op) : M unit := λ s, (run_op o s, Ok tt).

Lemma run_op_effects o s : effects (op_token o) (tables s) (tables (run_op o s)).
Proof.
  assert (Hone : ∀ t t', effect (op_token o) t t' → effects (op_token o) t t') by (intros; by apply rtc_once).
  destruct o; cbn [run_op op_token] in *; [..|done];
    match goal with |- effects ?tok (tables s) (tables (?m s).1) => revert s; change (acts (effects tok) m) end;
    unfold AddCert, ReplaceCert, Revoke, SetCertDNS, Audit, SetSetting, AddUser, SetUserDisabled, SetUserPassword,
      SetUserTOTP, DeleteUser, AddSession, DeleteSession, AddClientSample, EndSession, PruneStats;
    act; destruct_or?; simplify_eq/=; apply Hone; try by constructor.
  all: try match goal with u : unit |- _ => destruct u end.
  all: try by (eapply E_insert).
  all: try by (eapply E_user; [eapply CheckName_Ok|]).
  all: try by (eapply E_session; [|eassumption]).
  all: unfold retire in *; simplify_eq; apply E_revoke; intros r Hr; unfold activeCert, active_client in Hr; apply andb_true_iff in Hr; naive_solver.
Qed.

(** ** The schema's invariant *)

Definition tick_le1 (p : CertRow → bool) (l : list CertRow) : Prop := (length (filter (λ r, p r = true) l) ≤ 1)%nat.

Record wf (t : Tables) : Prop := {
  w_serials : NoDup (k_serial <$> certs t);
  w_kinds : ∀ x, x ∈ certs t → kind_ok (k_kind x) = true;
  w_client : ∀ cn, tick_le1 (activeCert "client" cn) (certs t);
  w_server : ∀ cn, tick_le1 (activeCert "server" cn) (certs t);
  w_ids : NoDup (u_id <$> users t);
  w_names : NoDup (u_username <$> users t);
  w_users : ∀ u, u ∈ users t → nameRe (u_username u) = true ∧ role_ok (u_role u) = true;
  w_tokens : NoDup (t_hash <$> sessions t);
  w_fk : ∀ x, x ∈ sessions t → ∃ u, u ∈ users t ∧ u_id u = t_user x;
  w_audit : increasing (a_id <$> audit_log t) }.

(** The parts of the invariant that a change elsewhere leaves alone. *)
Definition wf_certs (l : list CertRow) : Prop :=
  NoDup (k_serial <$> l) ∧ (∀ x, x ∈ l → kind_ok (k_kind x) = true) ∧
  (∀ cn, tick_le1 (activeCert "client" cn) l) ∧ (∀ cn, tick_le1 (activeCert "server" cn) l).
Definition wf_users (us : list UserRow) (ss : list SessionRow) : Prop :=
  NoDup (u_id <$> us) ∧ NoDup (u_username <$> us) ∧
  (∀ u, u ∈ us → nameRe (u_username u) = true ∧ role_ok (u_role u) = true) ∧
  NoDup (t_hash <$> ss) ∧ (∀ x, x ∈ ss → ∃ u, u ∈ us ∧ u_id u = t_user x).

Lemma wf_split t : wf t ↔ wf_certs (certs t) ∧ wf_users (users t) (sessions t) ∧ increasing (a_id <$> audit_log t).
Proof.
  split.
  - intros []. unfold wf_certs, wf_users. by split_and!.
  - intros ((?&?&?&?)&(?&?&?&?&?)&?). by split.
Qed.

Lemma wf_empty : wf empty_tables.
Proof.
  split; simpl; try apply NoDup_nil_2; try set_solver; [..|apply SSorted_nil];
    intros; unfold tick_le1; simpl; lia.
Qed.

(** *** Certificates *)

Lemma filter_update_le {A} (p q : A → bool) f l : (∀ x, p (f x) = true → p x = true) →
  (length (filter (λ x, p x = true) (update q f l)) ≤ length (filter (λ x, p x = true) l))%nat.
Proof.
  intros Hf. induction l as [|x l IH]; [done|]. unfold update in *. rewrite fmap_cons, !filter_cons.
  destruct (decide (p x = true)) as [E|E]; simpl.
  - case_decide; simpl; lia.
  - rewrite decide_False; [done|]. destruct (q x); [|done]. intros Hp. by apply E, Hf.
Qed.

Lemma wf_certs_update p f l : (∀ x, k_serial (f x) = k_serial x ∧ k_kind (f x) = k_kind x) →
  (∀ k cn x, activeCert k cn (f x) = true → activeCert k cn x = true) → wf_certs l → wf_certs (update p f l).
Proof.
  intros Hf Ha (Hs&Hk&Hc&Hv). split_and!.
  - rewrite update_fmap; [done|]. apply Hf.
  - intros x (y&Hy&->)%elem_updated. destruct (p y); [rewrite (proj2 (Hf y))|]; auto.
  - intros cn. unfold tick_le1. etrans; [apply filter_update_le; apply Ha|apply Hc].
  - intros cn. unfold tick_le1. etrans; [apply filter_update_le; apply Ha|apply Hv].
Qed.

Lemma tick_le1_snoc p l x : tick_le1 p l → (p x = true → ∀ y, y ∈ l → p y = false) → tick_le1 p (l ++ [x]).
Proof.
  unfold tick_le1. intros Hl Hx. rewrite filter_app, length_app, (filter_cons _ x []), filter_nil.
  case_decide as E; simpl; [|lia]. specialize (Hx E).
  replace (filter (λ r, p r = true) l) with (@nil CertRow); [simpl; lia|].
  symmetry. apply elem_of_nil_inv. intros y [Hp Hy]%list_elem_of_filter. by rewrite Hx in Hp.
Qed.

Lemma activeCert_kind k cn r : activeCert k cn r = true → k_kind r = k.
Proof. unfold activeCert. bprop. naive_solver. Qed.

Lemma wf_certs_insert c l : insertable c l → wf_certs l → wf_certs (l ++ [certArgs c]).
Proof.
  intros [Hk Ha Hser] (Hs&Hks&Hc&Hv). split_and!.
  - rewrite fmap_app. apply NoDup_app. split; [done|]. split; [|apply NoDup_singleton].
    intros x (y&->&Hy)%list_elem_of_fmap. simpl. intros E%list_elem_of_singleton. by apply (Hser y).
  - intros x [Hx| ->]%in_snoc; [auto|done].
  - intros cn. apply tick_le1_snoc; [done|]. intros Hact y Hy.
    pose proof (activeCert_kind _ _ _ Hact) as Hkind. simpl in Hkind.
    unfold activeCert in Hact. simpl in Hact. rewrite Hkind in Hact. bprop.
    destruct Hact as [[_ [?|Hcn]] _]; [done|]. specialize (Ha y Hy). by rewrite Hkind, Hcn in Ha.
  - intros cn. apply tick_le1_snoc; [done|]. intros Hact y Hy.
    pose proof (activeCert_kind _ _ _ Hact) as Hkind. simpl in Hkind.
    specialize (Ha y Hy). rewrite Hkind in Ha. unfold activeCert in *.
    destruct (String.eqb_spec (k_kind y) "server"); [|done]. by destruct (is_active y).
Qed.

(** *** Users and sessions *)

Lemma next_id_fresh l x : x ∈ l → x < next_id l.
Proof.
  unfold next_id. induction l as [|y l IH]; [set_solver|]. simpl. intros [->|Hx]%elem_of_cons; [lia|].
  specialize (IH Hx). lia.
Qed.

Lemma wf_users_touch username f us ss :
  (∀ r, u_id (f r) = u_id r ∧ u_username (f r) = u_username r ∧ u_role (f r) = u_role r) →
  wf_users us ss → wf_users (update (named username) f us) ss.
Proof.
  intros Hf (Hid&Hn&Hu&Ht&Hfk). split_and!; [..|done|].
  - rewrite update_fmap; [done|apply Hf].
  - rewrite update_fmap; [done|apply Hf].
  - intros u (y&Hy&->)%elem_updated. specialize (Hu y Hy). destruct (named _ y); [|done].
    destruct (Hf y) as (_&->&->). done.
  - intros x Hx. destruct (Hfk x Hx) as (u&Hin&Hu'). eexists. split; [apply elem_updated; by exists u|].
    destruct (named _ u); [|done]. by rewrite (proj1 (Hf u)).
Qed.

Lemma NoDup_fmap_filter {A B} (g : A → B) (P : A → Prop) `{∀ x, Decision (P x)} l :
  NoDup (g <$> l) → NoDup (g <$> filter P l).
Proof.
  induction l as [|x l IH]; [done|]. rewrite fmap_cons, filter_cons. intros [Hx Hl]%NoDup_cons.
  case_decide; [|auto]. rewrite fmap_cons. constructor; [|auto].
  intros (y&E&[_ Hy]%list_elem_of_filter)%list_elem_of_fmap. apply Hx, list_elem_of_fmap. by exists y.
Qed.

Lemma wf_users_sessions us ss (P : SessionRow → Prop) `{∀ x, Decision (P x)} : wf_users us ss → wf_users us (filter P ss).
Proof.
  intros (?&?&?&Ht&Hfk). split_and!; [done..| |].
  - by apply NoDup_fmap_filter.
  - intros x [_ Hx]%list_elem_of_filter. auto.
Qed.

Lemma wf_users_insert us ss username passHash role created : nameRe username = true → role_ok role = true →
  (∀ u, u ∈ us → u_username u ≠ username) → wf_users us ss →
  wf_users (us ++ [mkUserRow (next_id (u_id <$> us)) username passHash role None created 0]) ss.
Proof.
  intros Hn Hr Hnew (Hid&Hnm&Hu&Ht&Hfk). split_and!; [..|done|].
  - rewrite fmap_app. apply NoDup_app. split; [done|]. split; [|apply NoDup_singleton].
    intros x Hx E%list_elem_of_singleton. apply next_id_fresh in Hx. simpl in E. lia.
  - rewrite fmap_app. apply NoDup_app. split; [done|]. split; [|apply NoDup_singleton].
    intros x (y&->&Hy)%list_elem_of_fmap E%list_elem_of_singleton. by apply (Hnew y).
  - intros u [Hin| ->]%in_snoc; [auto|done].
  - intros x Hx. destruct (Hfk x Hx) as (u&?&?). exists u. split; [apply in_snoc; by left|done].
Qed.

Lemma wf_users_delete username us ss : wf_users us ss →
  wf_users (filter (λ r, named username r = false) us)
    (filter (λ x, existsb (λ r, named username r && (u_id r =? t_user x)) us = false) ss).
Proof.
  intros (Hid&Hn&Hu&Ht&Hfk). split_and!; try by apply NoDup_fmap_filter.
  - intros u [_ Hin]%list_elem_of_filter. auto.
  - intros x [Hno Hx]%list_elem_of_filter. destruct (Hfk x Hx) as (u&Hin&E). exists u. split; [|done].
    apply list_elem_of_filter. split; [|done]. rewrite existsb_none in Hno. specialize (Hno u Hin).
    rewrite E, Z.eqb_refl, andb_true_r in Hno. done.
Qed.

Lemma insertSession_Ok x t t' : insertSession x t = Ok (t', tt) →
  (∀ y, y ∈ sessions t → t_hash y ≠ t_hash x) ∧ (∃ u, u ∈ users t ∧ u_id u = t_user x) ∧
  t' = with_sessions t (filter (λ y, t_expires y <=? t_created x = false) (sessions t ++ [x])).
Proof.
  unfold insertSession. destruct (existsb (has_token _) _) eqn:E; [done|].
  destruct (existsb (λ r, u_id r =? t_user x) (users t)) eqn:F; [|done]. intros [= <-].
  rewrite existsb_none in E. split_and!; [|apply existsb_elem in F as (u&?&?); bprop; eauto|done].
  intros y Hy. specialize (E y Hy). unfold has_token in E. by bprop.
Qed.

Lemma wf_users_login x us ss : (∀ y, y ∈ ss → t_hash y ≠ t_hash x) → (∃ u, u ∈ us ∧ u_id u = t_user x) →
  wf_users us ss → wf_users us (ss ++ [x]).
Proof.
  intros Hnew Hu (?&?&?&Ht&Hfk). split_and!; [done..| |].
  - rewrite fmap_app. apply NoDup_app. split; [done|]. split; [|apply NoDup_singleton].
    intros y (z&->&Hz)%list_elem_of_fmap E%list_elem_of_singleton. by apply (Hnew z).
  - intros y [Hy| ->]%in_snoc; auto.
Qed.

Lemma effect_wf tok t t' : effect tok t t' → wf t → wf t'.
Proof.
  rewrite !wf_split. intros E (Hc&Hu&Ha). destruct E; simpl; split_and!; try done.
  - apply insertCert_Ok in H0 as [Hi ->]. simpl. by apply wf_certs_insert.
  - apply insertCert_Ok in H0 as [Hi ->]. done.
  - apply insertCert_Ok in H0 as [Hi ->]. done.
  - apply wf_certs_update; [done| |done]. intros k cn x. unfold activeCert, is_active. simpl. bprop. naive_solver.
  - by apply wf_certs_update.
  - rewrite fmap_app. apply increasing_snoc. split; [done|]. intros y. apply next_id_fresh.
  - unfold insertUser in H1. repeat case_match; simplify_eq. done.
  - unfold insertUser in H1. destruct (negb (role_ok role)) eqn:R; [done|].
    destruct (existsb (named username) (users t)) eqn:N; [done|]. injection H1 as <- <-. simpl.
    apply wf_users_insert; [done|by apply negb_false_iff in R| |done].
    rewrite existsb_none in N. intros u Hin. specialize (N u Hin). unfold named in N. by bprop.
  - unfold insertUser in H1. repeat case_match; simplify_eq. done.
  - by apply wf_users_touch.
  - apply wf_users_sessions. by apply wf_users_touch.
  - by apply wf_users_delete.
  - by apply insertSession_Ok in H1 as (_&_&->).
  - apply insertSession_Ok in H1 as (Hnew&Hx&->). simpl. apply wf_users_sessions. by apply wf_users_login.
  - by apply insertSession_Ok in H1 as (_&_&->).
  - by apply wf_users_sessions.
Qed.

Lemma effects_ind (P : Tables → Prop) tok t t' : (∀ t t', effect tok t t' → P t → P t') →
  effects tok t t' → P t → P t'.
Proof. intros Hp. induction 1; eauto. Qed.

Lemma run_ops_invariant (P : Tables → Prop) os s :
  (∀ o t t', o ∈ os → effect (op_token o) t t' → P t → P t') → P (tables s) → P (tables (run_ops os s)).
Proof.
  revert s. induction os as [|o os IH]; intros s Hp Hs; [done|]. apply IH.
  - intros o' t t' Ho. apply Hp. by right.
  - eapply effects_ind; [|apply run_op_effects|done]. intros t t'. apply Hp. by left.
Qed.

(** ** What no operation undoes *)

(** A revoked row stays, but for its DNS flag. *)
Definition kept (x y : CertRow) : Prop :=
  k_serial y = k_serial x ∧ k_cn y = k_cn x ∧ k_kind y = k_kind x ∧ k_pem y = k_pem x ∧
  k_issued y = k_issued x ∧ k_not_after y = k_not_after x ∧ k_revoked y = k_revoked x.

Definition holds_row (x : CertRow) (t : Tables) : Prop := ∃ y, y ∈ certs t ∧ kept x y.

Lemma effect_keeps_revoked tok x t t' : k_revoked x ≠ None → effect tok t t' → holds_row x t → holds_row x t'.
Proof.
  intros Hr E (y&Hy&Hk). assert (Ha : is_active y = false).
  { unfold is_active. destruct Hk as (_&_&_&_&_&_&->). by destruct (k_revoked x). }
  destruct E; try (by exists y).
  - apply insertCert_Ok in H0 as [_ ->]. exists y. split; [apply in_snoc; by left|done].
  - exists y. split; [|done]. apply elem_updated. exists y. split; [done|].
    destruct (p y) eqn:P; [|done]. specialize (H0 y P). congruence.
  - eexists. split; [apply elem_updated; by exists y|]. by destruct (by_serial serial y).
  - unfold insertUser in H1. repeat case_match; simplify_eq. by exists y.
  - apply insertSession_Ok in H1 as (_&_&->). by exists y.
Qed.

Lemma effect_audit_prefix tok t t' : effect tok t t' → audit_log t `prefix_of` audit_log t'.
Proof.
  destruct 1; simpl; try done.
  - by apply insertCert_Ok in H0 as [_ ->].
  - by apply prefix_app_r.
  - unfold insertUser in H1. by repeat case_match; simplify_eq.
  - by apply insertSession_Ok in H1 as (_&_&->).
Qed.

Definition no_session (tokenHash : string) (t : Tables) : Prop := ∀ x, x ∈ sessions t → t_hash x ≠ tokenHash.

Lemma effect_no_session tok tokenHash t t' : tok ≠ Some tokenHash → effect tok t t' →
  no_session tokenHash t → no_session tokenHash t'.
Proof.
  intros Htok E Hn. destruct E; try done.
  - by apply insertCert_Ok in H0 as [_ ->].
  - unfold insertUser in H1. by repeat case_match; simplify_eq.
  - intros x [_ Hx]%list_elem_of_filter. by apply Hn.
  - intros x [_ Hx]%list_elem_of_filter. by apply Hn.
  - apply insertSession_Ok in H1 as (_&_&->). intros y [_ [Hy| ->]%in_snoc]%list_elem_of_filter; [by apply Hn|].
    congruence.
  - intros x [_ Hx]%list_elem_of_filter. by apply Hn.
Qed.

Lemma wf_user_unique t u v : wf t → u ∈ users t → v ∈ users t → u_id u = u_id v → u = v.
Proof. intros Hwf. apply NoDup_fmap_elem_inj, (w_ids _ Hwf). Qed.

Lemma wf_named_unique t u v : wf t → u ∈ users t → v ∈ users t → u_username u = u_username v → u = v.
Proof. intros Hwf. apply NoDup_fmap_elem_inj, (w_names _ Hwf). Qed.

Lemma wf_token_unique t x y : wf t → x ∈ sessions t → y ∈ sessions t → t_hash x = t_hash y → x = y.
Proof. intros Hwf. apply NoDup_fmap_elem_inj, (w_tokens _ Hwf). Qed.

(** The rows a lookup joins. *)
Definition live_session (tokenHash : string) (at' : Z) (t : Tables) (u : UserRow) : Prop :=
  ∃ x, x ∈ sessions t ∧ t_hash x = tokenHash ∧ at' < t_expires x ∧ u ∈ users t ∧ u_id u = t_user x ∧ u_disabled u = 0.

Lemma session_rows_elem tokenHash at' t u : u ∈ session_rows tokenHash at' t ↔ live_session tokenHash at' t u.
Proof.
  unfold session_rows, live_session, has_token. rewrite list_elem_of_bind.
  setoid_rewrite list_elem_of_filter. setoid_rewrite andb_true_iff.
  setoid_rewrite String.eqb_eq. setoid_rewrite Z.ltb_lt. setoid_rewrite Z.eqb_eq. naive_solver.
Qed.

Lemma live_unique tokenHash at' t u v : wf t → live_session tokenHash at' t u → live_session tokenHash at' t v → u = v.
Proof.
  intros Hwf (x&Hx&Ex&_&Hu&Eu&_) (y&Hy&Ey&_&Hv&Ev&_).
  assert (x = y) as <- by (eapply wf_token_unique; [done..|congruence]).
  eapply wf_user_unique; [done..|congruence].
Qed.

Lemma SessionUser_run tokenHash s s' r : healthy s → SessionUser tokenHash s = (s', r) →
  tables s' = tables s ∧
  r = match session_rows tokenHash (unix (clock s)) (tables s) with
      | u :: _ => Some <$> scanUser (totpKey s) u | [] => Ok None end.
Proof.
  intros Hok H1. apply store_bind_run in H1 as [(s1&t0&[= <- <-]&H1)|(e&[=]&_)].
  apply query_inv in H1 as (_&_&T&[->|[_ ?]]); done.
Qed.

(** ** The theorems *)

(** The store's invariant. From an empty database, any sequence of
    operations, with any statement failing at any point and time moving in any
    way, leaves serials unique, every certificate a client's or a server's, at
    most one active certificate per client name and at most one active server
    certificate, user ids and names unique and well formed, every role known,
    every session's token unique and its user present, and audit ids strictly
    increasing. *)
Theorem store_wf os s (Hs : tables s = empty_tables) : wf (tables (run_ops os s)).
Proof.
  apply run_ops_invariant; [intros o t t' _; apply effect_wf|]. rewrite Hs. apply wf_empty.
Qed.

(** C16: a revocation is never lost. A revoked certificate's row survives any
    later operations with its serial, name and revocation date, so every later
    answer of [RevokedCerts], from which the revocation list is signed, has it. *)
Theorem revocation_permanent os s x d s' cs (Hx : x ∈ certs (tables s)) (Hd : k_revoked x = Some d)
    (Hl : RevokedCerts (run_ops os s) = (s', Ok cs)) :
  ∃ c, c ∈ cs ∧ Serial c = k_serial x ∧ store.CN c = k_cn x ∧ RevokedAt c = Some (d * second).
Proof.
  assert (Hh : holds_row x (tables (run_ops os s))).
  { apply run_ops_invariant; [|by exists x]. intros o t t' _. apply effect_keeps_revoked. by rewrite Hd. }
  destruct Hh as (y&Hy&Hk). destruct Hk as (Hs&Hcn&_&_&_&_&Hr).
  apply query_inv in Hl as (_&_&_&[[= ->]|[[? [=]] _]]). exists (scanCert y).
  split; [|simpl; rewrite Hr, Hd; done]. apply list_elem_of_fmap. exists y. split; [done|].
  apply list_elem_of_filter. split; [|done]. unfold is_active. by rewrite Hr, Hd.
Qed.

(** The audit log only grows, and is read newest first. Whatever happens
    later, the entries made so far stay in place, in order; and reading the
    last [limit] entries gives the latest ones, most recent first (all of them
    for a negative limit). *)
Theorem audit_log_correct os s limit s' es (Hwf : wf (tables s))
    (Hr : AuditTail limit (run_ops os s) = (s', Ok es)) :
  let log := audit_log (tables (run_ops os s)) in
  audit_log (tables s) `prefix_of` log ∧
  es = (λ r, mkAuditEntry (a_id r) (a_ts r * second) (a_actor r) (a_action r) (a_detail r)) <$>
         limited limit (reverse log).
Proof.
  split.
  - apply (run_ops_invariant (λ t, audit_log (tables s) `prefix_of` audit_log t)); [|done].
    intros o t t' _ E%effect_audit_prefix Hp. by etrans.
  - assert (Hw : wf (tables (run_ops os s))).
    { apply run_ops_invariant; [intros o t t' _; apply effect_wf|done]. }
    apply query_inv in Hr as (_&_&_&[[= ->]|[[? [=]] _]]). do 2 f_equal.
    pose proof (w_audit _ Hw) as Hinc. set (l := audit_log (tables (run_ops os s))) in *.
    apply (StronglySorted_unique_strong id_desc).
    + intros a b Ha Hb H1 H2. rewrite merge_sort_Permutation in Ha. rewrite elem_of_reverse in Hb.
      eapply (NoDup_fmap_elem_inj a_id l); [|done..|unfold id_desc in *; lia].
      clear -Hinc. induction (a_id <$> l) as [|z k IH]; [constructor|].
      apply StronglySorted_inv in Hinc as [Hs Hf]. constructor; [|auto].
      intros Hz. rewrite Forall_forall in Hf. specialize (Hf _ Hz). lia.
    + apply Sorted_StronglySorted; [intros a b c; unfold id_desc; lia|].
      apply Sorted_merge_sort. intros a b. unfold id_desc. lia.
    + clear -Hinc. induction l as [|a l IH] using rev_ind; [constructor|]. rewrite fmap_app in Hinc.
      apply increasing_snoc in Hinc as [Hs Hlt]. rewrite reverse_app. simpl. constructor; [by apply IH|].
      apply Forall_forall. intros b Hb. rewrite elem_of_reverse in Hb. unfold id_desc.
      assert (a_id b < a_id a); [|lia]. apply Hlt, list_elem_of_fmap. by exists b.
    + by rewrite merge_sort_Permutation, reverse_Permutation.
Qed.

(** Who a session token stands for. In a database meeting the invariant,
    when it answers, a token resolves to a user exactly when a session holds
    it, has not expired and belongs to a user that is not disabled (and whose
    second factor can be decrypted); otherwise it resolves to no one, and there
    is never more than one candidate. *)
Theorem SessionUser_correct tokenHash s s' r (Hwf : wf (tables s)) (Hok : healthy s)
    (H1 : SessionUser tokenHash s = (s', r)) :
  tables s' = tables s ∧
  (∀ u, live_session tokenHash (unix (clock s)) (tables s) u → r = Some <$> scanUser (totpKey s) u) ∧
  (r = Ok None ↔ ∀ u, ¬ live_session tokenHash (unix (clock s)) (tables s) u).
Proof.
  apply SessionUser_run in H1 as [T ->]; [|done]. split; [done|].
  setoid_rewrite <-session_rows_elem.
  destruct (session_rows tokenHash (unix (clock s)) (tables s)) as [|v l] eqn:E.
  - split; [set_solver|]. split; [set_solver|done].
  - split.
    + intros u Hu. assert (u = v) as ->; [|done].
      eapply (live_unique tokenHash); [done|apply session_rows_elem; rewrite E; done|].
      apply session_rows_elem. rewrite E. set_solver.
    + split; [by destruct (scanUser _ v)|]. intros Hno. exfalso. apply (Hno v). set_solver.
Qed.

(** C17: changing a user's password, or deleting the user, ends every session
    of that user for good: whatever happens afterwards, short of a login that
    is handed the very same token, none of those tokens resolves to anyone
    again, also when another user is given the freed id. *)
Theorem password_change_ends_sessions (name hash tok : string) (m : M unit) os s s1 s2 r x u
    (Hm : m = SetUserPassword name hash ∨ m = DeleteUser name) (Hrun : m s = (s1, Ok tt))
    (Hwf : wf (tables s)) (Hx : x ∈ sessions (tables s)) (Hu : u ∈ users (tables s))
    (Hname : u_username u = name) (Hid : t_user x = u_id u)
    (Hno : ∀ o, o ∈ os → op_token o ≠ Some (t_hash x)) (Hok : healthy (run_ops os s1))
    (Hsess : SessionUser (t_hash x) (run_ops os s1) = (s2, r)) :
  r = Ok None.
Proof.
  assert (Hend : no_session (t_hash x) (tables s1)).
  { assert (sessions (tables s1) = filter (λ y, existsb (λ v, named name v && (u_id v =? t_user y)) (users (tables s)) = false)
                                    (sessions (tables s))) as Hss.
    { destruct Hm as [-> | ->]; apply store_bind_run in Hrun as [(s3&n&Hx1&[_ ->]%mustAffect_Ok)|(e&_&[=])];
        apply exec_inv in Hx1 as (_&_&[(e&[=]&_)|(t&k&[= <- <-]&->&_)]); done. }
    intros y Hy Ey. rewrite Hss in Hy. apply list_elem_of_filter in Hy as [Hy1 Hy2].
    assert (y = x) as -> by by eapply wf_token_unique.
    rewrite existsb_none in Hy1. specialize (Hy1 u Hu). unfold named in Hy1.
    by rewrite Hname, Hid, String.eqb_refl, Z.eqb_refl in Hy1. }
  assert (Hfin : no_session (t_hash x) (tables (run_ops os s1))).
  { apply run_ops_invariant; [|done]. intros o t t' Ho. apply effect_no_session. auto. }
  apply SessionUser_run in Hsess as [_ ->]; [|done].
  destruct (session_rows _ _ _) as [|v l] eqn:E; [done|].
  assert (Hv : v ∈ session_rows (t_hash x) (unix (clock (run_ops os s1))) (tables (run_ops os s1))) by (rewrite E; set_solver).
  apply session_rows_elem in Hv as (y&Hy&Ey&_). by destruct (Hfin y Hy).
Qed.
End Life.

(** ** A life of the store *)

Definition first_ops : list op :=
  [OAddCert alice; ORevoke "1a" (350 * second); OAddCert alice2; OAudit "root" "issue" "alice";
   OAddUser "root" "hash" "admin"; OAddSession "tok" 1 (12 * hour); OAudit "root" "login" ""].
Definition first_store : Store := run_ops first_ops demo_store.

Lemma first_wf : wf (tables first_store).
Proof.
  unfold first_store. apply run_ops_invariant; [intros o t t' _; apply effect_wf|exact wf_empty].
Qed.

Lemma store_wf_witness : wf (tables first_store).
Proof. exact (store_wf first_ops demo_store eq_refl). Defined.

Lemma revocation_permanent_witness :
  ∃ c, c ∈ [mkCert "1a" "alice" "client" "PEM" (100 * second) (1000 * second) (Some (350 * second)) true] ∧
    Serial c = "1a" ∧ store.CN c = "alice" ∧ RevokedAt c = Some (350 * second).
Proof.
  apply (revocation_permanent [OAudit "root" "config" ""] first_store
           (set_row_revoked 350 (certArgs alice)) 350 (run_ops [OAudit "root" "config" ""] first_store)).
  - vm_compute. left.
  - done.
  - by vm_compute.
Defined.

Lemma audit_log_correct_witness :
  audit_log (tables first_store) `prefix_of` audit_log (tables (run_ops [OAudit "root" "config" ""] first_store)).
Proof.
  destruct (AuditTail 2 (run_ops [OAudit "root" "config" ""] first_store)) as [s' [es|e]] eqn:E.
  - exact (proj1 (audit_log_correct [OAudit "root" "config" ""] first_store 2 s' es first_wf E)).
  - apply (f_equal snd) in E. vm_compute in E. discriminate.
Defined.

Lemma first_healthy : healthy first_store.
Proof. vm_compute. constructor. Qed.

Lemma SessionUser_correct_witness :
  (SessionUser "tok" first_store).2 = Some <$> scanUser "" (mkUserRow 1 "root" "hash" "admin" None 300 0).
Proof.
  destruct (SessionUser "tok" first_store) as [s' r] eqn:E.
  destruct (SessionUser_correct "tok" first_store s' r first_wf first_healthy E) as (_&Hlive&_).
  apply Hlive. exists (mkSessionRow "tok" 1 300 (300 + 12 * 3600)).
  clear. split_and!; vm_compute; first [left|reflexivity].
Defined.

Definition later_ops : list op := [OAddUser "eve" "h" "readonly"; OAudit "eve" "x" ""].

Lemma later_no_login o : o ∈ later_ops → op_token o ≠ Some "tok".
Proof. revert o. apply Forall_forall. repeat constructor; discriminate. Qed.

Lemma password_change_ends_sessions_witness :
  (SessionUser "tok" (run_ops later_ops (SetUserPassword "root" "new" first_store).1)).2 = Ok None.
Proof.
  destruct (SessionUser "tok" (run_ops later_ops (SetUserPassword "root" "new" first_store).1)) as [s2 r] eqn:E.
  refine (password_change_ends_sessions "root" "new" "tok" (SetUserPassword "root" "new")
           later_ops first_store (SetUserPassword "root" "new" first_store).1
           s2 r (mkSessionRow "tok" 1 300 (300 + 12 * 3600)) (mkUserRow 1 "root" "hash" "admin" None 300 0)
           (or_introl eq_refl) _ first_wf _ _ eq_refl eq_refl later_no_login _ E); clear.
  - vm_compute. reflexivity.
  - vm_compute. left.
  - vm_compute. left.
  - vm_compute. constructor.
Defined.
End storeinv.
