(* ===== verification/Totp.v ===== *)
(** * Totp: one-time codes and the failure limiter (internal/auth/totp.go)

    TOTP as RFC 6238 with 30-second steps and one step of skew either way,
    over an abstract HMAC-SHA1; and the limiter that locks a key out after a
    number of failures in a window. *)

From Stdlib Require Import Ascii.
From S2P Require Import Prelude GoStr GoEnc GoURL.

Module totp.

(** ** One-time codes *)

(** HMAC-SHA1 gives 20 bytes. *)
Class Hmac := {
  hmac_sha1 : string → string → string;
  hmac_size : ∀ key msg, slen (hmac_sha1 key msg) = 20%nat }.

Section Codes.
  Context `{Hmac}.

(** [PutUint64] big-endian. *)
Definition be64 (v : Z) : string :=
  String.string_of_list_ascii ((λ i, ascii_of_N (Z.to_N (Z.shiftr v (8 * (7 - Z.of_nat i)) mod 256))) <$> seq 0 8).

Definition byte_at (i : nat) (s : string) : Z :=
  match String.get i s with Some c => byte_of c | None => 0 end.

(** [Uint32] big-endian at an offset. *)
Definition be32_at (off : nat) (s : string) : Z :=
  Z.lor (Z.shiftl (byte_at off s) 24) (Z.lor (Z.shiftl (byte_at (off + 1) s) 16)
    (Z.lor (Z.shiftl (byte_at (off + 2) s) 8) (byte_at (off + 3) s))).

Fixpoint zero_pad (n : nat) (s : string) : string :=
  match n with O => s | S n' => if (slen s <? n)%nat then zero_pad n' (String "0" s) else s end.

(** [%06d] of a number below a million. *)
Definition six_digits (z : Z) : string :=
  String.string_of_list_ascii (replicate (6 - slen (itoa z)) "0"%char) +:+ itoa z.

(** The code of a step. *)
Definition hotp (key : string) (step : Z) : string :=
  let sum := hmac_sha1 key (be64 step) in
  let off := Z.to_nat (Z.land (byte_at (slen sum - 1) sum) 15) in
  let code := Z.land (be32_at off sum) 2147483647 in
  six_digits (code mod 1000000).

(** [uint64(t.Unix())/30] *)
Definition step_of (t : Z) : Z := wrap_u64 (unix t) / 30.

Definition totpCode (secret : string) (t : Z) : result string :=
  key ← decode_raw base32_std secret;
  Ok (hotp key (step_of t)).

Fixpoint verify_skews (secret code : string) (now : Z) (skews : list Z) : bool :=
  match skews with
  | [] => false
  | skew :: r =>
      match totpCode secret (now + skew) with
      | Err _ => false
      | Ok want => if String.eqb want code then true else verify_skews secret code now r
      end
  end.

Definition TOTPVerify (secret code : string) (now : Z) : bool :=
  verify_skews secret code now [0; - 30 * second; 30 * second].

(** [url.QueryEscape] and [url.PathEscape] are parameters of the link. *)
Definition TOTPProvisioningURL (path_escape query_escape : string → string) (secret account fqdn : string) : string :=
  let issuer := "OVCP" in
  let account := if String.eqb fqdn "" then account else account +:+ "@" +:+ fqdn in
  "otpauth://totp/" +:+ path_escape issuer +:+ ":" +:+ path_escape account +:+ "?secret=" +:+ secret
    +:+ "&issuer=" +:+ query_escape issuer.

Lemma step_before now : 30 * second ≤ now < 2 ^ 63 → step_of (now - 30 * second) = step_of now - 1.
Proof.
  intros [Hlo Hhi]. unfold step_of, wrap_u64, unix, second in *.
  rewrite !Z.mod_small; [|split; [apply Z.div_pos; lia|apply Z.div_lt_upper_bound; lia]..].
  rewrite !Zdiv_Zdiv by lia.
  replace (now - 30 * 1000000000) with (now + (-1) * (1000000000 * 30)) by lia. rewrite Z.div_add by lia. lia.
Qed.

Lemma step_after now : 0 ≤ now < 2 ^ 63 → step_of (now + 30 * second) = step_of now + 1.
Proof.
  intros [Hlo Hhi]. unfold step_of, wrap_u64, unix, second in *.
  rewrite !Z.mod_small; [|split; [apply Z.div_pos; lia|apply Z.div_lt_upper_bound; lia]..].
  rewrite !Zdiv_Zdiv by lia.
  replace (now + 30 * 1000000000) with (now + 1 * (1000000000 * 30)) by lia. rewrite Z.div_add by lia. lia.
Qed.

Lemma verify_skews_true secret code now skews :
  verify_skews secret code now skews = true ↔
  ∃ key k, decode_raw base32_std secret = Ok key ∧ k ∈ skews ∧ code = hotp key (step_of (now + k)).
Proof.
  unfold totpCode. induction skews as [|k skews IH]; simpl; [split; [done|intros (?&?&_&?&_); set_solver]|].
  unfold totpCode. destruct (decode_raw base32_std secret) as [key|e]; simpl.
  - destruct (String.eqb_spec (hotp key (step_of (now + k))) code) as [E|E].
    + split; [|done]. intros _. exists key, k. split; [done|]. split; [by left|done].
    + rewrite IH. split.
      * intros (key'&j&[= <-]&Hj&Hc). exists key, j. split; [done|]. split; [by right|done].
      * intros (key'&j&[= <-]&[->|Hj]%elem_of_cons&Hc); [done|]. by exists key, j.
  - split; [done|]. by intros (?&?&[=]&_).
Qed.

(** C29: which second-factor codes are accepted. A code is accepted exactly
    when the secret decodes and the code is the one of the current 30-second
    step, of the one before or of the one after: a code stays good for at
    most 90 seconds, and clocks may differ by a step. *)
Theorem TOTPVerify_correct secret code now (Hnow : 30 * second ≤ now < 2 ^ 63) :
  TOTPVerify secret code now = true ↔
  ∃ key step, decode_raw base32_std secret = Ok key ∧
    step_of now - 1 ≤ step ≤ step_of now + 1 ∧ code = hotp key step.
Proof.
  unfold TOTPVerify. rewrite verify_skews_true.
  pose proof (step_before now Hnow) as Hb.
  assert (Ha : step_of (now + 30 * second) = step_of now + 1) by (apply step_after; unfold second in *; lia).
  split.
  - intros (key&k&Hk&Hin&->). exists key. rewrite !elem_of_cons in Hin.
    destruct Hin as [->|[->|[->|?%not_elem_of_nil]]]; [..|done].
    + rewrite Z.add_0_r. exists (step_of now). split; [done|]. split; [lia|done].
    + replace (now + -30 * second) with (now - 30 * second) by lia. rewrite Hb. exists (step_of now - 1). split; [done|]. split; [lia|done].
    + rewrite Ha. exists (step_of now + 1). split; [done|]. split; [lia|done].
  - intros (key&step&Hk&Hs&->). exists key. assert (step = step_of now - 1 ∨ step = step_of now ∨ step = step_of now + 1) as Hc by lia.
    destruct Hc as [->|[->| ->]].
    + exists (- 30 * second). split; [done|]. split; [set_solver|].
      replace (now + - 30 * second) with (now - 30 * second) by lia. by rewrite Hb.
    + exists 0. split; [done|]. split; [set_solver|]. by rewrite Z.add_0_r.
    + exists (30 * second). split; [done|]. split; [set_solver|]. by rewrite Ha.
Qed.
End Codes.

(** ** The limiter *)

(** [failures] maps a key to its count and the time of its first failure. *)
Record Limiter := mkLimiter { max : Z; window : Z; failures : gmap string (Z * Z) }.

Definition NewLimiter (max window : Z) : Limiter := mkLimiter max window ∅.

Definition set_failures (l : Limiter) (f : gmap string (Z * Z)) : Limiter := mkLimiter (max l) (window l) f.

(** [l.now().Sub(e.first) > l.window] *)
Definition stale (l : Limiter) (now : Z) (e : Z * Z) : bool := window l <? time_sub now e.2.

Definition Allow (now : Z) (key : string) (l : Limiter) : Limiter * bool :=
  match failures l !! key with
  | None => (l, true)
  | Some e =>
      if stale l now e then (set_failures l (delete key (failures l)), true)
      else (l, e.1 <? max l)
  end.

Definition Fail (now : Z) (key : string) (l : Limiter) : Limiter :=
  let m := filter (λ kv : string * (Z * Z), stale l now kv.2 = false) (failures l) in
  match m !! key with
  | None => set_failures l (<[key := (1, now)]> m)
  | Some e =>
      if stale l now e then set_failures l (<[key := (1, now)]> m)
      else set_failures l (<[key := (e.1 + 1, e.2)]> m)
  end.

Definition Reset (key : string) (l : Limiter) : Limiter := set_failures l (delete key (failures l)).

(** ** Attempts at once

    A login asks its limiter, works for as long as argon2 takes, and then
    counts its failure, resets the key, or ends with neither (a code is still
    wanted, or something else refused it). Each call holds the limiter's lock;
    what the logins at work do meanwhile comes in any order. *)
Inductive event := Asks (now : Z) (key : string) | Fails (now : Z) (key : string) | Leaves (key : string) | Succeeds (key : string).

(** The limiter and the keys of the attempts it has let through that have not
    ended. *)
Definition Gate : Type := Limiter * list string.
Fixpoint leave (key : string) (at_work : list string) : option (list string) :=
  match at_work with
  | [] => None
  | k :: r => if String.eqb k key then Some r else r' ← leave key r; Some (k :: r')
  end.
Definition event_step (e : event) (g : Gate) : option Gate :=
  match e with
  | Asks now key => let '(l, ok) := Allow now key g.1 in Some (l, if ok : bool then key :: g.2 else g.2)
  | Fails now key => at_work ← leave key g.2; Some (Fail now key g.1, at_work)
  | Leaves key => at_work ← leave key g.2; Some (g.1, at_work)
  | Succeeds key => at_work ← leave key g.2; Some (Reset key g.1, at_work)
  end.

(** How many attempts on [key] are at work, and how many guesses were wrong. *)
Definition working (key : string) (at_work : list string) : Z := Z.of_nat (length (filter (λ k, k = key) at_work)).
Fixpoint guesses (key : string) (es : list event) : Z :=
  match es with
  | [] => 0
  | Fails _ k :: r => (if String.eqb k key then 1 else 0) + guesses key r
  | _ :: r => guesses key r
  end.

Definition time_of (t : Z) (e : event) : Z := match e with Asks now _ | Fails now _ => now | _ => t end.
(** A run from [g]: times do not go back, from [t] to at most [u]; at most [c]
    attempts on [key] are at work at once, and none of them succeeds. *)
Fixpoint history (key : string) (c t u : Z) (g : Gate) (es : list event) : Prop :=
  working key g.2 ≤ c ∧
  match es with
  | [] => t ≤ u
  | e :: r => t ≤ time_of t e ∧ e ≠ Succeeds key ∧
      match event_step e g with Some g' => history key c (time_of t e) u g' r | None => False end
  end.

Lemma stale_spec l now e : 0 ≤ window l < max_int64 → stale l now e = true ↔ now - e.2 > window l.
Proof. intros Hw. unfold stale, time_sub. rewrite Z.ltb_lt, <-(sat64_gt _ _ Hw). lia. Qed.

Lemma stale_false l now e : 0 ≤ window l < max_int64 → stale l now e = false ↔ now - e.2 ≤ window l.
Proof. intros Hw. rewrite <-not_true_iff_false, stale_spec by done. lia. Qed.

(** What the sweep leaves of an entry. *)
Lemma swept_lookup l now key :
  filter (λ kv : string * (Z * Z), stale l now kv.2 = false) (failures l) !! key =
  match failures l !! key with Some e => if stale l now e then None else Some e | None => None end.
Proof.
  destruct (failures l !! key) as [e|] eqn:E.
  - destruct (stale l now e) eqn:S.
    + apply map_lookup_filter_None. right. intros e' He'. rewrite E in He'. injection He' as <-. simpl. by rewrite S.
    + by apply map_lookup_filter_Some.
  - apply map_lookup_filter_None. by left.
Qed.

Lemma Fail_lookup now key l : failures (Fail now key l) !! key =
  match failures l !! key with
  | Some e => if stale l now e then Some (1, now) else Some (e.1 + 1, e.2)
  | None => Some (1, now)
  end.
Proof.
  unfold Fail. rewrite swept_lookup. destruct (failures l !! key) as [e|]; [|by simpl; rewrite lookup_insert_eq].
  destruct (stale l now e) eqn:S; [by simpl; rewrite lookup_insert_eq|]. rewrite S. simpl. by rewrite lookup_insert_eq.
Qed.

Lemma Fail_other now k key l : k ≠ key →
  failures (Fail now k l) !! key = failures l !! key ∨
  (failures (Fail now k l) !! key = None ∧ ∃ e, failures l !! key = Some e ∧ stale l now e = true).
Proof.
  intros Hk. assert (failures (Fail now k l) !! key =
    match failures l !! key with Some e => if stale l now e then None else Some e | None => None end) as ->.
  { unfold Fail. rewrite <-swept_lookup. repeat case_match; simpl; by rewrite lookup_insert_ne. }
  destruct (failures l !! key) as [e|]; [|by left]. destruct (stale l now e) eqn:S; [right|by left]. split; [done|]. by exists e.
Qed.

Lemma Fail_const now k l : max (Fail now k l) = max l ∧ window (Fail now k l) = window l.
Proof. unfold Fail. by repeat case_match. Qed.

Lemma Allow_other now k key l : k ≠ key → failures (Allow now k l).1 !! key = failures l !! key.
Proof. intros Hk. unfold Allow. repeat case_match; simpl; try done. by rewrite lookup_delete_ne. Qed.

Lemma Allow_const now k l : max (Allow now k l).1 = max l ∧ window (Allow now k l).1 = window l.
Proof. unfold Allow. by repeat case_match. Qed.

Lemma Allow_same now key l : Allow now key l =
  match failures l !! key with
  | None => (l, true)
  | Some e => if stale l now e then (set_failures l (delete key (failures l)), true) else (l, e.1 <? max l)
  end.
Proof. done. Qed.

Lemma working_cons key k b : working key (k :: b) = (if String.eqb k key then 1 else 0) + working key b.
Proof.
  unfold working. destruct (String.eqb_spec k key) as [->|Hk].
  - rewrite filter_cons_True by done. cbn [length]. lia.
  - by rewrite filter_cons_False.
Qed.

Lemma working_remove key k b b' : leave k b = Some b' →
  working key b = (if String.eqb k key then 1 else 0) + working key b'.
Proof.
  revert b'. induction b as [|x b IH]; intros b'; cbn [leave]; [done|]. destruct (String.eqb_spec x k) as [->|Hx].
  - intros [= <-]. apply working_cons.
  - destruct (leave k b) as [b1|]; [|done]. intros [= <-]. rewrite !working_cons, (IH b1 eq_refl). lia.
Qed.

Lemma working_nonneg key b : 0 ≤ working key b.
Proof. unfold working. lia. Qed.

(** What [mx] a window allows from [t] to [u]: the rest of the current window's
    and as much for each window that can still begin. *)
Definition budget (mx w t u : Z) (e : option (Z * Z)) : Z :=
  match e with
  | None => mx * (1 + (u - t) / (w + 1))
  | Some (c, f) => (mx - c) + mx * ((u - f) / (w + 1))
  end.

Definition entry_ok (mx t : Z) (e : option (Z * Z)) : Prop :=
  match e with None => True | Some (c, f) => 1 ≤ c ≤ mx ∧ f ≤ t end.

Lemma next_window w f now u : 0 ≤ w → f + w < now → 1 + (u - now) / (w + 1) ≤ (u - f) / (w + 1).
Proof.
  intros Hw Hn. replace (1 + (u - now) / (w + 1)) with ((u - now + 1 * (w + 1)) / (w + 1)) by (rewrite Z.div_add; lia).
  apply Z.div_le_mono; lia.
Qed.

Lemma budget_later mx w t now u e : 1 ≤ mx → 0 ≤ w → t ≤ now → entry_ok mx t e →
  budget mx w now u e ≤ budget mx w t u e ∧ entry_ok mx now e.
Proof.
  intros Hm Hw Ht He. destruct e as [[c f]|]; simpl in *; [lia|]. split; [|done].
  assert ((u - now) / (w + 1) ≤ (u - t) / (w + 1)) by (apply Z.div_le_mono; lia). nia.
Qed.

Lemma budget_fresh mx w t now u e : 1 ≤ mx → 0 ≤ w → t ≤ now → entry_ok mx t e →
  match e with None => True | Some (_, f) => f + w < now end →
  1 + budget mx w now u (Some (1, now)) ≤ budget mx w t u e ∧ budget mx w now u None ≤ budget mx w t u e.
Proof.
  intros Hm Hw Ht He Hst. destruct e as [[c f]|]; simpl in *.
  - pose proof (next_window w f now u Hw Hst). nia.
  - assert ((u - now) / (w + 1) ≤ (u - t) / (w + 1)) by (apply Z.div_le_mono; lia). nia.
Qed.

(** With [k] attempts at work a window's count can still reach [cap]. *)
Definition room_ok (cap k : Z) (e : option (Z * Z)) : Prop := match e with None => True | Some (n, _) => n + k ≤ cap end.

Lemma budget_nonneg cap w t u e : 1 ≤ cap → 0 ≤ w → t ≤ u → entry_ok cap t e → 0 ≤ budget cap w t u e.
Proof.
  intros Hc Hw Ht He. destruct e as [[c f]|]; simpl in *.
  - assert (0 ≤ (u - f) / (w + 1)) by (apply Z.div_pos; lia). nia.
  - assert (0 ≤ (u - t) / (w + 1)) by (apply Z.div_pos; lia). nia.
Qed.

(** One call on the key itself: what it leaves of its entry and its room. *)
Lemma asks_same cap w now key l t u k k' : 1 ≤ max l → window l = w → 0 ≤ w < max_int64 → t ≤ now → cap = max l + k' - 1 →
  let '(l', ok) := Allow now key l in
  entry_ok cap t (failures l !! key) → room_ok cap k (failures l !! key) →
  (ok = true → k + 1 ≤ k') → 1 ≤ k' →
  entry_ok cap now (failures l' !! key) ∧ room_ok cap (if ok then k + 1 else k) (failures l' !! key) ∧
  budget cap w now u (failures l' !! key) ≤ budget cap w t u (failures l !! key).
Proof.
  intros Hm <- Hw Ht Hcap. rewrite Allow_same. destruct (failures l !! key) as [[n f]|] eqn:F.
  - destruct (stale l now (n, f)) eqn:S.
    + intros He Hr Hk Hk'. cbn [failures set_failures]. rewrite lookup_delete_eq. split_and!; [done..|].
      apply stale_spec in S; [|done]. apply (budget_fresh cap (window l) t now u (Some (n, f))); simpl in *; lia.
    + intros He Hr Hk Hk'. rewrite F. simpl in *. destruct (Z.ltb_spec n (max l)); split_and!; try lia.
  - intros He Hr Hk Hk'. rewrite F. split_and!; [done..|]. apply budget_later; simpl; lia.
Qed.

Lemma fails_same cap w now key l t u k : 1 ≤ k → k ≤ cap → window l = w → 0 ≤ w < max_int64 → t ≤ now →
  entry_ok cap t (failures l !! key) → room_ok cap k (failures l !! key) →
  let l' := Fail now key l in
  entry_ok cap now (failures l' !! key) ∧ room_ok cap (k - 1) (failures l' !! key) ∧
  1 + budget cap w now u (failures l' !! key) ≤ budget cap w t u (failures l !! key).
Proof.
  intros Hk Hcap <- Hw Ht He Hr l'. subst l'. rewrite Fail_lookup. destruct (failures l !! key) as [[n f]|] eqn:F.
  - destruct (stale l now (n, f)) eqn:S; simpl in *.
    + split_and!; try lia. apply stale_spec in S; [|done].
      apply (budget_fresh cap (window l) t now u (Some (n, f))); simpl in *; lia.
    + split_and!; lia.
  - split_and!; [simpl in *; lia..|]. by apply (budget_fresh cap (window l) t now u None); [lia..| |].
Qed.

Lemma other_key cap w now t u k l l' key : 1 ≤ cap → window l = w → 0 ≤ w < max_int64 → t ≤ now →
  failures l' !! key = failures l !! key ∨
    (failures l' !! key = None ∧ ∃ e, failures l !! key = Some e ∧ stale l now e = true) →
  entry_ok cap t (failures l !! key) → room_ok cap k (failures l !! key) →
  entry_ok cap now (failures l' !! key) ∧ room_ok cap k (failures l' !! key) ∧
  budget cap w now u (failures l' !! key) ≤ budget cap w t u (failures l !! key).
Proof.
  intros Hc <- Hw Ht Hsame He Hr. destruct Hsame as [->|(->&e&F&S)].
  - destruct (budget_later cap (window l) t now u _ Hc (proj1 Hw) Ht He). by split_and!.
  - rewrite F in *. destruct e as [n f]. apply stale_spec in S; [|done]. split_and!; [done..|].
    apply (budget_fresh cap (window l) t now u (Some (n, f))); simpl in *; lia.
Qed.

Lemma history_le key c t u g es : history key c t u g es → t ≤ u.
Proof.
  revert t g. induction es as [|e r IH]; intros t g [_ H]; [done|]. destruct H as (Ht&_&H).
  destruct (event_step e g) as [g'|]; [|done]. apply IH in H. lia.
Qed.

Lemma guesses_budget key c es : ∀ g t u, 1 ≤ max g.1 → 0 ≤ window g.1 < max_int64 → 1 ≤ c → history key c t u g es →
  let cap := max g.1 + c - 1 in
  entry_ok cap t (failures g.1 !! key) → room_ok cap (working key g.2) (failures g.1 !! key) →
  guesses key es ≤ budget cap (window g.1) t u (failures g.1 !! key).
Proof.
  induction es as [|e r IH]; intros [l b] t u Hm Hw Hc Hh cap He Hr; cbn [fst snd] in *.
  { destruct Hh as [_ Ht]. apply budget_nonneg; lia || done. }
  destruct Hh as (Hb&Ht&Hne&Hh). destruct (event_step e (l, b)) as [g'|] eqn:E; [|done].
  assert (Hin : working key g'.2 ≤ c) by (destruct r; apply Hh).
  destruct e as [now k|now k|k|k]; cbn [event_step time_of guesses fst snd] in *.
  - pose proof (Allow_const now k l) as [Em Ew]. destruct (Allow now k l) as [l' ok] eqn:Ea. injection E as <-. cbn [fst snd] in *.
    specialize (IH (l', if ok then k :: b else b) now u). cbn [fst snd] in IH. rewrite Em, Ew in IH. fold cap in IH.
    destruct (String.eqb_spec k key) as [->|Hk].
    + pose proof (asks_same cap (window l) now key l t u (working key b) c Hm eq_refl Hw Ht eq_refl) as Hs. rewrite Ea in Hs.
      destruct (Hs He Hr) as (He'&Hr'&Hbud); [|done|].
      { intros ->. rewrite working_cons, String.eqb_refl in Hin. lia. }
      etrans; [apply IH; [done..|]|done]. destruct ok; [|done]. rewrite working_cons, String.eqb_refl. by rewrite Z.add_comm.
    + pose proof (Allow_other now k key l Hk) as Hsame. rewrite Ea in Hsame. cbn [fst] in Hsame.
      destruct (other_key cap (window l) now t u (working key b) l l' key ltac:(lia) eq_refl Hw Ht (or_introl Hsame) He Hr) as (He'&Hr'&Hbud).
      etrans; [apply IH; [done..|]|done]. destruct ok; [|done]. rewrite working_cons. by rewrite (proj2 (String.eqb_neq _ _) Hk).
  - destruct (leave k b) as [b'|] eqn:Er; [|done]. injection E as <-. cbn [fst snd] in *.
    pose proof (working_remove key _ _ _ Er) as Hwk. pose proof (working_nonneg key b').
    pose proof (Fail_const now k l) as [Em Ew]. specialize (IH (Fail now k l, b') now u). cbn [fst snd] in IH. rewrite Em, Ew in IH. fold cap in IH.
    destruct (String.eqb_spec k key) as [->|Hk].
    + destruct (fails_same cap (window l) now key l t u (working key b) ltac:(lia) ltac:(lia) eq_refl Hw Ht He Hr) as (He'&Hr'&Hbud).
      replace (working key b') with (working key b - 1) in IH by lia. specialize (IH Hm Hw Hc Hh He' Hr'). lia.
    + destruct (other_key cap (window l) now t u (working key b) l (Fail now k l) key ltac:(lia) eq_refl Hw Ht (Fail_other now k key l Hk) He Hr) as (He'&Hr'&Hbud).
      replace (working key b') with (working key b) in IH by lia. specialize (IH Hm Hw Hc Hh He' Hr'). lia.
  - destruct (leave k b) as [b'|] eqn:Er; [|done]. injection E as <-. cbn [fst snd] in *.
    pose proof (working_remove key _ _ _ Er) as Hwk. apply (IH (l, b') t u Hm Hw Hc Hh He). cbn.
    destruct (failures l !! key) as [[n f]|]; [|done]. simpl in *. destruct (String.eqb k key); lia.
  - destruct (leave k b) as [b'|] eqn:Er; [|done]. injection E as <-. cbn [fst snd] in *.
    pose proof (working_remove key _ _ _ Er) as Hwk. assert (Hk : k ≠ key) by congruence.
    specialize (IH (Reset k l, b') t u). cbn [fst snd Reset set_failures max window failures] in IH. rewrite lookup_delete_ne in IH by done.
    apply IH; try done. rewrite (proj2 (String.eqb_neq _ _) Hk) in Hwk. by replace (working key b') with (working key b) by lia.
Qed.

(** C30: how many guesses the limiter lets through. Whatever is attempted on
    other keys, in whatever order concurrent logins make their calls, over a
    time of [u - t] in which none succeeds on it, the wrong guesses on a key are
    at most [max + c - 1] for each window begun in it, where at most [c]
    attempts on the key are at work at once: [max] a window when they come one
    at a time, and no fixed number when they may all come together
    ([together]). *)
Theorem limiter_bound mx w key c es t u (Hm : 1 ≤ mx) (Hw : 0 ≤ w < max_int64) (Hc : 1 ≤ c)
    (Hh : history key c t u (NewLimiter mx w, []) es) :
  guesses key es ≤ (mx + c - 1) * (1 + (u - t) / (w + 1)).
Proof. by apply (guesses_budget key c es (NewLimiter mx w, []) t u). Qed.

(** ** Concrete codes and attempts *)

(** A stand-in for HMAC: the message, padded to 20 bytes. *)
Definition toy_hmac (key msg : string) : string :=
  s_take 20 (msg +:+ String.string_of_list_ascii (replicate 20 "7"%char)).

#[export] Instance toy_hmac_class : Hmac.
Proof.
  refine {| hmac_sha1 := toy_hmac |}. intros key msg. unfold toy_hmac.
  rewrite s_length_take, s_length_app. change (slen (String.string_of_list_ascii (replicate 20 "7"%char))) with 20%nat. lia.
Defined.

Lemma TOTPVerify_correct_witness :
  TOTPVerify "JBSWY3DP" (hotp "Hello" (step_of (1000000 * second) - 1)) (1000000 * second) = true.
Proof.
  apply (TOTPVerify_correct "JBSWY3DP" _ (1000000 * second)); [by vm_compute|].
  exists "Hello", (step_of (1000000 * second) - 1). split; [by vm_compute|]. split; [by vm_compute|done].
Defined.

(** Two at a time, until the limiter refuses. *)
Definition pair_of (key : string) (now : Z) : list event := [Asks now key; Asks now key; Fails now key; Fails now key].
Definition demo_events : list event :=
  mjoin (replicate 2 (pair_of "bob|1.2.3.4" 0)) ++ [Asks 0 "eve"; Succeeds "eve"] ++ pair_of "bob|1.2.3.4" minute ++ [Asks minute "bob|1.2.3.4"].

Lemma limiter_bound_witness : guesses "bob|1.2.3.4" demo_events = 6 ∧
  guesses "bob|1.2.3.4" demo_events ≤ (5 + 2 - 1) * (1 + (minute - 0) / (15 * minute + 1)).
Proof.
  split; [by vm_compute|]. apply (limiter_bound 5 (15 * minute) "bob|1.2.3.4" 2); [by vm_compute|by vm_compute|done|].
  vm_compute. repeat split; discriminate.
Defined.

(** Logins that all ask before the first has failed are all let through: twenty
    guesses in one window past a limit of five. *)
Definition together_events : list event := replicate 20 (Asks 0 "bob|1.2.3.4") ++ replicate 20 (Fails 0 "bob|1.2.3.4").
Example together : guesses "bob|1.2.3.4" together_events = 20 ∧
  foldl (λ g e, g ≫= event_step e) (Some (NewLimiter 5 (15 * minute), [])) together_events =
    Some (mkLimiter 5 (15 * minute) {[ "bob|1.2.3.4" := (20, 0) ]}, []).
Proof. by vm_compute. Qed.
End totp.
