(* ===== verification/Auth.v ===== *)
(** * Auth: roles, passwords, login and sessions (internal/auth/auth.go)

    The login service over the store and two limiters, with argon2id, SHA-256
    and the Unicode classes of characters outside ASCII left abstract. *)

From Stdlib Require Import Ascii.
From S2P Require Import Prelude GoStr GoErr GoEnc Names Store StoreUsers StoreInv Totp.

Module auth.
Import store users totp.

(** ** Roles *)

Definition RoleAdmin : string := "admin".
Definition RoleOperator : string := "operator".
Definition RoleReadonly : string := "readonly".

(** A missing key of the rank map reads 0. *)
Definition rank (r : string) : Z :=
  if String.eqb r RoleReadonly then 0 else if String.eqb r RoleOperator then 1
  else if String.eqb r RoleAdmin then 2 else 0.

Definition Can (r required : string) : bool := rank required <=? rank r.

Definition ValidRole (s : string) : bool :=
  String.eqb s RoleAdmin || String.eqb s RoleOperator || String.eqb s RoleReadonly.

(** ** Secrets *)

Definition MinSecretLen : nat := 8.
Definition MinSecretClasses : nat := 2.
Definition SessionTTL : Z := 12 * hour.

(** [unicode.IsUpper], [IsLower] and [IsDigit] beyond ASCII. *)
Class UnicodeTables := { uni_upper : Z → bool; uni_lower : Z → bool; uni_digit : Z → bool }.

(** argon2id: password, salt, time, memory, threads, key length. *)
Class Argon2 := {
  IDKey : string → string → Z → Z → Z → Z → string;
  IDKey_len : ∀ p s t m par k, 0 ≤ k → Z.of_nat (slen (IDKey p s t m par k)) = k }.

Class Sha256 := { sha256 : string → string }.

Section Auth.
  Context `{UnicodeTables} `{Argon2} `{Sha256} `{Hmac} `{Aead}.

Definition IsUpper (r : Z) : bool := if r <? 128 then (65 <=? r) && (r <=? 90) else uni_upper r.
Definition IsLower (r : Z) : bool := if r <? 128 then (97 <=? r) && (r <=? 122) else uni_lower r.
Definition IsDigit (r : Z) : bool := if r <? 128 then (48 <=? r) && (r <=? 57) else uni_digit r.

Definition class_of (r : Z) : nat :=
  if IsUpper r then 0 else if IsLower r then 1 else if IsDigit r then 2 else 3.

Definition has_class (c : nat) (v : string) : bool := existsb (λ r : Z * string, (class_of r.1 =? c)%nat) (runes v).

Definition secretClasses (v : string) : nat :=
  length (filter (λ b, b = true) [has_class 0 v; has_class 1 v; has_class 2 v; has_class 3 v]).

Definition SecretOK (v : string) : bool :=
  (MinSecretLen <=? slen v)%nat && (MinSecretClasses <=? secretClasses v)%nat.

(** ** Password hashes *)

Definition hTime : Z := 2.
Definition hMemKiB : Z := 64 * 1024.
Definition hThreads : Z := 4.
Definition hKeyLen : Z := 32.

Definition phc (m t p : Z) (salt hash : string) : string :=
  "$argon2id$v=19$m=" +:+ itoa m +:+ ",t=" +:+ itoa t +:+ ",p=" +:+ itoa p +:+ "$" +:+ salt +:+ "$" +:+ hash.

Definition HashPassword (password : string) : M string :=
  salt ← rand_read 16;
  let h := IDKey password salt hTime hMemKiB hThreads hKeyLen in
  mret (phc hMemKiB hTime hThreads (encode_raw base64_std salt) (encode_raw base64_std h)).

(** The leading digits of a string, and the rest. *)
Fixpoint take_digits (s : string) : string * string :=
  match s with
  | "" => ("", "")
  | String c r => if is_digit c then let '(d, r') := take_digits r in (String c d, r') else ("", s)
  end.

(** [fmt.Sscanf] of one %d into an unsigned of [w] bits: blanks are skipped
    but a line break is an error; then at least one digit, in range. *)
Fixpoint skip_blanks (s : string) : option string :=
  match s with
  | "" => Some ""
  | String c r => if Ascii.eqb c LF then None
                  else if Ascii.eqb c " " || Ascii.eqb c TAB || Ascii.eqb c CR || Ascii.eqb c "011" || Ascii.eqb c "012"
                  then skip_blanks r else Some s
  end.

Definition scan_uint (w : Z) (s : string) : option (Z * string) :=
  s ← skip_blanks s;
  let '(d, r) := take_digits s in
  n ← parse_uint d;
  if n <? 2 ^ w then Some (n, r) else None.

(** [Sscanf(s, "m=%d,t=%d,p=%d", …)]; text left over is not an error. *)
Definition scan_params (s : string) : option (Z * Z * Z) :=
  s ← cut_prefix "m=" s; '(m, s) ← scan_uint 32 s;
  s ← cut_prefix ",t=" s; '(t, s) ← scan_uint 32 s;
  s ← cut_prefix ",p=" s; '(p, _) ← scan_uint 8 s;
  Some (m, t, p).

Definition VerifyPassword (password encoded : string) : bool :=
  match split "$" encoded with
  | [_; alg; _; params; salt64; want64] =>
      if String.eqb alg "argon2id" then
        match scan_params params with
        | None => false
        | Some (m, t, par) =>
            match decode_raw base64_std salt64, decode_raw base64_std want64 with
            | Ok salt, Ok want =>
                String.eqb (IDKey password salt t m par (wrap_u32 (Z.of_nat (slen want)))) want
            | _, _ => false
            end
        end
      else false
  | _ => false
  end.

(** ** The service *)

Record Service := mkService { St : Store; Lim : Limiter; UserLim : Limiter }.

Definition NewService (s : Store) : Service :=
  mkService s (NewLimiter 5 (15 * minute)) (NewLimiter 20 (15 * minute)).

Definition hashToken (t : string) : string := hex_encode (sha256 t).

Definition limit_key (username ip : string) : string := username +:+ "|" +:+ ip.

(** [fail()]: count the failure on both limiters, audit it, refuse. *)
Definition refuse (username ip : string) (a : Service) : Service * result (string * User) :=
  let now := clock (St a) in
  (mkService (Audit username "login_fail" ("ip=" +:+ ip) (St a)).1
     (Fail now (limit_key username ip) (Lim a)) (Fail now username (UserLim a)),
   Err (Sentinel ErrBadCredentials)).

(** The session of an accepted user. *)
Definition open_session (username ip : string) (u : User) (a : Service) : Service * result (string * User) :=
  match rand_read 32 (St a) with
  | (s1, Err e) => (mkService s1 (Lim a) (UserLim a), Err e)
  | (s1, Ok raw) =>
      let token := encode_raw base64_url raw in
      match AddSession (hashToken token) (ID u) SessionTTL s1 with
      | (s2, Err e) => (mkService s2 (Lim a) (UserLim a), Err e)
      | (s2, Ok _) =>
          (mkService (Audit username "login" ("ip=" +:+ ip) s2).1
             (Reset (limit_key username ip) (Lim a)) (Reset username (UserLim a)), Ok (token, u))
      end
  end.

(** The checks after the user was read. *)
Definition check_user (username password totp ip : string) (u : User) (a : Service) : Service * result (string * User) :=
  if Disabled u then refuse username ip a
  else if negb (VerifyPassword password (PassHash u)) then refuse username ip a
  else if negb (String.eqb (TOTPSecret u) "") then
    if String.eqb totp "" then (a, Err (Sentinel ErrTOTPRequired))
    else if negb (TOTPVerify (TOTPSecret u) totp (clock (St a))) then refuse username ip a
    else open_session username ip u a
  else open_session username ip u a.

(** The name a login is counted and audited under. *)
Definition login_name (username : string) : string := if is_ok (CheckName "" username) then username else "?".

Definition Login (username password totp ip : string) (a : Service) : Service * result (string * User) :=
  let username := login_name username in
  let now := clock (St a) in
  let '(l1, ok1) := Allow now (limit_key username ip) (Lim a) in
  if negb ok1 then (mkService (St a) l1 (UserLim a), Err (Sentinel ErrRateLimited)) else
  let '(l2, ok2) := Allow now username (UserLim a) in
  if negb ok2 then (mkService (St a) l1 l2, Err (Sentinel ErrRateLimited)) else
  let a := mkService (St a) l1 l2 in
  match GetUser username (St a) with
  | (s1, Err _) => refuse username ip (mkService s1 l1 l2)
  | (s1, Ok u) => check_user username password totp ip u (mkService s1 l1 l2)
  end.

Definition Validate (token : string) : M (option User) :=
  if String.eqb token "" then mret None else SessionUser (hashToken token).

Definition Logout (token : string) : M unit := DeleteSession (hashToken token).

(** ** Lemmas *)

Lemma take_digits_itoa z r : 0 ≤ z → match r with String c _ => is_digit c = false | "" => True end →
  take_digits (itoa z +:+ r) = (itoa z, r).
Proof.
  intros Hz Hr. pose proof (itoa_digits z Hz) as Hd. induction (itoa z) as [|c d IH].
  - rewrite s_app_nil_l. destruct r as [|c r]; [done|]. simpl. by rewrite Hr.
  - rewrite s_app_cons. cbn [take_digits]. unfold s_forallb in Hd. rewrite chars_cons in Hd. cbn in Hd.
    apply andb_true_iff in Hd as [-> Hd]. by rewrite IH.
Qed.

Lemma skip_blanks_itoa z r : 0 ≤ z → skip_blanks (itoa z +:+ r) = Some (itoa z +:+ r).
Proof.
  intros Hz. pose proof (itoa_digits z Hz) as Hd. pose proof (itoa_ne z Hz) as Hne.
  destruct (itoa z) as [|c d]; [done|]. rewrite s_app_cons. unfold s_forallb in Hd. rewrite chars_cons in Hd. cbn in Hd.
  apply andb_true_iff in Hd as [Hc _]. cbn [skip_blanks]. by destruct c as [[] [] [] [] [] [] [] []].
Qed.

Lemma scan_uint_itoa w z r : 0 ≤ z < 2 ^ w → z < 2 ^ 64 → match r with String c _ => is_digit c = false | "" => True end →
  scan_uint w (itoa z +:+ r) = Some (z, r).
Proof.
  intros Hz Hz64 Hr. unfold scan_uint. rewrite skip_blanks_itoa by lia. simpl.
  rewrite take_digits_itoa by (lia || done). rewrite parse_uint_itoa by lia. simpl.
  by rewrite (proj2 (Z.ltb_lt _ _)) by lia.
Qed.

Lemma readable_no_dollar a s : a = base64_std → no_char "$" (encode_raw a s) = true.
Proof.
  intros ->. apply no_char_spec. rewrite encode_chars. intros (d&E&Hin)%list_elem_of_fmap.
  pose proof (digits_of_length 6 [] (bits_of s) ltac:(simpl; lia)) as Hlen.
  rewrite Forall_forall in Hlen. specialize (Hlen _ Hin).
  do 6 (destruct d as [|[] d]; [discriminate| |]); (destruct d; [|discriminate]); by vm_compute in E.
Qed.

Lemma decode_encode_std s : decode_raw base64_std (encode_raw base64_std s) = Ok s.
Proof. apply decode_encode, base64_std_readable. Qed.

Lemma VerifyPassword_phc q m t p salt h : 0 ≤ m < 2 ^ 32 → 0 ≤ t < 2 ^ 32 → 0 ≤ p < 2 ^ 8 →
  VerifyPassword q (phc m t p (encode_raw base64_std salt) (encode_raw base64_std h)) =
  String.eqb (IDKey q salt t m p (wrap_u32 (Z.of_nat (slen h)))) h.
Proof.
  intros Hm Ht Hp. unfold VerifyPassword, phc.
  set (params := "m=" +:+ itoa m +:+ ",t=" +:+ itoa t +:+ ",p=" +:+ itoa p).
  assert (Hpar : no_char "$" params = true).
  { unfold params. rewrite !no_char_app, !itoa_clean by (lia || done). done. }
  replace ("$argon2id$v=19$m=" +:+ itoa m +:+ ",t=" +:+ itoa t +:+ ",p=" +:+ itoa p +:+ "$" +:+
           encode_raw base64_std salt +:+ "$" +:+ encode_raw base64_std h)
    with ("" +:+ String "$" ("argon2id" +:+ String "$" ("v=19" +:+ String "$" (params +:+ String "$"
           (encode_raw base64_std salt +:+ String "$" (encode_raw base64_std h))))))
    by (unfold params; do 4 (sapp; rewrite <-?s_app_assoc); done).
  rewrite !split_app by (done || by apply readable_no_dollar).
  rewrite split_no_char by by apply readable_no_dollar.
  change (String.eqb "argon2id" "argon2id") with true. cbv iota.
  assert (scan_params params = Some (m, t, p)) as ->.
  { unfold scan_params, params. rewrite cut_prefix_app. cbn [mbind option_bind].
    rewrite scan_uint_itoa by (lia || done). cbn [mbind option_bind].
    rewrite cut_prefix_app. cbn [mbind option_bind]. rewrite scan_uint_itoa by (lia || done). cbn [mbind option_bind].
    rewrite cut_prefix_app. cbn [mbind option_bind]. rewrite <-(s_app_nil_r (itoa p)).
    by rewrite scan_uint_itoa by (lia || done). }
  by rewrite !decode_encode_std.
Qed.

Lemma Audit_frame actor action detail s :
  let s' := (Audit actor action detail s).1 in
  sessions (tables s') = sessions (tables s) ∧ users (tables s') = users (tables s) ∧
  clock s' = clock s ∧ totpKey s' = totpKey s.
Proof.
  simpl. destruct (Audit actor action detail s) as [s' r] eqn:E. simpl.
  apply store_bind_run in E as [(s1&t0&[= <- <-]&E)|(e&[=]&_)].
  apply store_bind_run in E as [(s2&[]&Hx&E)|(e&Hx&->)].
  - apply exec_inv in Hx as ([? ? _ _ _]&_&[(e&[=]&_)|(t&[]&[= <-]&Ht&_)]).
    unfold run_hook in E. injection E as <-. destruct (hook s2); simpl; rewrite Ht; done.
  - apply exec_inv in Hx as ([? ? _ _ _]&_&[(e'&_&Ht&_)|(t&[]&_&_&[=])]). by rewrite Ht.
Qed.

Lemma GetUser_run username s s' r : GetUser username s = (s', r) →
  tables s' = tables s ∧ same_env s s' ∧
  ∀ u, r = Ok u → ∃ row, List.find (named username) (users (tables s)) = Some row ∧ scanUser (totpKey s) row = Ok u.
Proof.
  unfold GetUser, with_key. intros Hq. apply query_inv in Hq as (Se&_&T&Hr). split; [done|]. split; [done|].
  intros u ->. destruct Hr as [Hr|[[? [=]] _]]. destruct (List.find _ _) as [row|]; [by exists row|done].
Qed.

(** What an accepted login leaves behind. *)
Record opened (username password totp ip : string) (a a' : Service) (token : string) (u : User) (op_row : UserRow) : Prop := {
  op_find : List.find (named username) (users (tables (St a))) = Some op_row;
  op_user : scanUser (totpKey (St a)) op_row = Ok u;
  op_enabled : Disabled u = false;
  op_password : VerifyPassword password (PassHash u) = true;
  op_totp : TOTPSecret u ≠ "" → TOTPVerify (TOTPSecret u) totp (clock (St a)) = true;
  op_fresh : ∀ x, x ∈ sessions (tables (St a)) → t_hash x ≠ hashToken token;
  op_sessions : sessions (tables (St a')) =
    filter (λ y, t_expires y <=? unix (clock (St a)) = false)
      (sessions (tables (St a)) ++
       [mkSessionRow (hashToken token) (ID u) (unix (clock (St a))) (unix (clock (St a) + SessionTTL))]);
  op_users : users (tables (St a')) = users (tables (St a));
  op_key : totpKey (St a') = totpKey (St a);
  op_lim : failures (Lim a') !! limit_key username ip = None;
  op_ulim : failures (UserLim a') !! username = None }.

Lemma open_session_run username password totp ip row u (a0 a a' : Service) r :
  tables (St a) = tables (St a0) → same_env (St a0) (St a) →
  List.find (named username) (users (tables (St a0))) = Some row → scanUser (totpKey (St a0)) row = Ok u →
  Disabled u = false → VerifyPassword password (PassHash u) = true →
  (TOTPSecret u ≠ "" → TOTPVerify (TOTPSecret u) totp (clock (St a0)) = true) →
  open_session username ip u a = (a', r) →
  match r with
  | Ok (token, u') => u' = u ∧ opened username password totp ip a0 a' token u row
  | Err e => sessions (tables (St a')) = sessions (tables (St a0)) ∧ users (tables (St a')) = users (tables (St a0))
  end.
Proof.
  intros T Se Hf Hu He Hp Ht. unfold open_session.
  destruct (rand_read 32 (St a)) as [s1 [raw|e]] eqn:R.
  2:{ unfold rand_read in R. destruct (_ <=? _)%nat; [done|]. injection R as <- <-. intros [= <- <-]. simpl. by rewrite T. }
  apply rand_read_Ok in R as (_&_&R).
  destruct (AddSession _ (ID u) SessionTTL s1) as [s2 [[]|e]] eqn:E;
    apply store_bind_run in E as [(s3&t0&[= <- <-]&E)|(e'&[=]&_)];
    apply exec_inv in E as (Se2&_&[(e'&Er&T2&_)|(t&[]&Hi&T2&Er)]); try discriminate Er.
  - intros [= <- <-]. split; [done|]. apply storeinv.insertSession_Ok in Hi as (Hnew&_&->).
    destruct (Audit_frame username "login" ("ip=" +:+ ip) s2) as (A1&A2&A3&A4).
    rewrite R in Hnew, T2, Se2. simpl in Hnew, T2, Se2. rewrite T in Hnew, T2.
    assert (C : clock (St a) = clock (St a0)) by apply (se_clock _ _ Se).
    split; try done; simpl.
    + rewrite A1, T2. simpl. by rewrite C.
    + by rewrite A2, T2.
    + rewrite A4, (se_key _ _ Se2). simpl. apply (se_key _ _ Se).
    + by rewrite lookup_delete_eq.
    + by rewrite lookup_delete_eq.
  - intros [= <- <-]. simpl. rewrite T2, R. simpl. by rewrite T.
Qed.

Lemma refuse_run username ip (a0 a : Service) : tables (St a) = tables (St a0) →
  sessions (tables (St (refuse username ip a).1)) = sessions (tables (St a0)) ∧
  users (tables (St (refuse username ip a).1)) = users (tables (St a0)).
Proof.
  intros T. unfold refuse. cbn [fst St]. destruct (Audit_frame username "login_fail" ("ip=" +:+ ip) (St a)) as (->&->&_).
  by rewrite T.
Qed.

Lemma check_user_run username password totp ip row u (a0 a a' : Service) r :
  tables (St a) = tables (St a0) → same_env (St a0) (St a) →
  List.find (named username) (users (tables (St a0))) = Some row → scanUser (totpKey (St a0)) row = Ok u →
  check_user username password totp ip u a = (a', r) →
  match r with
  | Ok (token, u') => u' = u ∧ opened username password totp ip a0 a' token u row
  | Err e => sessions (tables (St a')) = sessions (tables (St a0)) ∧ users (tables (St a')) = users (tables (St a0))
  end.
Proof.
  intros T Se Hf Hu. unfold check_user.
  destruct (refuse username ip a) as [ar rr] eqn:R. pose proof (refuse_run username ip a0 a T) as HR. rewrite R in HR.
  assert (Hr : ∃ e, rr = Err e) by (unfold refuse in R; injection R as _ <-; eauto). destruct Hr as [e ->].
  destruct (Disabled u) eqn:D; [by intros [= <- <-]|].
  destruct (VerifyPassword password (PassHash u)) eqn:V; [|by intros [= <- <-]]. simpl.
  destruct (String.eqb_spec (TOTPSecret u) "") as [Es|Es]; simpl.
  - by apply open_session_run.
  - destruct (String.eqb totp ""); [intros [= <- <-]; by rewrite T|].
    destruct (TOTPVerify (TOTPSecret u) totp (clock (St a))) eqn:TV; [|by intros [= <- <-]]. simpl.
    rewrite (se_clock _ _ Se) in TV. by apply open_session_run.
Qed.

Lemma login_name_cases username : login_name username = username ∧ nameRe username = true ∨
  login_name username = "?" ∧ nameRe username = false.
Proof. unfold login_name, CheckName. destruct (nameRe username); simpl; auto. Qed.

(** ** The theorems *)

(** C5: only the right credentials open a session. Whatever happens, a login
    that reports an error leaves users and sessions as they were; one that
    succeeds was let through by both limiters, and opens, for twelve hours and
    under a token no other session had, a session of the very user named, who
    is not disabled, whose stored hash the password meets and, if enrolled,
    whose second factor the code meets; both limiters then forget the
    failures. *)
Theorem Login_correct username password totp ip a a' r (Hwf : storeinv.wf (tables (St a)))
    (H1' : Login username password totp ip a = (a', r)) :
  match r with
  | Ok (token, u) =>
      (Allow (clock (St a)) (limit_key username ip) (Lim a)).2 = true ∧
      (Allow (clock (St a)) username (UserLim a)).2 = true ∧
      ∃ row, opened username password totp ip a a' token u row
  | Err e => sessions (tables (St a')) = sessions (tables (St a)) ∧ users (tables (St a')) = users (tables (St a))
  end.
Proof.
  unfold Login in H1'. destruct (Allow _ (limit_key _ ip) (Lim a)) as [l1 [|]] eqn:A1; [|by injection H1' as <- <-].
  destruct (Allow _ (login_name username) (UserLim a)) as [l2 [|]] eqn:A2; [|by injection H1' as <- <-]. simpl in H1'.
  destruct (GetUser (login_name username) (St a)) as [s1 rg] eqn:G. apply GetUser_run in G as (T&Se&Hg).
  destruct rg as [u|e].
  - destruct (Hg u eq_refl) as (row&Hf&Hu).
    assert (Hn : login_name username = username).
    { destruct (login_name_cases username) as [[? _]|[E _]]; [done|]. rewrite E in Hf.
      apply find_Some_elem in Hf as [Hin Hq]. unfold named in Hq. apply String.eqb_eq in Hq.
      destruct (storeinv.w_users _ Hwf row Hin) as [Hre _]. by rewrite Hq in Hre. }
    rewrite Hn in *.
    apply (check_user_run username password totp ip row u a (mkService s1 l1 l2)) in H1'; [|done..].
    destruct r as [[token u']|e]; [|done]. destruct H1' as [-> Ho]. rewrite A1, A2. by eauto.
  - pose proof (refuse_run (login_name username) ip a (mkService s1 l1 l2) T) as HR.
    rewrite H1' in HR. unfold refuse in H1'. by injection H1' as _ <-.
Qed.

Lemma scanUser_fields key row u : scanUser key row = Ok u →
  ID u = u_id row ∧ PassHash u = u_pass_hash row ∧ Disabled u = negb (u_disabled row =? 0).
Proof. unfold scanUser. intros Hs. bind_inv. done. Qed.

Lemma token_ne s s' raw : rand_read 32 s = (s', Ok raw) → encode_raw base64_url raw ≠ "".
Proof.
  intros (Hl&_&_)%rand_read_Ok E. pose proof (decode_encode base64_url raw base64_url_readable) as D.
  rewrite E in D. injection D as <-. done.
Qed.

Lemma Login_token username password totp ip a a' token u :
  Login username password totp ip a = (a', Ok (token, u)) → token ≠ "".
Proof.
  assert (Hopen : ∀ n i v b, open_session n i v b = (a', Ok (token, u)) → token ≠ "").
  { intros n i v b. unfold open_session. destruct (rand_read 32 (St b)) as [s1 [raw|]] eqn:R; [|done].
    destruct (AddSession _ _ _ s1) as [s2 [|]]; [|done]. intros [= _ <- _]. by eapply token_ne. }
  unfold Login. destruct (Allow _ _ (Lim a)) as [l1 [|]]; [|done].
  destruct (Allow _ _ (UserLim a)) as [l2 [|]]; [|done]. simpl.
  destruct (GetUser _ (St a)) as [s1 [v|]]; [|done]. unfold check_user.
  repeat case_match; try done; try apply Hopen.
Qed.

(** C28: the life of a login. The token a login returned resolves to the user
    that logged in until twelve hours have passed, to the second, and to no
    one afterwards; and once it was logged out it resolves to no one. *)
Theorem Login_Validate username password totp ip a a' token u s1 s2 r
    (Hwf : storeinv.wf (tables (St a))) (Hlogin : Login username password totp ip a = (a', Ok (token, u)))
    (Ht : tables s1 = tables (St a')) (Hkey : totpKey s1 = totpKey (St a')) (Hok : healthy s1)
    (Hv : Validate token s1 = (s2, r)) :
  r = (if unix (clock s1) <? unix (clock (St a) + SessionTTL) then Ok (Some u) else Ok None) ∧
  (∀ s3 s4 s5 r', Logout token s2 = (s3, Ok tt) → tables s4 = tables s3 → healthy s4 →
     Validate token s4 = (s5, r') → r' = Ok None).
Proof.
  pose proof (Login_token _ _ _ _ _ _ _ _ Hlogin) as Hne.
  apply Login_correct in Hlogin as (_&_&row&Ho); [|done]. destruct (scanUser_fields _ _ _ (op_user _ _ _ _ _ _ _ _ _ Ho)) as (Hid&_&Hdis).
  unfold Validate in *. destruct (String.eqb_spec token "") as [|_]; [done|].
  apply storeinv.SessionUser_run in Hv as [T2 ->]; [|done]. split.
  - assert (Hin : ∀ v, v ∈ session_rows (hashToken token) (unix (clock s1)) (tables s1) ↔
      v = row ∧ unix (clock s1) < unix (clock (St a) + SessionTTL)).
    { intros v. rewrite storeinv.session_rows_elem. unfold storeinv.live_session. rewrite Ht, (op_sessions _ _ _ _ _ _ _ _ _ Ho), (op_users _ _ _ _ _ _ _ _ _ Ho).
      pose proof (find_Some_elem _ _ _ (op_find _ _ _ _ _ _ _ _ _ Ho)) as [Hrow _].
      setoid_rewrite list_elem_of_filter. split.
      - intros (x&[Hx1 [Hx|Hx%list_elem_of_singleton]%elem_of_app]&Hx2&Hexp&Hv&Ev&_).
        + by destruct (op_fresh _ _ _ _ _ _ _ _ _ Ho x Hx).
        + subst x. simpl in *. split; [|done]. eapply storeinv.wf_user_unique; [done..|congruence].
      - intros [-> Hlt]. eexists. split; [split; [|apply elem_of_app; right; by apply list_elem_of_singleton]|]; simpl.
        + apply Z.leb_gt. unfold SessionTTL, unix, hour, minute, second. apply Z.div_lt_upper_bound; [lia|].
          pose proof (Z.mul_div_le (clock (St a)) 1000000000). pose proof (Z.mod_pos_bound (clock (St a) + 12 * (60 * (60 * 1000000000))) 1000000000).
          pose proof (Z.div_mod (clock (St a) + 12 * (60 * (60 * 1000000000))) 1000000000). lia.
        + rewrite (op_enabled _ _ _ _ _ _ _ _ _ Ho) in Hdis. symmetry in Hdis. apply negb_false_iff in Hdis. bprop. done. }
    destruct (Z.ltb_spec (unix (clock s1)) (unix (clock (St a) + SessionTTL))) as [Hlt|Hge].
    + destruct (session_rows _ _ _) as [|v l] eqn:E.
      * exfalso. apply (not_elem_of_nil row). by apply Hin.
      * assert (v = row ∧ unix (clock s1) < unix (clock (St a) + SessionTTL)) as [-> _] by (apply Hin; set_solver).
        by rewrite Hkey, (op_key _ _ _ _ _ _ _ _ _ Ho), (op_user _ _ _ _ _ _ _ _ _ Ho).
    + destruct (session_rows _ _ _) as [|v l] eqn:E; [done|].
      assert (v = row ∧ unix (clock s1) < unix (clock (St a) + SessionTTL)) as [_ ?] by (apply Hin; set_solver). lia.
  - intros s3 s4 s5 r' Hout T4 Hok4 Hv'. apply storeinv.SessionUser_run in Hv' as [_ ->]; [|done].
    apply exec_inv in Hout as (_&_&[(e&[=]&_)|(t&[]&[= <-]&T3&_)]). rewrite T4, T3.
    destruct (session_rows _ _ _) as [|v l] eqn:E; [done|]. exfalso.
    assert (Hl : storeinv.live_session (hashToken token) (unix (clock s4))
      (with_sessions (tables s2) (filter (λ x, has_token (hashToken token) x = false) (sessions (tables s2)))) v)
      by (apply storeinv.session_rows_elem; rewrite E; set_solver).
    destruct Hl as (x&[Hx _]%list_elem_of_filter&Ex&_). unfold has_token in Hx. by rewrite Ex, String.eqb_refl in Hx.
Qed.

(** A stored password hash accepts the password it was made from, and
    another only if argon2id maps both to the same key under the hash's own
    sixteen random bytes of salt. *)
Theorem HashPassword_VerifyPassword password s s' h (H1' : HashPassword password s = (s', Ok h)) :
  ∃ salt, slen salt = 16%nat ∧ salt = s_take 16 (entropy s) ∧
    ∀ q, VerifyPassword q h = true ↔ IDKey q salt 2 65536 4 32 = IDKey password salt 2 65536 4 32.
Proof.
  unfold HashPassword in H1'. apply store_bind_run in H1' as [(s1&salt&R&E)|(e&_&[=])].
  injection E as <- <-. pose proof (rand_read_Ok _ _ _ _ R) as (Hl&He&_). exists salt. split; [done|].
  split; [rewrite He, <-Hl; by rewrite s_take_app|]. intros q.
  rewrite VerifyPassword_phc by (unfold hMemKiB, hTime, hThreads; lia).
  rewrite IDKey_len by (unfold hKeyLen; lia). change (wrap_u32 hKeyLen) with 32. apply String.eqb_eq.
Qed.
End Auth.

(** ** A concrete service *)

#[export] Instance toy_tables : UnicodeTables := {| uni_upper _ := false; uni_lower _ := false; uni_digit _ := false |}.

Fixpoint stretch (n : nat) (s : string) : string :=
  match n with O => "" | S n' => match s with "" => String "0" (stretch n' "") | String c r => String c (stretch n' r) end end.

Lemma stretch_len n s : slen (stretch n s) = n.
Proof. revert s. induction n as [|n IH]; intros [|c s]; simpl; auto. Qed.

#[export] Instance toy_argon2 : Argon2.
Proof.
  refine {| IDKey p salt t m par k := stretch (Z.to_nat k) (p +:+ salt) |}.
  intros. rewrite stretch_len. lia.
Defined.

#[export] Instance toy_sha256 : Sha256 := {| sha256 t := t |}.

Example secrets : SecretOK "hunter22" = true ∧ SecretOK "hunterhunter" = false ∧ SecretOK "hunt2" = false.
Proof. by vm_compute. Qed.

Definition noise : string := "abcdefghijklmnopqrstuvwxyz0123456789ABCDEFGHIJKLMNOPQRSTUVWXYZ".
Definition empty_store (t : Z) : Store := mkStore empty_tables "" false [] t [] noise.
Definition root_hash : string := match (HashPassword "hunter22" (empty_store 0)).2 with Ok h => h | Err _ => "" end.
Definition root_ops : list storeinv.op := [storeinv.OAddUser "root" root_hash "admin"].
Definition demo_service : Service := NewService (storeinv.run_ops root_ops (empty_store (1000 * second))).

Lemma demo_wf : storeinv.wf (tables (St demo_service)).
Proof.
  unfold demo_service, NewService. cbn [St].
  apply storeinv.run_ops_invariant; [intros o t t' _; apply storeinv.effect_wf|exact storeinv.wf_empty].
Qed.

Definition logged_in : Service * result (string * User) := Login "root" "hunter22" "" "1.2.3.4" demo_service.
Definition demo_token : string := match logged_in.2 with Ok (t, _) => t | Err _ => "" end.
Definition demo_user : User := mkUser 1 "root" root_hash "admin" "" false (1000 * second).

Lemma logged_in_ok : logged_in = (logged_in.1, Ok (demo_token, demo_user)).
Proof. by vm_compute. Qed.

Lemma HashPassword_VerifyPassword_witness : VerifyPassword "hunter22" root_hash = true.
Proof.
  destruct (HashPassword_VerifyPassword "hunter22" (empty_store 0) (HashPassword "hunter22" (empty_store 0)).1 root_hash)
    as (salt&_&_&Hq); [by vm_compute|]. by apply Hq.
Defined.

Lemma Login_correct_witness :
  ∃ row, opened "root" "hunter22" "" "1.2.3.4" demo_service logged_in.1 demo_token demo_user row.
Proof.
  exact (proj2 (proj2 (Login_correct "root" "hunter22" "" "1.2.3.4" demo_service logged_in.1 _ demo_wf logged_in_ok))).
Defined.

Definition an_hour_later : Store := mkStore (tables (St logged_in.1)) "" false [] (4600 * second) [] "".

Lemma later_healthy : healthy an_hour_later.
Proof. constructor. Qed.

Lemma Login_Validate_witness : (Validate demo_token an_hour_later).2 = Ok (Some demo_user).
Proof.
  destruct (Validate demo_token an_hour_later) as [s2 r] eqn:E.
  exact (proj1 (Login_Validate "root" "hunter22" "" "1.2.3.4" demo_service logged_in.1 demo_token demo_user
           an_hour_later s2 r demo_wf logged_in_ok eq_refl eq_refl later_healthy E)).
Defined.
End auth.
