(* ===== verification/OvpnConf.v ===== *)
(** * OvpnConf: the openvpn server configuration (internal/ovpnconf/config.go)

    Defaults, validation, rendering, the line diff and the atomic install.
    [generated] lists the directives the renderer itself writes; the
    theorem about [Render] says no configuration can add any other than those
    the source allows by name. *)

From Stdlib Require Import Ascii.
From S2P Require Import Prelude GoStr GoErr GoRunes GoFs NetIP Names.

Module ovpnconf.

(** ** Configuration *)

Record Config := mkConfig {
  Proto : string; Port : Z; Subnet : string; Cipher : string; DNS : list string; PushInternalDNS : bool;
  Routes : list string; RedirectGW : bool; Extra : string;
  CACert : string; ServerCert : string; ServerKey : string; CRL : string; TLSCrypt : string;
  MgmtSocket : string; StatusLog : string; ServerCN : string;
  StatusInterval : Z; ManagementClientAuth : bool }.

Definition CanSplitTunnel (c : Config) : bool := RedirectGW c.

Definition defaultStatusInterval : Z := 3.
Definition EffectiveStatusInterval (c : Config) : Z :=
  if StatusInterval c <=? 0 then defaultStatusInterval else StatusInterval c.

(** [server[len(server)-1]++] on a byte. *)
Definition ServerTunIP (c : Config) : result IP :=
  match ParseCIDR (Subnet c) with
  | None => Err (Wrapf "ovpnconf: subnet: %w" [] (ExternalErr "invalid CIDR address"))
  | Some (_, ipnet) =>
      match To4 (net_ip ipnet) with
      | None => Err (Errorf "ovpnconf: subnet must be IPv4" [])
      | Some ip => Ok (alter (λ b, wrap_u8 (b + 1)) (length ip - 1)%nat ip)
      end
  end.

(** [cmp.Or] of two strings. *)
Definition str_or (a b : string) : string := if String.eqb a "" then b else a.

Section Env.
  Context (getenv : string → string).

Definition EnvInt (key : string) (def : Z) : Z :=
  let v := getenv key in
  if String.eqb v "" then def else match atoi v with Some n => n | None => def end.

Definition SplitCSV (s : string) : list string :=
  if String.eqb s "" then []
  else filter (λ p, String.eqb p "" = false) (trim_space <$> split "," s).

Definition Default : Config :=
  mkConfig (str_or (getenv "OVCP_OPENVPN_PROTO") "udp") (EnvInt "OVCP_OPENVPN_PORT" 1194)
    (str_or (getenv "OVCP_OPENVPN_SUBNET") "10.8.0.0/24") (str_or (getenv "OVCP_OPENVPN_CIPHER") "AES-256-GCM")
    (SplitCSV (getenv "OVCP_OPENVPN_DNS")) false (SplitCSV (getenv "OVCP_OPENVPN_ROUTES"))
    (negb (String.eqb (getenv "OVCP_OPENVPN_REDIRECT_GW") "false")) (getenv "OVCP_OPENVPN_EXTRA")
    "" "" "" "" "" "" "" "" 0 false.

(** [json.Unmarshal] over the defaults; its error is dropped. *)
Definition Load (unmarshal : string → Config → Config) (raw : string) : Config :=
  if String.eqb raw "" then Default else unmarshal raw Default.
End Env.

(** ** Validation *)

Definition allowedCiphers : list string := ["AES-256-GCM"; "AES-128-GCM"; "CHACHA20-POLY1305"].

Definition extraAllowed : list string :=
  ["local"; "push"; "keepalive"; "client-to-client"; "max-clients"; "max-routes-per-client"; "inactive";
   "session-timeout"; "connect-freq"; "hand-window"; "tls-version-min"; "tls-version-max"; "tls-cert-profile";
   "tls-cipher"; "tls-ciphersuites"; "ecdh-curve"; "remote-cert-eku"; "remote-cert-ku"; "reneg-bytes";
   "reneg-pkts"; "reneg-sec"; "replay-window"; "mute-replay-warnings"; "mute"; "mssfix"; "fragment"; "tun-mtu";
   "tcp-nodelay"].

Definition mem (l : list string) (s : string) : bool := existsb (String.eqb s) l.

Definition is_comment (f : string) : bool :=
  match f with String c _ => Ascii.eqb c "#" || Ascii.eqb c ";" | "" => false end.

Definition extra_ok (line : string) : result unit :=
  match fields line with
  | [] => Ok tt
  | f :: _ => if is_comment f then Ok tt
              else guard_ok (mem extraAllowed (trim_prefix "--" f)) (Errorf "ovpnconf: extra directive %q not allowed" [f])
  end.

Fixpoint each {A} (f : A → result unit) (l : list A) : result unit :=
  match l with [] => Ok tt | x :: r => f x;; each f r end.

Definition dns_ok (d : string) : result unit :=
  guard_ok (bool_decide (is_Some (ParseIP d))) (Errorf "ovpnconf: bad DNS ip %q" [d]).

Definition invalid_cidr : goerr := ExternalErr "invalid CIDR address".

Definition Validate (c : Config) : result unit :=
  guard_ok (String.eqb (Proto c) "udp" || String.eqb (Proto c) "tcp") (Errorf "ovpnconf: proto must be udp or tcp" []);;
  guard_ok ((1 <=? Port c) && (Port c <=? 65535)) (Errorf "ovpnconf: port out of range" []);;
  guard_ok (mem allowedCiphers (Cipher c)) (Errorf "ovpnconf: cipher %q not allowed" [Cipher c]);;
  guard_ok (bool_decide (is_Some (ParseCIDR (Subnet c)))) (Wrapf "ovpnconf: subnet: %w" [] invalid_cidr);;
  each dns_ok (DNS c);;
  each (λ r, guard_ok (bool_decide (is_Some (ParseCIDR r))) (Wrapf "ovpnconf: route %q: %w" [r] invalid_cidr)) (Routes c);;
  each extra_ok (split LF (Extra c)).

(** ** Rendering *)

(** The domain of a host name; an address or a single label has none. *)
Definition Domain (cn : string) : string :=
  match ParseIP cn with Some _ => "" | None => (cut "." cn).1.2 end.

Definition push (option_ : string) : string := "push " +:+ String "034" (option_ +:+ String "034" "").

(** [None] where the source would dereference the nil network of an unparsed
    address. *)
Fixpoint route_lines (rs : list string) : option (list string) :=
  match rs with
  | [] => Some []
  | r :: rs' =>
      '(rip, rnet) ← ParseCIDR r;
      ls ← route_lines rs';
      Some (push ("route " +:+ IP_String (Mask rip (net_mask rnet)) +:+ " " +:+ IP_String (net_mask rnet)) :: ls)
  end.

(** A line written only when a condition holds. *)
Definition when (b : bool) (ls : list string) : list string := if b then ls else [].

Definition Render_lines (c : Config) : option (list string) :=
  '(ip, ipnet) ← ParseCIDR (Subnet c);
  let mask := IP_String (net_mask ipnet) in
  routes ← route_lines (Routes c);
  let domain := Domain (ServerCN c) in
  let extra := trim_space (Extra c) in
  Some (
    ["# generated by ovcp — do not edit; changes are overwritten";
     "proto " +:+ Proto c;
     "port " +:+ itoa (Port c);
     "dev " +:+ TunDev;
     "dev-type tun";
     "topology subnet";
     "server " +:+ IP_String (Mask ip (net_mask ipnet)) +:+ " " +:+ mask;
     "ca " +:+ CACert c;
     "cert " +:+ ServerCert c;
     "key " +:+ ServerKey c;
     "crl-verify " +:+ CRL c;
     "tls-crypt " +:+ TLSCrypt c;
     "dh none";
     "disable-dco";
     "data-ciphers " +:+ Cipher c;
     "data-ciphers-fallback " +:+ Cipher c;
     "auth SHA256";
     "keepalive 10 60";
     "persist-tun";
     "management " +:+ MgmtSocket c +:+ " unix"] ++
    when (ManagementClientAuth c) ["management-client-auth"; "management-hold"; "auth-user-pass-optional"] ++
    ["status " +:+ StatusLog c +:+ " " +:+ itoa (EffectiveStatusInterval c);
     "status-version 3";
     "verb 3";
     "suppress-timestamps"] ++
    when (RedirectGW c) [push "redirect-gateway def1 bypass-dhcp"] ++
    (if PushInternalDNS c then
       match ServerTunIP c with Ok ip => [push ("dhcp-option DNS " +:+ IP_String ip)] | Err _ => [] end
     else []) ++
    ((λ d, push ("dhcp-option DNS " +:+ d)) <$> DNS c) ++
    when (PushInternalDNS c && negb (String.eqb domain ""))
      [push ("dhcp-option DOMAIN " +:+ domain); push ("dhcp-option DOMAIN-SEARCH " +:+ domain)] ++
    routes ++
    when (String.eqb (Proto c) "udp") ["explicit-exit-notify 1"] ++
    when (negb (String.eqb extra "")) ["# --- custom options ---"; extra]).

Definition Render (c : Config) : option string := unlines <$> Render_lines c.

(** ** The line diff *)

(** Row [i] of the table from row [i+1]: entry [j] is the length of the longest
    common subsequence of what remains of both. *)
Fixpoint lcs_row (x : string) (b : list string) (next : list nat) : list nat :=
  match b with
  | [] => [O]
  | y :: b' =>
      let row := lcs_row x b' (tail next) in
      (if String.eqb x y then S (default O (next !! 1%nat))
       else Nat.max (default O (head next)) (default O (head row))) :: row
  end.

Fixpoint lcs_table (a b : list string) : list (list nat) :=
  match a with
  | [] => [replicate (S (length b)) O]
  | x :: a' => let t := lcs_table a' b in lcs_row x b (default [] (head t)) :: t
  end.

Definition at_ij (t : list (list nat)) (i j : nat) : nat := default O (t !! i ≫= λ r, r !! j).

(** The walk from [i], [j]; every turn moves one of them on. *)
Fixpoint diff_walk (fuel : nat) (a b : list string) (t : list (list nat)) (i j : nat) : list string :=
  match fuel with
  | O => []
  | S fuel' =>
      match a !! i, b !! j with
      | None, None => []
      | Some x, None => ("-" +:+ x) :: diff_walk fuel' a b t (S i) j
      | None, Some y => ("+" +:+ y) :: diff_walk fuel' a b t i (S j)
      | Some x, Some y =>
          if String.eqb x y then diff_walk fuel' a b t (S i) (S j)
          else if (at_ij t i (S j) <=? at_ij t (S i) j)%nat then ("-" +:+ x) :: diff_walk fuel' a b t (S i) j
          else ("+" +:+ y) :: diff_walk fuel' a b t i (S j)
      end
  end.

Definition diff_lines (s : string) : list string := split LF (trim_right is_lf s).

Definition Diff (old new : string) : list string :=
  let a := diff_lines old in
  let b := diff_lines new in
  diff_walk (length a + length b) a b (lcs_table a b) 0 0.

(** ** Installing *)

Definition tmp_of (path : string) : string := join_path (dir_of path) ".server.conf.tmp".

(** [None] is the panic of rendering an invalid configuration, which
    validation excludes. *)
Definition WriteAtomic (c : Config) (path : string) : F unit :=
  match Validate c with
  | Err e => f_fail e
  | Ok _ =>
      match Render c with
      | None => f_fail (ExternalErr "panic")
      | Some text => WriteFile (tmp_of path) text ;; Rename (tmp_of path) path
      end
  end.

(** ** Text without line breaks *)

Lemma no_lf_hex_digit v : 0 ≤ v < 16 → Ascii.eqb (hex_digit v) LF = false.
Proof.
  intros Hv. assert (v ∈ (Z.of_nat <$> seq 0 16)) as H.
  { apply list_elem_of_fmap. exists (Z.to_nat v). split; [lia|]. apply elem_of_seq. lia. }
  clear Hv. revert v H. apply Forall_forall. by repeat constructor.
Qed.

Lemma no_lf_hex16 v : no_char LF (hex16 v) = true.
Proof.
  assert (H : ∀ k, Ascii.eqb (hex_digit (Z.land (Z.shiftr v k) 15)) LF = false).
  { intros k. apply no_lf_hex_digit. change 15 with (Z.ones 4). rewrite Z.land_ones by lia.
    apply Z.mod_pos_bound. lia. }
  unfold hex16. repeat case_match; rewrite !no_char_cons, !H; done.
Qed.

Lemma no_lf_itoa z : no_char LF (itoa z) = true.
Proof.
  destruct (Z.le_gt_cases 0 z); [by apply itoa_clean|].
  destruct z as [|p|p]; [lia|lia|]. change (itoa (Z.neg p)) with (String "-" (itoa (Z.pos p))).
  rewrite no_char_cons, itoa_clean by done. done.
Qed.

Lemma no_lf_join sep l : no_char LF sep = true → Forall (λ x, no_char LF x = true) l → no_char LF (join sep l) = true.
Proof.
  intros Hs. induction 1 as [|x l Hx Hl IH]; [done|]. destruct l; [done|].
  rewrite join_cons by done. by rewrite !no_char_app, Hx, Hs, IH.
Qed.

Lemma no_lf_IP ip : no_char LF (IP_String ip) = true.
Proof.
  unfold IP_String. destruct ip as [|z ip]; [done|]. destruct (To4 (z :: ip)).
  - apply no_lf_join; [done|]. apply Forall_fmap, Forall_forall. intros. apply no_lf_itoa.
  - unfold string_v6. destruct (best_run _ _ _) as [st k].
    assert (H : ∀ gs, Forall (λ x, no_char LF x = true) (hex16 <$> gs)).
    { intros gs. apply Forall_fmap, Forall_forall. intros. apply no_lf_hex16. }
    case_match; [by apply no_lf_join|]. rewrite !no_char_app.
    by rewrite !no_lf_join by (done || apply Forall_take, H || apply Forall_drop, H).
Qed.

Lemma no_lf_ip_text s a : ParseIP s = Some a → no_char LF s = true.
Proof. intros H%ParseIP_chars. by eapply no_char_of_forallb; [|exact H]. Qed.

Lemma no_lf_cut c s : no_char LF s = true → no_char LF (cut c s).1.2 = true.
Proof.
  intros H. induction s as [|d s IH]; [done|]. rewrite no_char_cons in H. apply andb_true_iff in H as [Hd Hs].
  cbn [cut]. destruct (Ascii.eqb d c); [done|]. specialize (IH Hs). by destruct (cut c s) as [[? ?] ?].
Qed.

Lemma split_app_nl x r : split LF (x +:+ nl +:+ r) = split LF x ++ split LF r.
Proof. apply split_sep. Qed.

Lemma split_unlines_elem ls l : l ∈ split LF (unlines ls) ↔ l = "" ∨ ∃ x, x ∈ ls ∧ l ∈ split LF x.
Proof.
  induction ls as [|x ls IH].
  - change (unlines []) with "". simpl. set_solver.
  - rewrite unlines_cons, split_app_nl, elem_of_app, IH. set_solver.
Qed.

(** The first word of a line. *)
Lemma fields_go_word w acc rs : s_forallb not_space w = true →
  fields_go (Some acc) (((λ c, (byte_of c, String c "")) <$> chars w) ++ rs) = fields_go (Some (acc +:+ w)) rs.
Proof.
  revert acc. induction w as [|c w IH]; intros acc; [by rewrite s_app_nil_r|]. unfold s_forallb. rewrite chars_cons.
  cbn [forallb]. intros [Hc Hw]%andb_true_iff. rewrite fmap_cons. cbn [app fields_go].
  unfold not_space in Hc. apply andb_true_iff in Hc as [_ Hc%negb_true_iff]. rewrite Hc. simpl.
  rewrite IH by done. by rewrite <-s_app_assoc.
Qed.

Lemma fields_word w r : s_forallb not_space w = true → w ≠ "" →
  (r = "" ∨ ∃ r', r = String " " r') → ∃ fs, fields (w +:+ r) = w :: fs.
Proof.
  intros Hw Hne Hr. unfold fields. rewrite runes_app by (destruct Hr as [->|[r' ->]]; done).
  rewrite runes_ascii by by apply not_space_ascii. destruct w as [|c w]; [done|].
  unfold s_forallb in Hw. rewrite chars_cons in *. cbn [forallb] in Hw. apply andb_true_iff in Hw as [Hc Hw].
  rewrite fmap_cons. cbn [app fields_go]. unfold not_space in Hc. apply andb_true_iff in Hc as [_ Hc%negb_true_iff].
  rewrite Hc. simpl. rewrite fields_go_word by done. sapp.
  destruct Hr as [->|[r' ->]]; [by eexists|]. rewrite runes_step. change (head_rune " " r') with ((32, " "), r'). by eexists.
Qed.

(** ** What a rendered line may be *)

(** The directives the renderer writes itself. *)
Definition generated : list string :=
  ["proto"; "port"; "dev"; "dev-type"; "topology"; "server"; "ca"; "cert"; "key"; "crl-verify"; "tls-crypt"; "dh";
   "disable-dco"; "data-ciphers"; "data-ciphers-fallback"; "auth"; "keepalive"; "persist-tun"; "management";
   "management-client-auth"; "management-hold"; "auth-user-pass-optional"; "status"; "status-version"; "verb";
   "suppress-timestamps"; "push"; "explicit-exit-notify"; "#"].

Definition line_ok (l : string) : Prop :=
  match fields l with
  | [] => True
  | f :: _ => is_comment f = true ∨ f ∈ generated ∨ mem extraAllowed (trim_prefix "--" f) = true
  end.

(** One line, led by a generated directive. *)
Definition good (x : string) : Prop :=
  no_char LF x = true ∧ ∃ w r, w ∈ generated ∧ x = w +:+ r ∧ (r = "" ∨ ∃ r', r = String " " r').

Lemma generated_words w : w ∈ generated → s_forallb not_space w = true ∧ w ≠ "".
Proof. revert w. apply Forall_forall. repeat constructor; discriminate. Qed.

Lemma good_line x l : good x → l ∈ split LF x → line_ok l.
Proof.
  intros [Hno (w&r&Hw&->&Hr)]. rewrite split_no_char by done. intros ->%list_elem_of_singleton.
  destruct (generated_words w Hw) as [Hs Hne]. destruct (fields_word w r Hs Hne Hr) as [fs E].
  unfold line_ok. rewrite E. auto.
Qed.

Lemma good_word w r : mem generated w = true → no_char LF r = true → good (w +:+ String " " r).
Proof.
  intros Hw Hr. assert (Hin : w ∈ generated).
  { unfold mem in Hw. apply existsb_elem in Hw as (x&Hx&->%String.eqb_eq). done. }
  split; [|exists w, (String " " r); eauto]. rewrite no_char_app, no_char_cons, Hr.
  assert (no_char LF w = true) as ->; [|done]. clear -Hin. revert w Hin. apply Forall_forall. by repeat constructor.
Qed.

Lemma good_bare w : mem generated w = true → good w.
Proof.
  intros Hw. assert (Hin : w ∈ generated).
  { unfold mem in Hw. apply existsb_elem in Hw as (x&Hx&->%String.eqb_eq). done. }
  split; [|exists w, ""; rewrite s_app_nil_r; eauto]. clear -Hin. revert w Hin. apply Forall_forall. by repeat constructor.
Qed.

Lemma good_push o : no_char LF o = true → good (push o).
Proof.
  intros Ho. unfold push. replace ("push " +:+ String "034" (o +:+ String "034" ""))
    with ("push" +:+ String " " (String "034" (o +:+ String "034" ""))) by by sapp.
  apply good_word; [done|]. by rewrite no_char_cons, no_char_app, Ho.
Qed.

(** ** Validation, clause by clause *)

Lemma each_Ok {A} (f : A → result unit) l : each f l = Ok tt ↔ ∀ x, x ∈ l → f x = Ok tt.
Proof.
  induction l as [|x l IH]; simpl; [split; [set_solver|done]|].
  destruct (f x) as [[]|e] eqn:E; simpl.
  - rewrite IH. set_solver.
  - split; [done|]. intros H. rewrite (H x) in E by set_solver. done.
Qed.

Record Valid (c : Config) : Prop := {
  v_proto : Proto c = "udp" ∨ Proto c = "tcp";
  v_port : 1 ≤ Port c ≤ 65535;
  v_cipher : mem allowedCiphers (Cipher c) = true;
  v_subnet : is_Some (ParseCIDR (Subnet c));
  v_dns : ∀ d, d ∈ DNS c → is_Some (ParseIP d);
  v_routes : ∀ r, r ∈ Routes c → is_Some (ParseCIDR r);
  v_extra : ∀ l, l ∈ split LF (Extra c) → extra_ok l = Ok tt }.

Lemma conf_Validate_Ok c : Validate c = Ok tt ↔ Valid c.
Proof.
  unfold Validate. rewrite !guard_bind_Ok. split.
  - intros (Hp&Hport&Hc&Hs&H). bind_inv. bprop.
    rewrite each_Ok in *. split; try done.
    + intros d Hd. specialize (H0 d Hd). unfold dns_ok in H0. apply guard_ok_Ok in H0. by bprop.
    + intros r Hr. specialize (H1 r Hr). apply guard_ok_Ok in H1. by bprop.
  - intros [Hp Hport Hc Hs Hd Hr He]. split; [by bprop|]. split; [by bprop|]. split; [done|]. split; [by bprop|].
    rewrite (proj2 (each_Ok dns_ok (DNS c))); cbn [mbind result_bind].
    + rewrite (proj2 (each_Ok _ (Routes c))); cbn [mbind result_bind]; [by apply each_Ok|].
      intros r Hin. apply guard_ok_Ok. bprop. auto.
    + intros d Hin. apply guard_ok_Ok. bprop. auto.
Qed.

Lemma extra_line_ok l l' : fields l' = fields l → extra_ok l' = Ok tt → line_ok l.
Proof.
  unfold extra_ok, line_ok. intros ->. destruct (fields l) as [|f fs]; [done|].
  destruct (is_comment f); [auto|]. intros H%guard_ok_Ok. auto.
Qed.

Lemma no_lf_cipher s : mem allowedCiphers s = true → no_char LF s = true.
Proof.
  unfold mem. intros (x&Hx&->%String.eqb_eq)%existsb_elem. revert x Hx. apply Forall_forall. by repeat constructor.
Qed.

Lemma route_lines_good rs : (∀ r, r ∈ rs → is_Some (ParseCIDR r)) →
  ∃ ls, route_lines rs = Some ls ∧ Forall good ls.
Proof.
  induction rs as [|r rs IH]; intros H; [by exists []|]. destruct (H r) as [[rip rnet] E]; [by left|].
  destruct IH as (ls&El&Hls); [intros; apply H; by right|]. eexists. simpl. rewrite E. simpl. rewrite El. simpl.
  split; [done|]. constructor; [|done]. apply good_push. rewrite !no_char_app, !no_lf_IP. done.
Qed.

(** The values the program itself puts in: paths and the server's name. *)
Definition paths_clean (c : Config) : Prop :=
  Forall (λ p, no_char LF p = true)
    [CACert c; ServerCert c; ServerKey c; CRL c; TLSCrypt c; MgmtSocket c; StatusLog c; ServerCN c].

Lemma no_lf_Domain cn : no_char LF cn = true → no_char LF (Domain cn) = true.
Proof. unfold Domain. intros H. destruct (ParseIP cn); [done|]. by apply no_lf_cut. Qed.

(** [good_word] up to where the text is cut. *)
Lemma good_text w r x : x = w +:+ String " " r → mem generated w = true → no_char LF r = true → good x.
Proof. intros -> ??. by apply good_word. Qed.

Ltac good_line w := eapply (good_text w); [by sapp|done|
  repeat (rewrite no_char_app || rewrite no_char_cons); rewrite ?no_lf_IP, ?no_lf_itoa].

Lemma Forall_when b (ls : list string) (P : string → Prop) : (b = true → Forall P ls) → Forall P (when b ls).
Proof. destruct b; simpl; auto. Qed.

Lemma Forall_good ls e : Forall good ls → Forall (λ x, good x ∨ x = e) ls.
Proof. intros H. eapply Forall_impl; [exact H|]. auto. Qed.

Ltac good_lines := rewrite !Forall_cons, Forall_nil; split_and!; [..|done].

Lemma Render_lines_good c : Valid c → paths_clean c → ∃ ls, Render_lines c = Some ls ∧
  ∀ x, x ∈ ls → good x ∨ x = trim_space (Extra c).
Proof.
  intros [Hp Hport Hc [[ip ipnet] Hs] Hd Hr _] Hpaths. unfold Render_lines. rewrite Hs. cbn [mbind option_bind].
  destruct (route_lines_good (Routes c) Hr) as (rls&->&Hrls). cbn [mbind option_bind].
  unfold paths_clean in Hpaths. rewrite !Forall_cons in Hpaths. destruct Hpaths as (P1&P2&P3&P4&P5&P6&P7&P8&_).
  assert (Hproto : no_char LF (Proto c) = true) by (by destruct Hp as [-> | ->]).
  pose proof (no_lf_cipher _ Hc) as Hcipher. pose proof (no_lf_Domain _ P8) as Hdom.
  eexists. split; [reflexivity|]. apply Forall_forall. rewrite !Forall_app. split_and!.
  - apply Forall_good. good_lines.
    + good_line "#". done. + by good_line "proto". + by good_line "port". + by good_line "dev". + by good_line "dev-type".
    + by good_line "topology". + by good_line "server". + by good_line "ca". + by good_line "cert".
    + by good_line "key". + by good_line "crl-verify". + by good_line "tls-crypt". + by good_line "dh".
    + by apply good_bare. + by good_line "data-ciphers". + by good_line "data-ciphers-fallback".
    + by good_line "auth". + by good_line "keepalive". + by apply good_bare.
    + good_line "management". by rewrite P6.
  - apply Forall_when. intros _. apply Forall_good. good_lines; by apply good_bare.
  - apply Forall_good. good_lines.
    + good_line "status". by rewrite P7. + by good_line "status-version". + by good_line "verb". + by apply good_bare.
  - apply Forall_when. intros _. apply Forall_good. good_lines. by apply good_push.
  - destruct (PushInternalDNS c); [|by apply Forall_nil]. destruct (ServerTunIP c); [|by apply Forall_nil].
    apply Forall_good. good_lines. apply good_push. by rewrite no_char_app, no_lf_IP.
  - apply Forall_good, Forall_fmap, Forall_forall. intros d Hin. destruct (Hd d Hin) as [a Ha]. simpl. apply good_push.
    by rewrite no_char_app, (no_lf_ip_text _ _ Ha).
  - apply Forall_when. intros _. apply Forall_good. good_lines; apply good_push; by rewrite no_char_app, Hdom.
  - by apply Forall_good.
  - apply Forall_when. intros _. apply Forall_good. good_lines. by good_line "explicit-exit-notify".
  - apply Forall_when. intros _. rewrite !Forall_cons, Forall_nil. split_and!; [left|by right|done].
    good_line "#". done.
Qed.

(** C18: no configuration can make openvpn do anything it should not. Rendering
    a configuration that validates always works, and every line of the result
    is empty, a comment, led by one of the directives the renderer writes
    itself, or by one of those the free-form options may name: whatever the
    addresses, routes and options hold, no script, plugin or file directive
    gets in. Only the program's own paths and the server's name are assumed to
    hold no line break. *)
Theorem Render_directives c (Hv : Validate c = Ok tt) (Hp : paths_clean c) :
  ∃ text, Render c = Some text ∧ ∀ l, l ∈ split LF text → line_ok l.
Proof.
  apply conf_Validate_Ok in Hv. destruct (Render_lines_good c Hv Hp) as (ls&E&Hls).
  unfold Render. rewrite E. eexists. split; [done|]. intros l [->|(x&Hx&Hl)]%split_unlines_elem; [done|].
  destruct (Hls x Hx) as [Hg| ->]; [by eapply good_line|].
  destruct (trim_lines _ _ Hl) as (l'&Hl'&E'). eapply extra_line_ok; [done|]. by apply (v_extra _ Hv).
Qed.

Lemma WriteAtomic_run c path s s' r (Hpath : tmp_of path ≠ path) (H : WriteAtomic c path s = (s', r)) :
  (∀ p, p ≠ path → p ≠ tmp_of path → files s' !! p = files s !! p) ∧
  match r with
  | Ok _ => ∃ text, Render c = Some text ∧ files s' !! path = Some text
  | Err _ => files s' !! path = files s !! path ∧ (is_ok (Validate c) = false → s' = s)
  end ∧
  (is_ok r = true ↔ is_ok (Validate c) = true ∧ next_fault s = None ∧ next_fault (after s ∅) = None).
Proof.
  unfold WriteAtomic in H. destruct (Validate c) as [[]|e] eqn:V.
  2:{ injection H as <- <-. split; [done|]. split; [done|]. simpl. naive_solver. }
  destruct (Render c) as [text|] eqn:R.
  2:{ exfalso. apply conf_Validate_Ok in V. unfold Render, Render_lines in R.
      destruct (v_subnet _ V) as [[ip ipnet] E]. rewrite E in R. simpl in R.
      by destruct (route_lines_good (Routes c) (v_routes _ V)) as (ls&El&_); rewrite El in R. }
  apply f_bind_run in H as [(s1&[]&H1&H2)|(e&H1&->)].
  - pose proof (WriteFile_run _ _ _ _ _ H1) as [_ Hw]. apply Rename_run in H2 as Hr.
    assert (Ef : next_fault s = None ∧ s1 = after s (<[tmp_of path := text]> (files s))).
    { unfold WriteFile in H1. destruct (next_fault s) as [[? [?|]]|]; by simplify_eq. }
    destruct Ef as [Ef ->]. unfold Rename in H2.
    change (next_fault (after s (<[tmp_of path := text]> (files s)))) with (next_fault (after s ∅)) in H2.
    simpl in H2. rewrite lookup_insert_eq in H2.
    destruct (next_fault (after s ∅)) as [[e2 k2]|] eqn:Ef2; injection H2 as <- <-; simpl.
    + split; [intros p Hp1 Hp2; by rewrite lookup_insert_ne|]. split; [|naive_solver].
      split; [by rewrite lookup_insert_ne|done].
    + split; [|split; [exists text; by rewrite lookup_insert_eq|done]].
      intros p Hp1 Hp2. by rewrite lookup_insert_ne, lookup_delete_ne, lookup_insert_ne.
  - apply WriteFile_run in H1 as [Ho Hf]. split; [auto|]. split; [split; [by apply Ho|done]|].
    split; [done|]. by intros (_&?&_).
Qed.

(** Installing is atomic. A configuration that does not validate touches
    nothing; otherwise the file at [path] is replaced by the whole rendered
    text when the call succeeds and is exactly as before when it fails, at
    whichever step and however much of the temporary file was written; no
    other file than the temporary one is touched, and nothing but a failing
    disk makes it fail. *)
Theorem WriteAtomic_correct c path s s' r (Hpath : tmp_of path ≠ path) (H : WriteAtomic c path s = (s', r)) :
  (∀ p, p ≠ path → p ≠ tmp_of path → files s' !! p = files s !! p) ∧
  match r with
  | Ok _ => ∃ text, Render c = Some text ∧ files s' !! path = Some text
  | Err _ => files s' !! path = files s !! path ∧ (is_ok (Validate c) = false → s' = s)
  end ∧
  (is_ok r = true ↔ is_ok (Validate c) = true ∧ next_fault s = None ∧ next_fault (after s ∅) = None).
Proof. by apply WriteAtomic_run. Qed.

(** ** The diff is a shortest edit script *)

(** Length of a longest common subsequence. *)
Fixpoint L (a : list string) : list string → nat :=
  match a with
  | [] => λ _, O
  | x :: a' =>
      fix Lx (b : list string) : nat :=
        match b with
        | [] => O
        | y :: b' => if String.eqb x y then S (L a' b') else Nat.max (L a' b) (Lx b')
        end
  end.

Lemma L_nil_r a : L a [] = O.
Proof. by destruct a. Qed.

Lemma L_cons x a y b : L (x :: a) (y :: b) = if String.eqb x y then S (L a b) else Nat.max (L a (y :: b)) (L (x :: a) b).
Proof. done. Qed.

#[local] Arguments L : simpl never.

(** The entries of a row: what remains of [b] after each position. *)
Fixpoint row (a b : list string) : list nat :=
  match b with [] => [L a []] | _ :: b' => L a b :: row a b' end.

Lemma row_head a b : head (row a b) = Some (L a b).
Proof. by destruct b. Qed.

Lemma lcs_row_spec x a b : lcs_row x b (row a b) = row (x :: a) b.
Proof.
  induction b as [|y b IH]; [done|]. cbn [lcs_row row tail head]. rewrite IH, row_head. cbn [default].
  f_equal. rewrite L_cons. destruct (String.eqb x y); [|done].
  destruct b as [|z b]; simpl; by rewrite ?L_nil_r.
Qed.

Fixpoint rows (a b : list string) : list (list nat) :=
  match a with [] => [row [] b] | _ :: a' => row a b :: rows a' b end.

Lemma lcs_table_spec a b : lcs_table a b = rows a b.
Proof.
  induction a as [|x a IH]; cbn [lcs_table rows].
  - f_equal. induction b as [|y b IH]; [done|]. simpl. by rewrite <-IH.
  - rewrite IH. f_equal. assert (head (rows a b) = Some (row a b)) as -> by (by destruct a). simpl. apply lcs_row_spec.
Qed.

Lemma row_lookup a b j : (j ≤ length b)%nat → row a b !! j = Some (L a (drop j b)).
Proof.
  revert j. induction b as [|y b IH]; intros [|j] Hj; simpl in *; try done; [lia|]. apply IH. lia.
Qed.

Lemma rows_lookup a b i : (i ≤ length a)%nat → rows a b !! i = Some (row (drop i a) b).
Proof.
  revert i. induction a as [|x a IH]; intros [|i] Hi; simpl in *; try done; [lia|]. apply IH. lia.
Qed.

Lemma at_ij_spec a b i j : (i ≤ length a)%nat → (j ≤ length b)%nat → at_ij (lcs_table a b) i j = L (drop i a) (drop j b).
Proof. intros Hi Hj. unfold at_ij. rewrite lcs_table_spec, rows_lookup by done. simpl. by rewrite row_lookup. Qed.

(** No common subsequence is longer. *)
Lemma L_max a b k : k `sublist_of` a → k `sublist_of` b → (length k ≤ L a b)%nat.
Proof.
  revert b k. induction a as [|x a IH]; intros b k Ha Hb; [by apply sublist_nil_r in Ha as ->|].
  revert k Ha Hb. induction b as [|y b IHb]; intros k Ha Hb; [by apply sublist_nil_r in Hb as ->|].
  rewrite L_cons. destruct (String.eqb_spec x y) as [<-|Hxy].
  - apply sublist_cons_r in Ha as [Ha|(k'&->&Ha)].
    + apply sublist_cons_r in Hb as [Hb|(k'&->&Hb)]; [specialize (IH b k Ha Hb); lia|].
      assert (k' `sublist_of` a) by (etrans; [|exact Ha]; by apply sublist_cons).
      simpl. specialize (IH b k' ltac:(done) Hb). lia.
    + assert (k' `sublist_of` b) as Hb'.
      { apply sublist_cons_r in Hb as [Hb|(k2&[= <-]&Hb)]; [|done]. etrans; [|exact Hb]. by apply sublist_cons. }
      simpl. specialize (IH b k' Ha Hb'). lia.
  - apply sublist_cons_r in Ha as [Ha|(k'&->&Ha)].
    + specialize (IH (y :: b) k Ha Hb). lia.
    + apply sublist_cons_r in Hb as [Hb|(k2&[= -> _]&_)]; [|done].
      specialize (IHb (x :: k') ltac:(by apply sublist_skip) Hb). lia.
Qed.

(** What an edit keeps, removes and adds. *)
Inductive edit := Keep (x : string) | Del (x : string) | Ins (x : string).
Definition old_of (es : list edit) : list string := omap (λ e, match e with Keep x | Del x => Some x | Ins _ => None end) es.
Definition new_of (es : list edit) : list string := omap (λ e, match e with Keep x | Ins x => Some x | Del _ => None end) es.
Definition shown (es : list edit) : list string :=
  omap (λ e, match e with Keep _ => None | Del x => Some ("-" +:+ x) | Ins x => Some ("+" +:+ x) end) es.
Definition kept (es : list edit) : list string := omap (λ e, match e with Keep x => Some x | _ => None end) es.

Lemma diff_walk_spec a b fuel i j : (i ≤ length a)%nat → (j ≤ length b)%nat →
  ((length a - i) + (length b - j) ≤ fuel)%nat →
  ∃ es, old_of es = drop i a ∧ new_of es = drop j b ∧ shown es = diff_walk fuel a b (lcs_table a b) i j ∧
        length (kept es) = L (drop i a) (drop j b).
Proof.
  revert i j. induction fuel as [|fuel IH]; intros i j Hi Hj Hf.
  - exists []. rewrite !drop_ge by lia. done.
  - cbn [diff_walk]. destruct (a !! i) as [x|] eqn:Ea; destruct (b !! j) as [y|] eqn:Eb.
    + pose proof (lookup_lt_Some _ _ _ Ea). pose proof (lookup_lt_Some _ _ _ Eb).
      rewrite (drop_S a x i), (drop_S b y j) by done. rewrite L_cons.
      rewrite !at_ij_spec, (drop_S a x i), (drop_S b y j) by (done || lia).
      destruct (String.eqb_spec x y) as [<-|Hxy].
      * destruct (IH (S i) (S j)) as (es&E1&E2&E3&E4); [lia..|]. exists (Keep x :: es). simpl. by rewrite E1, E2, E3, E4.
      * case_match eqn:C; bprop.
        -- destruct (IH (S i) j) as (es&E1&E2&E3&E4); [lia..|]. exists (Del x :: es). simpl.
           rewrite E1, E2, E3, E4, (drop_S b y j) by done. split_and!; try done. lia.
        -- destruct (IH i (S j)) as (es&E1&E2&E3&E4); [lia..|]. exists (Ins y :: es). simpl.
           rewrite E1, E2, E3, E4, (drop_S a x i) by done. split_and!; try done. lia.
    + pose proof (lookup_lt_Some _ _ _ Ea). apply lookup_ge_None in Eb.
      destruct (IH (S i) j) as (es&E1&E2&E3&E4); [lia..|]. exists (Del x :: es). simpl.
      rewrite E1, E2, E3, E4, (drop_S a x i), (drop_ge b) by done. by rewrite !L_nil_r.
    + pose proof (lookup_lt_Some _ _ _ Eb). apply lookup_ge_None in Ea.
      destruct (IH i (S j)) as (es&E1&E2&E3&E4); [lia..|]. exists (Ins y :: es). simpl.
      rewrite E1, E2, E3, E4, (drop_S b y j), (drop_ge a) by done. done.
    + apply lookup_ge_None in Ea. apply lookup_ge_None in Eb. exists []. by rewrite !drop_ge.
Qed.

Lemma shown_nil es : shown es = [] → old_of es = new_of es.
Proof. induction es as [|[x|x|x] es IH]; simpl; [done| |done|done]. intros E. by rewrite IH. Qed.

Lemma counts es : length (old_of es) = length (kept es) → length (new_of es) = length (kept es) → shown es = [].
Proof.
  assert (∀ es, length (kept es) ≤ length (old_of es) ∧ length (kept es) ≤ length (new_of es))%nat as Hle.
  { clear. induction es as [|[x|x|x] es IH]; simpl; lia. }
  induction es as [|[x|x|x] es IH]; simpl; [done|..]; specialize (Hle es); intros; [apply IH; lia|lia|lia].
Qed.

(** C31: the preview of a change is a correct and shortest edit script. There
    is a script of kept, removed and added lines that turns the old text's
    lines into the new one's, of which the preview shows exactly the removed
    and added ones, in order, and that keeps as many lines as any common
    subsequence has; so the preview is empty exactly when the lines are the
    same. *)
Theorem Diff_correct old new :
  (∃ es, old_of es = diff_lines old ∧ new_of es = diff_lines new ∧ Diff old new = shown es ∧
    ∀ k, k `sublist_of` diff_lines old → k `sublist_of` diff_lines new → (length k ≤ length (kept es))%nat) ∧
  (Diff old new = [] ↔ diff_lines old = diff_lines new).
Proof.
  destruct (diff_walk_spec (diff_lines old) (diff_lines new) (length (diff_lines old) + length (diff_lines new)) 0 0)
    as (es&E1&E2&E3&E4); [lia..|]. rewrite !drop_0 in *.
  unfold Diff. rewrite <-E3. split.
  - exists es. rewrite E4. split_and!; try done. intros k. apply L_max.
  - split; [intros E%shown_nil; congruence|]. intros E. apply counts.
    + rewrite E1, E4. pose proof (L_max (diff_lines old) (diff_lines new) (diff_lines old)) as Hm.
      rewrite <-E in Hm at 1. apply Nat.le_antisymm; [by apply Hm|]. rewrite <-E4, <-E1.
      clear. induction es as [|[x|x|x] es IH]; simpl; lia.
    + rewrite E2, <-E, E4. pose proof (L_max (diff_lines old) (diff_lines new) (diff_lines old)) as Hm.
      rewrite <-E in Hm at 1. apply Nat.le_antisymm; [by apply Hm|]. rewrite <-E4, <-E1.
      clear. induction es as [|[x|x|x] es IH]; simpl; lia.
Qed.

(** ** A concrete configuration *)

Definition demo : Config :=
  mkConfig "udp" 1194 "10.8.0.0/24" "AES-256-GCM" ["1.1.1.1"; "2606:4700::1111"] true ["192.168.7.9/24"] true
    ("  --keepalive 5 30" +:+ nl +:+ "# tuned" +:+ nl +:+ "mssfix 1400  " +:+ nl)
    "/d/ca.crt" "/d/server.crt" "/d/server.key" "/d/crl.pem" "/d/tc.key" "/run/mgmt.sock" "/d/status" "vpn.example.com"
    0 true.

Example demo_text : Render demo = Some (unlines
  ["# generated by ovcp — do not edit; changes are overwritten"; "proto udp"; "port 1194"; "dev ovcp0"; "dev-type tun";
   "topology subnet"; "server 10.8.0.0 255.255.255.0"; "ca /d/ca.crt"; "cert /d/server.crt"; "key /d/server.key";
   "crl-verify /d/crl.pem"; "tls-crypt /d/tc.key"; "dh none"; "disable-dco"; "data-ciphers AES-256-GCM";
   "data-ciphers-fallback AES-256-GCM"; "auth SHA256"; "keepalive 10 60"; "persist-tun"; "management /run/mgmt.sock unix";
   "management-client-auth"; "management-hold"; "auth-user-pass-optional"; "status /d/status 3"; "status-version 3";
   "verb 3"; "suppress-timestamps"; push "redirect-gateway def1 bypass-dhcp"; push "dhcp-option DNS 10.8.0.1";
   push "dhcp-option DNS 1.1.1.1"; push "dhcp-option DNS 2606:4700::1111"; push "dhcp-option DOMAIN example.com";
   push "dhcp-option DOMAIN-SEARCH example.com"; push "route 192.168.7.0 255.255.255.0"; "explicit-exit-notify 1";
   "# --- custom options ---"; "--keepalive 5 30"; "# tuned"; "mssfix 1400"]).
Proof. by vm_compute. Qed.

Example demo_diff : Diff (unlines ["a"; "b"; "c"]) (unlines ["a"; "x"; "c"; "d"]) = ["-b"; "+x"; "+d"].
Proof. by vm_compute. Qed.

Lemma demo_paths : paths_clean demo.
Proof. unfold paths_clean. repeat (apply Forall_cons_2; [reflexivity|]). apply Forall_nil_2. Qed.

Lemma Render_directives_witness : ∃ text, Render demo = Some text ∧ ∀ l, l ∈ split LF text → line_ok l.
Proof. apply (Render_directives demo); [by vm_compute|exact demo_paths]. Defined.

Lemma WriteAtomic_correct_witness :
  ∃ text, Render demo = Some text ∧ files (WriteAtomic demo "/etc/server.conf" (mkFs ∅ [])).1 !! "/etc/server.conf" = Some text.
Proof.
  destruct (WriteAtomic demo "/etc/server.conf" (mkFs ∅ [])) as [s' r] eqn:E.
  assert (Hr : r = Ok tt) by (apply (f_equal snd) in E; by vm_compute in E). subst r.
  destruct (WriteAtomic_correct demo "/etc/server.conf" (mkFs ∅ []) s' (Ok tt)) as (_&H&_); [by vm_compute|exact E|exact H].
Defined.
End ovpnconf.
