(* ===== verification/Pki.v ===== *)
(** * Pki: the certificate authority (internal/pki/pki.go, keystore.go, ovpn.go)

    The CA's files, their atomic replacement, the sealed key, issuing,
    revocation lists and client profiles. X.509, PEM, JSON, AES-GCM and argon2
    are interfaces; each law states what the corresponding library documents. *)

From Stdlib Require Import Ascii.
From S2P Require Import Prelude GoStr GoErr GoEnc GoFs NetIP Names StoreUsers Auth.

Module pki.
Import users auth.

(** ** Atomic files *)

(** The directory is synced at the end as a best effort: nothing to model. *)
Definition write_tmp (tmp data : string) : F unit :=
  f_ignore (Remove tmp) ;;  (* a stale one *)
  CreateExcl tmp ;;
  WriteFile tmp data ;;
  Sync ;;
  Sync.                     (* the close *)

Definition WriteFileAtomic (path data : string) : F unit :=
  let tmp := path +:+ ".tmp" in
  write_tmp tmp data ;;
  Rename tmp path.

(** ** X.509 *)

Inductive CertKind := KindServer | KindClient.
#[export] Instance CertKind_eq_dec : EqDecision CertKind.
Proof. solve_decision. Defined.

Inductive usage := CertSign | CRLSign | DigitalSignature | KeyEncipherment | ServerAuth | ClientAuth.

Record Template := mkTemplate {
  SerialNumber : Z; Subject : string; NotBefore : Z; NotAfter : Z; IsCA : bool;
  Usages : list usage; DNSNames : list string; IPAddresses : list IP }.

Record CrlTemplate := mkCrl { Number : Z; ThisUpdate : Z; NextUpdate : Z; Entries : list (Z * Z) }.

(** What a certificate or a list keeps of its template: X.509 times are whole
    seconds. *)
Definition whole (t : Z) : Z := unix t * second.
Definition encoded (t : Template) : Template :=
  mkTemplate (SerialNumber t) (Subject t) (whole (NotBefore t)) (whole (NotAfter t)) (IsCA t) (Usages t) (DNSNames t) (IPAddresses t).
Definition encoded_crl (c : CrlTemplate) : CrlTemplate :=
  mkCrl (Number c) (whole (ThisUpdate c)) (whole (NextUpdate c)) ((λ e, (e.1, whole e.2)) <$> Entries c).

Lemma whole_seconds s : whole (s * second) = s * second.
Proof. unfold whole, unix, second. rewrite Z.div_mul by done. done. Qed.

(** A certificate or list as parsed: its content, whose public key it carries
    and whose key signed it. *)
Record Signed (K B : Type) := mkSigned { body : B; holder : option K; signer : K }.
Arguments mkSigned {K B}. Arguments body {K B}. Arguments holder {K B}. Arguments signer {K B}.

(** Entropy goes in and what is left comes out. *)
Class X509 := {
  Key : Type;
  generate_key : string → result (Key * string);
  marshal_key : Key → result string;
  parse_key : string → result (option Key);  (* [None]: a key of another kind *)
  create_cert : Template → Template → Key → Key → string → result (string * string);
  parse_cert : string → result (Signed Key Template);
  create_crl : CrlTemplate → Template → Key → string → result (string * string);
  parse_crl : string → result (Signed Key CrlTemplate);
  pem_encode : string → string → string;
  pem_decode : string → option string;
  parse_marshal_key : ∀ k d, marshal_key k = Ok d → parse_key d = Ok (Some k);
  parse_create_cert : ∀ t p k sk e d e', create_cert t p k sk e = Ok (d, e') →
    parse_cert d = Ok (mkSigned (encoded t) (Some k) sk);
  parse_create_crl : ∀ t p sk e d e', create_crl t p sk e = Ok (d, e') → parse_crl d = Ok (mkSigned (encoded_crl t) None sk);
  pem_decode_encode : ∀ t d, pem_decode (pem_encode t d) = Some d }.

(** The envelope of a sealed key, and its JSON. *)
Record envelope := mkEnvelope {
  V : Z; KDF : string; Time : Z; MemKiB : Z; Threads : Z; Salt : string; Nonce : string; CT : string }.

Class EnvelopeJson := {
  env_marshal : envelope → result string;
  env_unmarshal : string → result envelope;
  env_unmarshal_marshal : ∀ e d, env_marshal e = Ok d → env_unmarshal d = Ok e }.

(** [t.AddDate(years, 0, days)], which depends on the local calendar. *)
Class Calendar := { AddDate : Z → Z → Z → Z }.

(** ** The authority *)

Record Env := mkEnv { fs : Fs; rnd : string; clk : Z }.

Definition K (A : Type) : Type := Env → Env * result A.
#[export] Instance K_ret : MRet K := λ _ a s, (s, Ok a).
#[export] Instance K_bind : MBind K := λ _ _ f m s,
  match m s with (s', Ok a) => f a s' | (s', Err e) => (s', Err e) end.

Definition k_fail {A} (e : goerr) : K A := λ s, (s, Err e).
Definition lift {A} (m : F A) : K A := λ s, let '(f, r) := m (fs s) in (mkEnv f (rnd s) (clk s), r).
Definition of_result {A} (r : result A) : K A := λ s, (s, r).
Definition k_now : K Z := λ s, (s, Ok (clk s)).

(** A library call that draws entropy. *)
Definition draw {A} (f : string → result (A * string)) : K A := λ s,
  match f (rnd s) with Ok (a, e) => (mkEnv (fs s) e (clk s), Ok a) | Err e => (s, Err e) end.

Definition k_read (n : nat) : K string :=
  draw (λ e, if (n <=? slen e)%nat then Ok (s_take n e, s_drop n e) else Err (ExternalErr "rand")).

(** What a library's panic unwinds with. *)
Definition go_panic (what : string) : goerr := ExternalErr ("panic: " +:+ what).

Section Authority.
  Context `{X509} `{EnvelopeJson} `{Calendar} `{Argon2} `{Aead}.

Definition kdfTime : Z := 2.
Definition kdfMemKiB : Z := 64 * 1024.
Definition kdfThreads : Z := 4.

Definition Seal (plaintext passphrase : string) : K string :=
  salt ← k_read 16;
  let key := IDKey passphrase salt kdfTime kdfMemKiB kdfThreads 32 in
  nonce ← k_read nonce_size;
  of_result (env_marshal (mkEnvelope 1 "argon2id" kdfTime kdfMemKiB kdfThreads salt nonce (gcm_seal key nonce plaintext))).

(** argon2 panics on zero rounds or threads, GCM on a nonce of another size. *)
Definition Open (data passphrase : string) : result string :=
  match env_unmarshal data with
  | Err _ => Err (Sentinel ErrBadPassphrase)
  | Ok e =>
      if negb (String.eqb (KDF e) "argon2id") || negb (V e =? 1) then Err (Errorf "pki: unsupported key envelope" [])
      else if Time e <? 1 then Err (go_panic "argon2: number of rounds too small")
      else if Threads e <? 1 then Err (go_panic "argon2: parallelism degree too low")
      else
        let key := IDKey passphrase (Salt e) (Time e) (MemKiB e) (Threads e) 32 in
        if negb (slen (Nonce e) =? nonce_size)%nat then Err (go_panic "crypto/cipher: incorrect nonce length given to GCM")
        else match gcm_open key (Nonce e) (CT e) with
             | Some pt => Ok pt
             | None => Err (Sentinel ErrBadPassphrase)
             end
  end.

Definition sealToFile (path plaintext passphrase : string) : K unit :=
  data ← Seal plaintext passphrase; lift (WriteFileAtomic path data).

Definition openFromFile (path passphrase : string) : K string :=
  data ← lift (ReadFile path); of_result (Open data passphrase).

Context (Dir : string).

Definition caCertPath : string := join_path Dir "ca.crt".
Definition caKeyPath : string := join_path Dir "ca.key.enc".
Definition CRLPath : string := join_path Dir "crl.pem".

Definition five_minutes : Z := 5 * minute.

Definition caTemplate (subject : string) (serial years : Z) : K Template :=
  t ← k_now;
  mret (mkTemplate serial subject (t - five_minutes) (AddDate t years 0) true [CertSign; CRLSign] [] []).

(** [rand.Int] below 2^128: sixteen bytes, most significant first. *)
Definition be_value (s : string) : Z := foldl (λ acc c, 256 * acc + byte_of c) 0 (chars s).
Definition randSerial : K Z := b ← k_read 16; mret (be_value b).

Definition parseCertPEM (data : string) : result (Signed Key Template) :=
  match pem_decode data with
  | None => Err (Errorf "pki: no PEM block" [])
  | Some der => parse_cert der
  end.

Definition CACertPEM : K string := lift (ReadFile caCertPath).
Definition CACert : K (Signed Key Template) := pem ← CACertPEM; of_result (parseCertPEM pem).

Definition wrap_err {A} (w : goerr → goerr) (m : K A) : K A := λ s,
  match m s with (s', Err e) => (s', Err (w e)) | r => r end.

Definition loadCA (passphrase : string) : K (Signed Key Template * Key) :=
  pem ← wrap_err (Wrapf "pki: CA not initialized: %w" []) CACertPEM;
  cert ← of_result (parseCertPEM pem);
  keyDER ← openFromFile caKeyPath passphrase;
  match parse_key keyDER with
  | Err _ => k_fail (Sentinel ErrBadPassphrase)
  | Ok None => k_fail (Errorf "pki: unexpected CA key type" [])
  | Ok (Some key) => mret (cert, key)
  end.

Definition CheckPassphrase (passphrase : string) : K unit := loadCA passphrase ;; mret tt.

(** The digits of a number in base 16, lower case. *)
Fixpoint hex_digits (fuel : nat) (z : Z) (acc : string) : string :=
  match fuel with
  | O => acc
  | S fuel' =>
      let c := default "0"%char (String.get (Z.to_nat (z mod 16)) "0123456789abcdef") in
      if z / 16 =? 0 then String c acc else hex_digits fuel' (z / 16) (String c acc)
  end.

(** [fmt.Sprintf("%x", serial)]: a serial has at most 32 digits. *)
Definition hex_of (z : Z) : string := hex_digits 33 z "".

(** [SetString(s, 16)]: an optional sign, then at least one digit. *)
Definition hex_char (c : ascii) : option Z :=
  if is_digit c then Some (byte_of c - 48)
  else if (97 <=? byte_of c) && (byte_of c <=? 102) then Some (byte_of c - 87)
  else if (65 <=? byte_of c) && (byte_of c <=? 70) then Some (byte_of c - 55)
  else None.
Fixpoint hex_value (acc : Z) (s : string) : option Z :=
  match s with
  | "" => Some acc
  | String c r => match hex_char c with Some d => hex_value (16 * acc + d) r | None => None end
  end.
Definition SetString16 (s : string) : option Z :=
  match s with
  | "" => None
  | String "-" "" | String "+" "" => None
  | String "-" r => Z.opp <$> hex_value 0 r
  | String "+" r => hex_value 0 r
  | _ => hex_value 0 s
  end.

Record RevokedEntry := mkRevoked { rSerialHex : string; RevokedAt : Z }.

Fixpoint crl_entries (l : list RevokedEntry) : result (list (Z * Z)) :=
  match l with
  | [] => Ok []
  | r :: l' =>
      match SetString16 (rSerialHex r) with
      | None => Err (Errorf "pki: bad serial %q" [rSerialHex r])
      | Some n => es ← crl_entries l'; Ok ((n, RevokedAt r) :: es)
      end
  end.

Definition RegenCRL (revoked : list RevokedEntry) (passphrase : string) : K unit :=
  '(caCert, caKey) ← loadCA passphrase;
  entries ← of_result (crl_entries revoked);
  t ← k_now;
  der ← draw (create_crl (mkCrl (unix t) t (AddDate t 10 0) entries) (body caCert) caKey);
  lift (WriteFileAtomic CRLPath (pem_encode "X509 CRL" der)).

Definition InitCA (cn : string) (years : Z) (passphrase : string) : K unit :=
  λ s, match lift (Exists caCertPath) s with
       | (s', Ok true) => (s', Err (Sentinel ErrCAExists))
       | (s', _) =>
           (key ← draw generate_key;
            serial ← randSerial;
            tpl ← caTemplate cn serial years;
            der ← draw (create_cert tpl tpl key key);
            keyDER ← of_result (marshal_key key);
            sealToFile caKeyPath keyDER passphrase ;;
            lift (WriteFileAtomic caCertPath (pem_encode "CERTIFICATE" der)) ;;
            RegenCRL [] passphrase) s'
       end.

Definition RenewCA (years : Z) (passphrase : string) : K (Signed Key Template) :=
  '(cur, key) ← loadCA passphrase;
  serial ← randSerial;
  tpl ← caTemplate (Subject (body cur)) serial years;
  der ← draw (create_cert tpl tpl key key);
  lift (WriteFileAtomic caCertPath (pem_encode "CERTIFICATE" der)) ;;
  of_result (parse_cert der).

Definition Rotate (oldPassphrase newPassphrase : string) : K unit :=
  keyDER ← openFromFile caKeyPath oldPassphrase;
  data ← Seal keyDER newPassphrase;
  lift (WriteFileAtomic caKeyPath data).

Record IssuedCert := mkIssued { SerialHex : string; CN : string; iNotAfter : Z; iCertPEM : string; KeyPEM : string }.

Definition leaf_template (kind : CertKind) (cn : string) (serial t days : Z) : Template :=
  match kind with
  | KindServer => mkTemplate serial cn (t - five_minutes) (AddDate t 0 days) false
                    [DigitalSignature; KeyEncipherment; ServerAuth] [cn] []
  | KindClient => mkTemplate serial cn (t - five_minutes) (AddDate t 0 days) false [DigitalSignature; ClientAuth] [] []
  end.

Definition Issue (kind : CertKind) (cn : string) (days : Z) (passphrase : string) : K IssuedCert :=
  of_result (CheckName "pki: cn" cn) ;;
  if days <=? 0 then k_fail (Errorf "pki: validity must be at least one day" []) else
  '(caCert, caKey) ← loadCA passphrase;
  key ← draw generate_key;
  serial ← randSerial;
  t ← k_now;
  let tpl := leaf_template kind cn serial t days in
  der ← draw (create_cert tpl (body caCert) key caKey);
  keyDER ← of_result (marshal_key key);
  mret (mkIssued (hex_of serial) cn (NotAfter tpl) (pem_encode "CERTIFICATE" der) (pem_encode "PRIVATE KEY" keyDER)).

(** ** Lemmas *)

Lemma tmp_ne path : path +:+ ".tmp" ≠ path.
Proof. intros E%(f_equal String.length). rewrite s_length_app in E. simpl in E. lia. Qed.

Lemma Sync_run s s' r : Sync s = (s', r) → files s' = files s.
Proof. unfold Sync. destruct (next_fault s) as [[e k]|]; by intros [= <- <-]. Qed.

Lemma write_tmp_run tmp data s s' : write_tmp tmp data s = (s', Ok tt) → files s' !! tmp = Some data.
Proof.
  intros E. apply f_bind_run in E as [(s1&[]&_&E)|(e&_&[=])]. apply f_bind_run in E as [(s2&[]&_&E)|(e&_&[=])].
  apply f_bind_run in E as [(s3&[]&E3&E)|(e&_&[=])]. apply f_bind_run in E as [(s4&[]&E4&E)|(e&_&[=])].
  apply WriteFile_run in E3 as [_ W]. rewrite (Sync_run _ _ _ E), (Sync_run _ _ _ E4), W. apply lookup_insert_eq.
Qed.

Lemma write_tmp_only tmp data : only (λ q, q = tmp) (write_tmp tmp data).
Proof. unfold write_tmp. eauto 20 with files. Qed.

(** The file is replaced whole, or not at all; only the temporary file beside
    it is otherwise touched. *)
Lemma WriteFileAtomic_run path data s s' r : WriteFileAtomic path data s = (s', r) →
  (∀ p, p ≠ path → p ≠ path +:+ ".tmp" → files s' !! p = files s !! p) ∧
  match r with Ok _ => files s' !! path = Some data | Err _ => files s' !! path = files s !! path end.
Proof.
  intros E. split.
  - intros p Hp1 Hp2. assert (only (λ q, q = path ∨ q = path +:+ ".tmp") (WriteFileAtomic path data)) as Ho.
    { unfold WriteFileAtomic, write_tmp. eauto 20 with files. }
    specialize (Ho s p). rewrite E in Ho. apply Ho. naive_solver.
  - assert (Hkeep : files (write_tmp (path +:+ ".tmp") data s).1 !! path = files s !! path).
    { apply write_tmp_only. intros Eq. by destruct (tmp_ne path). }
    apply f_bind_run in E as [(s1&[]&E1&E)|(e&E1&->)]; rewrite E1 in Hkeep; [|done]. simpl in Hkeep.
    apply Rename_run in E. destruct r as [[]|e].
    + destruct E as (d&Hd&->). rewrite (write_tmp_run _ _ _ _ E1) in Hd. injection Hd as ->. apply lookup_insert_eq.
    + by destruct E as [-> _].
Qed.

Lemma k_bind_run {A B} (m : K A) (f : A → K B) s s' r : mbind f m s = (s', r) →
  (∃ s1 a, m s = (s1, Ok a) ∧ f a s1 = (s', r)) ∨ (∃ e, m s = (s', Err e) ∧ r = Err e).
Proof. unfold mbind, K_bind. destruct (m s) as [s1 [a|e]]; [eauto|]. intros [= <- <-]. eauto. Qed.

(** Computations that write no file at all. *)
Definition readonly {A} (m : K A) : Prop := ∀ s, files (fs (m s).1) = files (fs s).

Lemma readonly_bind {A B} (m : K A) (f : A → K B) : readonly m → (∀ a, readonly (f a)) → readonly (mbind f m).
Proof.
  intros Hm Hf s. unfold mbind, K_bind. specialize (Hm s). destruct (m s) as [s1 [a|e]]; [|done].
  simpl in Hm. by rewrite Hf.
Qed.
Lemma readonly_ret {A} (a : A) : readonly (mret a).
Proof. done. Qed.
Lemma readonly_of {A} (r : result A) : readonly (of_result r).
Proof. done. Qed.
Lemma readonly_fail {A} e : readonly (k_fail (A:=A) e).
Proof. done. Qed.
Lemma readonly_now : readonly k_now.
Proof. done. Qed.
Lemma readonly_draw {A} (f : string → result (A * string)) : readonly (draw f).
Proof. intros s. unfold draw. by destruct (f (rnd s)) as [[a e]|e]. Qed.
Lemma readonly_read n : readonly (k_read n).
Proof. apply readonly_draw. Qed.
Lemma readonly_ReadFile path : readonly (lift (ReadFile path)).
Proof. intros s. unfold lift, ReadFile. by destruct (next_fault (fs s)) as [[e k]|]. Qed.
Lemma readonly_wrap {A} w (m : K A) : readonly m → readonly (wrap_err w m).
Proof. intros Hm s. specialize (Hm s). unfold wrap_err. by destruct (m s) as [s1 [a|e]]. Qed.
Lemma readonly_if {A} (b : bool) (m n : K A) : readonly m → readonly n → readonly (if b then m else n).
Proof. by destruct b. Qed.

Hint Resolve @readonly_bind @readonly_ret @readonly_of @readonly_fail readonly_now @readonly_draw readonly_read
  readonly_ReadFile @readonly_wrap @readonly_if : files.

Lemma readonly_openFromFile path p : readonly (openFromFile path p).
Proof. unfold openFromFile. auto with files. Qed.

Lemma readonly_loadCA p : readonly (loadCA p).
Proof.
  unfold loadCA, CACertPEM. apply readonly_bind; [auto with files|]. intros pem.
  apply readonly_bind; [auto with files|]. intros cert. apply readonly_bind; [apply readonly_openFromFile|].
  intros d. destruct (parse_key d) as [[k|]|e]; auto with files.
Qed.

Lemma readonly_Seal pt p : readonly (Seal pt p).
Proof. unfold Seal. auto with files. Qed.

Lemma readonly_randSerial : readonly randSerial.
Proof. unfold randSerial. auto with files. Qed.

Hint Resolve readonly_openFromFile readonly_loadCA readonly_Seal readonly_randSerial : files.

Lemma readonly_Issue kind cn days p : readonly (Issue kind cn days p).
Proof.
  unfold Issue. apply readonly_bind; [auto with files|]. intros _. apply readonly_if; [auto with files|].
  apply readonly_bind; [auto with files|]. intros [caCert caKey]. auto 20 with files.
Qed.

Lemma read_run n s s' x : k_read n s = (s', Ok x) → slen x = n ∧ fs s' = fs s.
Proof.
  unfold k_read, draw. destruct (n <=? slen (rnd s))%nat eqn:E; [|done]. intros [= <- <-]. bprop.
  split; [|done]. rewrite s_length_take. lia.
Qed.

(** What was sealed opens under the same passphrase. *)
Lemma Open_Seal pt p s s' d : Seal pt p s = (s', Ok d) → Open d p = Ok pt.
Proof.
  intros E. apply k_bind_run in E as [(s1&salt&E1&E)|(e&_&[=])].
  apply k_bind_run in E as [(s2&nonce&E2&E)|(e&_&[=])]. apply read_run in E2 as [Hn _].
  injection E as _ E. unfold Open. rewrite (env_unmarshal_marshal _ _ E). simpl.
  by rewrite Hn, Nat.eqb_refl, gcm_open_seal.
Qed.

Lemma openFromFile_run path p s s' d : openFromFile path p s = (s', Ok d) →
  ∃ data, files (fs s) !! path = Some data ∧ Open data p = Ok d.
Proof.
  intros E. apply k_bind_run in E as [(s1&data&E1&E)|(e&_&[=])]. injection E as _ E. exists data.
  unfold lift, ReadFile in E1. destruct (next_fault (fs s)) as [[? ?]|]; [done|].
  destruct (files (fs s) !! path) as [x|]; by simplify_eq.
Qed.

Lemma lift_run {A} (m : F A) s s' r : lift m s = (s', r) → m (fs s) = (fs s', r) ∧ rnd s' = rnd s ∧ clk s' = clk s.
Proof. unfold lift. destruct (m (fs s)) as [f x] eqn:E. by intros [= <- <-]. Qed.

Lemma wrap_run {A} w (m : K A) s s' a : wrap_err w m s = (s', Ok a) → m s = (s', Ok a).
Proof. unfold wrap_err. destruct (m s) as [s1 [b|e]]; by intros [= <- <-]. Qed.

(** The authority's certificate and key, as the files and the passphrase give
    them. *)
Definition authority (m : gmap string string) (p : string) (cert : Signed Key Template) (key : Key) : Prop :=
  (∃ pem, m !! caCertPath = Some pem ∧ parseCertPEM pem = Ok cert) ∧
  ∃ data der, m !! caKeyPath = Some data ∧ Open data p = Ok der ∧ parse_key der = Ok (Some key).

Lemma loadCA_run p s s' cert key : loadCA p s = (s', Ok (cert, key)) → authority (files (fs s)) p cert key.
Proof.
  intros E. apply k_bind_run in E as [(s1&pem&E1&E)|(e&_&[=])]. apply wrap_run in E1.
  apply k_bind_run in E as [(s2&c&E2&E)|(e&_&[=])]. injection E2 as <- E2.
  apply k_bind_run in E as [(s3&d&E3&E)|(e&_&[=])].
  pose proof (readonly_ReadFile caCertPath s) as Hro. unfold CACertPEM in E1. rewrite E1 in Hro. simpl in Hro.
  destruct (openFromFile_run _ _ _ _ _ E3) as (data&Hd&Ho). rewrite Hro in Hd.
  destruct (parse_key d) as [[k|]|e] eqn:Ek; [|done|done]. injection E as _ -> ->. split.
  - exists pem. split; [|done]. unfold lift, ReadFile in E1. destruct (next_fault (fs s)) as [[? ?]|]; [done|].
    destruct (files (fs s) !! caCertPath) as [x|]; by simplify_eq.
  - by exists data, d.
Qed.

(** ** Serials *)

Definition digit_of (d : Z) : ascii := default "0"%char (String.get (Z.to_nat d) "0123456789abcdef").

Lemma digit_of_char d : 0 ≤ d < 16 → hex_char (digit_of d) = Some d ∧ digit_of d ≠ "-"%char ∧ digit_of d ≠ "+"%char.
Proof.
  intros Hd. assert (Hin : d ∈ (Z.of_nat <$> seq 0 16)).
  { apply list_elem_of_fmap. exists (Z.to_nat d). split; [lia|]. apply elem_of_seq. lia. }
  clear Hd. revert d Hin. apply Forall_forall. repeat constructor; discriminate.
Qed.

(** The digits of [z] read back on top of any prefix value that is zero. *)
Lemma hex_digits_value fuel z acc : 0 ≤ z < 16 ^ Z.of_nat fuel → (0 < fuel)%nat →
  hex_value 0 (hex_digits fuel z acc) = hex_value z acc ∧
  ∃ c r, hex_digits fuel z acc = String c r ∧ c ≠ "-"%char ∧ c ≠ "+"%char.
Proof.
  revert z acc. induction fuel as [|fuel IH]; intros z acc Hz Hf; [lia|]. cbn [hex_digits].
  change (default "0"%char (String.get (Z.to_nat (z mod 16)) "0123456789abcdef")) with (digit_of (z mod 16)).
  destruct (digit_of_char (z mod 16)) as (Hd&Hm&Hp); [apply Z.mod_pos_bound; lia|].
  pose proof (Z.div_mod z 16 ltac:(lia)) as Hdm.
  destruct (Z.eqb_spec (z / 16) 0) as [E|E].
  - split; [|eauto]. cbn [hex_value]. rewrite Hd. f_equal. lia.
  - destruct (IH (z / 16) (String (digit_of (z mod 16)) acc)) as [IH1 IH2].
    + split; [apply Z.div_pos; lia|]. apply Z.div_lt_upper_bound; [lia|].
      rewrite Nat2Z.inj_succ, Z.pow_succ_r in Hz by lia. lia.
    + destruct fuel; [|lia]. simpl in Hz. change (16 ^ 1) with 16 in Hz.
      exfalso. apply E, Z.div_small. lia.
    + rewrite IH1. cbn [hex_value]. rewrite Hd. split; [|done]. f_equal. lia.
Qed.

(** A serial printed for the store reads back when the list is signed. *)
Lemma SetString16_hex_of z : 0 ≤ z < 2 ^ 128 → SetString16 (hex_of z) = Some z.
Proof.
  intros Hz. destruct (hex_digits_value 33 z "") as [E (c&r&Ec&Hm&Hp)]; [|lia|].
  { split; [lia|]. etrans; [apply Hz|]. by vm_compute. }
  unfold hex_of. unfold SetString16. rewrite Ec in *. simpl in E.
  destruct c as [[] [] [] [] [] [] [] []]; try done.
Qed.

Lemma be_value_bound s : 0 ≤ be_value s < 256 ^ Z.of_nat (slen s).
Proof.
  unfold be_value. rewrite <-length_chars. induction (chars s) as [|c l IH] using rev_ind; [done|].
  rewrite foldl_app, length_app. simpl. rewrite Nat.add_comm, Nat2Z.inj_succ, Z.pow_succ_r by lia.
  assert (0 ≤ byte_of c < 256); [|lia]. clear. by destruct c as [[] [] [] [] [] [] [] []].
Qed.

Lemma randSerial_run s s' z : randSerial s = (s', Ok z) → 0 ≤ z < 2 ^ 128 ∧ fs s' = fs s.
Proof.
  intros E. apply k_bind_run in E as [(s1&b&E1&E)|(e&_&[=])]. apply read_run in E1 as [Hl Hf].
  injection E as <- <-. split; [|done]. pose proof (be_value_bound b) as Hb. rewrite Hl in Hb. exact Hb.
Qed.

Lemma draw_run {A} (f : string → result (A * string)) s s' a : draw f s = (s', Ok a) →
  ∃ e, f (rnd s) = Ok (a, e) ∧ fs s' = fs s ∧ clk s' = clk s.
Proof. unfold draw. destruct (f (rnd s)) as [[b e]|e]; [|done]. intros [= <- <-]. by exists e. Qed.

(** ** The theorems *)

(** C32: changing the CA's passphrase. On success the key file holds, under the
    new passphrase, the very key it held under the old one; on any failure, a
    wrong old passphrase or a disk that fails anywhere, the key file is exactly
    as it was; and nothing but it and its temporary file is ever touched. *)
Theorem Rotate_correct old new s s' r (E : Rotate old new s = (s', r)) :
  (∀ p, p ≠ caKeyPath → p ≠ caKeyPath +:+ ".tmp" → files (fs s') !! p = files (fs s) !! p) ∧
  match r with
  | Ok _ => ∃ before after_ key, files (fs s) !! caKeyPath = Some before ∧ files (fs s') !! caKeyPath = Some after_ ∧
              Open before old = Ok key ∧ Open after_ new = Ok key
  | Err _ => files (fs s') !! caKeyPath = files (fs s) !! caKeyPath
  end.
Proof.
  apply k_bind_run in E as [(s1&key&E1&E)|(e&E1&->)].
  2:{ pose proof (readonly_openFromFile caKeyPath old s) as Hro. rewrite E1 in Hro. simpl in Hro. by rewrite Hro. }
  pose proof (readonly_openFromFile caKeyPath old s) as Hro. rewrite E1 in Hro. simpl in Hro.
  apply openFromFile_run in E1 as (before&Hb&Ho).
  apply k_bind_run in E as [(s2&data&E2&E)|(e&E2&->)];
    pose proof (readonly_Seal key new s1) as Hrs; rewrite E2 in Hrs; simpl in Hrs; [|by rewrite Hrs, Hro].
  apply lift_run in E as (E&_&_). apply WriteFileAtomic_run in E as [Hoth Hw]. rewrite Hrs, Hro in *.
  split; [done|]. destruct r; [|done]. exists before, data, key. split_and!; try done. by eapply Open_Seal.
Qed.

(** Issuing. Whether it succeeds or not, issuing writes no file: a private
    key is handed to the caller and never stored. When it succeeds the name
    obeys the naming rule, the validity is at least a day, the passphrase
    opened the CA's key, and the certificate returned is for that name and
    kind, valid for the days asked for, over the very key returned with it,
    and signed by the CA's key; the serial reported reads back as the
    certificate's own. *)
Theorem Issue_correct kind cn days p s s' r (E : Issue kind cn days p s = (s', r)) :
  files (fs s') = files (fs s) ∧
  match r with
  | Ok ic => nameRe cn = true ∧ 0 < days ∧ CN ic = cn ∧
      ∃ cert caKey key serial t der,
        authority (files (fs s)) p cert caKey ∧
        parseCertPEM (iCertPEM ic) = Ok (mkSigned (encoded (leaf_template kind cn serial t days)) (Some key) caKey) ∧
        pem_decode (KeyPEM ic) = Some der ∧ parse_key der = Ok (Some key) ∧
        SetString16 (SerialHex ic) = Some serial ∧ iNotAfter ic = AddDate t 0 days
  | Err _ => True
  end.
Proof.
  split; [pose proof (readonly_Issue kind cn days p s) as H'; by rewrite E in H'|]. destruct r as [ic|]; [|done].
  apply k_bind_run in E as [(s1&[]&E1&E)|(e&_&[=])]. injection E1 as <- E1. apply CheckName_Ok in E1.
  destruct (days <=? 0) eqn:Hd; [done|]. bprop.
  apply k_bind_run in E as [(s2&[cert caKey]&E2&E)|(e&_&[=])]. apply loadCA_run in E2.
  apply k_bind_run in E as [(s3&key&_&E)|(e&_&[=])].
  apply k_bind_run in E as [(s4&serial&E4&E)|(e&_&[=])]. apply randSerial_run in E4 as [Hs _].
  apply k_bind_run in E as [(s5&t&_&E)|(e&_&[=])].
  apply k_bind_run in E as [(s6&der&E6&E)|(e&_&[=])]. apply draw_run in E6 as (e6&E6&_).
  apply k_bind_run in E as [(s7&kd&E7&E)|(e&_&[=])]. injection E7 as _ E7. injection E as _ <-. simpl.
  split_and!; [done|done|done|]. exists cert, caKey, key, serial, t, kd. split; [done|].
  unfold parseCertPEM. rewrite !pem_decode_encode, (parse_create_cert _ _ _ _ _ _ _ E6).
  split_and!; [done|done|by apply parse_marshal_key|by apply SetString16_hex_of|by destruct kind].
Qed.

Lemma crl_entries_Ok l es : crl_entries l = Ok es →
  Forall2 (λ r e, SetString16 (rSerialHex r) = Some e.1 ∧ e.2 = RevokedAt r) l es.
Proof.
  revert es. induction l as [|x l IH]; simpl; intros es E; [injection E as <-; constructor|].
  destruct (SetString16 (rSerialHex x)) as [n|] eqn:En; [|done].
  apply bind_Ok in E as (es'&E'&[= <-]). constructor; [done|auto].
Qed.

(** On a host whose disk does not fail, the passphrase that opens the authority
    loads it, and the atomic replacement goes through. *)
Lemma loadCA_sound p s cert key : sound (fs s) → authority (files (fs s)) p cert key →
  ∃ s', loadCA p s = (s', Ok (cert, key)) ∧ sound (fs s') ∧ files (fs s') = files (fs s).
Proof.
  intros Hs [(pem&Hpem&Hc) (data&der&Hd&Ho&Hk)].
  destruct (ReadFile_sound _ _ _ Hs Hpem) as [R1 S1].
  set (f1 := after (fs s) (files (fs s))) in *.
  destruct (ReadFile_sound caKeyPath f1 data S1 Hd) as [R2 S2].
  exists (mkEnv (after f1 (files f1)) (rnd s) (clk s)). split; [|done].
  unfold loadCA, openFromFile, CACertPEM, wrap_err, lift, of_result, mbind, K_bind.
  rewrite R1, Hc. cbn [fs rnd clk]. by rewrite R2, Ho, Hk.
Qed.

Lemma WriteFileAtomic_sound path data s : sound s →
  ∃ s', WriteFileAtomic path data s = (s', Ok tt) ∧ sound s' ∧ files s' !! path = Some data.
Proof.
  intros Hs. set (tmp := path +:+ ".tmp").
  destruct (Remove_sound tmp s Hs) as (s1&r1&E1&S1&F1).
  destruct (CreateExcl_sound tmp s1 S1) as [E2 S2]; [rewrite F1; apply lookup_delete_eq|].
  set (s2 := after s1 _) in *. destruct (WriteFile_sound tmp data s2 S2) as [E3 S3].
  set (s3 := after s2 _) in *. destruct (Sync_sound s3 S3) as [E4 S4].
  set (s4 := after s3 (files s3)) in *. destruct (Sync_sound s4 S4) as [E5 S5].
  set (s5 := after s4 (files s4)) in *.
  destruct (Rename_sound tmp path data s5 S5) as (s6&E6&S6&F6); [apply lookup_insert_eq|].
  exists s6. split; [|split; [done|rewrite F6; apply lookup_insert_eq]].
  unfold WriteFileAtomic. fold tmp. unfold write_tmp, f_ignore, mbind, F_bind. rewrite E1. cbn [fst].
  by rewrite E2, E3, E4, E5, E6.
Qed.

Lemma crl_entries_total l : Forall (λ r, is_Some (SetString16 (rSerialHex r))) l → ∃ es, crl_entries l = Ok es.
Proof.
  induction 1 as [|x l [n Hn] _ [es IH]]; simpl; [eauto|]. rewrite Hn, IH. simpl. eauto.
Qed.

Lemma RegenCRL_sound revoked p s cert key : sound (fs s) → authority (files (fs s)) p cert key →
  (∀ t ca k e, is_ok (create_crl t ca k e) = true) →
  Forall (λ r, is_Some (SetString16 (rSerialHex r))) revoked → is_ok (RegenCRL revoked p s).2 = true.
Proof.
  intros Hs Ha Hcrl Hser. destruct (loadCA_sound p s cert key Hs Ha) as (s1&E1&S1&F1).
  destruct (crl_entries_total revoked Hser) as [es E2].
  unfold RegenCRL, of_result, k_now, draw, mbind, K_bind. rewrite E1, E2.
  destruct (create_crl _ _ _ _) as [[der e]|] eqn:E3; [|pose proof (Hcrl (mkCrl (unix (clk s1)) (clk s1) (AddDate (clk s1) 10 0) es) (body cert) key (rnd s1)) as Hc; by rewrite E3 in Hc].
  unfold lift. cbn [fs rnd clk].
  destruct (WriteFileAtomic_sound CRLPath (pem_encode "X509 CRL" der) (fs s1) S1) as (f&E4&_). by rewrite E4.
Qed.

(** Signing a revocation list. On success the list at its path parses, is
    signed by the CA's key, and has exactly the entries asked for: each
    certificate's serial, read back from the store's text, with the time it
    was revoked, to the second, in order. On failure the previous list stays in place; no
    other file but its temporary one is touched. *)
Theorem RegenCRL_correct revoked p s s' r (E : RegenCRL revoked p s = (s', r)) :
  (∀ q, q ≠ CRLPath → q ≠ CRLPath +:+ ".tmp" → files (fs s') !! q = files (fs s) !! q) ∧
  match r with
  | Ok _ => ∃ cert caKey pem der crl, authority (files (fs s)) p cert caKey ∧
      files (fs s') !! CRLPath = Some pem ∧ pem_decode pem = Some der ∧
      parse_crl der = Ok (mkSigned crl None caKey) ∧
      Forall2 (λ r e, SetString16 (rSerialHex r) = Some e.1 ∧ e.2 = whole (RevokedAt r)) revoked (Entries crl)
  | Err _ => files (fs s') !! CRLPath = files (fs s) !! CRLPath
  end.
Proof.
  pose proof (readonly_loadCA p s) as Hro.
  apply k_bind_run in E as [(s1&[cert caKey]&E1&E)|(e&E1&->)]; rewrite E1 in Hro; simpl in Hro; [|by rewrite Hro].
  apply loadCA_run in E1.
  apply k_bind_run in E as [(s2&es&E2&E)|(e&E2&->)]; injection E2 as <- E2; [|by rewrite Hro].
  apply k_bind_run in E as [(s3&t&E3&E)|(e&[=]&_)]. injection E3 as <- <-.
  apply k_bind_run in E as [(s4&der&E4&E)|(e&E4&->)].
  2:{ unfold draw in E4. destruct (create_crl _ _ _ _) as [[? ?]|]; [done|]. injection E4 as <- _. by rewrite Hro. }
  apply draw_run in E4 as (e4&E4&Hf4&_). apply lift_run in E as (E&_&_).
  apply WriteFileAtomic_run in E as [Hoth Hw]. rewrite Hf4, Hro in *. split; [done|]. destruct r; [|done].
  exists cert, caKey. eexists _, der, _. split; [done|]. split; [exact Hw|]. split; [apply pem_decode_encode|].
  split; [by eapply parse_create_crl|]. apply crl_entries_Ok in E2. cbn. apply Forall2_fmap_r.
  eapply Forall2_impl; [exact E2|]. cbn. intros x e [Hn He]. by rewrite He.
Qed.
End Authority.

(** ** Encrypted keys *)

(** [x509.MarshalECPrivateKey], and [x509.EncryptPEMBlock] printed. *)
Class EcPem `{X509} := {
  marshal_ec : Key → result string;
  encrypt_block : string → string → string → string → result (string * string) }.

Definition EncryptKeyPEM `{EcPem} (keyPEM password : string) : K string :=
  match pem_decode keyPEM with
  | None => k_fail (Errorf "pki: no PEM block" [])
  | Some der =>
      k ← of_result (parse_key der);
      match k with
      | None => k_fail (Errorf "pki: unexpected key type" [])
      | Some ec => sec1 ← of_result (marshal_ec ec);
                   draw (encrypt_block "EC PRIVATE KEY" sec1 password)
      end
  end.

Lemma readonly_EncryptKeyPEM `{EcPem} pem password : readonly (EncryptKeyPEM pem password).
Proof.
  unfold EncryptKeyPEM. destruct (pem_decode pem) as [der|]; [|apply readonly_fail].
  apply readonly_bind; [apply readonly_of|]. intros [k|]; [|apply readonly_fail].
  apply readonly_bind; [apply readonly_of|]. intros sec1. apply readonly_draw.
Qed.

(** ** Client profiles *)

Record BundleParams := mkBundle {
  Remote : string; Port : Z; Proto : string; CACertText : string; ClientCert : string; ClientKey : string;
  TLSCrypt : string; Cipher : string; ServerCN : string; SplitTunnel : bool; Extra : string }.

(** [h[i:i+32]] for each [i]. *)
Fixpoint hex_lines (fuel : nat) (h : string) : list string :=
  match fuel with
  | O => []
  | S fuel' => match h with "" => [] | _ => s_take 32 h :: hex_lines fuel' (s_drop 32 h) end
  end.

Definition GenTLSCryptKey : K string :=
  raw ← k_read 256;
  mret (unlines (["#"; "# 2048 bit OpenVPN static key (OVCP)"; "#"; "-----BEGIN OpenVPN Static key V1-----"] ++
                 hex_lines 16 (hex_encode raw) ++ ["-----END OpenVPN Static key V1-----"])).

(** A body between its tags, ended by a line break if it does not end in one. *)
Definition inline (tag body_ : string) : string :=
  "<" +:+ tag +:+ ">" +:+ nl +:+ body_ +:+
  (match last_char body_ with Some c => if Ascii.eqb c LF then "" else nl | None => "" end) +:+
  "</" +:+ tag +:+ ">" +:+ nl.

Definition line_if (b : bool) (ls : list string) : list string := if b then ls else [].

Definition RenderOVPN (p : BundleParams) : result string :=
  guard_ok (negb (contains_any (String CR nl) (Remote p) || contains_any (String CR nl) (ServerCN p)))
    (Errorf "pki: invalid character in remote/server-cn" []) ;;
  let extra := trim_space (Extra p) in
  Ok (unlines (
        ["client"; "dev tun"; "proto " +:+ Proto p; "remote " +:+ Remote p +:+ " " +:+ itoa (Port p);
         "resolv-retry infinite"; "nobind"; "persist-tun"; "remote-cert-tls server"] ++
        line_if (String.eqb (Proto p) "udp") ["explicit-exit-notify 1"] ++
        line_if (negb (String.eqb (ServerCN p) "")) ["verify-x509-name " +:+ ServerCN p +:+ " name"] ++
        ["data-ciphers " +:+ Cipher p; "data-ciphers-fallback " +:+ Cipher p; "auth-nocache"; "verb 3"] ++
        line_if (SplitTunnel p) ["pull-filter ignore " +:+ String "034" "redirect-gateway" +:+ String "034" ""] ++
        line_if (negb (String.eqb extra "")) ["# --- custom options ---"; extra])
      +:+ inline "ca" (CACertText p) +:+ inline "cert" (ClientCert p) +:+ inline "key" (ClientKey p)
      +:+ (if String.eqb (TLSCrypt p) "" then "" else inline "tls-crypt" (TLSCrypt p))).

(** ** A concrete authority *)

Module demo_pki.

(** Any countable type as text. *)
Fixpoint pos_text (p : positive) : string :=
  match p with xH => "." | xO q => String "0" (pos_text q) | xI q => String "1" (pos_text q) end.
Fixpoint text_pos (s : string) : option positive :=
  match s with
  | String "." "" => Some xH
  | String "0" r => xO <$> text_pos r
  | String "1" r => xI <$> text_pos r
  | _ => None
  end.
Lemma text_pos_text p : text_pos (pos_text p) = Some p.
Proof. induction p as [p IH|p IH|]; simpl; by rewrite ?IH. Qed.

Definition to_text {A} `{Countable A} (a : A) : string := pos_text (encode a).
Definition of_text {A} `{Countable A} (s : string) : result A :=
  match text_pos s ≫= decode with Some a => Ok a | None => Err (ExternalErr "parse") end.
Lemma of_to_text {A} `{Countable A} (a : A) : of_text (to_text a) = Ok a.
Proof. unfold of_text, to_text. rewrite text_pos_text. simpl. by rewrite countable.decode_encode. Qed.

#[export] Instance usage_eq_dec : EqDecision usage.
Proof. solve_decision. Defined.
Definition usage_num (u : usage) : Z :=
  match u with CertSign => 0 | CRLSign => 1 | DigitalSignature => 2 | KeyEncipherment => 3 | ServerAuth => 4 | ClientAuth => 5 end.
Definition num_usage (z : Z) : option usage :=
  match z with 0 => Some CertSign | 1 => Some CRLSign | 2 => Some DigitalSignature | 3 => Some KeyEncipherment
  | 4 => Some ServerAuth | 5 => Some ClientAuth | _ => None end.
#[export] Instance usage_countable : Countable usage.
Proof. apply (inj_countable usage_num num_usage). by intros []. Defined.

#[export] Instance template_eq_dec : EqDecision Template.
Proof. solve_decision. Defined.
#[export] Instance template_countable : Countable Template.
Proof.
  refine (inj_countable' (λ t, (SerialNumber t, Subject t, NotBefore t, NotAfter t, IsCA t, Usages t, DNSNames t, IPAddresses t))
    (λ '(a, b, c, d, e, f, g, i), mkTemplate a b c d e f g i) _). by intros [].
Defined.
#[export] Instance crl_eq_dec : EqDecision CrlTemplate.
Proof. solve_decision. Defined.
#[export] Instance crl_countable : Countable CrlTemplate.
Proof.
  refine (inj_countable' (λ t, (Number t, ThisUpdate t, NextUpdate t, Entries t)) (λ '(a, b, c, d), mkCrl a b c d) _).
  by intros [].
Defined.
#[export] Instance envelope_eq_dec : EqDecision envelope.
Proof. solve_decision. Defined.
#[export] Instance envelope_countable : Countable envelope.
Proof.
  refine (inj_countable' (λ t, (V t, KDF t, Time t, MemKiB t, Threads t, Salt t, Nonce t, CT t))
    (λ '(a, b, c, d, e, f, g, h), mkEnvelope a b c d e f g h) _). by intros [].
Defined.

#[export] Instance toy_envelope : EnvelopeJson.
Proof.
  refine {| env_marshal e := Ok (to_text e); env_unmarshal d := of_text d |}.
  intros e d [= <-]. apply of_to_text.
Defined.

#[export] Instance toy_calendar : Calendar := {| AddDate t y d := t + y * 365 * 24 * hour + d * 24 * hour |}.

(** Keys are characters; a certificate is its content with the two keys. *)
#[export] Instance toy_x509 : X509.
Proof.
  refine {|
    Key := string;
    generate_key e := match e with String c r => Ok (String c "", r) | "" => Err (ExternalErr "rand") end;
    marshal_key k := Ok k;
    parse_key d := Ok (Some d);
    create_cert t p k sk e := Ok (to_text (encoded t, k, sk), e);
    parse_cert d := '(t, k, sk) ← of_text d; Ok (mkSigned t (Some k) sk);
    create_crl t p sk e := Ok (to_text (encoded_crl t, sk), e);
    parse_crl d := '(t, sk) ← of_text d; Ok (mkSigned t None sk);
    pem_encode t d := d;
    pem_decode s := Some s |}.
  - by intros k d [= <-].
  - intros t p k sk e d e' [= <- <-]. by rewrite of_to_text.
  - intros t p sk e d e' [= <- <-]. by rewrite of_to_text.
  - done.
Defined.
End demo_pki.
Import demo_pki.

Definition demo_env : Env := mkEnv (mkFs ∅ []) (noise +:+ noise +:+ noise) (1000 * second).
Definition demo_ca : Env := (InitCA "/pki" "Home CA" 10 "pa55word" demo_env).1.

Example demo_init : (InitCA "/pki" "Home CA" 10 "pa55word" demo_env).2 = Ok tt ∧
  (InitCA "/pki" "Home CA" 10 "pa55word" demo_ca).2 = Err (Sentinel ErrCAExists) ∧
  (CheckPassphrase "/pki" "pa55word" demo_ca).2 = Ok tt ∧
  (CheckPassphrase "/pki" "Pa55word" demo_ca).2 = Err (Sentinel ErrBadPassphrase).
Proof. by vm_compute. Qed.

(** The comment on [Open] has tampered input end in ErrBadPassphrase; an
    envelope asking for no rounds makes argon2 panic instead. *)
Example open_panics : Open (to_text (mkEnvelope 1 "argon2id" 0 65536 4 "" "" "")) "pa55word"
  = Err (go_panic "argon2: number of rounds too small").
Proof. by vm_compute. Qed.

Lemma Rotate_correct_witness :
  ∃ before after_ key, files (fs demo_ca) !! caKeyPath "/pki" = Some before ∧
    files (fs (Rotate "/pki" "pa55word" "correct horse" demo_ca).1) !! caKeyPath "/pki" = Some after_ ∧
    Open before "pa55word" = Ok key ∧ Open after_ "correct horse" = Ok key.
Proof.
  destruct (Rotate "/pki" "pa55word" "correct horse" demo_ca) as [s' r] eqn:E.
  assert (Hr : r = Ok tt) by (apply (f_equal snd) in E; by vm_compute in E). subst r.
  exact (proj2 (Rotate_correct "/pki" "pa55word" "correct horse" demo_ca s' (Ok tt) E)).
Defined.

Lemma Issue_correct_witness :
  files (fs (Issue "/pki" KindClient "alice" 30 "pa55word" demo_ca).1) = files (fs demo_ca).
Proof.
  destruct (Issue "/pki" KindClient "alice" 30 "pa55word" demo_ca) as [s' r] eqn:E.
  exact (proj1 (Issue_correct "/pki" KindClient "alice" 30 "pa55word" demo_ca s' r E)).
Defined.

Definition demo_revoked : list RevokedEntry := [mkRevoked "1f" (900 * second); mkRevoked "a0b" (950 * second)].

Lemma RegenCRL_correct_witness :
  ∃ cert caKey pem der crl, authority "/pki" (files (fs demo_ca)) "pa55word" cert caKey ∧
    files (fs (RegenCRL "/pki" demo_revoked "pa55word" demo_ca).1) !! CRLPath "/pki" = Some pem ∧ pem_decode pem = Some der ∧
    parse_crl der = Ok (mkSigned crl None caKey) ∧
    Forall2 (λ r e, SetString16 (rSerialHex r) = Some e.1 ∧ e.2 = whole (RevokedAt r)) demo_revoked (Entries crl).
Proof.
  destruct (RegenCRL "/pki" demo_revoked "pa55word" demo_ca) as [s' r] eqn:E.
  assert (Hr : r = Ok tt) by (apply (f_equal snd) in E; by vm_compute in E). subst r.
  exact (proj2 (RegenCRL_correct "/pki" demo_revoked "pa55word" demo_ca s' (Ok tt) E)).
Defined.
End pki.
