(* ===== verification/LogRotate.v ===== *)
(** * LogRotate: log rotation (internal/controller/logrotate.go)

    Copy-and-truncate, compression of all but the newest generations and
    removal of the old ones, over the files of the log directory, while the
    programs that write the logs go on appending to them; gzip is an
    interface. No second rotation runs at the same time. *)

From Stdlib Require Import Ascii.
From stdpp Require Import sorting.
From S2P Require Import Prelude GoStr GoErr GoFs GoTime OvpnConf.

Module logrotate.

Definition LogNames : list string := ["openvpn"; "ovcp"; "dnsmasq"].
Definition LogPaths (logsDir : string) : list string := (λ name, join_path logsDir (name +:+ ".log")) <$> LogNames.

Record LogConfig := mkLogConfig { Enabled : bool; RetentionDays : Z; KeepUncompressed : Z }.

Definition DefaultLogConfig (getenv : string → string) : LogConfig :=
  mkLogConfig (negb (String.eqb (getenv "OVCP_LOG_ROTATE_ENABLED") "false"))
    (ovpnconf.EnvInt getenv "OVCP_LOG_RETENTION_DAYS" 14) (ovpnconf.EnvInt getenv "OVCP_LOG_KEEP_UNCOMPRESSED" 2).

(** gzip's writer, and what reading back gives. *)
Class Gzip := {
  gzip : string → string;
  gunzip : string → option string;
  gunzip_gzip : ∀ d, gunzip (gzip d) = Some d }.

Record generation := mkGen { g_file : string; g_t : Z; g_compressed : bool }.

Definition rotated_name (path : string) (now : Z) : string := path +:+ "-" +:+ format_stamp now.

(** What goes on during one log's turn: the times the code reads, for the name
    and for the retention, and what the log's writer appends before the log is
    read, then before it is copied, then before it is truncated, and then. *)
Record Turn := mkTurn {
  named : Z; pruned : Z;
  w_before : string; w_read : string; w_copied : string; w_after : string }.

(** A turn in an instant, with nobody writing. *)
Definition quiet (now : Z) : string → Turn := λ _, mkTurn now now "" "" "" "".

(** A writer with the file open for appending. *)
Definition writes (path text : string) (s : Fs) : Fs := mkFs (alter (λ d, d +:+ text) path (files s)) (io s).

Definition RotateLog (t : Turn) (path : string) : F unit := λ s,
  match ReadFile path s with
  | (s1, Err e) => (writes path (w_read t +:+ w_copied t) s1, if is_not_exist e then Ok tt else Err e)
  | (s1, Ok data) =>
      if String.eqb data "" then (writes path (w_read t +:+ w_copied t) s1, Ok tt)
      else match WriteFile (rotated_name path (named t)) data (writes path (w_read t) s1) with
           | (s2, Err e) => (writes path (w_copied t) s2, Err e)
           | (s2, Ok _) => Truncate path (writes path (w_copied t) s2)
           end
  end.

(** [filepath.Glob(path + "-*")] for a path without pattern characters: the
    names in byte order; an unreadable directory gives none. *)
Definition glob_after (path : string) (m : gmap string string) : list string :=
  merge_sort s_le (filter (λ p, has_prefix (path +:+ "-") p = true ∧
                                no_char "/" (trim_prefix (path +:+ "-") p) = true) (map_to_list m).*1).

Definition Glob (path : string) : F (list string) := λ s,
  match next_fault s with
  | Some _ => (after s (files s), Ok [])
  | None => (after s (files s), Ok (glob_after path (files s)))
  end.

(** A rotated file's stamp, if its name has one. *)
Definition gen_of (path m : string) : option generation :=
  let stamp := trim_prefix (base_name path +:+ "-") (base_name m) in
  let compressed := has_suffix ".gz" stamp in
  t ← parse_stamp (trim_suffix ".gz" stamp);
  Some (mkGen m t compressed).

Definition gen_le (a b : generation) : Prop := g_t a ≤ g_t b.
#[export] Instance gen_le_dec : RelDecision gen_le := λ a b, decide (g_t a ≤ g_t b).

(** Oldest first; of two with one stamp, in the order of their names. *)
Definition rotatedGenerations (path : string) : F (list generation) :=
  matches ← Glob path;
  mret (merge_sort gen_le (omap (gen_of path) matches)).

Section Rotation.
  Context `{Gzip}.

Definition gzipFile (path : string) : F unit :=
  data ← ReadFile path;
  WriteFile (path +:+ ".gz") (gzip data) ;;
  Remove path.

Fixpoint f_each {A} (f : A → F unit) (l : list A) : F unit :=
  match l with [] => mret tt | a :: l' => f a ;; f_each f l' end.

Definition compressOld (path : string) (keepUncompressed : Z) : F unit :=
  gens ← rotatedGenerations path;
  let plain := List.filter (λ g, negb (g_compressed g)) gens in
  let keep := Z.to_nat keepUncompressed in
  f_each (λ g, gzipFile (g_file g)) (take (length plain - keep) plain).

Definition day : Z := 24 * hour.

Definition pruneOld (now : Z) (path : string) (retentionDays : Z) : F unit :=
  if retentionDays <=? 0 then mret tt else
  gens ← rotatedGenerations path;
  let cutoff := now - retentionDays * day in
  f_each (λ g, Remove (g_file g)) (List.filter (λ g, g_t g <? cutoff) gens).

(** One path's errors: a failed rotation ends it, the other steps do not. *)
Definition rotate_path (t : Turn) (cfg : LogConfig) (p : string) (s : Fs) : Fs * list goerr :=
  let '(s1, r1) := RotateLog t p (writes p (w_before t) s) in
  let s1 := writes p (w_after t) s1 in
  match r1 with
  | Err e => (s1, [Wrapf "%s: rotate: %w" [p] e])
  | Ok _ =>
      let '(s2, r2) := compressOld p (KeepUncompressed cfg) s1 in
      let '(s3, r3) := pruneOld (pruned t) p (RetentionDays cfg) s2 in
      (s3, match r2 with Err e => [Wrapf "%s: compress: %w" [p] e] | Ok _ => [] end ++
           match r3 with Err e => [Wrapf "%s: prune: %w" [p] e] | Ok _ => [] end)
  end.

Fixpoint rotate_all (turns : string → Turn) (cfg : LogConfig) (paths : list string) (s : Fs) : Fs * list goerr :=
  match paths with
  | [] => (s, [])
  | p :: ps => let '(s1, es) := rotate_path (turns p) cfg p s in
               let '(s2, es') := rotate_all turns cfg ps s1 in (s2, es ++ es')
  end.

Definition RotateLogs (turns : string → Turn) (paths : list string) (cfg : LogConfig) : F unit := λ s,
  let '(s', errs) := rotate_all turns cfg paths s in (s', of_error (errors_join errs)).

(** ** Status *)

Record LogSourceStatus := mkStatus {
  lsName : string; lsPath : string; CurrentSize : Z; Generations : Z; Oldest : Z; Newest : Z }.

Definition LogStatusFor (name path : string) : F LogSourceStatus := λ s,
  let '(s1, size) := match next_fault s with
                     | Some _ => (after s (files s), 0)
                     | None => (after s (files s), Z.of_nat (default O (slen <$> files s !! path)))
                     end in
  let '(s2, r) := rotatedGenerations path s1 in
  let gens := match r with Ok g => g | Err _ => [] end in
  (s2, Ok (mkStatus name path size (Z.of_nat (length gens))
             (default zero_time (g_t <$> head gens)) (default zero_time (g_t <$> last gens)))).

(** ** What a file name has stored *)

(** The log kept under a name, compressed or not. *)
Definition stored (m : gmap string string) (n : string) : option string :=
  match m !! n with Some d => Some d | None => m !! (n +:+ ".gz") ≫= gunzip end.

(** The names [Glob] finds for a path. *)
Definition belongs (path n : string) : Prop := ∃ x, n = path +:+ "-" +:+ x ∧ no_char "/" x = true.

(** Removed by the retention, under either form. *)
Definition expired (now : Z) (path : string) (days : Z) (n : string) : Prop :=
  0 < days ∧ ∃ m g, (m = n ∨ m = n +:+ ".gz") ∧ gen_of path m = Some g ∧ g_t g < now - days * day.

Lemma stored_same m m' n : m' !! n = m !! n → m' !! (n +:+ ".gz") = m !! (n +:+ ".gz") → stored m' n = stored m n.
Proof. unfold stored. by intros -> ->. Qed.

Lemma gz_ne n : n +:+ ".gz" ≠ n.
Proof. intros E. apply (f_equal slen) in E. rewrite s_length_app in E. cbn in E. lia. Qed.

Lemma gz_inj a b : a +:+ ".gz" = b +:+ ".gz" → a = b.
Proof.
  intros E. apply (f_equal chars) in E. rewrite !chars_app in E. apply app_inv_tail in E. by apply chars_inj.
Qed.

Lemma not_gz n k : has_suffix ".gz" n = false → n ≠ k +:+ ".gz".
Proof. intros Hn ->. assert (has_suffix ".gz" (k +:+ ".gz") = true) by (apply has_suffix_spec; eauto). congruence. Qed.

(** Compressing keeps what every name has stored, wherever the disk fails. *)
Lemma gzipFile_keeps f s n d : has_suffix ".gz" f = false → has_suffix ".gz" n = false →
  stored (files s) n = Some d → stored (files (gzipFile f s).1) n = Some d.
Proof.
  intros Hf Hn Hst. unfold gzipFile, mbind, F_bind. pose proof (λ k, not_gz f k Hf) as Hfz. pose proof (λ k, not_gz n k Hn) as Hnz.
  unfold ReadFile. destruct (next_fault s) as [[e0 k0]|]; [done|].
  destruct (files s !! f) as [data|] eqn:Ef; [|done].
  set (s1 := after s (files s)).
  assert (Hw : ∀ x, stored (<[f +:+ ".gz" := x]> (files s)) n = Some d).
  { intros x. destruct (decide (n = f)) as [->|Hne].
    - unfold stored in *. rewrite lookup_insert_ne by apply gz_ne. by rewrite Ef in *.
    - rewrite <- Hst. apply stored_same; apply lookup_insert_ne; [intros E; by apply (Hnz f)|]. intros E%gz_inj. congruence. }
  unfold WriteFile. destruct (next_fault s1) as [[e1 [k1|]]|]; [by apply Hw|done|].
  unfold Remove. cbn [files after]. destruct (next_fault _) as [[e2 k2]|]; [by apply Hw|].
  change (files s1) with (files s). rewrite lookup_insert_ne by apply gz_ne. rewrite Ef. cbn [fst files after].
  destruct (decide (n = f)) as [->|Hne].
  - unfold stored in *. rewrite Ef in Hst. injection Hst as ->.
    rewrite lookup_delete_eq, lookup_delete_ne, lookup_insert_eq by (symmetry; apply gz_ne). cbn. apply gunzip_gzip.
  - rewrite <- (Hw (gzip data)). apply stored_same; apply lookup_delete_ne; [congruence|]. intros E. by apply (Hfz n).
Qed.

Lemma f_each_rel {A} (R : Fs → Fs → Prop) `{!PreOrder R} (f : A → F unit) l :
  (∀ a s, a ∈ l → R s (f a s).1) → ∀ s, R s (f_each f l s).1.
Proof.
  induction l as [|a l IH]; intros Hf s; [done|]. cbn [f_each]. unfold mbind, F_bind.
  pose proof (Hf a s ltac:(left)) as H1. destruct (f a s) as [s1 [[]|e]]; [|done].
  etrans; [done|]. apply IH. intros b s2 Hb. apply Hf. by right.
Qed.

(** ** The generations found *)

Lemma Glob_elem path s s' l m : Glob path s = (s', Ok l) → files s' = files s ∧ (m ∈ l → belongs path m ∧ is_Some (files s !! m)).
Proof.
  unfold Glob. destruct (next_fault s) as [f|]; intros [= <- <-]; (split; [done|]); [by intros ?%elem_of_nil|].
  unfold glob_after. rewrite merge_sort_Permutation. intros [[Hp Hc] Hin]%list_elem_of_filter. split.
  - apply has_prefix_spec in Hp as [x ->]. exists x. rewrite trim_prefix_app in Hc. by rewrite <- s_app_assoc.
  - apply list_elem_of_fmap in Hin as ([k v]&->&Hin%elem_of_map_to_list). by exists v.
Qed.

Lemma generations_elem path s s' gens g : rotatedGenerations path s = (s', Ok gens) →
  files s' = files s ∧ (g ∈ gens → gen_of path (g_file g) = Some g ∧ belongs path (g_file g) ∧ is_Some (files s !! g_file g)).
Proof.
  intros E. apply f_bind_run in E as [(s1&l&E1&[= <- <-])|(e&E1&[=])]. split; [by eapply (Glob_elem path s s1 l "")|].
  rewrite merge_sort_Permutation. intros (m&Hm&Hg)%list_elem_of_omap.
  assert (g_file g = m) as ->. { unfold gen_of in Hg. destruct (parse_stamp _); [|done]. by injection Hg as <-. }
  split; [done|]. by eapply Glob_elem.
Qed.

Lemma generations_total path s : ∃ s' gens, rotatedGenerations path s = (s', Ok gens).
Proof. unfold rotatedGenerations, mbind, F_bind, Glob. destruct (next_fault s); by eexists _, _. Qed.

Lemma last_index_app c a b : no_char c b = true → last_index_byte c (a +:+ b) = last_index_byte c a.
Proof.
  intros Hb. assert (Hnone : last_index_byte c b = None).
  { clear a. induction b as [|d b IH]; [done|]. rewrite no_char_cons in Hb. apply andb_true_iff in Hb as [Hd Hb].
    cbn [last_index_byte]. rewrite IH by done. by destruct (Ascii.eqb d c). }
  induction a as [|d a IH]; sapp; [done|]. cbn [last_index_byte]. by rewrite IH.
Qed.

Lemma base_name_app path b : no_char "/" b = true → base_name (path +:+ b) = base_name path +:+ b.
Proof.
  intros Hb. unfold base_name. rewrite last_index_app by done.
  destruct (last_index_byte "/" path) as [i|] eqn:E; [|done]. apply last_index_byte_lt in E. apply s_drop_app_le. lia.
Qed.

(** The stamp of a name the glob found. *)
Lemma stamp_of path x : no_char "/" x = true →
  trim_prefix (base_name path +:+ "-") (base_name (path +:+ "-" +:+ x)) = x.
Proof. intros Hx. rewrite base_name_app by (rewrite no_char_app; by rewrite Hx). by rewrite s_app_assoc, trim_prefix_app. Qed.

Lemma short_stamp x : (slen x < 4)%nat → parse_stamp x = None.
Proof.
  intros Hx. assert (get_year x = None) as E; [|unfold parse_stamp; by rewrite E].
  destruct x as [|a [|b [|c [|d x]]]]; [done|..|simpl in Hx; lia]; unfold get_year; cbn [getnum];
    (destruct (dig a); [|done]); try done; (destruct (dig b); [|done]); cbn [getnum]; [done|by destruct (dig c)].
Qed.

Lemma suffix_of_app a x q : (slen q ≤ slen x)%nat → has_suffix q (a +:+ x) = true → has_suffix q x = true.
Proof.
  intros Hl [r E]%has_suffix_spec. apply has_suffix_spec. exists (s_take (slen x - slen q) x).
  rewrite <- (s_take_drop (slen x - slen q) x) in E |- * at 1. f_equal. rewrite s_app_assoc in E.
  apply (f_equal chars) in E. rewrite !chars_app in E. apply app_inj_2 in E as [_ E]; [by apply chars_inj|].
  rewrite !length_chars, s_length_drop. lia.
Qed.

Lemma plain_name path m g : belongs path m → gen_of path m = Some g → g_compressed g = false → has_suffix ".gz" m = false.
Proof.
  intros (x&->&Hx) Hg Hc. unfold gen_of in Hg. rewrite stamp_of in Hg by done.
  destruct (parse_stamp _) as [t|] eqn:Et; [|done]. injection Hg as <-. cbn in Hc.
  assert (trim_suffix ".gz" x = x) as Etr. { unfold has_suffix in Hc. unfold trim_suffix. by destruct (cut_suffix ".gz" x). }
  rewrite Etr in Et. apply not_true_iff_false. intros Hm. destruct (decide (slen x < 4)%nat) as [Hs|Hs].
  - by rewrite short_stamp in Et.
  - rewrite s_app_assoc in Hm. apply suffix_of_app in Hm; [congruence|]. change (slen ".gz") with 3%nat. lia.
Qed.

(** ** What each step keeps *)

(** [n] still has stored what it had, in every later state. *)
Definition keeps (n d : string) (s s' : Fs) : Prop := stored (files s) n = Some d → stored (files s') n = Some d.
#[local] Instance keeps_preorder n d : PreOrder (keeps n d).
Proof. split; [by intros s Hs|]. unfold keeps. intros x y z. auto. Qed.

Lemma compressOld_keeps path keep n d s : has_suffix ".gz" n = false → keeps n d s (compressOld path keep s).1.
Proof.
  intros Hn Hs. unfold compressOld. destruct (generations_total path s) as (s1&gens&E). pose proof E as [Hf Hin]%(generations_elem path s s1 gens (mkGen "" 0 false)).
  unfold mbind, F_bind. rewrite E. rewrite <- Hf in Hs. revert Hs. apply (f_each_rel (keeps n d)).
  intros g s2 Hg Hs2. apply gzipFile_keeps; [|done..].
  assert (g ∈ List.filter (λ g, negb (g_compressed g)) gens) as Hg' by (by eapply elem_of_take in Hg as (?&?%list_elem_of_lookup_2&_)).
  apply list_elem_of_In, filter_In in Hg' as [Hg' Hc%negb_true_iff]. apply list_elem_of_In in Hg'.
  apply (generations_elem path s s1 gens g E) in Hg' as (Hg'&Hb&_). by eapply plain_name.
Qed.

Lemma pruneOld_keeps now path days n d s : ¬ expired now path days n → keeps n d s (pruneOld now path days s).1.
Proof.
  intros Hx Hs. unfold pruneOld. destruct (Z.leb_spec days 0) as [|Hd]; [done|].
  destruct (generations_total path s) as (s1&gens&E). pose proof E as [Hf _]%(generations_elem path s s1 gens (mkGen "" 0 false)).
  unfold mbind, F_bind. rewrite E. rewrite <- Hf in Hs. revert Hs. apply (f_each_rel (keeps n d)).
  intros g s2 [Hg Hlt%Z.ltb_lt]%list_elem_of_In%filter_In Hs2. apply list_elem_of_In, (generations_elem path s s1 gens g E) in Hg as (Hg&_&_).
  assert (n ≠ g_file g ∧ n +:+ ".gz" ≠ g_file g) as [H1 H2] by (split; intros En; apply Hx; (split; [done|]); eauto 6).
  rewrite <- Hs2. unfold Remove. destruct (next_fault s2) as [[e k]|]; [done|].
  destruct (files s2 !! g_file g); [|done]. cbn. apply stored_same; by apply lookup_delete_ne.
Qed.

Lemma no_gz_Z r : has_suffix ".gz" (r +:+ "Z") = false.
Proof.
  apply not_true_iff_false. intros [q E]%has_suffix_spec. change ".gz" with (".g" +:+ "z") in E. rewrite s_app_assoc in E.
  apply (f_equal chars) in E. rewrite !chars_app in E. by apply app_inj_tail in E as [_ [=]].
Qed.

Lemma two_no_slash v : 0 ≤ v < 100 → no_char "/" (two v) = true.
Proof.
  intros Hv. unfold two. rewrite !no_char_cons.
  assert (∀ x, 0 ≤ x < 10 → Ascii.eqb (digit x) "/" = false) as Hd.
  { intros x Hx. apply Ascii.eqb_neq. intros E. pose proof (dig_digit x Hx) as Hg. by rewrite E in Hg. }
  rewrite !Hd by (Z.div_mod_to_equations; lia). done.
Qed.

Lemma stamp_no_slash t : 0 ≤ stamp_year t < 10000 → no_char "/" (format_stamp t) = true.
Proof.
  unfold stamp_year, format_stamp. pose proof (civil_ranges (unix t / day_seconds)) as Hmd.
  assert (Hs : 0 ≤ unix t mod day_seconds < 86400) by (apply Z.mod_pos_bound; done).
  destruct (civil_from_days (unix t / day_seconds)) as [[y m] d]. destruct Hmd as [Hm Hd]. cbn. intros Hy.
  assert (days_in m y ≤ 31) by (unfold days_in; repeat case_match; lia).
  unfold four. rewrite <- !s_app_assoc, !no_char_app, !two_no_slash by (Z.div_mod_to_equations; lia). done.
Qed.

Lemma stamp_ends t : ∃ r, format_stamp t = r +:+ "Z".
Proof.
  unfold format_stamp. destruct (civil_from_days _) as [[y m] d]. rewrite !s_app_assoc. by eexists.
Qed.

Lemma rotated_not_gz path now : has_suffix ".gz" (rotated_name path now) = false.
Proof. unfold rotated_name. destruct (stamp_ends now) as [r ->]. rewrite !s_app_assoc. apply no_gz_Z. Qed.

(** The newest generation has just been written: it is not expired. *)
Lemma rotated_fresh now later path days : 0 ≤ stamp_year now < 10000 → later - now ≤ 23 * hour → ¬ expired later path days (rotated_name path now).
Proof.
  intros Hy Hl (Hd&m&g&Hm&Hg&Hlt). pose proof (stamp_no_slash now Hy) as Hns.
  assert (has_suffix ".gz" (format_stamp now) = false) as Hgz by (destruct (stamp_ends now) as [r ->]; apply no_gz_Z).
  assert (g_t g = unix now * second) as Ht.
  { unfold gen_of in Hg. assert (trim_suffix ".gz" (trim_prefix (base_name path +:+ "-") (base_name m)) = format_stamp now) as Es.
    { destruct Hm as [->| ->]; unfold rotated_name.
      - rewrite stamp_of by done. unfold trim_suffix. unfold has_suffix in Hgz. by destruct (cut_suffix ".gz" (format_stamp now)).
      - rewrite <- !s_app_assoc, stamp_of by (rewrite no_char_app; by rewrite Hns). unfold trim_suffix.
        destruct (cut_suffix_app ".gz" (format_stamp now)) as [r' Er]. rewrite Er. apply cut_suffix_sound in Er. by apply gz_inj in Er. }
    rewrite Es, parse_format_stamp in Hg by done. by injection Hg as <-. }
  rewrite Ht in Hlt. unfold unix, second, day, hour, minute, second in *. pose proof (Z.div_mod now 1000000000). pose proof (Z.mod_pos_bound now 1000000000). lia.
Qed.

Lemma belongs_ne path n : belongs path n → n ≠ path.
Proof. intros (x&->&_) E. apply (f_equal slen) in E. rewrite !s_length_app in E. simpl in E. lia. Qed.

Lemma rotated_belongs path now : 0 ≤ stamp_year now < 10000 → belongs path (rotated_name path now).
Proof. intros Hy. exists (format_stamp now). split; [done|]. by apply stamp_no_slash. Qed.

Lemma writes_here p x s : files (writes p x s) !! p = (λ d, d +:+ x) <$> files s !! p.
Proof. apply lookup_alter_eq. Qed.
Lemma writes_ne p x s n : n ≠ p → files (writes p x s) !! n = files s !! n.
Proof. intros Hn. by apply lookup_alter_ne. Qed.

Lemma RotateLog_run t p s s' r : RotateLog t p s = (s', r) → rotated_name p (named t) ≠ p →
  (∀ n, n ≠ p → n ≠ rotated_name p (named t) → files s' !! n = files s !! n) ∧
  (∀ data, files s !! p = Some data →
     files s' !! p = Some (data +:+ w_read t +:+ w_copied t) ∨
     r = Ok tt ∧ data ≠ "" ∧ files s' !! p = Some "" ∧ files s' !! rotated_name p (named t) = Some data).
Proof.
  intros E Hne. unfold RotateLog, ReadFile in E. set (s1 := after s (files s)) in *. change (files s) with (files s1) in E |- *.
  destruct (next_fault s) as [[e k]|].
  { injection E as <- <-. split; [intros n Hn _; by apply writes_ne|]. intros data Hd. left. by rewrite writes_here, Hd. }
  destruct (files s1 !! p) as [data|] eqn:Ep.
  2:{ cbn in E. injection E as <- <-. split; [|done]. intros n Hn _. by apply writes_ne. }
  destruct (String.eqb_spec data "") as [->|Hd].
  { injection E as <- <-. split; [intros n Hn _; by apply writes_ne|]. intros d' [= <-]. left. by rewrite writes_here, Ep. }
  pose proof (writes_here p (w_read t) s1) as H2. rewrite Ep in H2. pose proof (writes_ne p (w_read t) s1) as N2.
  set (s2 := writes p (w_read t) s1) in *. clearbody s2. unfold WriteFile in E.
  destruct (next_fault s2) as [[e [k|]]|].
  - injection E as <- <-. split; [intros n Hn Hn'|intros d' [= <-]; left].
    + rewrite writes_ne by done. cbn [files after]. rewrite lookup_insert_ne by done. by apply N2.
    + rewrite writes_here. cbn [files after]. rewrite lookup_insert_ne, H2 by done. cbn. by rewrite s_app_assoc.
  - injection E as <- <-. split; [intros n Hn _; rewrite writes_ne by done; by apply N2|intros d' [= <-]; left].
    rewrite writes_here. cbn [files after]. rewrite H2. cbn. by rewrite s_app_assoc.
  - set (s3 := after s2 (<[rotated_name p (named t):=data]> (files s2))) in E.
    assert (files (writes p (w_copied t) s3) !! p = Some ((data +:+ w_read t) +:+ w_copied t)) as H3.
    { rewrite writes_here. unfold s3. cbn [files after]. by rewrite lookup_insert_ne, H2. }
    pose proof (writes_ne p (w_copied t) s3) as N3. set (s4 := writes p (w_copied t) s3) in *. clearbody s4. unfold Truncate in E. destruct (next_fault s4) as [[e k]|].
    + injection E as <- <-. cbn [files after]. split; [intros n Hn Hn'|intros d' [= <-]; left].
      * rewrite N3 by done. cbn. rewrite lookup_insert_ne by done. by apply N2.
      * by rewrite H3, s_app_assoc.
    + rewrite H3 in E. injection E as <- <-. cbn [files after]. split; [intros n Hn Hn'|intros d' [= <-]; right].
      * rewrite lookup_insert_ne, N3 by done. cbn. rewrite lookup_insert_ne by done. by apply N2.
      * rewrite lookup_insert_eq, lookup_insert_ne, N3 by done. cbn. by rewrite lookup_insert_eq.
Qed.

(** Compressing and pruning touch only names the glob finds, or their
    compressed form. *)
Lemma belongs_gz path n : belongs path n → belongs path (n +:+ ".gz").
Proof. intros (x&->&Hx). exists (x +:+ ".gz"). rewrite no_char_app, Hx, <- !s_app_assoc. done. Qed.

Definition untouched (path : string) (s s' : Fs) : Prop := ∀ n, ¬ belongs path n → files s' !! n = files s !! n.
#[local] Instance untouched_preorder path : PreOrder (untouched path).
Proof. split; [by intros s n|]. intros x y z Hxy Hyz n Hn. by rewrite Hyz, Hxy. Qed.

Lemma only_untouched {A} path (m : F A) s : only (belongs path) m → untouched path s (m s).1.
Proof. intros Hm n Hn. by apply Hm. Qed.

Lemma compressOld_untouched path keep s : untouched path s (compressOld path keep s).1.
Proof.
  unfold compressOld. destruct (generations_total path s) as (s1&gens&E). pose proof E as [Hf _]%(generations_elem path s s1 gens (mkGen "" 0 false)).
  unfold mbind, F_bind. rewrite E. transitivity s1; [intros n _; by rewrite Hf|]. apply (f_each_rel (untouched path)).
  intros g s2 Hg. apply only_untouched.
  assert (g ∈ List.filter (λ g, negb (g_compressed g)) gens) as Hg' by (by eapply elem_of_take in Hg as (?&?%list_elem_of_lookup_2&_)).
  apply list_elem_of_In, filter_In in Hg' as [Hg' _]. apply list_elem_of_In, (generations_elem path s s1 gens g E) in Hg' as (_&Hb&_).
  unfold gzipFile. pose proof (belongs_gz _ _ Hb). eauto 8 with files.
Qed.

Lemma pruneOld_untouched now path days s : untouched path s (pruneOld now path days s).1.
Proof.
  unfold pruneOld. destruct (days <=? 0); [done|].
  destruct (generations_total path s) as (s1&gens&E). pose proof E as [Hf _]%(generations_elem path s s1 gens (mkGen "" 0 false)).
  unfold mbind, F_bind. rewrite E. transitivity s1; [intros n _; by rewrite Hf|]. apply (f_each_rel (untouched path)).
  intros g s2 [Hg _]%list_elem_of_In%filter_In. apply only_untouched.
  apply list_elem_of_In, (generations_elem path s s1 gens g E) in Hg as (_&Hb&_). eauto with files.
Qed.

(** Where a log's lines are after its turn: where they were, with what has been
    appended; or in the new generation, but for what came between the reading
    and the truncation, which is gone. *)
Definition accounted (t : Turn) (p data : string) (s' : Fs) : Prop :=
  let before := data +:+ w_before t in
  files s' !! p = Some (before +:+ w_read t +:+ w_copied t +:+ w_after t) ∨
  before ≠ "" ∧ files s' !! p = Some (w_after t) ∧ stored (files s') (rotated_name p (named t)) = Some before.

(** The turn's name is of a year with four digits and no generation has it, and
    it takes less than a day. *)
Definition timely (t : Turn) (p : string) (s : Fs) : Prop :=
  0 ≤ stamp_year (named t) < 10000 ∧ pruned t - named t ≤ 23 * hour ∧ stored (files s) (rotated_name p (named t)) = None.

(** What one path's turn keeps, wherever the disk fails. *)
Lemma rotate_path_spec t cfg p s s' es : rotate_path t cfg p s = (s', es) → has_suffix ".gz" p = false → timely t p s →
  (∀ n, n ≠ p → ¬ belongs p n → files s' !! n = files s !! n) ∧
  (∀ data, files s !! p = Some data → accounted t p data s') ∧
  (∀ n d, belongs p n → has_suffix ".gz" n = false → ¬ expired (pruned t) p (RetentionDays cfg) n →
     stored (files s) n = Some d → stored (files s') n = Some d).
Proof.
  intros E Hgz (Hy&Hl&Hnew). pose proof (rotated_belongs p _ Hy) as Hrb. pose proof (belongs_ne _ _ Hrb) as Hrn.
  pose proof (rotated_not_gz p (named t)) as Hrg. unfold rotate_path in E.
  destruct (RotateLog t p (writes p (w_before t) s)) as [s0 r1] eqn:E1. destruct (RotateLog_run t p _ s0 r1 E1 Hrn) as [Hoth0 Hlive0].
  set (s1 := writes p (w_after t) s0) in *.
  assert (∀ n, n ≠ p → n ≠ rotated_name p (named t) → files s1 !! n = files s !! n) as Hoth.
  { intros n Hn Hn'. unfold s1. rewrite writes_ne, Hoth0, writes_ne by done. done. }
  assert (∀ data, files s !! p = Some data → r1 = Ok tt ∧ accounted t p data s1 ∨
    files s1 !! p = Some ((data +:+ w_before t) +:+ w_read t +:+ w_copied t +:+ w_after t)) as Hlive.
  { intros data Hd. destruct (Hlive0 (data +:+ w_before t)) as [Hk|(->&Hne&Hp&Hr)]; [by rewrite writes_here, Hd|right|left].
    - unfold s1. rewrite writes_here, Hk. cbn. by rewrite !s_app_assoc.
    - split; [done|]. right. unfold s1, stored. rewrite writes_here, writes_ne, Hr, Hp by done. done. }
  assert (∀ n d, belongs p n → has_suffix ".gz" n = false → stored (files s) n = Some d → stored (files s1) n = Some d) as Hkeep.
  { intros n d Hb Hng Hst. assert (n ≠ rotated_name p (named t)) by congruence. rewrite <- Hst. apply stored_same; apply Hoth.
    - by apply belongs_ne.
    - done.
    - by apply belongs_ne, belongs_gz.
    - intros En. by apply (not_gz _ n) in Hrg. }
  destruct r1 as [[]|e].
  2:{ injection E as <- _. split_and!; [|intros data Hd|intros n d Hb Hng _; by apply Hkeep].
      - intros n Hn Hb. apply Hoth; [done|]. intros ->. contradiction.
      - destruct (Hlive data Hd) as [([=]&_)|?]. by left. }
  pose proof (compressOld_untouched p (KeepUncompressed cfg) s1) as U2. pose proof (compressOld_keeps p (KeepUncompressed cfg)) as K2.
  destruct (compressOld p (KeepUncompressed cfg) s1) as [s2 r2] eqn:E2.
  pose proof (pruneOld_untouched (pruned t) p (RetentionDays cfg) s2) as U3. pose proof (pruneOld_keeps (pruned t) p (RetentionDays cfg)) as K3.
  destruct (pruneOld (pruned t) p (RetentionDays cfg) s2) as [s3 r3] eqn:E3. injection E as <- _. cbn [fst] in *.
  assert (∀ n d, has_suffix ".gz" n = false → ¬ expired (pruned t) p (RetentionDays cfg) n → stored (files s1) n = Some d → stored (files s3) n = Some d) as Hkeep'.
  { intros n d Hng Hex Hst. specialize (K2 n d s1 Hng). rewrite E2 in K2. specialize (K3 n d s2 Hex). rewrite E3 in K3. by apply K3, K2. }
  assert (¬ belongs p p) as Hpp by (intros Hb; by apply belongs_ne in Hb).
  split_and!.
  - intros n Hn Hb. rewrite U3, U2 by done. apply Hoth; [done|]. intros ->. contradiction.
  - intros data Hd. unfold accounted. rewrite U3, U2 by done. destruct (Hlive data Hd) as [[_ [?|(Hne&Hp&Hst)]]|?]; [by left| |by left].
    right. split_and!; [done..|]. apply Hkeep'; [done|by apply rotated_fresh|done].
  - intros n d Hb Hng Hex Hst. apply Hkeep'; [done..|]. by apply Hkeep.
Qed.

(** Two logs whose generations cannot be taken for one another's. *)
Definition apart (p q : string) : Prop :=
  p ≠ q ∧ ¬ belongs p q ∧ ¬ belongs q p ∧ ∀ n, belongs p n → ¬ belongs q n.

Lemma log_apart dir a b x y : a ∈ LogNames → b ∈ LogNames → a ≠ b →
  join_path dir (a +:+ ".log") +:+ x ≠ join_path dir (b +:+ ".log") +:+ y.
Proof.
  intros Ha Hb Hab E. rewrite <- !join_path_app in E. apply join_path_inj in E.
  repeat (apply elem_of_cons in Ha as [->|Ha]); try (by apply elem_of_nil in Ha);
  repeat (apply elem_of_cons in Hb as [->|Hb]); try (by apply elem_of_nil in Hb); by sapp.
Qed.

Lemma LogPaths_apart dir p q : p ∈ LogPaths dir → q ∈ LogPaths dir → p = q ∨ apart p q.
Proof.
  intros (a&->&Ha)%list_elem_of_fmap (b&->&Hb)%list_elem_of_fmap. destruct (decide (a = b)) as [->|Hab]; [by left|right].
  split_and!.
  - intros E. apply (log_apart dir a b "" "" Ha Hb Hab). by rewrite !s_app_nil_r.
  - intros (x&E&_). apply (log_apart dir b a "" ("-" +:+ x) Hb Ha); [done|]. by rewrite s_app_nil_r.
  - intros (x&E&_). apply (log_apart dir a b "" ("-" +:+ x) Ha Hb Hab). by rewrite s_app_nil_r.
  - intros n (x&->&_) (y&E&_). by apply (log_apart dir a b ("-" +:+ x) ("-" +:+ y) Ha Hb Hab).
Qed.

Lemma LogPaths_NoDup dir : NoDup (LogPaths dir).
Proof.
  apply NoDup_fmap_2_strong; [|by apply (bool_decide_unpack _); vm_compute]. intros a b Ha Hb E.
  destruct (decide (a = b)) as [|Hab]; [done|]. destruct (log_apart dir a b "" "" Ha Hb Hab). by rewrite !s_app_nil_r.
Qed.

Lemma LogPaths_not_gz dir p : p ∈ LogPaths dir → has_suffix ".gz" p = false.
Proof.
  intros (a&->&_)%list_elem_of_fmap. rewrite join_path_app. apply not_true_iff_false. intros [r E]%has_suffix_spec.
  change ".log" with (".l" +:+ "og") in E. change ".gz" with (".g" +:+ "z") in E. change "og" with ("o" +:+ "g") in E.
  rewrite !s_app_assoc in E. apply (f_equal chars) in E. rewrite !chars_app in E. by apply app_inj_tail in E as [_ [=]].
Qed.

(** A log's turn leaves the others' files alone. *)
Lemma turn_elsewhere t cfg p q s s' es : apart p q → rotate_path t cfg p s = (s', es) → has_suffix ".gz" p = false →
  timely t p s → ∀ n, n = q ∨ belongs q n → files s' !! n = files s !! n.
Proof.
  intros (H1&H2&H3&H4) E Hgz Ht n Hn. destruct (rotate_path_spec t cfg p s s' es E Hgz Ht) as (Hoth&_&_).
  apply Hoth; destruct Hn as [->|Hn]; [congruence|by intros ->|done|]. intros Hp. by apply (H4 n).
Qed.

Lemma rotate_all_spec turns cfg ps s s' es : rotate_all turns cfg ps s = (s', es) → NoDup ps →
  (∀ p q, p ∈ ps → q ∈ ps → p = q ∨ apart p q) → (∀ p, p ∈ ps → has_suffix ".gz" p = false) →
  (∀ p, p ∈ ps → timely (turns p) p s) →
  (∀ n, (∀ p, p ∈ ps → n ≠ p ∧ ¬ belongs p n) → files s' !! n = files s !! n) ∧
  ∀ p, p ∈ ps →
    (∀ data, files s !! p = Some data → accounted (turns p) p data s') ∧
    (∀ n d, belongs p n → has_suffix ".gz" n = false → ¬ expired (pruned (turns p)) p (RetentionDays cfg) n →
       stored (files s) n = Some d → stored (files s') n = Some d).
Proof.
  revert s es. induction ps as [|p ps IH]; intros s es E Hnd Hap Hgz Ht.
  { injection E as <- <-. split; [done|]. by intros p ?%elem_of_nil. }
  cbn [rotate_all] in E. destruct (rotate_path (turns p) cfg p s) as [s1 es1] eqn:E1. destruct (rotate_all turns cfg ps s1) as [s2 es2] eqn:E2.
  injection E as <- <-. apply NoDup_cons in Hnd as [Hp Hnd].
  destruct (rotate_path_spec (turns p) cfg p s s1 es1 E1) as (Hoth&Hlive&Hkeep); [apply Hgz; by left|apply Ht; by left|].
  assert (Hq : ∀ q, q ∈ ps → apart p q).
  { intros q Hq. destruct (Hap p q) as [->|?]; [by left|by right|done|done]. }
  assert (Helse : ∀ q n, q ∈ ps → n = q ∨ belongs q n → files s1 !! n = files s !! n).
  { intros q n Hin. eapply turn_elsewhere; [by apply Hq|done|apply Hgz; by left|apply Ht; by left]. }
  destruct (IH s1 es2 E2 Hnd) as [Hoth2 Hps]; [intros; apply Hap; by right|intros; apply Hgz; by right| |].
  { intros q Hin. destruct (Ht q ltac:(by right)) as (Hy&Hl&Hnew). split; [done|]. split; [done|]. rewrite <- Hnew. pose proof (rotated_belongs q _ Hy).
    apply stored_same; apply (Helse q); auto using belongs_gz. }
  assert (Hmine : ∀ n, n = p ∨ belongs p n → files s2 !! n = files s1 !! n).
  { intros n Hn. apply Hoth2. intros q Hin. destruct (Hq q Hin) as (H1&H2&H3&H4).
    destruct Hn as [->|Hn]; [done|]. split; [intros ->; done|by apply H4]. }
  split.
  - intros n Hn. rewrite Hoth2 by (intros q Hin; apply Hn; by right). apply Hoth; apply Hn; by left.
  - intros q [->|Hin]%elem_of_cons.
    + destruct (Ht p ltac:(by left)) as (Hy&_). pose proof (rotated_belongs p _ Hy) as Hrb. split.
      * intros data Hd. specialize (Hlive data Hd). unfold accounted in *. rewrite Hmine by auto.
        by rewrite (stored_same (files s1)) by (apply Hmine; auto using belongs_gz).
      * intros n d Hb Hng Hex Hst. rewrite (stored_same (files s1)) by (apply Hmine; auto using belongs_gz). by apply Hkeep.
    + destruct (Hps q Hin) as [Hl Hk]. split.
      * intros data Hd. rewrite <- (Helse q) in Hd by auto. by apply Hl.
      * intros n d Hb Hng Hex Hst. apply Hk; [done..|]. rewrite <- Hst.
        apply stored_same; apply (Helse q); auto using belongs_gz.
Qed.

(** C37: What a rotation can lose, wherever the disk fails, whatever else the
    directory holds and whatever the logs' writers append meanwhile: of every
    log, what is appended between its being read and its being truncated, and
    nothing else. All the rest is in the log, or what was there when it was
    read is in the generation just made and the log has what came after the
    truncation; every generation the retention keeps has what it had,
    compressed or not; and no file that is neither a log nor a generation of
    one changes. It rests on no generation having been made in the same
    second, and on a log's turn taking less than a day. *)
Theorem RotateLogs_keeps turns dir cfg s s' r : RotateLogs turns (LogPaths dir) cfg s = (s', r) →
  (∀ p, p ∈ LogPaths dir → timely (turns p) p s) →
  (∀ n, (∀ p, p ∈ LogPaths dir → n ≠ p ∧ ¬ belongs p n) → files s' !! n = files s !! n) ∧
  ∀ p, p ∈ LogPaths dir →
    (∀ data, files s !! p = Some data → accounted (turns p) p data s') ∧
    (∀ n d, belongs p n → has_suffix ".gz" n = false → ¬ expired (pruned (turns p)) p (RetentionDays cfg) n →
       stored (files s) n = Some d → stored (files s') n = Some d).
Proof.
  intros E Ht. unfold RotateLogs in E. destruct (rotate_all turns cfg (LogPaths dir) s) as [s1 es] eqn:E1.
  injection E as <- _. eapply rotate_all_spec; [done|apply LogPaths_NoDup|apply LogPaths_apart|apply LogPaths_not_gz|done].
Qed.
End Rotation.

(** ** Witnesses *)

Definition plain_gzip : Gzip := {| gzip d := "gz" +:+ d; gunzip s := cut_prefix "gz" s; gunzip_gzip d := cut_prefix_app "gz" d |}.
Definition noon : Z := 1704110400 * second.
Definition log_files : Fs := mkFs (list_to_map
  [("/d/logs/openvpn.log", "new"); ("/d/logs/openvpn.log-20231231T120000Z", "day"); ("/d/logs/openvpn.log-20231230T120000Z", "older");
   ("/d/logs/openvpn.log-20231001T120000Z.gz", "gzlong ago"); ("/d/logs/openvpn.log-note", "mine")]) [].

Example rotated_ex :
  map_to_list (files (@RotateLogs plain_gzip (quiet noon) (LogPaths "/d/logs") (mkLogConfig true 14 1) log_files).1) ≡ₚ
  [("/d/logs/openvpn.log", ""); ("/d/logs/openvpn.log-20240101T120000Z", "new"); ("/d/logs/openvpn.log-20231231T120000Z.gz", "gzday");
   ("/d/logs/openvpn.log-20231230T120000Z.gz", "gzolder"); ("/d/logs/openvpn.log-note", "mine")].
Proof. by apply (bool_decide_unpack _); vm_compute. Qed.

(** openvpn goes on writing. *)
Definition busy (p : string) : Turn := mkTurn noon (noon + 2 * second) "er" "lost" "too" "next".

Example busy_ex :
  let s' := (@RotateLogs plain_gzip busy (LogPaths "/d/logs") (mkLogConfig true 14 1) log_files).1 in
  (files s' !! "/d/logs/openvpn.log", files s' !! "/d/logs/openvpn.log-20240101T120000Z") = (Some "next", Some "newer").
Proof. by vm_compute. Qed.

Example RotateLogs_keeps_witness :
  let s' := (@RotateLogs plain_gzip busy (LogPaths "/d/logs") (mkLogConfig true 14 1) log_files).1 in
  @stored plain_gzip (files s') "/d/logs/openvpn.log-20231230T120000Z" = Some "older" ∧
  @accounted plain_gzip (busy "/d/logs/openvpn.log") "/d/logs/openvpn.log" "new" s'.
Proof.
  assert (Ht : ∀ p, p ∈ LogPaths "/d/logs" → @timely plain_gzip (busy p) p log_files).
  { intros p Hin. split_and!; [vm_compute; congruence..|].
    repeat (apply elem_of_cons in Hin as [->|Hin]); [reflexivity..|by apply elem_of_nil in Hin]. }
  assert (Hx : ¬ expired (noon + 2 * second) "/d/logs/openvpn.log" 14 "/d/logs/openvpn.log-20231230T120000Z").
  { intros (_&m&g&[->| ->]&Hg&Hlt); vm_compute in Hg; injection Hg as <-; by vm_compute in Hlt. }
  intros s'. pose proof (@RotateLogs_keeps plain_gzip busy "/d/logs" (mkLogConfig true 14 1) log_files s' _ (surjective_pairing _) Ht) as [_ Hp].
  destruct (Hp "/d/logs/openvpn.log" ltac:(apply list_elem_of_here)) as [Hl Hk]. split.
  - apply Hk; [by exists "20231230T120000Z"|reflexivity|exact Hx|reflexivity].
  - apply Hl. reflexivity.
Defined.

(** Two rotations in one second: the second overwrites what the first kept. *)
Example same_second_loses :
  let s1 := (@RotateLogs plain_gzip (quiet noon) ["/d/a.log"] (mkLogConfig true 14 9) (mkFs {["/d/a.log" := "one"]} [])).1 in
  let s2 := (@RotateLogs plain_gzip (quiet noon) ["/d/a.log"] (mkLogConfig true 14 9) (mkFs (<["/d/a.log" := "two"]> (files s1)) [])).1 in
  map_to_list (files s2) ≡ₚ [("/d/a.log", ""); ("/d/a.log-20240101T120000Z", "two")].
Proof. by apply (bool_decide_unpack _); vm_compute. Qed.
End logrotate.
