(* ===== verification/World.v ===== *)
(** * World: what the actions of internal/api work on

    The store and the login limiters, the files of the data directory and the
    management connection of one server, and the calls of the components lifted
    to them. One clock and one source of entropy serve every component. *)

From stdpp Require Import sorting.
From S2P Require Import Prelude GoStr GoErr GoFs Store Totp Auth Mgmt Pki.

Module world.
Import store auth pki.

Record World (S : Type) := mkWorld { svc : Service; disk : Fs; conn : mgmt.Client S }.
Arguments mkWorld {S}. Arguments svc {S}. Arguments disk {S}. Arguments conn {S}.

Definition db {S} (w : World S) : Store := St (svc w).
Definition set_db {S} (w : World S) (s : Store) : World S :=
  mkWorld (mkService s (Lim (svc w)) (UserLim (svc w))) (disk w) (conn w).

Definition W (S A : Type) : Type := World S → World S * result A.

#[export] Instance W_ret S : MRet (W S) := λ _ a w, (w, Ok a).
#[export] Instance W_bind S : MBind (W S) := λ _ _ f m w,
  match m w with (w', Ok a) => f a w' | (w', Err e) => (w', Err e) end.

Definition w_fail {S A} (e : goerr) : W S A := λ w, (w, Err e).
Definition w_of {S A} (r : result A) : W S A := λ w, (w, r).
Definition w_now {S} : W S Z := λ w, (w, Ok (clock (db w))).

(** A call whose error only reaches the log, and one whose error the caller
    turns into another. *)
Definition w_ignore {S A} (m : W S A) : W S unit := λ w, ((m w).1, Ok tt).
Definition w_try {S A} (m : W S A) : W S (result A) := λ w, let '(w', r) := m w in (w', Ok r).
Definition w_err {S A} (f : goerr → goerr) (m : W S A) : W S A := λ w,
  match m w with (w', Err e) => (w', Err (f e)) | r => r end.

Definition on_db {S A} (m : M A) : W S A := λ w, let '(s, r) := m (db w) in (set_db w s, r).
Definition on_disk {S A} (m : F A) : W S A := λ w,
  let '(f, r) := m (disk w) in (mkWorld (svc w) f (conn w), r).

(** The authority reads the clock and draws entropy from the same host. *)
Definition pki_env {S} (w : World S) : Env := mkEnv (disk w) (entropy (db w)) (clock (db w)).
Definition on_pki {S A} (m : K A) : W S A := λ w,
  let '(e, r) := m (pki_env w) in
  let w' := set_db w (set_entropy (db w) (rnd e)) in (mkWorld (svc w') (fs e) (conn w'), r).

(** [s.Mgmt.Kill]. *)
Definition mgmt_kill {S} `{mgmt.Server S} (cn msg : string) : W S Z := λ w,
  let '(c, (n, e)) := mgmt.Kill cn msg (conn w) in
  (mkWorld (svc w) (disk w) c, match e with Some e => Err e | None => Ok n end).

(** [s.Mgmt.Status]: the status file read and parsed. *)
Definition mgmt_status {S} (path : string) : W S (list mgmt.VPNClient) := λ w,
  let '(f, r) := ReadFile path (disk w) in
  (mkWorld (svc w) f (conn w), mgmt.Status r).

(** [st.Audit] as a statement of its own: its error is dropped everywhere. *)
Definition audit {S} (actor action detail : string) : W S unit := w_ignore (on_db (Audit actor action detail)).

(** ** Runs *)

Lemma w_bind_run {S A B} (m : W S A) (f : A → W S B) w w' r : mbind f m w = (w', r) →
  (∃ w1 a, m w = (w1, Ok a) ∧ f a w1 = (w', r)) ∨ (∃ e, m w = (w', Err e) ∧ r = Err e).
Proof. unfold mbind, W_bind. destruct (m w) as [w1 [a|e]]; [eauto|]. intros [= <- <-]. eauto. Qed.

(** What a call on one part leaves of the others. *)
Lemma on_db_run {S A} (m : M A) (w w' : World S) r : on_db m w = (w', r) →
  m (db w) = (db w', r) ∧ disk w' = disk w ∧ conn w' = conn w.
Proof. unfold on_db. destruct (m (db w)) as [s r0] eqn:E. intros [= <- <-]. done. Qed.

Lemma on_disk_run {S A} (m : F A) (w w' : World S) r : on_disk m w = (w', r) →
  m (disk w) = (disk w', r) ∧ svc w' = svc w ∧ conn w' = conn w.
Proof. unfold on_disk. destruct (m (disk w)) as [s r0] eqn:E. intros [= <- <-]. done. Qed.

Lemma on_pki_run {S A} (m : K A) (w w' : World S) r : on_pki m w = (w', r) →
  ∃ e, m (pki_env w) = (e, r) ∧ disk w' = fs e ∧ tables (db w') = tables (db w) ∧
       clock (db w') = clock (db w) ∧ faults (db w') = faults (db w) ∧ conn w' = conn w.
Proof. unfold on_pki. destruct (m (pki_env w)) as [e r0] eqn:E. intros [= <- <-]. exists e. done. Qed.

Lemma mgmt_kill_run {S} `{mgmt.Server S} cn msg (w w' : World S) r : mgmt_kill cn msg w = (w', r) →
  svc w' = svc w ∧ disk w' = disk w.
Proof. unfold mgmt_kill. destruct (mgmt.Kill cn msg (conn w)) as [c [n e]]. by intros [= <- <-]. Qed.

Lemma w_ignore_run {S A} (m : W S A) w w' r : w_ignore m w = (w', r) → r = Ok tt ∧ ∃ r0, m w = (w', r0).
Proof. unfold w_ignore. intros [= <- <-]. split; [done|]. exists (m w).2. by destruct (m w). Qed.

Lemma w_try_run {S A} (m : W S A) w w' r : w_try m w = (w', r) → ∃ r0, r = Ok r0 ∧ m w = (w', r0).
Proof. unfold w_try. destruct (m w). intros [= <- <-]. eauto. Qed.

(** ** Runs of a database in order *)

Lemma exec_healthy {A} (f : Tables → Tables * A) s : healthy s →
  ∃ s', exec (λ t, Ok (f t)) s = (s', Ok (f (tables s)).2) ∧ tables s' = (f (tables s)).1 ∧ same_env s s' ∧ healthy s'.
Proof.
  intros Hh. destruct (exec (λ t, Ok (f t)) s) as [s' r] eqn:E. apply exec_inv in E as (Henv&Hh'&E).
  exists s'. destruct (f (tables s)) as [t a] eqn:F. cbn in *.
  destruct E as [(e&_&_&E)|(t'&a'&[= <- <-]&->&->)]; [by specialize (E Hh)|]. auto.
Qed.

Lemma query_healthy {A} (f : Tables → A) s : healthy s →
  ∃ s', query (λ t, Ok (f t)) s = (s', Ok (f (tables s))) ∧ tables s' = tables s ∧ same_env s s' ∧ healthy s'.
Proof. intros Hh. destruct (exec_healthy (λ t, (t, f t)) s Hh) as (s'&E&T&He&Hh'). by exists s'. Qed.

Lemma Audit_healthy actor action detail s : healthy s →
  ∃ s' id, Audit actor action detail s = (s', Ok tt) ∧ healthy s' ∧ clock s' = clock s ∧ totpKey s' = totpKey s ∧
    entropy s' = entropy s ∧
    tables s' = with_audit (tables s) (audit_log (tables s) ++ [mkAuditRow id (unix (clock s)) actor action detail]).
Proof.
  intros Hh. unfold Audit, mbind, M_bind, now.
  destruct (exec_healthy (λ t, (with_audit t (audit_log t ++ [mkAuditRow (next_id (a_id <$> audit_log t)) (unix (clock s)) actor action detail]), tt)) s Hh)
    as (s1&->&T&[]&Hh1). unfold run_hook. destruct (hook s1); (eexists _, (next_id (a_id <$> audit_log (tables s))); split_and!; [done|done|done|done|done|exact T]).
Qed.

(** The value a setting holds, the default when it holds none that reads. *)
Definition read_json {A} `{JsonInto A} (key : string) (def : A) (t : Tables) : A :=
  let raw := default "" (settings t !! key) in
  if String.eqb raw "" then def else match json_unmarshal raw def with Ok cfg => cfg | Err _ => def end.

Lemma LoadJSON_healthy {A} `{JsonInto A} key (def : A) s : healthy s →
  ∃ s', LoadJSON key def s = (s', Ok (read_json key def (tables s))) ∧ tables s' = tables s ∧ same_env s s' ∧ healthy s'.
Proof.
  intros Hh. unfold LoadJSON, GetSetting.
  destruct (query_healthy (λ t, default "" (settings t !! key)) s Hh) as (s'&->&?). by exists s'.
Qed.

Lemma SetSetting_healthy key v s : healthy s →
  ∃ s', SetSetting key v s = (s', Ok tt) ∧ tables s' = with_settings (tables s) (<[key := v]> (settings (tables s))) ∧
    same_env s s' ∧ healthy s'.
Proof. intros Hh. destruct (exec_healthy (λ t, (with_settings t (<[key := v]> (settings t)), tt)) s Hh) as (s'&E&T&He&Hh'). by exists s'. Qed.

(** ** What a computation may change *)

(** [frame R m]: every run of [m] relates the worlds before and after by [R]. *)
Definition frame {S A} (R : World S → World S → Prop) (m : W S A) : Prop := ∀ w, R w (m w).1.

Section Frame.
  Context {S : Type} (R : World S → World S → Prop) `{!PreOrder R}.

Lemma frame_ret {A} (a : A) : frame R (mret a).
Proof. intros w. reflexivity. Qed.
Lemma frame_fail {A} e : frame (A:=A) R (w_fail e).
Proof. intros w. reflexivity. Qed.
Lemma frame_of {A} (r : result A) : frame R (w_of r).
Proof. intros w. reflexivity. Qed.
Lemma frame_now : frame R w_now.
Proof. intros w. reflexivity. Qed.
Lemma frame_bind {A B} (m : W S A) (f : A → W S B) : frame R m → (∀ a, frame R (f a)) → frame R (mbind f m).
Proof.
  intros Hm Hf w. unfold mbind, W_bind. specialize (Hm w). destruct (m w) as [w1 [a|e]]; [|done].
  simpl in *. etrans; [done|apply Hf].
Qed.
Lemma frame_ignore {A} (m : W S A) : frame R m → frame R (w_ignore m).
Proof. intros Hm w. apply Hm. Qed.
Lemma frame_try {A} (m : W S A) : frame R m → frame R (w_try m).
Proof. intros Hm w. specialize (Hm w). unfold w_try. by destruct (m w). Qed.
Lemma frame_err {A} f (m : W S A) : frame R m → frame R (w_err f m).
Proof. intros Hm w. specialize (Hm w). unfold w_err. by destruct (m w) as [w' [a|e]]. Qed.
Lemma frame_if {A} (b : bool) (m n : W S A) : frame R m → frame R n → frame R (if b then m else n).
Proof. by destruct b. Qed.
End Frame.

(** The tables stay as they are. *)
Definition same_tables {S} (w w' : World S) : Prop := tables (db w') = tables (db w).
#[export] Instance same_tables_preorder S : PreOrder (@same_tables S).
Proof. split; [by intros ?|]. unfold same_tables. intros x y z. congruence. Qed.

(** The certificates stay as they are. *)
Definition same_certs {S} (w w' : World S) : Prop := certs (tables (db w')) = certs (tables (db w)).
#[export] Instance same_certs_preorder S : PreOrder (@same_certs S).
Proof. split; [by intros ?|]. unfold same_certs. intros x y z. congruence. Qed.

(** The files stay as they are. *)
Definition same_files {S} (w w' : World S) : Prop := files (disk w') = files (disk w).
#[export] Instance same_files_preorder S : PreOrder (@same_files S).
Proof. split; [by intros ?|]. unfold same_files. intros x y z. congruence. Qed.

Lemma frame_pki_tables {S A} (m : K A) : frame (@same_tables S) (on_pki m).
Proof. intros w. unfold on_pki, same_tables. by destruct (m (pki_env w)). Qed.
Lemma frame_disk_tables {S A} (m : F A) : frame (@same_tables S) (on_disk m).
Proof. intros w. unfold on_disk, same_tables. by destruct (m (disk w)). Qed.
Lemma frame_kill_tables {S} `{mgmt.Server S} cn msg : frame (@same_tables S) (mgmt_kill cn msg).
Proof. intros w. unfold same_tables, db. destruct (mgmt_kill cn msg w) as [w' r] eqn:E.
  simpl. apply mgmt_kill_run in E as [-> _]. done. Qed.
Lemma frame_status_tables {S} path : frame (@same_tables S) (mgmt_status path).
Proof. intros w. unfold mgmt_status, same_tables. by destruct (ReadFile path (disk w)). Qed.
Lemma frame_query_tables {S A} (f : Tables → result A) : frame (@same_tables S) (on_db (query f)).
Proof.
  intros w. unfold same_tables. destruct (on_db (query f) w) as [w' r] eqn:E.
  apply on_db_run in E as [E _]. by apply query_inv in E as (_&_&T&_).
Qed.
Lemma frame_db_files {S A} (m : M A) : frame (@same_files S) (on_db m).
Proof. intros w. unfold on_db, same_files. by destruct (m (db w)). Qed.
Lemma frame_kill_files {S} `{mgmt.Server S} cn msg : frame (@same_files S) (mgmt_kill cn msg).
Proof. intros w. unfold same_files. destruct (mgmt_kill cn msg w) as [w' r] eqn:E.
  simpl. apply mgmt_kill_run in E as [_ ->]. done. Qed.

Lemma frame_mono {S A} (R R' : World S → World S → Prop) (m : W S A) : (∀ w w', R w w' → R' w w') → frame R m → frame R' m.
Proof. intros HR Hm w. apply HR, Hm. Qed.

Lemma Audit_certs actor action detail s : certs (tables (Audit actor action detail s).1) = certs (tables s).
Proof.
  destruct (Audit actor action detail s) as [s' r] eqn:E. simpl.
  apply store_bind_run in E as [(s1&t&[= <- <-]&E)|(e&[=]&_)].
  apply store_bind_run in E as [(s2&[]&E2&E)|(e&E2&_)].
  - injection E as <- _. apply exec_inv in E2 as (_&_&[(?&[=]&_)|(t2&[]&[= <-]&T&_)]).
    unfold run_hook. by destruct (hook s2); simpl; rewrite T.
  - by apply exec_inv in E2 as (_&_&[(?&_&T&_)|(?&?&_&_&[=])]); rewrite T.
Qed.

Lemma frame_audit_certs {S} actor action detail : frame (@same_certs S) (audit actor action detail).
Proof. intros w. unfold audit, w_ignore, same_certs, on_db. simpl. destruct (Audit actor action detail (db w)) as [s r] eqn:E.
  simpl. pose proof (Audit_certs actor action detail (db w)) as H. by rewrite E in H. Qed.

Lemma frame_audit_files {S} actor action detail : frame (@same_files S) (audit actor action detail).
Proof. apply frame_ignore, frame_db_files. Qed.

(** The tables and the clock stay as they are, and a database in order stays so. *)
Definition calm {S} (w w' : World S) : Prop :=
  tables (db w') = tables (db w) ∧ clock (db w') = clock (db w) ∧ (healthy (db w) → healthy (db w')).
#[export] Instance calm_preorder S : PreOrder (@calm S).
Proof. split; [by intros ?|]. unfold calm. intros x y z (?&?&?) (?&?&?). split_and!; [congruence..|auto]. Qed.

Lemma frame_query_calm {S A} (f : Tables → result A) : frame (@calm S) (on_db (query f)).
Proof.
  intros w. unfold calm. destruct (on_db (query f) w) as [w' r] eqn:E.
  apply on_db_run in E as [E _]. apply query_inv in E as ([]&?&T&_). done.
Qed.
Lemma frame_disk_calm {S A} (m : F A) : frame (@calm S) (on_disk m).
Proof. intros w. unfold on_disk, calm. by destruct (m (disk w)). Qed.
Lemma frame_status_calm {S} path : frame (@calm S) (mgmt_status path).
Proof. intros w. unfold mgmt_status, calm. by destruct (ReadFile path (disk w)). Qed.
Lemma frame_LoadJSON_calm {S A} `{JsonInto A} key (def : A) : frame (@calm S) (on_db (LoadJSON key def)).
Proof.
  intros w. unfold calm, on_db, LoadJSON. destruct (GetSetting key (db w)) as [s r] eqn:E.
  apply query_inv in E as ([]&?&?&_). done.
Qed.
Lemma LoadJSON_Ok {A} `{JsonInto A} key (def : A) s : ∃ a, (LoadJSON key def s).2 = Ok a.
Proof. unfold LoadJSON. destruct (GetSetting key s). by eexists. Qed.

Create HintDb worlds discriminated.
#[export] Hint Resolve @frame_ret @frame_fail @frame_of @frame_now @frame_bind @frame_ignore @frame_try @frame_err @frame_if
  @frame_pki_tables @frame_disk_tables @frame_kill_tables @frame_status_tables @frame_query_tables
  @frame_db_files @frame_kill_files @frame_audit_certs @frame_audit_files
  @frame_query_calm @frame_disk_calm @frame_status_calm @frame_LoadJSON_calm : worlds.
#[export] Hint Extern 1 (PreOrder _) => typeclasses eauto : worlds.

End world.
