(* ===== verification/CertApi.v ===== *)
(** * CertApi: the certificate actions (internal/api/handlers.go)

    Issuing, renewing, exporting and revoking across the store, the authority
    and the management connection: the actions behind a CLI command and its web
    API route, and the routes' handlers. *)

From S2P Require Import Prelude GoStr GoErr GoFs NetIP Names Store StoreUsers Auth Mgmt OvpnConf Pki World.

Module certapi.
Import store auth pki world.

(** The paths and facts of the [Server] the actions read. *)
Record Server := mkServer {
  Dir : string; TLSCryptPath : string; ServerCertPath : string; ServerKeyPath : string; ConfigPath : string;
  CertsHostsPath : string; CustomHostsPath : string; StatusPath : string; DataDir : string }.

(** [store.CertFrom]. *)
Definition CertFrom (t : Z) (ic : IssuedCert) (kind : string) : Cert :=
  mkCert (SerialHex ic) (pki.CN ic) kind (iCertPEM ic) t (iNotAfter ic) None true.

Record ClientRequest := mkRequest { rCN : string; Days : Z; Passphrase : string; KeyPass : string; Renew : bool }.

Record ExportOpts := mkExport {
  xRemote : string; xServerCN : string; xProto : string; xExtra : string; xPort : Z; xSplitTunnel : bool }.

Record RevokeResult := mkRevokeResult { vSerial : string; vCN : string; vCRLPath : string }.
Record RenewResult := mkRenewResult { nCN : string; nSerial : string; nNotAfter : Z }.
Record IssueResult := mkIssueResult { isSerial : string; isCert : string; isKey : string }.
Record ExportResult := mkExportResult { exSerial : string; exBundle : string }.

Definition with_key (ic : IssuedCert) (key : string) : IssuedCert :=
  mkIssued (SerialHex ic) (pki.CN ic) (iNotAfter ic) (iCertPEM ic) key.

Section Actions.
  Context {S : Type} `{mgmt.Server S}.
  Context `{X509} `{!EcPem} `{EnvelopeJson} `{Calendar} `{Argon2} `{users.Aead}.
  Context (getenv : string → string) (unmarshal_config : string → ovpnconf.Config → ovpnconf.Config).
  Context (srv : Server) (DefaultRemote : World S → string).

Notation Dir := (Dir srv).

(** [LoadConfig]: an unreadable setting counts as none. *)
Definition LoadConfig : W S ovpnconf.Config :=
  raw ← w_try (on_db (GetSetting "vpn_config"));
  mret (ovpnconf.Load getenv unmarshal_config (match raw with Ok s => s | Err _ => "" end)).

(** ** Revocation lists *)

(** [*c.RevokedAt], which [RevokedCerts] always sets. *)
Definition revoked_entry (c : Cert) : RevokedEntry := mkRevoked (Serial c) (default 0 (store.RevokedAt c)).

Definition RegenCRL (passphrase : string) : W S unit :=
  rev ← on_db RevokedCerts;
  on_pki (pki.RegenCRL Dir (revoked_entry <$> rev) passphrase).

(** ** Issuing *)

Definition IssueClient (r : ClientRequest) : W S IssuedCert :=
  (if Renew r then on_db (RequireActiveCert (rCN r) "client") else mret tt) ;;
  ic ← on_pki (Issue Dir KindClient (rCN r) (Days r) (Passphrase r));
  ic ← (if String.eqb (KeyPass r) "" then mret ic
        else key ← on_pki (EncryptKeyPEM (KeyPEM ic) (KeyPass r)); mret (with_key ic key));
  t ← w_now;
  let c := CertFrom t ic "client" in
  if negb (Renew r) then on_db (AddCert c) ;; mret ic
  else on_db (ReplaceCert c) ;; RegenCRL (Passphrase r) ;; mret ic.

Definition set_endpoint (o : ExportOpts) (cfg : ovpnconf.Config) : Z * string :=
  (if xPort o =? 0 then ovpnconf.Port cfg else xPort o,
   if String.eqb (xProto o) "" then ovpnconf.Proto cfg else xProto o).

Definition ExportClient (tlsCryptPath : string) (r : ClientRequest) (o : ExportOpts) : W S (IssuedCert * string) :=
  if String.eqb (xRemote o) "" || String.eqb (xServerCN o) "" then w_fail (Sentinel ErrNoRemote) else
  cfg ← LoadConfig;
  let '(port, proto) := set_endpoint o cfg in
  if xSplitTunnel o && negb (ovpnconf.CanSplitTunnel cfg) then w_fail (Sentinel ErrNoRedirect) else
  caPEM ← on_pki (CACertPEM Dir);
  tc ← on_disk (ReadFile tlsCryptPath);
  ic ← IssueClient r;
  bundle ← w_of (RenderOVPN (mkBundle (xRemote o) port proto caPEM (iCertPEM ic) (KeyPEM ic) tc
                               (ovpnconf.Cipher cfg) (xServerCN o) (xSplitTunnel o) (xExtra o)));
  mret (ic, bundle).

Definition defaultDays (d def : Z) : Z := if d =? 0 then def else d.

Definition AuditClient (actor : string) (r : ClientRequest) (ic : IssuedCert) : W S unit :=
  audit actor (if Renew r then "renew" else "issue") ("cn=" +:+ rCN r +:+ " serial=" +:+ SerialHex ic).

(** ** Revoking *)

Definition RevokeCert (actor serial passphrase : string) : W S RevokeResult :=
  on_pki (CheckPassphrase Dir passphrase) ;;
  t ← w_now;
  cn ← on_db (Revoke serial t);
  RegenCRL passphrase ;;
  audit actor "revoke" ("serial=" +:+ serial) ;;
  mret (mkRevokeResult serial cn (CRLPath Dir)).

(** ** The server's certificate *)

Definition WriteServerCert (certPath keyPath : string) (ic : IssuedCert) : W S unit :=
  on_disk (WriteFileAtomic certPath (iCertPEM ic)) ;;
  on_disk (WriteFileAtomic keyPath (KeyPEM ic)) ;;
  t ← w_now;
  on_db (ReplaceCert (CertFrom t ic "server")).

Definition RenewServer (certPath keyPath actor cn : string) (days : Z) (passphrase : string) : W S RenewResult :=
  on_db (RequireActiveCert "" "server") ;;
  if String.eqb cn "" then w_fail (Sentinel ErrNoServerCN) else
  ic ← on_pki (Issue Dir KindServer cn days passphrase);
  WriteServerCert certPath keyPath ic ;;
  audit actor "renew" ("kind=server cn=" +:+ cn +:+ " serial=" +:+ SerialHex ic) ;;
  mret (mkRenewResult cn (SerialHex ic) (iNotAfter ic)).

(** ** The routes *)

Definition http_fail (code : Z) (msg : string) : goerr := HTTPError code (Errorf msg []).

(** [pkiErr]; the passphrase error is compared, not searched for. *)
Definition pkiErr (e : goerr) : goerr :=
  if match e with Sentinel ErrBadPassphrase => true | _ => false end then http_fail 403 "wrong CA passphrase"
  else if errors_is e ErrDuplicateCN || errors_is e ErrNoActiveCert || errors_is e ErrNoRedirect ||
          errors_is e ErrNoRemote || errors_is e ErrNoServerCN then HTTPError 400 e
  else HTTPError 500 e.

Definition restartSessions (cn : string) : W S unit := w_ignore (mgmt_kill cn "RESTART").

Definition handleIssue (actor cn passphrase keyPassphrase : string) (days : Z) : W S IssueResult :=
  if String.eqb cn "" || String.eqb passphrase "" then w_fail (http_fail 400 "cn and passphrase required") else
  let req := mkRequest cn (defaultDays days 365) passphrase keyPassphrase false in
  ic ← w_err pkiErr (IssueClient req);
  AuditClient actor req ic ;;
  mret (mkIssueResult (SerialHex ic) (iCertPEM ic) (KeyPEM ic)).

Definition handleRevoke (actor serial passphrase : string) : W S RevokeResult :=
  if String.eqb serial "" || String.eqb passphrase "" then w_fail (http_fail 400 "serial and passphrase required") else
  res ← w_err pkiErr (RevokeCert actor serial passphrase);
  restartSessions (vCN res) ;;
  mret res.

Definition handleRenew (actor passphrase : string) (days : Z) : W S RenewResult := λ w,
  w_err pkiErr (RenewServer (ServerCertPath srv) (ServerKeyPath srv) actor (DefaultRemote w)
                  (defaultDays days 825) passphrase) w.

Definition handleExport (actor cn passphrase remote keyPassphrase extra : string) (days : Z)
    (splitTunnel renew : bool) : W S ExportResult := λ w,
  (if String.eqb cn "" || String.eqb passphrase "" then w_fail (http_fail 400 "cn and passphrase required") else
   let remote := if String.eqb remote "" then DefaultRemote w else remote in
   let req := mkRequest cn (defaultDays days 365) passphrase keyPassphrase renew in
   '(ic, bundle) ← w_err pkiErr (ExportClient (TLSCryptPath srv) req
                     (mkExport remote (DefaultRemote w) "" extra 0 splitTunnel));
   (if renew then restartSessions cn else mret tt) ;;
   AuditClient actor req ic ;;
   mret (mkExportResult (SerialHex ic) bundle)) w.

(** ** What the revocation list says *)

Definition revoked_rows (l : list CertRow) : list CertRow := filter (λ r, is_active r = false) l.

(** An entry of the list for a row of the store. *)
Definition row_entry (x : CertRow) (e : Z * Z) : Prop :=
  SetString16 (k_serial x) = Some e.1 ∧ ∃ t, k_revoked x = Some t ∧ e.2 = t * second.

Definition unlocks (p : string) (w : World S) (cert : Signed Key Template) (key : Key) : Prop :=
  authority Dir (files (disk w)) p cert key.

(** The list on disk is signed by the authority and says what the store says. *)
Definition crl_current (p : string) (w : World S) : Prop :=
  ∃ cert caKey pem der crl, unlocks p w cert caKey ∧
    files (disk w) !! CRLPath Dir = Some pem ∧ pem_decode pem = Some der ∧
    parse_crl der = Ok (mkSigned crl None caKey) ∧
    Forall2 row_entry (revoked_rows (certs (tables (db w)))) (Entries crl).

Definition hex_serials (l : list CertRow) : Prop := Forall (λ x, is_Some (SetString16 (k_serial x))) l.

(** Neither the database nor the disk fails, and neither does signing a list. *)
Record works (w : World S) : Prop := {
  w_db : healthy (db w); w_disk : sound (disk w);
  w_sign : ∀ t ca k e, is_ok (create_crl t ca k e) = true }.

Lemma ca_paths a b : a ≠ b → a ≠ b +:+ ".tmp" →
  join_path Dir a ≠ join_path Dir b ∧ join_path Dir a ≠ join_path Dir b +:+ ".tmp".
Proof. intros Ha Hb. rewrite <-join_path_app. split; intros E%join_path_inj; done. Qed.

Lemma unlocks_ext (w w' : World S) p cert key : (∀ q, q ≠ CRLPath Dir → q ≠ CRLPath Dir +:+ ".tmp" →
  files (disk w') !! q = files (disk w) !! q) → unlocks p w cert key → unlocks p w' cert key.
Proof.
  intros Hoth [(pem&Hp&Hc) (d&der&Hd&Ho&Hk)]. unfold caCertPath, caKeyPath in *. split.
  - exists pem. split; [|done]. unfold caCertPath. by rewrite Hoth by by apply ca_paths.
  - exists d, der. split; [|done]. unfold caKeyPath. by rewrite Hoth by by apply ca_paths.
Qed.

Lemma entries_rows l es :
  Forall2 (λ r e, SetString16 (rSerialHex r) = Some e.1 ∧ e.2 = whole (pki.RevokedAt r))
    (revoked_entry <$> (scanCert <$> revoked_rows l)) es → Forall2 row_entry (revoked_rows l) es.
Proof.
  rewrite !Forall2_fmap_l. unfold revoked_rows. intros HF.
  assert (Hr : Forall (λ x, is_active x = false) (filter (λ r, is_active r = false) l)) by (apply Forall_forall; intros x Hx; apply list_elem_of_filter in Hx; tauto).
  induction HF as [|x e xs es' [Hx He] HF IH]; [constructor|]. apply Forall_cons in Hr as [Hx' Hr].
  constructor; [|by apply IH]. split; [done|]. unfold is_active in Hx'.
  simpl in He. destruct (k_revoked x) as [t|]; [|done]. exists t. split; [done|]. by rewrite He, <-(whole_seconds t).
Qed.

Lemma RegenCRL_run p w w' r : RegenCRL p w = (w', r) →
  tables (db w') = tables (db w) ∧ conn w' = conn w ∧
  (∀ q, q ≠ CRLPath Dir → q ≠ CRLPath Dir +:+ ".tmp" → files (disk w') !! q = files (disk w) !! q) ∧
  match r with
  | Ok _ => crl_current p w'
  | Err _ => files (disk w') !! CRLPath Dir = files (disk w) !! CRLPath Dir
  end.
Proof.
  intros E. apply w_bind_run in E as [(w1&rev&E1&E)|(e&E1&->)]; apply on_db_run in E1 as (E1&D1&C1);
    apply query_inv in E1 as (_&_&T1&E1); [|by rewrite D1].
  apply on_pki_run in E as (env&E&D&T&_&_&C). rewrite T, T1, C, C1. split; [done|]. split; [done|].
  destruct E1 as [[= ->]|[[? [=]] _]]. apply RegenCRL_correct in E as [Hoth HE]. simpl in Hoth, HE.
  rewrite D1 in Hoth, HE. rewrite <-D in Hoth, HE. split; [done|]. destruct r; [|done].
  destruct HE as (cert&caKey&pem&der&crl&Ha&Hpem&Hder&Hcrl&HF). exists cert, caKey, pem, der, crl.
  split; [by eapply unlocks_ext|]. split_and!; [done..|]. rewrite T, T1. by apply entries_rows.
Qed.

Lemma RegenCRL_works p w cert key : works w → unlocks p w cert key →
  hex_serials (certs (tables (db w))) → is_ok (RegenCRL p w).2 = true.
Proof.
  intros [Hd Hs Hc] Hu Hx. unfold RegenCRL, mbind at 1, W_bind.
  destruct (on_db RevokedCerts w) as [w1 r1] eqn:E1. apply on_db_run in E1 as (E1&D1&_).
  apply query_inv in E1 as (_&_&T1&[->|[_ ?]]); [|done]. simpl.
  unfold on_pki. pose proof (RegenCRL_sound Dir
    (revoked_entry <$> (scanCert <$> revoked_rows (certs (tables (db w))))) p (pki_env w1) cert key) as HR.
  destruct (pki.RegenCRL _ _ _ _) as [env r] eqn:E. simpl in *. apply HR; try done; [by rewrite D1..|].
  apply Forall_forall. intros x (c&->&(y&->&Hy%list_elem_of_filter)%list_elem_of_fmap)%list_elem_of_fmap. simpl.
  by eapply Forall_forall in Hx; [|apply Hy].
Qed.

Lemma crl_current_ext p w w' : certs (tables (db w')) = certs (tables (db w)) → files (disk w') = files (disk w) →
  crl_current p w → crl_current p w'.
Proof. unfold crl_current, unlocks. by intros -> ->. Qed.

(** Entering through the authority: nothing changes. *)
Record untouched (w w' : World S) : Prop := {
  u_tables : tables (db w') = tables (db w); u_clock : clock (db w') = clock (db w);
  u_faults : faults (db w') = faults (db w); u_files : files (disk w') = files (disk w) }.

Lemma on_pki_readonly {A} (m : K A) w w' r : readonly m → on_pki m w = (w', r) →
  untouched w w' ∧ ∃ e, m (pki_env w) = (e, r).
Proof.
  intros Hm E. apply on_pki_run in E as (e&E&D&T&C&F&_). specialize (Hm (pki_env w)). rewrite E in Hm.
  split; [split; try done; by rewrite D|eauto].
Qed.

Lemma readonly_CheckPassphrase p : readonly (CheckPassphrase Dir p).
Proof. apply readonly_bind; [apply readonly_loadCA|intros; apply readonly_ret]. Qed.

Lemma CheckPassphrase_unlocks p w w' : on_pki (CheckPassphrase Dir p) w = (w', Ok tt) →
  untouched w w' ∧ ∃ cert key, unlocks p w cert key.
Proof.
  intros E. apply (on_pki_readonly _ _ _ _ (readonly_CheckPassphrase p)) in E as [Hu [e E]]. split; [done|].
  apply k_bind_run in E as [(s1&[cert key]&E&_)|(e'&_&[=])]. apply loadCA_run in E. by exists cert, key.
Qed.

Lemma CheckPassphrase_works p w cert key : works w → unlocks p w cert key →
  ∃ w', on_pki (CheckPassphrase Dir p) w = (w', Ok tt) ∧ works w' ∧ untouched w w'.
Proof.
  intros [Hd Hs Hc] Hu. destruct (loadCA_sound Dir p (pki_env w) cert key Hs Hu) as (s1&E1&S1&F1).
  assert (E : CheckPassphrase Dir p (pki_env w) = (s1, Ok tt)).
  { unfold CheckPassphrase, mbind, K_bind. by rewrite E1. }
  unfold on_pki. rewrite E. eexists. split; [done|]. split; split; try done.
Qed.

Lemma update_hex p f l : (∀ x, k_serial (f x) = k_serial x) → hex_serials l → hex_serials (update p f l).
Proof.
  intros Hf Hl. unfold hex_serials, update. apply Forall_fmap. eapply Forall_impl; [exact Hl|]. intros x Hx. simpl.
  destruct (p x); by rewrite ?Hf.
Qed.

(** C4: revoking a certificate, through the store and the authority. When it
    succeeds the client certificate of that serial is revoked in the store at
    the current second, no other row changed, and the list on disk is signed by
    the authority's key and lists every revoked certificate of the store. When
    it fails the list is untouched, and either the store is too or the
    passphrase was right: a wrong passphrase never revokes anything. While the
    database and the disk work, it succeeds exactly for the right passphrase
    and the serial of an active client certificate, and a failure changes
    nothing. *)
Theorem RevokeCert_correct actor serial p w w' r (E : RevokeCert actor serial p w = (w', r)) :
  let before := certs (tables (db w)) in
  let after := update (active_client serial) (set_row_revoked (unix (clock (db w)))) before in
  match r with
  | Ok res => certs (tables (db w')) = after ∧ crl_current p w' ∧
      ∃ x, x ∈ before ∧ active_client serial x = true ∧ res = mkRevokeResult serial (k_cn x) (CRLPath Dir)
  | Err _ => files (disk w') !! CRLPath Dir = files (disk w) !! CRLPath Dir ∧
      (certs (tables (db w')) = before ∨
       certs (tables (db w')) = after ∧ ∃ cert key, unlocks p w cert key)
  end ∧
  (works w → hex_serials before →
    (is_ok r = true ↔ (∃ cert key, unlocks p w cert key) ∧ ∃ x, x ∈ before ∧ active_client serial x = true) ∧
    (is_ok r = false → certs (tables (db w')) = before)).
Proof.
  clear getenv unmarshal_config DefaultRemote. intros before after.
  apply w_bind_run in E as [(w1&[]&E1&E)|(e&E1&->)].
  2:{ destruct (on_pki_readonly _ _ _ _ (readonly_CheckPassphrase p) E1) as [[T C _ F] _].
      rewrite F, T. split; [auto|]. intros Hw _. split; [|done]. split; [done|]. intros [(cert&key&Hu) _].
      destruct (CheckPassphrase_works p w cert key Hw Hu) as (w1&E1'&_). congruence. }
  destruct (CheckPassphrase_unlocks _ _ _ E1) as [[T1 C1 F1 D1] Hu].
  apply w_bind_run in E as [(w2&t&[= <- <-]&E)|(e&[=]&_)]. rewrite C1 in E.
  apply w_bind_run in E as [(w3&cn&E3&E)|(e&E3&->)]; apply on_db_run in E3 as (E3&D3&_);
    pose proof (Revoke_correct _ _ _ _ _ E3) as [R3 I3]; rewrite T1 in R3, I3.
  2:{ destruct R3 as [T3 _]. rewrite D3, D1, T3. split; [auto|]. intros [Hdb _ _] _. split; [|done].
      rewrite I3 by (unfold healthy; by rewrite F1). naive_solver. }
  destruct R3 as [Hrow T3].
  assert (Hcerts : certs (tables (db w3)) = after) by (by rewrite T3).
  apply w_bind_run in E as [(w4&[]&E4&E)|(e&E4&->)]; pose proof (RegenCRL_run _ _ _ _ E4) as (T4&_&_&R4).
  - apply w_bind_run in E as [(w5&[]&E5&E)|(e&E5&_)]; [|apply w_ignore_run in E5; naive_solver]. injection E as <- <-.
    pose proof (frame_audit_certs actor "revoke" ("serial=" +:+ serial) w4) as A. unfold audit in E5, A.
    pose proof (frame_audit_files actor "revoke" ("serial=" +:+ serial) w4) as B. unfold audit in B.
    rewrite E5 in A, B. unfold same_certs, same_files in A, B. simpl in A, B. split.
    + split; [by rewrite A, T4|]. split; [by eapply crl_current_ext|]. naive_solver.
    + intros _ _. naive_solver.
  - rewrite T4. split.
    + split; [by rewrite R4, D3, D1|]. right. split; [done|exact Hu].
    + intros Hw Hx. exfalso. destruct Hu as (cert&key&Hu), Hw as [Hdb Hdisk Hsign].
      destruct (CheckPassphrase_works p w cert key) as (w1'&E1'&[Hdb1 Hdisk1 _]&_); [by split|done|].
      assert (w1' = w1) as -> by congruence.
      assert (is_ok (RegenCRL p w3).2 = true) as Hok; [|by rewrite E4 in Hok].
      apply (RegenCRL_works p w3 cert key).
      * split; [|by rewrite D3|done]. by apply (Revoke_env serial _ _ _ _ E3).
      * unfold unlocks. by rewrite D3, D1.
      * rewrite Hcerts. by apply update_hex.
Qed.

(** ** Issuing *)



Lemma untouched_trans w1 w2 w3 : untouched w1 w2 → untouched w2 w3 → untouched w1 w3.
Proof. intros [] []. split; congruence. Qed.










(** ** Exporting *)











End Actions.

(** ** A concrete server *)

Import demo_pki users.

#[export] Instance toy_ecpem : EcPem := {| marshal_ec k := Ok k; encrypt_block t d p e := Ok (d, e) |}.

Definition demo_srv : Server :=
  mkServer "/pki" "/tc.key" "/server.crt" "/server.key" "/server.conf" "/certs.hosts" "/custom.hosts" "/status" "/data".
Definition no_env : string → string := λ _, "".
Definition no_json : string → ovpnconf.Config → ovpnconf.Config := λ _ c, c.

(** A server with an authority and a tls-crypt key, and then a client. *)
Definition demo_world : World unit :=
  mkWorld (NewService (empty_store (1000 * second)))
    (mkFs (<["/tc.key" := "static key"]> (files (fs demo_ca))) []) (mgmt.mkClient () false [] []).
Definition demo_request (renew : bool) : ClientRequest := mkRequest "alice" 30 "pa55word" "" renew.
Definition refill (w : World unit) : World unit := set_db w (set_entropy (db w) (s_drop 9 noise)).
Definition alice_world : World unit := refill (IssueClient demo_srv (demo_request false) demo_world).1.
Definition alice_serial : string :=
  match (IssueClient demo_srv (demo_request false) demo_world).2 with Ok ic => SerialHex ic | Err _ => "" end.

Lemma RevokeCert_correct_witness :
  crl_current demo_srv "pa55word" (RevokeCert demo_srv "root" alice_serial "pa55word" alice_world).1.
Proof.
  destruct (RevokeCert demo_srv "root" alice_serial "pa55word" alice_world) as [w' r] eqn:E.
  pose proof (RevokeCert_correct demo_srv "root" alice_serial "pa55word" alice_world w' r E) as [H _].
  destruct r as [res|e].
  - exact (proj1 (proj2 H)).
  - exfalso. apply (f_equal (λ x, is_ok x.2)) in E. vm_compute in E. discriminate.
Defined.

Definition demo_export (remote : string) : ExportOpts := mkExport remote "vpn.example.org" "" "" 0 false.


(** A line break in the host name: refused, with the certificate issued. *)
Example export_leaves_cert :
  let w := ExportClient no_env no_json demo_srv "/tc.key" (demo_request false) (demo_export ("a" +:+ nl)) demo_world in
  is_ok w.2 = false ∧ length (certs (tables (db demo_world))) = O ∧ length (certs (tables (db w.1))) = 1%nat.
Proof. vm_compute. auto. Qed.
End certapi.
