(* ===== verification/UserApi.v ===== *)
(** * UserApi: the account actions (internal/api/results.go, handlers.go)

    Creating, changing and removing accounts, their second factor, and the
    routes' handlers. *)

From S2P Require Import Prelude GoStr GoErr GoEnc GoURL Names Store StoreUsers StoreStats StoreInv Totp Auth.

Module userapi.
Import store users storeinv totp auth.

Record Msg := mkMsg { Message : string; Changed : bool }.

(** [auth.TOTPGenerateSecret]. *)
Definition TOTPGenerateSecret : M string := raw ← rand_read 20; mret (encode_raw base32_std raw).

Definition SecretErr (label : string) : string :=
  sprintf "%s too weak (min %d chars, %d of upper/lower/digit/symbol)"
    [label; itoa (Z.of_nat MinSecretLen); itoa (Z.of_nat MinSecretClasses)].

Definition SecretYOLOEnv : string := "OVCP_YOLO_PASSWORD".

(** What the caller may know of an account. *)
Record UserSummary := mkSummary { sUsername : string; sRole : string; sDisabled : bool; sTOTP : bool; sCreatedAt : Z }.
Record TOTPEnrollment := mkEnrollment { Secret : string; ProvisioningURL : string; QR : string }.

(** [st.Audit] with its error dropped. *)
Definition audit (actor action detail : string) : M unit := ignore (Audit actor action detail).

Definition http_fail (code : Z) (msg : string) : goerr := HTTPError code (Errorf msg []).

Section Actions.
  Context `{Aead} `{Argon2} `{UnicodeTables}.
  Context (getenv : string → string) (qr_data_uri : string → result string).

Definition SecretYOLO : bool := negb (String.eqb (getenv SecretYOLOEnv) "").

Definition checkPassword (actor target password : string) : M unit :=
  if SecretOK password then mret tt
  else if negb SecretYOLO then fail (Errorf (SecretErr "password") [])
  else audit actor "weak_password_accepted" ("target=" +:+ target +:+ " reason=" +:+ SecretYOLOEnv +:+ " is set").

Definition AddUser (actor name password role : string) : M Msg :=
  if negb (ValidRole role) then fail (Errorf "role must be admin, operator or readonly" []) else
  checkPassword actor name password ;;
  h ← HashPassword password;
  users.AddUser name h role ;;
  audit actor "user_add" ("name=" +:+ name +:+ " role=" +:+ role) ;;
  mret (mkMsg ("user added: " +:+ name +:+ " (" +:+ role +:+ ")") true).

Definition SetUserPassword (actor name password : string) : M Msg :=
  checkPassword actor name password ;;
  h ← HashPassword password;
  users.SetUserPassword name h ;;
  audit actor "user_passwd" ("name=" +:+ name) ;;
  mret (mkMsg ("password updated: " +:+ name) true).

Definition DeleteUser (actor name : string) : M Msg :=
  users.DeleteUser name ;;
  audit actor "user_del" ("name=" +:+ name) ;;
  mret (mkMsg ("deleted: " +:+ name) true).

Definition SetUserDisabled (actor name : string) (disabled : bool) : M Msg :=
  let op := if disabled then "disable" else "enable" in
  users.SetUserDisabled name disabled ;;
  audit actor ("user_" +:+ op) ("name=" +:+ name) ;;
  mret (mkMsg (op +:+ "d: " +:+ name) true).

Definition EnrollTOTP (actor name issuer : string) : M TOTPEnrollment :=
  sec ← TOTPGenerateSecret;
  let url := TOTPProvisioningURL PathEscape QueryEscape sec name issuer in
  match qr_data_uri url with
  | Err e => fail e
  | Ok qr =>
      SetUserTOTP name sec ;;
      audit actor "user_totp_enroll" ("name=" +:+ name) ;;
      mret (mkEnrollment sec url qr)
  end.

Definition DisableTOTP (actor name : string) : M Msg :=
  SetUserTOTP name "" ;;
  audit actor "user_totp_off" ("name=" +:+ name) ;;
  mret (mkMsg ("2FA disabled: " +:+ name) true).

Definition NewUserSummary (u : User) : UserSummary :=
  mkSummary (Username u) (Role u) (Disabled u) (negb (String.eqb (TOTPSecret u) "")) (CreatedAt u).

(** ** The routes; [actor] is the signed-in user's name *)

Definition handleUsersList : M (list UserSummary) := λ s,
  match ListUsers s with
  | (s', Err e) => (s', Err (HTTPError 500 e))
  | (s', Ok us) => (s', Ok (NewUserSummary <$> us))
  end.

Definition handleUserAdd (actor username password role : string) : M Msg := AddUser actor username password role.

Definition handleUserDelete (actor name : string) : M Msg :=
  if String.eqb name actor then fail (http_fail 400 "cannot delete your own account")
  else DeleteUser actor name.

Definition handleUserDisabled (actor name : string) (disabled : bool) : M Msg :=
  if disabled && String.eqb name actor then fail (http_fail 400 "cannot disable your own account")
  else SetUserDisabled actor name disabled.

Definition handleUserPassword (actor name password : string) : M Msg := SetUserPassword actor name password.

Definition handleUserTOTPEnroll (DefaultRemote actor name : string) : M TOTPEnrollment :=
  EnrollTOTP actor name DefaultRemote.

Definition handleUserTOTPOff (actor name : string) : M Msg := DisableTOTP actor name.
End Actions.
End userapi.
