(* ===== verification/ConfigApi.v ===== *)
(** * ConfigApi: the settings of the server (internal/api/api.go, handlers.go, stats.go)

    The persisted configurations of the tunnel, of dnsmasq, of log rotation and
    of the traffic history: reading, previewing, merging a partial change,
    validating and installing. *)

From S2P Require Import Prelude GoStr GoErr GoFs NetIP Names Store StoreUsers Totp Auth Mgmt OvpnConf Pki World CertApi UserApi LogRotate.

Module configapi.
Import store world certapi userapi logrotate.

Record StatsConfig := mkStatsConfig { SampleIntervalSec : Z; RetentionHours : Z }.
Record DNSConfig := mkDNSConfig { BlockInternet : bool }.
Record DNSView := mkDNSView { view_dns : DNSConfig; view_warning : string }.
Record Preview := mkPreview { pDiff : list string; pChanged : bool; pWarning : string }.

(** [time.Duration(n) * unit] wraps at 64 bits. *)
Definition wrap_i64 (z : Z) : Z := (z + 2 ^ 63) mod 2 ^ 64 - 2 ^ 63.
Definition SampleInterval (c : StatsConfig) : Z := wrap_i64 (SampleIntervalSec c * second).
Definition Retention (c : StatsConfig) : Z := wrap_i64 (RetentionHours c * hour).

Definition DNSLeakWarning (vpn : ovpnconf.Config) (dns : DNSConfig) : string :=
  if BlockInternet dns && (0 <? length (ovpnconf.DNS vpn))%nat then
    "manual DNS entries can leak queries around Block internet DNS"
  else if BlockInternet dns && negb (ovpnconf.PushInternalDNS vpn) then
    "Block internet DNS has no effect unless Push internal DNS is also on"
  else "".

(** A body applied onto the current value; [None] for no body. *)
Definition Onto {A} (p : option (A → result A)) (cur : A) : result A :=
  match p with None => Ok cur | Some f => f cur end.

Section Settings.
  Context {S : Type}.
  Context (getenv : string → string) (unmarshal_config : string → ovpnconf.Config → ovpnconf.Config)
          (marshal_config : ovpnconf.Config → string).
  Context `{JsonInto LogConfig} `{JsonInto StatsConfig} `{JsonInto DNSConfig}.

Definition DefaultStatsConfig : StatsConfig :=
  mkStatsConfig (ovpnconf.EnvInt getenv "OVCP_STATS_SAMPLE_INTERVAL" 60)
    (ovpnconf.EnvInt getenv "OVCP_STATS_RETENTION_HOURS" 24).

Definition DefaultDNSConfig : DNSConfig := mkDNSConfig (String.eqb (getenv "OVCP_DNS_BLOCK_INTERNET") "true").

Definition statsConfigKey : string := "stats_config".
Definition dnsConfigKey : string := "dns_config".

Definition LoadStatsConfig : M StatsConfig := LoadJSON statsConfigKey DefaultStatsConfig.
Definition LoadLogConfig : M LogConfig := LoadJSON "log_config" (DefaultLogConfig getenv).
Definition LoadDNSConfig : M DNSConfig := LoadJSON dnsConfigKey DefaultDNSConfig.

Definition SaveStatsConfig (actor : string) (cfg : StatsConfig) : M StatsConfig :=
  if (SampleIntervalSec cfg <=? 0) || (RetentionHours cfg <=? 0) then
    fail (Errorf "sample-interval-sec and retention-hours must be positive" [])
  else SaveJSON statsConfigKey cfg ;; audit actor "stats_config_change" "" ;; mret cfg.

Definition SaveLogConfig (actor : string) (cfg : LogConfig) : M LogConfig :=
  if (RetentionDays cfg <? 0) || (KeepUncompressed cfg <? 0) then
    fail (Errorf "retention-days and keep-uncompressed must be 0 or more" [])
  else SaveJSON "log_config" cfg ;; audit actor "log_config_change" "" ;; mret cfg.

Definition SaveDNSConfig (cfg : DNSConfig) : M unit := SaveJSON dnsConfigKey cfg.

(** ** The tunnel's configuration *)

Definition LoadConfig : M ovpnconf.Config := λ s,
  let '(s', r) := GetSetting "vpn_config" s in
  (s', Ok (ovpnconf.Load getenv unmarshal_config (match r with Ok raw => raw | Err _ => "" end))).

Definition SaveConfig (cfg : ovpnconf.Config) : M unit := SetSetting "vpn_config" (marshal_config cfg).

(** [Render] of a configuration that was validated, or of the defaults; a
    route that does not parse panics. *)
Definition render (cfg : ovpnconf.Config) : result string :=
  match ovpnconf.Render cfg with Some text => Ok text | None => Err (pki.go_panic "nil dereference") end.

Definition of_db {A} (r : result A) : M A := λ s, (s, r).

Definition PreviewVPNConfig (cfg : ovpnconf.Config) : M Preview :=
  of_db (ovpnconf.Validate cfg) ;;
  cur ← LoadConfig;
  old ← of_db (render cur);
  new ← of_db (render cfg);
  let diff := ovpnconf.Diff old new in
  dns ← LoadDNSConfig;
  mret (mkPreview diff (0 <? length diff)%nat (DNSLeakWarning cfg dns)).

(** The diff, empty when there was nothing to do. *)
Definition SetVPNConfig (actor confPath : string) (cfg : ovpnconf.Config) : W S (list string) :=
  pv ← on_db (PreviewVPNConfig cfg);
  if negb (pChanged pv) then mret [] else
  on_db (SaveConfig cfg) ;;
  on_disk (ovpnconf.WriteAtomic cfg confPath) ;;
  world.audit actor "config_change" "" ;;
  mret (pDiff pv).

Definition set_client_auth (active : bool) (c : ovpnconf.Config) : ovpnconf.Config :=
  ovpnconf.mkConfig (ovpnconf.Proto c) (ovpnconf.Port c) (ovpnconf.Subnet c) (ovpnconf.Cipher c) (ovpnconf.DNS c)
    (ovpnconf.PushInternalDNS c) (ovpnconf.Routes c) (ovpnconf.RedirectGW c) (ovpnconf.Extra c)
    (ovpnconf.CACert c) (ovpnconf.ServerCert c) (ovpnconf.ServerKey c) (ovpnconf.CRL c) (ovpnconf.TLSCrypt c)
    (ovpnconf.MgmtSocket c) (ovpnconf.StatusLog c) (ovpnconf.ServerCN c) (ovpnconf.StatusInterval c) active.

Definition SetManagementClientAuth (confPath : string) (active : bool) : W S unit :=
  cfg ← on_db LoadConfig;
  let cfg := set_client_auth active cfg in
  on_db (SaveConfig cfg) ;;
  on_disk (ovpnconf.WriteAtomic cfg confPath).

(** The server-owned fields of [cur] under the rest of [inp]. *)
Definition keep_owned (cur inp : ovpnconf.Config) : ovpnconf.Config :=
  ovpnconf.mkConfig (ovpnconf.Proto inp) (ovpnconf.Port inp) (ovpnconf.Subnet inp) (ovpnconf.Cipher inp) (ovpnconf.DNS inp)
    (ovpnconf.PushInternalDNS inp) (ovpnconf.Routes inp) (ovpnconf.RedirectGW inp) (ovpnconf.Extra inp)
    (ovpnconf.CACert cur) (ovpnconf.ServerCert cur) (ovpnconf.ServerKey cur) (ovpnconf.CRL cur) (ovpnconf.TLSCrypt cur)
    (ovpnconf.MgmtSocket cur) (ovpnconf.StatusLog cur) (ovpnconf.ServerCN cur) (ovpnconf.StatusInterval cur)
    (ovpnconf.ManagementClientAuth inp).

Definition mergedConfig (p : option (ovpnconf.Config → result ovpnconf.Config)) : M ovpnconf.Config :=
  cur ← LoadConfig;
  inp ← of_db (Onto p cur);
  mret (keep_owned cur inp).

Definition handleVPNConfigGet : M ovpnconf.Config := LoadConfig.

Definition handleVPNConfigPut (actor confPath : string) (p : option (ovpnconf.Config → result ovpnconf.Config)) :
    W S ovpnconf.Config :=
  inp ← on_db (mergedConfig p);
  SetVPNConfig actor confPath inp ;;
  mret inp.

Definition handleVPNConfigPreview (p : option (ovpnconf.Config → result ovpnconf.Config)) : M Preview :=
  inp ← mergedConfig p; PreviewVPNConfig inp.

(** ** dnsmasq, log rotation, traffic history *)

Definition ViewDNS : M DNSView :=
  dns ← LoadDNSConfig; cfg ← LoadConfig; mret (mkDNSView dns (DNSLeakWarning cfg dns)).

Definition SetDNSConfig (actor : string) (cfg : DNSConfig) : M DNSView :=
  SaveDNSConfig cfg ;;
  audit actor ("dns_block_internet_" +:+ (if BlockInternet cfg then "on" else "off")) "" ;;
  ViewDNS.

Definition handleDNSConfigGet : M DNSView := ViewDNS.
Definition handleDNSConfigSet (actor : string) (cfg : DNSConfig) : M DNSView := SetDNSConfig actor cfg.
Definition handleLogsConfigGet : M LogConfig := LoadLogConfig.
Definition handleLogsConfigSet (actor : string) (p : option (LogConfig → result LogConfig)) : M LogConfig :=
  cur ← LoadLogConfig; cfg ← of_db (Onto p cur); SaveLogConfig actor cfg.
Definition handleStatsConfigGet : M StatsConfig := LoadStatsConfig.
Definition handleStatsConfigSet (actor : string) (p : option (StatsConfig → result StatsConfig)) : M StatsConfig :=
  cur ← LoadStatsConfig; cfg ← of_db (Onto p cur); SaveStatsConfig actor cfg.
End Settings.
End configapi.
