(* ===== verification/UpstreamApi.v ===== *)
(** * UpstreamApi: the egress actions (internal/api/upstream.go)

    The persisted upstream configuration, its edits with what they program on
    the host and write to the server's configuration, and the callbacks of the
    management connection. *)

From S2P Require Import Prelude GoStr GoRunes GoErr GoFs NetIP Names Upstream UpstreamApply Store StoreUsers Totp.
From S2P Require Import Auth Mgmt OvpnConf Pki World CertApi UserApi ConfigApi.

Module upstreamapi.
Import store world.

(** The server and the routing state of its host. *)
Record Serve (S H : Type) := mkServe { wd : World S; trk : tracker.St H }.
Arguments mkServe {S H}. Arguments wd {S H}. Arguments trk {S H}.

Definition X (S H A : Type) : Type := Serve S H → Serve S H * result A.
#[export] Instance X_ret S H : MRet (X S H) := λ _ a x, (x, Ok a).
#[export] Instance X_bind S H : MBind (X S H) := λ _ _ f m x,
  match m x with (x', Ok a) => f a x' | (x', Err e) => (x', Err e) end.

Definition x_fail {S H A} (e : goerr) : X S H A := λ x, (x, Err e).
Definition x_of {S H A} (r : result A) : X S H A := λ x, (x, r).
Definition on_w {S H A} (m : W S A) : X S H A := λ x, let '(w, r) := m (wd x) in (mkServe w (trk x), r).
Definition on_trk {S H A} (m : tracker.M (W := H) A) : X S H A := λ x,
  let '(a, t) := m (trk x) in (mkServe (wd x) t, Ok a).

Definition upstreamConfigKey : string := "upstream_config".
Definition RestartWarning : string := "run `ovcp vpn restart` to activate per-CN routing".

Record UpstreamRow := mkRow {
  rID : string; rUp : bool; rIface : string; rGateway : string; rSOCKS : string; rTable : Z; rDescription : string }.
Record UpstreamView := mkView {
  vUpstreams : list UpstreamRow; vDefault : string; vPerCN : gmap string string; vMessage : string; vWarning : string }.

Definition no_config : upstream.Config := upstream.mkConfig [] "" ∅.

(** The first error of a Go pair. *)
Definition or_err {A} (p : A * option goerr) : result A := match p with (a, None) => Ok a | (_, Some e) => Err e end.

Section Actions.
  Context {S H : Type} `{tracker.HostOps H} `{!JsonInto upstream.Config}.
  Context (getenv : string → string) (unmarshal_config : string → ovpnconf.Config → ovpnconf.Config)
          (marshal_config : ovpnconf.Config → string).
  Context (StatusPath : string).

(** [IsUp] asks the host. *)
Definition iface (x : Serve S H) : string → bool := tracker.host_iface (tracker.world (trk x)).

Definition DefaultUpstreamConfig : upstream.Config :=
  let raw := getenv "OVCP_UPSTREAM_SOCKS" in
  if String.eqb raw "" then no_config
  else match upstream.WithAdded no_config (upstream.mkUpstream "socks" "" "" raw 0 0 0 "") with
       | (cfg, _, None) =>
           match upstream.SetDefault cfg "socks" with (cfg, None) => cfg | (_, Some _) => no_config end
       | (_, _, Some _) => no_config
       end.

Definition LoadUpstreamConfig : M upstream.Config := LoadJSON upstreamConfigKey DefaultUpstreamConfig.
Definition SaveUpstreamConfig (cfg : upstream.Config) : M unit := SaveJSON upstreamConfigKey cfg.

Definition per_cn_active (cfg : upstream.Config) : bool := (0 <? size (upstream.PerCN cfg))%nat.
Definition UpstreamAuthActive : M bool := cfg ← LoadUpstreamConfig; mret (per_cn_active cfg).

Definition db_ {A} (m : M A) : X S H A := on_w (on_db m).
Definition audit (actor action detail : string) : X S H unit := on_w (world.audit actor action detail).

Definition down_warning (ups : list upstream.Upstream) : X S H string := λ x, (x, Ok (upstream.Warning (iface x) ups)).

(** Programs the host; the error only reaches the log. *)
Definition applyUpstreams (enabled : bool) (cfg : upstream.Config) : X S H string :=
  if negb enabled then mret ""
  else on_trk (tracker.Apply getenv cfg) ;; down_warning (upstream.Upstreams cfg).

Definition ViewUpstreams (cfg : upstream.Config) (message warning : string) : X S H UpstreamView := λ x,
  (x, Ok (mkView ((λ u, mkRow (upstream.ID u) (upstream.IsUp (iface x) u) (upstream.Iface u) (upstream.Gateway u)
                         (upstream.RedactSOCKS (upstream.SOCKS u)) (upstream.Table u) (upstream.Description u))
                    <$> upstream.Upstreams cfg)
            (upstream.Default cfg) (upstream.PerCN cfg) message warning)).

Definition handleUpstreamsGet : X S H UpstreamView := cfg ← db_ LoadUpstreamConfig; ViewUpstreams cfg "" "".

(** The warning. *)
Definition applyAssign (confPath : string) (before : bool) (cfg : upstream.Config) (id : string) : X S H string :=
  db_ (SaveUpstreamConfig cfg) ;;
  after ← db_ UpstreamAuthActive;
  (if eqb before after then mret tt
   else on_w (configapi.SetManagementClientAuth getenv unmarshal_config marshal_config confPath after)) ;;
  down ← (match upstream.Find cfg id with
          | Some u => λ x, (x, Ok (if upstream.IsUp (iface x) u then [] else [upstream.Warning (iface x) [u]]))
          | None => mret []
          end : X S H (list string));
  mret (join "; " ((if negb (eqb before after) && after then [RestartWarning] else []) ++ down)).

(** ** The actions behind a command and its route *)

Definition Applier : Type := upstream.Config → X S H string.

Definition saveApplyUpstreams (actor : string) (cfg : upstream.Config) (apply : Applier) (msg action detail : string) :
    X S H UpstreamView :=
  db_ (SaveUpstreamConfig cfg) ;;
  warning ← apply cfg;
  v ← ViewUpstreams cfg msg warning;
  audit actor action detail ;;
  mret v.

Definition guard_enabled (enabled : bool) : X S H unit := x_of (guard_ok enabled (Sentinel ErrUpstreamsDisabled)).

Definition AddUpstream (actor : string) (enabled : bool) (u : upstream.Upstream) (apply : Applier) : X S H UpstreamView :=
  guard_enabled enabled ;;
  cur ← db_ LoadUpstreamConfig;
  '(cfg, added) ← x_of (or_err (upstream.WithAdded cur u));
  saveApplyUpstreams actor cfg apply
    ("added: " +:+ upstream.ID u +:+ " (table " +:+ itoa (upstream.Table added) +:+ ")") "upstream_add" (upstream.ID u).

Definition DeleteUpstream (actor : string) (enabled : bool) (id : string) (apply : Applier) : X S H UpstreamView :=
  guard_enabled enabled ;;
  cur ← db_ LoadUpstreamConfig;
  let '(cfg, found) := upstream.Without cur id in
  if negb found then x_fail (Wrapf "%q: %w" [id] (Sentinel ErrNoUpstream))
  else saveApplyUpstreams actor cfg apply ("deleted: " +:+ id) "upstream_del" id.

Definition SetDefaultUpstream (actor : string) (enabled : bool) (id : string) (apply : Applier) : X S H UpstreamView :=
  guard_enabled enabled ;;
  cur ← db_ LoadUpstreamConfig;
  cfg ← x_of (or_err (upstream.SetDefault cur id));
  if String.eqb id "" then
    saveApplyUpstreams actor cfg apply "default: off (host's own default route)" "upstream_default_off" ""
  else saveApplyUpstreams actor cfg apply ("default: " +:+ id) "upstream_default_set" id.

Definition AssignUpstream (actor : string) (enabled : bool) (confPath cn id : string) (clear : bool)
    (rewrite : string → X S H unit) : X S H UpstreamView :=
  guard_enabled enabled ;;
  before ← db_ UpstreamAuthActive;
  cur ← db_ LoadUpstreamConfig;
  cfg ← x_of (or_err (upstream.Assign cur cn id clear));
  warning ← applyAssign confPath before cfg id;
  rewrite cn ;;
  v ← ViewUpstreams cfg (if clear then "cleared: " +:+ cn else "assigned: " +:+ cn +:+ " -> " +:+ id) warning;
  audit actor (if clear then "upstream_unassign" else "upstream_assign") cn ;;
  mret v.

Definition ReconcileUpstreams (actor : string) (enabled : bool) (apply : Applier) : X S H UpstreamView :=
  guard_enabled enabled ;;
  cfg ← db_ LoadUpstreamConfig;
  warning ← apply cfg;
  v ← ViewUpstreams cfg "" warning;
  audit actor "upstream_reconcile" "" ;;
  mret v.

(** ** The management connection's callbacks *)

(** Their errors only reach the log. *)
Definition OnClientEstablished (cid cn ip : string) : X S H unit :=
  cfg ← db_ LoadUpstreamConfig;
  on_trk (tracker.Establish cid cn ip cfg) ;; mret tt.

Definition OnClientDisconnect (cid : string) : X S H unit := on_trk (tracker.Disconnect cid).

Definition OnVPNExit : X S H unit := on_trk tracker.ClearAll.

(** The first live session of the name. *)
Definition RewriteConnectedClientRule (cn : string) : X S H unit :=
  live ← on_w (mgmt_status StatusPath);
  cfg ← db_ LoadUpstreamConfig;
  match List.find (λ c, String.eqb (mgmt.CN c) cn) live with
  | Some c => e ← on_trk (tracker.Reassign (mgmt.CID c) cn (mgmt.VirtualAddress c) cfg); x_of (of_error e)
  | None => mret tt
  end.

(** ** The routes *)

Definition handleUpstreamAdd (enabled : bool) (actor : string) (u : upstream.Upstream) : X S H UpstreamView :=
  AddUpstream actor enabled u (applyUpstreams enabled).
Definition handleUpstreamDelete (enabled : bool) (actor id : string) : X S H UpstreamView :=
  DeleteUpstream actor enabled id (applyUpstreams enabled).
Definition handleUpstreamSetDefault (enabled : bool) (actor id : string) : X S H UpstreamView :=
  SetDefaultUpstream actor enabled id (applyUpstreams enabled).
Definition handleUpstreamAssign (enabled : bool) (confPath actor cn id : string) (clear : bool) : X S H UpstreamView :=
  AssignUpstream actor enabled confPath cn id clear RewriteConnectedClientRule.
Definition handleUpstreamReconcile (enabled : bool) (actor : string) : X S H UpstreamView :=
  ReconcileUpstreams actor enabled (applyUpstreams enabled).

(** ** What the store holds *)

Definition up_of (t : Tables) : upstream.Config := read_json upstreamConfigKey DefaultUpstreamConfig t.
Definition vpn_of (t : Tables) : ovpnconf.Config :=
  ovpnconf.Load getenv unmarshal_config (default "" (settings t !! "vpn_config")).

(** The texts of a configuration; JSON keeps those that are valid UTF-8. *)
Definition up_text (c : upstream.Config) : bool :=
  forallb (λ u, forallb valid_utf8 [upstream.ID u; upstream.Iface u; upstream.Gateway u; upstream.SOCKS u; upstream.Description u])
    (upstream.Upstreams c) && valid_utf8 (upstream.Default c) &&
  forallb (λ p, valid_utf8 p.1 && valid_utf8 p.2) (map_to_list (upstream.PerCN c)).
Definition vpn_text (c : ovpnconf.Config) : bool :=
  forallb valid_utf8 ([ovpnconf.Proto c; ovpnconf.Subnet c; ovpnconf.Cipher c; ovpnconf.Extra c; ovpnconf.CACert c;
    ovpnconf.ServerCert c; ovpnconf.ServerKey c; ovpnconf.CRL c; ovpnconf.TLSCrypt c; ovpnconf.MgmtSocket c;
    ovpnconf.StatusLog c; ovpnconf.ServerCN c] ++ ovpnconf.DNS c ++ ovpnconf.Routes c).

(** [json.Marshal] then [json.Unmarshal], every field present. *)
Record JsonKeeps : Prop := {
  keeps_up : ∀ c enc, up_text c = true → json_marshal c = Ok enc → enc ≠ "" ∧ json_unmarshal enc DefaultUpstreamConfig = Ok c;
  keeps_vpn : ∀ c, vpn_text c = true → marshal_config c ≠ "" ∧ unmarshal_config (marshal_config c) (ovpnconf.Default getenv) = c }.

(** The server's flag says whether any client has an upstream of its own. *)
Definition in_step (t : Tables) : Prop := ovpnconf.ManagementClientAuth (vpn_of t) = per_cn_active (up_of t).

(** A step that leaves the database as it was, in order. *)
Record still (x x' : Serve S H) : Prop := {
  st_tables : tables (db (wd x')) = tables (db (wd x)); st_healthy : healthy (db (wd x'));
  st_disk : disk (wd x') = disk (wd x) }.

Lemma x_bind_ok {A B} (m : X S H A) (f : A → X S H B) x x1 a : m x = (x1, Ok a) → mbind f m x = f a x1.
Proof. intros E. unfold mbind, X_bind. by rewrite E. Qed.

Lemma db_still {A} (m : M A) x s' a : m (db (wd x)) = (s', Ok a) → tables s' = tables (db (wd x)) → healthy s' →
  ∃ x', db_ m x = (x', Ok a) ∧ still x x'.
Proof. intros E T Hh. unfold db_, on_w, on_db. rewrite E. eexists. split; [done|]. by split. Qed.

Lemma load_run x : healthy (db (wd x)) → ∃ x', db_ LoadUpstreamConfig x = (x', Ok (up_of (tables (db (wd x))))) ∧ still x x'.
Proof.
  intros Hh. destruct (LoadJSON_healthy upstreamConfigKey DefaultUpstreamConfig (db (wd x)) Hh) as (s'&E&T&_&Hh').
  by eapply db_still.
Qed.

Lemma active_run x : healthy (db (wd x)) →
  ∃ x', db_ UpstreamAuthActive x = (x', Ok (per_cn_active (up_of (tables (db (wd x)))))) ∧ still x x'.
Proof.
  intros Hh. destruct (LoadJSON_healthy upstreamConfigKey DefaultUpstreamConfig (db (wd x)) Hh) as (s'&E&T&_&Hh').
  eapply db_still; [|done|done]. unfold UpstreamAuthActive, LoadUpstreamConfig, mbind, M_bind. by rewrite E.
Qed.

Lemma save_run x cfg enc : healthy (db (wd x)) → json_marshal cfg = Ok enc →
  ∃ x', db_ (SaveUpstreamConfig cfg) x = (x', Ok tt) ∧ healthy (db (wd x')) ∧ disk (wd x') = disk (wd x) ∧
    tables (db (wd x')) = with_settings (tables (db (wd x))) (<[upstreamConfigKey := enc]> (settings (tables (db (wd x))))).
Proof.
  intros Hh He. destruct (SetSetting_healthy upstreamConfigKey enc (db (wd x)) Hh) as (s'&E&T&_&Hh').
  unfold db_, on_w, on_db, SaveUpstreamConfig, SaveJSON. rewrite He, E. eexists. by split_and!.
Qed.

(** Turning the server's flag on or off on a disk in order. *)
Lemma set_auth_run confPath b (w : World S) : healthy (db w) → sound (disk w) → ovpnconf.tmp_of confPath ≠ confPath →
  is_ok (ovpnconf.Validate (vpn_of (tables (db w)))) = true →
  let cfg := configapi.set_client_auth b (vpn_of (tables (db w))) in
  ∃ w' text, configapi.SetManagementClientAuth getenv unmarshal_config marshal_config confPath b w = (w', Ok tt) ∧
    healthy (db w') ∧
    tables (db w') = with_settings (tables (db w)) (<["vpn_config" := marshal_config cfg]> (settings (tables (db w)))) ∧
    ovpnconf.Render cfg = Some text ∧ files (disk w') !! confPath = Some text.
Proof.
  intros Hh Hs Hpath Hv cfg. unfold configapi.SetManagementClientAuth.
  assert (∃ w1, on_db (configapi.LoadConfig getenv unmarshal_config) w = (w1, Ok (vpn_of (tables (db w)))) ∧
    tables (db w1) = tables (db w) ∧ healthy (db w1) ∧ disk w1 = disk w) as (w1&E1&T1&H1&D1).
  { unfold on_db, configapi.LoadConfig, GetSetting.
    destruct (query_healthy (λ t, default "" (settings t !! "vpn_config")) (db w) Hh) as (s1&->&T&_&Hh'). eexists. by split_and!. }
  unfold mbind, W_bind. rewrite E1. fold cfg.
  destruct (SetSetting_healthy "vpn_config" (marshal_config cfg) (db w1) H1) as (s2&E2&T2&_&H2).
  unfold on_db, configapi.SaveConfig. rewrite E2. rewrite T1 in T2. unfold on_disk. cbn [disk set_db]. rewrite D1.
  destruct (ovpnconf.WriteAtomic cfg confPath (disk w)) as [d r] eqn:E3.
  pose proof (ovpnconf.WriteAtomic_run cfg confPath (disk w) d r Hpath E3) as (_&Hr&Hok).
  assert (is_ok r = true) as Hr'.
  { apply Hok. split_and!; [exact Hv|apply sound_next; [exact ∅|done]|]. apply (sound_next (after (disk w) ∅) ∅), (sound_next _ ∅), Hs. }
  destruct r as [[]|e]; [|done]. destruct Hr as (text&Hr&Hf).
  eexists _, text. split_and!; [done|done|done|done|done].
Qed.

Lemma set_client_auth_same c : configapi.set_client_auth (ovpnconf.ManagementClientAuth c) c = c.
Proof. by destruct c. Qed.

Lemma up_of_saved t cfg enc : JsonKeeps → up_text cfg = true → json_marshal cfg = Ok enc →
  up_of (with_settings t (<[upstreamConfigKey := enc]> (settings t))) = cfg.
Proof.
  intros HJ Ht He. destruct (keeps_up HJ cfg enc Ht He) as [Hne Hd]. unfold up_of, read_json. cbn [settings with_settings].
  rewrite lookup_insert_eq. cbn [default from_option id]. destruct (String.eqb_spec enc ""); [done|]. by rewrite Hd.
Qed.

Lemma vpn_of_saved t c : JsonKeeps → vpn_text c = true →
  vpn_of (with_settings t (<["vpn_config" := marshal_config c]> (settings t))) = c.
Proof.
  intros HJ Ht. destruct (keeps_vpn HJ c Ht) as [Hne Hd]. unfold vpn_of, ovpnconf.Load. cbn [settings with_settings].
  rewrite lookup_insert_eq. cbn [default from_option id]. by destruct (String.eqb_spec (marshal_config c) "").
Qed.

(** The two configurations after an assignment, and the file. *)
Record assigned (confPath : string) (cfg : upstream.Config) (x x' : Serve S H) : Prop := {
  as_up : up_of (tables (db (wd x'))) = cfg;
  as_vpn : vpn_of (tables (db (wd x'))) = configapi.set_client_auth (per_cn_active cfg) (vpn_of (tables (db (wd x))));
  as_file : if eqb (per_cn_active (up_of (tables (db (wd x))))) (per_cn_active cfg)
            then files (disk (wd x')) = files (disk (wd x))
            else ∃ text, ovpnconf.Render (vpn_of (tables (db (wd x')))) = Some text ∧ files (disk (wd x')) !! confPath = Some text }.

Lemma applyAssign_run confPath cfg id enc x : JsonKeeps → healthy (db (wd x)) → sound (disk (wd x)) →
  ovpnconf.tmp_of confPath ≠ confPath → is_ok (ovpnconf.Validate (vpn_of (tables (db (wd x))))) = true →
  vpn_text (vpn_of (tables (db (wd x)))) = true → in_step (tables (db (wd x))) →
  up_text cfg = true → json_marshal cfg = Ok enc →
  let t := tables (db (wd x)) in let before := per_cn_active (up_of t) in
  ∃ x' down, applyAssign confPath before cfg id x =
      (x', Ok (join "; " ((if negb (eqb before (per_cn_active cfg)) && per_cn_active cfg then [RestartWarning] else []) ++ down))) ∧
    healthy (db (wd x')) ∧ assigned confPath cfg x x' ∧ audit_log (tables (db (wd x'))) = audit_log t.
Proof.
  intros HJ Hh Hs Hpath Hv Htv Hin Ht He t before.
  destruct (save_run x cfg enc Hh He) as (x1&E1&H1&D1&T1).
  assert (Hup1 : up_of (tables (db (wd x1))) = cfg) by (rewrite T1; by apply up_of_saved).
  assert (Hvpn1 : vpn_of (tables (db (wd x1))) = vpn_of t).
  { rewrite T1. unfold vpn_of. cbn [settings with_settings]. by rewrite lookup_insert_ne by done. }
  destruct (active_run x1 H1) as (x2&E2&[T2 H2 D2]). rewrite Hup1 in E2.
  assert (∃ x3, (if eqb before (per_cn_active cfg) then mret tt
     else on_w (configapi.SetManagementClientAuth getenv unmarshal_config marshal_config confPath (per_cn_active cfg))) x2 = (x3, Ok tt) ∧
    healthy (db (wd x3)) ∧ assigned confPath cfg x x3 ∧ audit_log (tables (db (wd x3))) = audit_log t) as (x3&E3&H3&A3&L3).
  { destruct (eqb before (per_cn_active cfg)) eqn:Eb.
    - exists x2. split_and!; [done|done| |by rewrite T2, T1]. split; [by rewrite T2| |].
      + rewrite T2, Hvpn1. apply eqb_prop in Eb. rewrite <- Eb. unfold before, t. rewrite <- Hin. by rewrite set_client_auth_same.
      + fold t before. by rewrite Eb, D2, D1.
    - destruct (set_auth_run confPath (per_cn_active cfg) (wd x2) H2) as (w3&text&E3&H3&T3&R3&F3);
        [by rewrite D2, D1|done|by rewrite T2, Hvpn1|].
      exists (mkServe w3 (trk x2)). unfold on_w. rewrite E3. split_and!; [done|done| |cbn; by rewrite T3, T2, T1].
      rewrite T2, Hvpn1 in T3, R3.
      assert (vpn_of (tables (db w3)) = configapi.set_client_auth (per_cn_active cfg) (vpn_of t)) as Hvpn3.
      { rewrite T3. rewrite <- T2. apply vpn_of_saved; [done|exact Htv]. }
      split; cbn [wd]; [|done|].
      + rewrite T3. rewrite <- Hup1 at 2. unfold up_of, read_json. cbn [settings with_settings]. by rewrite lookup_insert_ne by done.
      + fold t before. rewrite Eb. exists text. by rewrite Hvpn3. }
  assert (∀ ups (k : list string → X S H string), ∃ down : list string,
    ((match ups with
      | Some u => λ x : Serve S H, (x, Ok (if upstream.IsUp (iface x) u then [] else [upstream.Warning (iface x) [u]]))
      | None => mret []
      end : X S H (list string)) ≫= k) x3 = k down x3) as Hdown.
  { intros [u|] k; by eexists. }
  unfold applyAssign. rewrite (x_bind_ok _ _ _ _ _ E1), (x_bind_ok _ _ _ _ _ E2), (x_bind_ok _ _ _ _ _ E3).
  destruct (Hdown (upstream.Find cfg id) (λ down, mret (join "; " ((if negb (eqb before (per_cn_active cfg)) && per_cn_active cfg then [RestartWarning] else []) ++ down))))
    as [down ->]. exists x3, down. by split_and!.
Qed.

Lemma rewrite_run cn x : healthy (db (wd x)) →
  ∃ x' r, RewriteConnectedClientRule cn x = (x', r) ∧ tables (db (wd x')) = tables (db (wd x)) ∧
    files (disk (wd x')) = files (disk (wd x)) ∧ healthy (db (wd x')).
Proof.
  intros Hh. unfold RewriteConnectedClientRule, on_w, mgmt_status. unfold mbind at 1, X_bind at 1.
  destruct (ReadFile StatusPath (disk (wd x))) as [d rf] eqn:E.
  assert (files d = files (disk (wd x))) as Hd by (unfold ReadFile in E; repeat case_match; by simplify_eq).
  set (x1 := mkServe (mkWorld (svc (wd x)) d (conn (wd x))) (trk x)).
  destruct (mgmt.Status rf) as [live|e]; [|by exists x1, (Err e)].
  destruct (load_run x1 Hh) as (x2&E2&[T2 H2 D2]). rewrite (x_bind_ok _ _ _ _ _ E2).
  destruct (List.find _ live) as [c|]; [|exists x2, (Ok tt); split_and!; [done|done|by rewrite D2|done]].
  unfold mbind, X_bind, on_trk. destruct (tracker.Reassign _ _ _ _ _) as [e t] eqn:Et.
  eexists (mkServe (wd x2) t), _. split_and!; [done|done|by cbn; rewrite D2|done].
Qed.

Lemma audit_run actor action detail x : healthy (db (wd x)) →
  ∃ x' e, audit actor action detail x = (x', Ok tt) ∧ disk (wd x') = disk (wd x) ∧
    tables (db (wd x')) = with_audit (tables (db (wd x))) (audit_log (tables (db (wd x))) ++ [e]) ∧
    a_actor e = actor ∧ a_action e = action ∧ a_detail e = detail.
Proof.
  intros Hh. destruct (Audit_healthy actor action detail (db (wd x)) Hh) as (s'&id&E&_&_&_&_&T).
  unfold audit, on_w, world.audit, w_ignore, on_db. rewrite E. eexists _, _. by split_and!.
Qed.

Lemma up_text_assign c cn id clear cfg : up_text c = true → valid_utf8 cn = true → valid_utf8 id = true →
  upstream.Assign c cn id clear = (cfg, None) → up_text cfg = true.
Proof.
  intros Hc Hcn Hid. unfold upstream.Assign. destruct (_ || _); [done|].
  destruct (upstream.validated_cases c (λ cfg, upstream.mkConfig (upstream.Upstreams cfg) (upstream.Default cfg)
    (if clear then delete cn (upstream.PerCN c) else <[cn:=id]> (upstream.PerCN c)))) as [[_ ->]|[_ [e ->]]]; [|done].
  intros [= <-]. unfold up_text in *. cbn [upstream.Upstreams upstream.Default upstream.PerCN]. apply andb_true_iff in Hc as [-> Hm]. cbn [andb].
  rewrite forallb_forall in Hm |- *. intros [k v] Hin%list_elem_of_In%elem_of_map_to_list.
  assert (∀ k v, upstream.PerCN c !! k = Some v → valid_utf8 k && valid_utf8 v = true) as Hold.
  { intros k' v' Hk. apply (Hm (k', v')). by apply list_elem_of_In, elem_of_map_to_list. }
  destruct clear; [apply lookup_delete_Some in Hin as [_ Hin]; by apply Hold|].
  apply lookup_insert_Some in Hin as [[<- <-]|[_ Hin]]; [apply andb_true_iff; by split|by apply Hold].
Qed.

Lemma assigned_same confPath cfg x x1 x2 x' : assigned confPath cfg x1 x2 →
  tables (db (wd x1)) = tables (db (wd x)) → disk (wd x1) = disk (wd x) →
  settings (tables (db (wd x'))) = settings (tables (db (wd x2))) → files (disk (wd x')) = files (disk (wd x2)) →
  assigned confPath cfg x x'.
Proof.
  intros [Hu Hv Hf] Ht Hd Hs Hfs.
  assert (up_of (tables (db (wd x'))) = up_of (tables (db (wd x2)))) as Eu by (unfold up_of, read_json; by rewrite Hs).
  assert (vpn_of (tables (db (wd x'))) = vpn_of (tables (db (wd x2)))) as Ev by (unfold vpn_of; by rewrite Hs).
  rewrite Ht, Hd in *. split; [by rewrite Eu|by rewrite Ev|]. by rewrite Ev, Hfs.
Qed.

Lemma applyAssign_fail confPath before cfg id e x : json_marshal cfg = Err e →
  ∃ x', applyAssign confPath before cfg id x = (x', Err e) ∧ tables (db (wd x')) = tables (db (wd x)) ∧ disk (wd x') = disk (wd x).
Proof.
  intros He. unfold applyAssign, db_, on_w, on_db, SaveUpstreamConfig, SaveJSON. rewrite He.
  unfold mbind at 1, X_bind at 1, fail. eexists. by split_and!.
Qed.

(** What follows once the assignment is stored. *)
Lemma assign_tail actor cn cfg msg action warning x x' r : healthy (db (wd x)) →
  (RewriteConnectedClientRule cn ;; v ← ViewUpstreams cfg msg warning; audit actor action cn ;; mret v) x = (x', r) →
  settings (tables (db (wd x'))) = settings (tables (db (wd x))) ∧ files (disk (wd x')) = files (disk (wd x)) ∧
  (if is_ok r then ∃ e, audit_log (tables (db (wd x'))) = audit_log (tables (db (wd x))) ++ [e] ∧ a_actor e = actor ∧
     a_action e = action ∧ a_detail e = cn
   else audit_log (tables (db (wd x'))) = audit_log (tables (db (wd x)))).
Proof.
  intros Hh Hrun. destruct (rewrite_run cn x Hh) as (x1&r1&E1&T1&F1&H1).
  unfold mbind at 1, X_bind at 1 in Hrun. rewrite E1 in Hrun.
  destruct r1 as [[]|e]; [|injection Hrun as <- <-; by rewrite T1, F1].
  destruct (audit_run actor action cn x1 H1) as (x2&e&E2&D2&T2&?&?&?).
  unfold mbind, X_bind in Hrun. cbn [ViewUpstreams] in Hrun. rewrite E2 in Hrun. injection Hrun as <- <-.
  rewrite T2, T1, D2, F1. cbn. split_and!; [done|done|]. by exists e.
Qed.

(** C36: Giving a client an upstream of its own, or taking it back, keeps the
    server's management-client-auth flag equal to whether any client has one,
    whatever becomes of the live rule: either nothing is stored, or the new
    assignment is, with the flag set to match, server.conf rewritten exactly
    when the flag changed, and the audit entry written exactly when the action
    reports success. *)
Theorem AssignUpstream_in_step enabled confPath actor cn id clear (x x' : Serve S H) r :
  JsonKeeps → healthy (db (wd x)) → sound (disk (wd x)) → ovpnconf.tmp_of confPath ≠ confPath →
  let t := tables (db (wd x)) in let t' := tables (db (wd x')) in
  is_ok (ovpnconf.Validate (vpn_of t)) = true → vpn_text (vpn_of t) = true → up_text (up_of t) = true →
  valid_utf8 cn = true → valid_utf8 id = true → in_step t →
  handleUpstreamAssign enabled confPath actor cn id clear x = (x', r) →
  in_step t' ∧
  match upstream.Assign (up_of t) cn id clear with
  | (cfg, None) =>
      if enabled && is_ok (json_marshal cfg) then
        assigned confPath cfg x x' ∧
        (if is_ok r then ∃ e, audit_log t' = audit_log t ++ [e] ∧ a_actor e = actor ∧
           a_action e = (if clear then "upstream_unassign" else "upstream_assign") ∧ a_detail e = cn
         else audit_log t' = audit_log t)
      else is_ok r = false ∧ t' = t ∧ files (disk (wd x')) = files (disk (wd x))
  | (_, Some _) => is_ok r = false ∧ t' = t ∧ files (disk (wd x')) = files (disk (wd x))
  end.
Proof.
  intros HJ Hh Hs Hpath t t' Hv Htv Htu Hcn Hid Hin Hrun. unfold handleUpstreamAssign, AssignUpstream, guard_enabled in Hrun.
  destruct enabled; cbn [guard_ok andb] in Hrun |- *.
  2:{ injection Hrun as <- <-. split; [done|]. by destruct (upstream.Assign _ _ _ _) as [? [?|]]. }
  destruct (active_run x Hh) as (x1&E1&[T1 H1 D1]). destruct (load_run x1 H1) as (x2&E2&[T2 H2 D2]). rewrite T1 in E2, T2.
  rewrite (x_bind_ok _ _ x x tt eq_refl), (x_bind_ok _ _ _ _ _ E1), (x_bind_ok _ _ _ _ _ E2) in Hrun.
  fold t in Hrun, T1, T2. destruct (upstream.Assign (up_of t) cn id clear) as [cfg [e|]] eqn:EA; cbn [or_err] in Hrun.
  { injection Hrun as <- <-. unfold t'. rewrite T2, D2, D1. done. }
  rewrite (x_bind_ok (x_of (Ok cfg)) _ x2 x2 cfg eq_refl) in Hrun.
  pose proof (up_text_assign _ _ _ _ _ Htu Hcn Hid EA) as Htc.
  destruct (json_marshal cfg) as [enc|e] eqn:EJ; cbn [is_ok].
  - destruct (applyAssign_run confPath cfg id enc x2 HJ H2) as (x3&down&E3&H3&A3&L3); rewrite ?T2, ?D2, ?D1; [done..|].
    rewrite T2 in E3, L3. rewrite (x_bind_ok _ _ _ _ _ E3) in Hrun.
    destruct (assign_tail _ _ _ _ _ _ _ _ _ H3 Hrun) as (Hs'&Hf'&Ha').
    assert (assigned confPath cfg x x') as A' by (apply (assigned_same _ _ x x2 x3 x' A3); [by rewrite T2|by rewrite D2|done..]).
    split; [|split; [done|]; by rewrite L3 in Ha'].
    destruct A' as [Hu Hvp _]. unfold in_step. unfold t'. by rewrite Hu, Hvp.
  - destruct (applyAssign_fail confPath (per_cn_active (up_of t)) cfg id e x2 EJ) as (x3&E3&T3&D3).
    unfold mbind at 1, X_bind at 1 in Hrun. rewrite E3 in Hrun. injection Hrun as <- <-.
    unfold t'. by rewrite T3, T2, D3, D2, D1.
Qed.

(** Deleting an upstream touches only its own configuration. *)
Lemma delete_run actor id cfg enc (x x' : Serve S H) r : JsonKeeps → healthy (db (wd x)) →
  upstream.Without (up_of (tables (db (wd x)))) id = (cfg, true) → up_text cfg = true → json_marshal cfg = Ok enc →
  handleUpstreamDelete true actor id x = (x', r) →
  is_ok r = true ∧ up_of (tables (db (wd x'))) = cfg ∧ vpn_of (tables (db (wd x'))) = vpn_of (tables (db (wd x))).
Proof.
  intros HJ Hh HW Ht He Hrun. unfold handleUpstreamDelete, DeleteUpstream, guard_enabled in Hrun. cbn [guard_ok] in Hrun.
  destruct (load_run x Hh) as (x1&E1&[T1 H1 _]).
  rewrite (x_bind_ok _ _ x x tt eq_refl), (x_bind_ok _ _ _ _ _ E1), HW in Hrun. cbn [negb] in Hrun. unfold saveApplyUpstreams in Hrun.
  destruct (save_run x1 cfg enc H1 He) as (x2&E2&H2&_&T2). rewrite (x_bind_ok _ _ _ _ _ E2) in Hrun.
  assert (∃ x3 w, applyUpstreams true cfg x2 = (x3, Ok w) ∧ wd x3 = wd x2) as (x3&w&E3&W3).
  { unfold applyUpstreams, on_trk, mbind, X_bind. cbn [negb]. destruct (tracker.Apply getenv cfg (trk x2)) as [a k].
    eexists _, _. by split. }
  rewrite (x_bind_ok _ _ _ _ _ E3) in Hrun.
  destruct (audit_run actor "upstream_del" id x3) as (x4&e&E4&_&T4&_); [by rewrite W3|].
  unfold mbind, X_bind in Hrun. cbn [ViewUpstreams] in Hrun. rewrite E4 in Hrun. injection Hrun as <- <-.
  rewrite W3, T2, T1 in T4. split; [done|]. rewrite T4. split.
  - exact (up_of_saved (tables (db (wd x))) cfg enc HJ Ht He).
  - unfold vpn_of. cbn [settings with_settings with_audit]. by rewrite lookup_insert_ne by done.
Qed.

(** So deleting the upstream of the last client that has one leaves the flag
    on: only assignments turn it. *)
Lemma delete_leaves_flag_on actor id cfg enc (x x' : Serve S H) r : JsonKeeps → healthy (db (wd x)) →
  let t := tables (db (wd x)) in
  in_step t → per_cn_active (up_of t) = true → upstream.Without (up_of t) id = (cfg, true) → per_cn_active cfg = false →
  up_text cfg = true → json_marshal cfg = Ok enc → handleUpstreamDelete true actor id x = (x', r) →
  is_ok r = true ∧ per_cn_active (up_of (tables (db (wd x')))) = false ∧
  ovpnconf.ManagementClientAuth (vpn_of (tables (db (wd x')))) = true.
Proof.
  intros HJ Hh t Hin Ha HW Hn Ht He Hrun. destruct (delete_run actor id cfg enc x x' r HJ Hh HW Ht He Hrun) as (?&Hu&Hv).
  split; [done|]. rewrite Hu, Hv. split; [done|]. unfold in_step, t in Hin. by rewrite Hin.
Qed.
End Actions.

(** ** Witnesses *)

Module demo_upstreams.
Import pki.demo_pki.

#[export] Existing Instances upstream.Upstream_eq_dec tracker.demo_host.host.
#[export] Instance upstream_countable : Countable upstream.Upstream.
Proof.
  refine (inj_countable' (λ u, (upstream.ID u, upstream.Iface u, upstream.Gateway u, upstream.SOCKS u, upstream.DialTimeout u,
      upstream.HandshakeTimeout u, upstream.Table u, upstream.Description u))
    (λ '(a, b, c, d, e, f, g, h), upstream.mkUpstream a b c d e f g h) _). by intros [].
Defined.
#[export] Instance upconfig_eq_dec : EqDecision upstream.Config.
Proof. solve_decision. Defined.
#[export] Instance upconfig_countable : Countable upstream.Config.
Proof.
  refine (inj_countable' (λ c, (upstream.Upstreams c, upstream.Default c, upstream.PerCN c))
    (λ '(a, b, c), upstream.mkConfig a b c) _). by intros [].
Defined.
#[export] Instance vpn_eq_dec : EqDecision ovpnconf.Config.
Proof. solve_decision. Defined.
#[export] Instance vpn_countable : Countable ovpnconf.Config.
Proof.
  refine (inj_countable' (λ c : ovpnconf.Config, let 'ovpnconf.mkConfig a b c d e f g h i j k l m n o p q r s := c in
      (a, b, c, d, e, f, g, h, i, j, (k, l, m, n, o, p, q, r, s)))
    (λ '(a, b, c, d, e, f, g, h, i, j, (k, l, m, n, o, p, q, r, s)),
      ovpnconf.mkConfig a b c d e f g h i j k l m n o p q r s) _). by intros [].
Defined.

#[export] Instance json_up : JsonInto upstream.Config :=
  {| json_marshal c := Ok (to_text c); json_unmarshal s _ := of_text s |}.
Definition json_vpn (s : string) (def : ovpnconf.Config) : ovpnconf.Config :=
  match of_text s with Ok c => c | Err _ => def end.
Definition no_env : string → string := λ _, "".

Lemma text_nonempty {A} `{Countable A} (a : A) : to_text a ≠ "".
Proof. unfold to_text. by destruct (encode a). Qed.

Lemma text_keeps getenv : JsonKeeps getenv json_vpn to_text.
Proof.
  split.
  - intros c enc _ [= <-]. split; [apply text_nonempty|]. apply of_to_text.
  - intros c _. split; [apply text_nonempty|]. unfold json_vpn. by rewrite of_to_text.
Qed.
Lemma demo_keeps : JsonKeeps no_env json_vpn to_text.
Proof. apply text_keeps. Qed.

Definition host : World unit := mkWorld (auth.NewService demo_store) (mkFs {[ "/d/status" := "" ]} []) (mgmt.mkClient tt false [] []).
Definition with_setting (key value : string) (s : Store) : Store :=
  set_tables s (with_settings (tables s) (<[key := value]> (settings (tables s)))).
Definition serve (up : upstream.Config) (vpn : ovpnconf.Config) : Serve unit tracker.demo_host.World :=
  mkServe (set_db host (with_setting "vpn_config" (to_text vpn) (with_setting upstreamConfigKey (to_text up) demo_store)))
    tracker.demo_host.start.
Definition vpn0 (active : bool) : ovpnconf.Config := configapi.set_client_auth active ovpnconf.demo.
Definition up0 : upstream.Config := upstream.mkConfig [upstream.wan; upstream.tor] "" ∅.
Definition up1 : upstream.Config := upstream.mkConfig [upstream.wan; upstream.tor] "" {[ "alice" := "tor" ]}.

Lemma serve_up up vpn : up_of no_env (tables (db (wd (serve up vpn)))) = up.
Proof.
  unfold up_of, read_json, serve. cbn [wd db set_db svc auth.St tables with_setting set_tables settings with_settings].
  rewrite lookup_insert_ne, lookup_insert_eq by done. cbn [default from_option id].
  destruct (String.eqb_spec (to_text up) ""); [by apply text_nonempty in e|]. cbn [json_unmarshal json_up]. by rewrite of_to_text.
Qed.
Lemma serve_vpn up vpn : vpn_of no_env json_vpn (tables (db (wd (serve up vpn)))) = vpn.
Proof.
  unfold vpn_of, ovpnconf.Load, serve. cbn [wd db set_db svc auth.St tables with_setting set_tables settings with_settings].
  rewrite lookup_insert_eq. cbn [default from_option id].
  destruct (String.eqb_spec (to_text vpn) ""); [by apply text_nonempty in e|]. unfold json_vpn. by rewrite of_to_text.
Qed.
Lemma serve_healthy up vpn : healthy (db (wd (serve up vpn))).
Proof. by apply Forall_nil. Qed.
End demo_upstreams.
Import pki.demo_pki demo_upstreams.

(** Alice gets the tor upstream: the flag goes on and server.conf with it. *)
Example AssignUpstream_in_step_witness :
  let x := serve up0 (vpn0 false) in
  ∃ x' r, handleUpstreamAssign no_env json_vpn to_text "/d/status" true "/d/server.conf" "root" "alice" "tor" false x = (x', r) ∧
    up_of no_env (tables (db (wd x'))) = up1 ∧
    ovpnconf.ManagementClientAuth (vpn_of no_env json_vpn (tables (db (wd x')))) = true.
Proof.
  intros x. destruct (handleUpstreamAssign no_env json_vpn to_text "/d/status" true "/d/server.conf" "root" "alice" "tor" false x)
    as [x' r] eqn:E. exists x', r. split; [exact eq_refl|].
  pose proof (AssignUpstream_in_step no_env json_vpn to_text "/d/status" true "/d/server.conf" "root" "alice" "tor" false x x' r
    demo_keeps (serve_healthy _ _)) as H. unfold x in H. rewrite serve_vpn, serve_up in H.
  destruct H as [Hin H]; [by apply Forall_nil|vm_compute; discriminate|reflexivity|reflexivity|reflexivity|reflexivity|reflexivity| |exact E|].
  - unfold in_step. by rewrite serve_vpn, serve_up.
  - assert (upstream.Assign up0 "alice" "tor" false = (up1, None)) as EA by by vm_compute. rewrite EA in H.
    destruct H as [[Hu Hv _] _]. split; [exact Hu|]. rewrite Hv. reflexivity.
Defined.

(** Deleting tor, the upstream only alice had: the flag stays on with no
    client left to answer for. *)
Example flag_left_on :
  let x := serve up1 (vpn0 true) in
  ∃ x' r, handleUpstreamDelete no_env true "root" "tor" x = (x', r) ∧ is_ok r = true ∧
    per_cn_active (up_of no_env (tables (db (wd x')))) = false ∧
    ovpnconf.ManagementClientAuth (vpn_of no_env json_vpn (tables (db (wd x')))) = true.
Proof.
  intros x. destruct (handleUpstreamDelete no_env true "root" "tor" x) as [x' r] eqn:E. exists x', r. split; [exact eq_refl|].
  set (cfg := upstream.mkConfig [upstream.wan] "" ∅).
  assert (upstream.Without (up_of no_env (tables (db (wd x)))) "tor" = (cfg, true)) as HW by (unfold x; rewrite serve_up; by vm_compute).
  assert (in_step no_env json_vpn (tables (db (wd x)))) as Hin by (unfold in_step, x; by rewrite serve_vpn, serve_up).
  assert (per_cn_active (up_of no_env (tables (db (wd x)))) = true) as Ha by (unfold x; rewrite serve_up; reflexivity).
  refine (delete_leaves_flag_on no_env json_vpn to_text "root" "tor" cfg (to_text cfg) x x' r demo_keeps
    (serve_healthy _ _) Hin Ha HW _ _ eq_refl E); reflexivity.
Qed.
End upstreamapi.
