(* ===== verification/Records.v ===== *)
(** * Records: internal DNS records and the log views (internal/api/dns.go, logs.go, handlers.go)

    The generated hosts file, the record list, the user's own hosts file, the
    certificate list and its DNS switch, and the tail of a log. *)

From Stdlib Require Import Ascii.
From stdpp Require Import sorting.
From S2P Require Import Prelude GoStr GoErr GoFs NetIP Names Store StoreUsers Totp Auth Mgmt OvpnConf.
From S2P Require Import Pki World CertApi UserApi ConfigApi.

Module records.
Import store world certapi userapi configapi.

(** ** certs.hosts *)

Definition hostAliases (cn domain : string) : string :=
  match index_byte "." cn with
  | Some i => cn +:+ " " +:+ s_take i cn
  | None => if negb (String.eqb domain "") then cn +:+ "." +:+ domain +:+ " " +:+ cn else cn
  end.

Definition included (certs : list Cert) (cn : string) : bool :=
  existsb (λ c, match RevokedAt c with None => true | Some _ => false end && IncludeDNS c && String.eqb (store.CN c) cn) certs.

Definition client_line (domain : string) (c : mgmt.VPNClient) : string :=
  mgmt.VirtualAddress c +:+ " " +:+ hostAliases (mgmt.CN c) domain +:+ nl.

Definition listed (certs : list Cert) (serverCN : string) (c : mgmt.VPNClient) : bool :=
  negb (String.eqb (mgmt.CN c) serverCN) && negb (String.eqb (mgmt.VirtualAddress c) "") && included certs (mgmt.CN c).

Definition hosts_header : string :=
  "# generated by ovcp — do not edit; regenerated on every cert change and stats tick" +:+ nl.

Definition server_line (serverCN : string) (serverIP : option IP) : string :=
  match serverIP, ParseIP serverCN with
  | Some ip, None => if String.eqb serverCN "" then ""
                     else IP_String ip +:+ " " +:+ hostAliases serverCN (ovpnconf.Domain serverCN) +:+ nl
  | _, _ => ""
  end.

Definition CertsHostsContent (certs : list Cert) (live : list mgmt.VPNClient) (serverCN : string) (serverIP : option IP) : string :=
  let domain := ovpnconf.Domain serverCN in
  let clientLines := merge_sort s_le (client_line domain <$> List.filter (listed certs serverCN) live) in
  hosts_header +:+ server_line serverCN serverIP +:+ concat_s clientLines.

(** ** The record list *)

Record CertRow := mkCertRow {
  rwStatus : string; rwKind : string; rwCN : string; rwSerial : string; rwIssued : Z; rwExpires : Z;
  rwIncludeDNS : bool; rwIP : string }.

Definition NewCertRow (now : Z) (c : Cert) : CertRow :=
  mkCertRow (Status now c) (Kind c) (store.CN c) (Serial c) (IssuedAt c) (NotAfter c) (IncludeDNS c) "".

Definition with_ip (r : CertRow) (ip : string) : CertRow :=
  mkCertRow (rwStatus r) (rwKind r) (rwCN r) (rwSerial r) (rwIssued r) (rwExpires r) (rwIncludeDNS r) ip.

Record RecordList := mkRecords { recCerts : list CertRow; recCustom : string }.

(** The last address listed for a name wins; the server's own wins over all. *)
Definition live_ips (live : list mgmt.VPNClient) (serverCN : string) (serverIP : option IP) : gmap string string :=
  let ip := foldl (λ m c, if String.eqb (mgmt.VirtualAddress c) "" then m else <[mgmt.CN c := mgmt.VirtualAddress c]> m) ∅ live in
  match serverIP with Some a => <[serverCN := IP_String a]> ip | None => ip end.

Definition Records (now : Z) (certs : list Cert) (live : list mgmt.VPNClient) (serverCN : string) (serverIP : option IP)
    (custom : string) : RecordList :=
  let ip := live_ips live serverCN serverIP in
  mkRecords ((λ c, let r := NewCertRow now c in
                   match RevokedAt c with Some _ => r | None => with_ip r (default "" (ip !! store.CN c)) end) <$> certs)
    custom.

(** ** Files *)

(** An unreadable current file counts as different. *)
Definition WriteAtomicHosts (path data : string) : F unit := λ s,
  let '(s1, r) := ReadFile path s in
  if match r with Ok cur => String.eqb cur data | Err _ => false end then (s1, Ok tt)
  else (let tmp := join_path (dir_of path) ("." +:+ base_name path +:+ ".tmp") in
        WriteFile tmp data ;; Rename tmp path) s1.

Section Actions.
  Context {S : Type}.
  Context (getenv : string → string) (unmarshal_config : string → ovpnconf.Config → ovpnconf.Config).
  Context (srv : Server) (DefaultRemote : World S → string).

Definition w_remote : W S string := λ w, (w, Ok (DefaultRemote w)).
Definition load_config : W S ovpnconf.Config := on_db (configapi.LoadConfig getenv unmarshal_config).
Definition ok_or_none {A} (r : result A) : option A := match r with Ok a => Some a | Err _ => None end.

Definition RefreshCertsHosts (live : list mgmt.VPNClient) : W S unit :=
  if String.eqb (CertsHostsPath srv) "" then mret tt else
  certs ← on_db ListCerts;
  cfg ← load_config;
  cn ← w_remote;
  on_disk (WriteAtomicHosts (CertsHostsPath srv)
             (CertsHostsContent certs live cn (ok_or_none (ovpnconf.ServerTunIP cfg)))).

Definition handleRecords : W S RecordList :=
  certs ← w_err (HTTPError 500) (on_db ListCerts);
  live ← w_try (mgmt_status (StatusPath srv));
  cfg ← load_config;
  custom ← w_try (on_disk (ReadFile (CustomHostsPath srv)));
  cn ← w_remote;
  t ← w_now;
  mret (Records t certs (default [] (ok_or_none live)) cn (ok_or_none (ovpnconf.ServerTunIP cfg))
          (default "" (ok_or_none custom))).

Definition SetCustomHosts (actor path content : string) : W S Msg :=
  cur ← w_try (on_disk (ReadFile path));
  if String.eqb (default "" (ok_or_none cur)) content then mret (mkMsg "no change" false) else
  on_disk (WriteAtomicHosts path content) ;;
  world.audit actor "dns_custom_change" "" ;;
  mret (mkMsg "saved" true).

Definition handleCustomHostsPut (actor content : string) : W S Msg := SetCustomHosts actor (CustomHostsPath srv) content.

Definition handleCustomHostsPreview (content : string) : W S Preview :=
  cur ← w_try (on_disk (ReadFile (CustomHostsPath srv)));
  match cur with
  | Err e => if negb (is_not_exist e) then w_fail (HTTPError 500 e)
             else let diff := ovpnconf.Diff "" content in mret (mkPreview diff (0 <? length diff)%nat "")
  | Ok c => let diff := ovpnconf.Diff c content in mret (mkPreview diff (0 <? length diff)%nat "")
  end.

(** ** Certificates *)

Definition handleCertList : W S (list CertRow) :=
  certs ← w_err (HTTPError 500) (on_db ListCerts);
  t ← w_now;
  mret (NewCertRow t <$> certs).

Definition SetCertDNS (actor serial : string) (include : bool) : M Msg :=
  let op := if include then "include" else "exclude" in
  '(cn, changed) ← store.SetCertDNS serial include;
  if negb changed then mret (mkMsg (cn +:+ " is already " +:+ op +:+ "d") false) else
  userapi.audit actor ("cert_dns_" +:+ op) ("cn=" +:+ cn +:+ " serial=" +:+ serial) ;;
  mret (mkMsg (op +:+ "d: " +:+ cn) true).

Definition handleCertDNS (actor serial : string) (include : bool) : M Msg := SetCertDNS actor serial include.

(** The file's name and its bytes. *)
Definition handleCertDownload (serial : string) : W S (string * string) :=
  c ← w_err (λ _, http_fail 404 "certificate not found") (on_db (GetCert serial));
  mret (store.CN c +:+ ".crt", CertPEM c).
End Actions.

(** ** Logs *)

Definition tailMaxBytes : nat := 256 * 1024.
Definition tailLineLimit : nat := 200.

Definition lastn {A} (n : nat) (l : list A) : list A := drop (length l - n) l.

(** A missing file has no lines. The scanner's limit is a mebibyte a line,
    which the last quarter of one cannot exceed. *)
Definition tailLines (path : string) (n : nat) : F (list string) := λ s,
  let '(s1, r) := ReadFile path s in
  (s1, match r with
       | Err e => if is_not_exist e then Ok [] else Err e
       | Ok data =>
           let data := s_drop (slen data - tailMaxBytes) data in
           Ok (lastn n (scan_lines (1024 * 1024) data))
       end).

Definition logHandler (dataDir filename : string) : F (list string) := λ s,
  match tailLines (join_path (join_path dataDir "logs") filename) tailLineLimit s with
  | (s', Err e) => (s', Err (HTTPError 500 e))
  | ok => ok
  end.

(** A file name for a response header. *)
Definition safe_rune (r : Z) : bool :=
  ((97 <=? r) && (r <=? 122)) || ((65 <=? r) && (r <=? 90)) || ((48 <=? r) && (r <=? 57)) || (r =? 46) || (r =? 45) || (r =? 95).
Definition sanitizeFilename (s : string) : string :=
  concat_s ((λ p : Z * string, if safe_rune p.1 then p.2 else "-") <$> runes s).
End records.
