(* ===== verification/Sampler.v ===== *)
(** * Sampler: the periodic tick (internal/api/stats.go)

    Which sessions are alive, which have ended since the last tick, and what
    the tick writes: the hosts file, the finished sessions, the samples. *)

From S2P Require Import Prelude GoStr GoErr GoFs NetIP Names Store StoreUsers StoreStats Totp Auth Mgmt.
From S2P Require Import OvpnConf Pki World CertApi UserApi ConfigApi Upstream UpstreamApi Records.

Module sampler.
Import store stats world certapi configapi records.

(** One connection: a name and the second it connected. *)
Definition session : Type := string * Z.
Definition session_of (c : mgmt.VPNClient) : session := (mgmt.CN c, unix (mgmt.ConnectedSince c)).

(** The last client listed for a session wins. *)
Definition live_of (cur : list mgmt.VPNClient) : gmap session mgmt.VPNClient :=
  foldl (λ m c, <[session_of c := c]> m) ∅ cur.

Definition ended (now : Z) (was : mgmt.VPNClient) : ClientSession :=
  mkClientSession 0 (mgmt.CN was) (mgmt.RealAddress was) (mgmt.ConnectedSince was) now
    (mgmt.BytesRecv was) (mgmt.BytesSent was).

(** The sessions of the last tick no longer there, in the map's own order; Go
    leaves it open. *)
Definition gone (prev live : gmap session mgmt.VPNClient) : list mgmt.VPNClient :=
  (filter (λ p, live !! p.1 = None) (map_to_list prev)).*2.

(** Every element in turn, errors only logged. *)
Fixpoint each {S A B} (f : A → W S B) (l : list A) : W S unit :=
  match l with [] => mret tt | a :: l' => w_ignore (f a) ;; each f l' end.

Section Tick.
  Context {S : Type} `{mgmt.Server S} `{!JsonInto upstream.Config} `{!JsonInto StatsConfig}.
  Context (getenv : string → string) (unmarshal_config : string → ovpnconf.Config → ovpnconf.Config).
  Context (srv : Server) (DefaultRemote : World S → string).

Definition mgmt_connect : W S unit := λ w,
  let '(c, e) := mgmt.Connect (conn w) in (mkWorld (svc w) (disk w) c, of_error e).

(** What a tick with [cur] alive writes. *)
Definition record_tick (sampleStats : bool) (retention : Z) (prev : gmap session mgmt.VPNClient)
    (cur : list mgmt.VPNClient) : W S (gmap session mgmt.VPNClient) :=
  w_ignore (RefreshCertsHosts getenv unmarshal_config srv DefaultRemote cur) ;;
  now ← w_now;
  let live := live_of cur in
  each (λ was, on_db (EndSession (ended now was))) (gone prev live) ;;
  if negb sampleStats then mret live else
  each (λ c, on_db (AddClientSample now (mgmt.CN c) (mgmt.BytesRecv c) (mgmt.BytesSent c))) cur ;;
  w_ignore (on_db (PruneStats (now - retention))) ;;
  mret live.

(** [pid]: the tunnel's process, 0 when it is not running. *)
Definition samplerTick (pid : Z) (upstreams sampleStats : bool) (retention : Z) (prev : gmap session mgmt.VPNClient) :
    W S (gmap session mgmt.VPNClient) :=
  if pid =? 0 then mret prev else
  active ← on_db (upstreamapi.UpstreamAuthActive getenv);
  (if upstreams && active then w_ignore mgmt_connect else mret tt) ;;
  cur ← w_try (mgmt_status (StatusPath srv));
  match cur with
  | Err _ => mret prev
  | Ok cur => record_tick sampleStats retention prev cur
  end.

(** How many ticks make a sample, and whether this one does. *)
Definition ticksPerSample (cfg : StatsConfig) (poll : Z) : Z := Z.max 1 (Z.quot (SampleInterval cfg) poll).
Definition samples_now (cfg : StatsConfig) (poll tick : Z) : bool := Z.rem tick (ticksPerSample cfg poll) =? 0.

(** One round of [RunSampler]'s loop. *)
Definition sampler_round (poll pid tick : Z) (upstreams : bool) (prev : gmap session mgmt.VPNClient) :
    W S (gmap session mgmt.VPNClient) :=
  cfg ← on_db (LoadStatsConfig getenv);
  samplerTick pid upstreams (samples_now cfg poll tick) (Retention cfg) prev.

(** ** Reading the history *)

Record StatsSnapshot := mkSnapshot { snSamples : list Sample; snSessions : list ClientSession }.

Definition Stats (cn : string) : M StatsSnapshot :=
  cfg ← LoadStatsConfig getenv;
  t ← now;
  let since := t - Retention cfg in
  samples ← (if negb (String.eqb cn "") then ClientSamples cn since else Samples since);
  sessions ← Sessions 200;
  mret (mkSnapshot samples (List.filter (λ x, String.eqb cn "" || String.eqb (stats.CN x) cn) sessions)).

Definition handleStats (cn : string) : M StatsSnapshot :=
  if (Names.MaxCNLen <? slen cn)%nat then store.fail (http_fail 400 "cn too long") else Stats cn.
End Tick.

(** ** The map of live sessions *)

(** Every client is filed under its own session. *)
Definition keyed (m : gmap session mgmt.VPNClient) : Prop := ∀ k c, m !! k = Some c → session_of c = k.

Lemma live_fold_keyed (cur : list mgmt.VPNClient) (m : gmap session mgmt.VPNClient) : keyed m → keyed (foldl (λ m c, <[session_of c := c]> m) m cur).
Proof.
  revert m. induction cur as [|c cur IH]; intros m Hm; [done|]. apply IH. intros k d.
  rewrite lookup_insert_Some. intros [[<- <-]|[_ Hd]]; [done|by apply Hm].
Qed.

Lemma live_of_keyed (cur : list mgmt.VPNClient) : keyed (live_of cur).
Proof. apply live_fold_keyed. intros k c. by rewrite lookup_empty. Qed.

Lemma live_fold_lookup (cur : list mgmt.VPNClient) (m : gmap session mgmt.VPNClient) k : is_Some (foldl (λ m c, <[session_of c := c]> m) m cur !! k) ↔
  is_Some (m !! k) ∨ k ∈ session_of <$> cur.
Proof.
  revert m. induction cur as [|c cur IH]; intros m; cbn [foldl fmap list_fmap].
  - rewrite elem_of_nil. naive_solver.
  - rewrite IH, lookup_insert_is_Some, elem_of_cons. destruct (decide (session_of c = k)); naive_solver.
Qed.

(** A session is live when some client listed has it. *)
Lemma live_of_lookup (cur : list mgmt.VPNClient) k : is_Some (live_of cur !! k) ↔ k ∈ session_of <$> cur.
Proof. unfold live_of. rewrite live_fold_lookup, lookup_empty. split; [intros [[? [=]]|]|]; auto. Qed.

Lemma gone_spec (prev live : gmap session mgmt.VPNClient) c : keyed prev → c ∈ gone prev live ↔ prev !! session_of c = Some c ∧ live !! session_of c = None.
Proof.
  intros Hk. unfold gone. rewrite list_elem_of_fmap. split.
  - intros ([k d]&->&[Hl Hin]%list_elem_of_filter). apply elem_of_map_to_list in Hin. simpl in *. by rewrite (Hk _ _ Hin).
  - intros [Hp Hl]. exists (session_of c, c). split; [done|]. apply list_elem_of_filter. split; [done|]. by apply elem_of_map_to_list.
Qed.

(** No session is in the list twice. *)
Lemma gone_NoDup (prev live : gmap session mgmt.VPNClient) : keyed prev → NoDup (session_of <$> gone prev live).
Proof.
  intros Hk. unfold gone. rewrite <- list_fmap_compose.
  assert (session_of ∘ snd <$> filter (λ p, live !! p.1 = None) (map_to_list prev) =
          fst <$> filter (λ p, live !! p.1 = None) (map_to_list prev)) as ->.
  { apply list_fmap_ext. intros j [k c] Hin%list_elem_of_lookup_2. apply list_elem_of_filter in Hin as [_ Hin%elem_of_map_to_list].
    by apply Hk. }
  assert (NoDup (map_to_list prev).*1) as Hnd by apply NoDup_fst_map_to_list.
  induction (map_to_list prev) as [|p l IH]; [constructor|]. cbn [fmap list_fmap] in Hnd. apply NoDup_cons in Hnd as [Hn Hnd].
  rewrite filter_cons. case_decide; [|by apply IH]. cbn [fmap list_fmap]. apply NoDup_cons. split; [|by apply IH].
  intros Hin. apply Hn. rewrite list_elem_of_fmap in Hin |- *. destruct Hin as (q&->&Hq%list_elem_of_filter). exists q. naive_solver.
Qed.
(** ** What a tick writes *)

(** A row of the finished sessions, but for its number. *)
Definition ended_data (r : EndedRow) : string * string * Z * Z * Z * Z :=
  (e_cn r, e_addr r, e_connected r, e_disconnected r, e_recv r, e_sent r).
Definition ended_row (now : Z) (c : mgmt.VPNClient) : string * string * Z * Z * Z * Z :=
  (mgmt.CN c, mgmt.RealAddress c, unix (mgmt.ConnectedSince c), unix now, mgmt.BytesRecv c, mgmt.BytesSent c).

(** The counters database/sql takes. *)
Definition fits (c : mgmt.VPNClient) : bool := (mgmt.BytesRecv c <? 2 ^ 63) && (mgmt.BytesSent c <? 2 ^ 63).

Lemma fits_sql c : fits c = true → (sql_uint64 (mgmt.BytesRecv c);; sql_uint64 (mgmt.BytesSent c)) = Ok tt.
Proof. unfold fits, sql_uint64, guard_ok. by intros [-> ->]%andb_true_iff. Qed.

(** A run of statements over a list, none of which fails. *)
Lemma each_healthy {S B} (f : mgmt.VPNClient → M B) (g : Tables → mgmt.VPNClient → Tables) l (w : World S) :
  (∀ c s, c ∈ l → healthy s → ∃ s' r, f c s = (s', r) ∧ tables s' = g (tables s) c ∧ same_env s s' ∧ healthy s') →
  healthy (db w) →
  ∃ w', each (λ c, on_db (f c)) l w = (w', Ok tt) ∧ tables (db w') = foldl g (tables (db w)) l ∧
    clock (db w') = clock (db w) ∧ healthy (db w').
Proof.
  intros Hf. revert w. induction l as [|c l IH]; intros w Hh; [by exists w|].
  destruct (Hf c (db w) ltac:(left) Hh) as (s'&r&E&T&[]&Hh').
  destruct (IH ltac:(intros; apply Hf; [by right|done]) (set_db w s') Hh') as (w'&Hw&Ht&Hc&?).
  exists w'. cbn [foldl]. rewrite Ht, Hc. cbn. rewrite T. split_and!; [|done..].
  change (each (λ c, on_db (f c)) l ((on_db (f c) w).1) = (w', Ok tt)).
  assert ((on_db (f c) w).1 = set_db w s') as -> by (unfold on_db; by rewrite E). done.
Qed.

(** One finished session recorded, and one reading. *)
Definition push_ended (now : Z) (t : Tables) (c : mgmt.VPNClient) : Tables :=
  with_ended t (client_sessions t ++ [mkEndedRow (next_id (e_id <$> client_sessions t)) (mgmt.CN c)
    (mgmt.RealAddress c) (unix (mgmt.ConnectedSince c)) (unix now) (mgmt.BytesRecv c) (mgmt.BytesSent c)]).
Definition push_sample (now : Z) (t : Tables) (c : mgmt.VPNClient) : Tables :=
  with_samples t (<[(unix now, mgmt.CN c) := (mgmt.BytesRecv c, mgmt.BytesSent c)]> (client_samples t)).

Lemma ended_fold now l t :
  foldl (push_ended now) t l = with_ended t (client_sessions (foldl (push_ended now) t l)) ∧
  ended_data <$> client_sessions (foldl (push_ended now) t l) = (ended_data <$> client_sessions t) ++ (ended_row now <$> l).
Proof.
  revert t. induction l as [|c l IH]; intros t; cbn [foldl]; [by rewrite app_nil_r; destruct t|].
  destruct (IH (push_ended now t c)) as [-> ->]. cbn. split; [done|]. by rewrite fmap_app, <- app_assoc.
Qed.

Lemma ended_fold_new now l t : ∃ new, foldl (push_ended now) t l = with_ended t (client_sessions t ++ new) ∧
  ended_data <$> new = ended_row now <$> l.
Proof.
  destruct (ended_fold now l t) as [Hef Hed].
  assert (∃ new, client_sessions (foldl (push_ended now) t l) = client_sessions t ++ new) as [new Hnew].
  { clear. revert t. induction l as [|c l IH]; intros t; cbn [foldl]; [exists []; by rewrite app_nil_r|].
    destruct (IH (push_ended now t c)) as [new ->]. cbn. rewrite <- app_assoc. by eexists. }
  exists new. rewrite Hef, Hnew. split; [done|]. rewrite Hnew, fmap_app in Hed. by apply app_inv_head in Hed.
Qed.

Definition read_all (now : Z) (m : gmap (Z * string) (Z * Z)) (l : list mgmt.VPNClient) : gmap (Z * string) (Z * Z) :=
  foldl (λ m c, <[(unix now, mgmt.CN c) := (mgmt.BytesRecv c, mgmt.BytesSent c)]> m) m l.

Lemma sample_fold now l t : foldl (push_sample now) t l = with_samples t (read_all now (client_samples t) l).
Proof.
  revert t. induction l as [|c l IH]; intros t; cbn [foldl]; [by destruct t|]. by rewrite (IH (push_sample now t c)).
Qed.

Lemma EndSession_healthy now c s : fits c = true → healthy s →
  ∃ s' r, EndSession (ended now c) s = (s', r) ∧ tables s' = push_ended now (tables s) c ∧ same_env s s' ∧ healthy s'.
Proof.
  intros Hf Hh. unfold EndSession. cbn [sRecv sSent ended]. rewrite (fits_sql c Hf).
  destruct (exec_healthy (λ t, (push_ended now t c, tt)) s Hh) as (s'&E&T&He&Hh'). eauto 10.
Qed.

Lemma AddClientSample_healthy now c s : fits c = true → healthy s →
  ∃ s' r, AddClientSample now (mgmt.CN c) (mgmt.BytesRecv c) (mgmt.BytesSent c) s = (s', r) ∧
    tables s' = push_sample now (tables s) c ∧ same_env s s' ∧ healthy s'.
Proof.
  intros Hf Hh. unfold AddClientSample. rewrite (fits_sql c Hf).
  destruct (exec_healthy (λ t, (push_sample now t c, tt)) s Hh) as (s'&E&T&He&Hh'). eauto 10.
Qed.

Lemma PruneStats_healthy before s : healthy s →
  ∃ s' r, PruneStats before s = (s', r) ∧ same_env s s' ∧
    tables s' = with_ended (with_samples (tables s) (filter (λ r : row, (r.1.1 <? unix before) = false) (client_samples (tables s))))
                  (filter (λ r, (e_disconnected r <? unix before) = false) (client_sessions (tables s))).
Proof.
  intros Hh. unfold PruneStats.
  destruct (exec_healthy (λ t, (with_samples t (filter (λ r : row, (r.1.1 <? unix before) = false) (client_samples t)), tt)) s Hh)
    as (s1&E1&T1&He1&Hh1). unfold mbind, M_bind. rewrite E1.
  destruct (exec_healthy (λ t, (with_ended t (filter (λ r, (e_disconnected r <? unix before) = false) (client_sessions t)), tt)) s1 Hh1)
    as (s2&E2&T2&He2&Hh2). exists s2, (Ok tt). rewrite E2, T2, T1. split_and!; [done|by etrans|done].
Qed.

(** What a client's counters were last listed as. *)
Definition reading (cn : string) (cur : list mgmt.VPNClient) : option (Z * Z) :=
  foldl (λ acc c, if String.eqb (mgmt.CN c) cn then Some (mgmt.BytesRecv c, mgmt.BytesSent c) else acc) None cur.

Lemma reading_snoc cn cur c : reading cn (cur ++ [c]) =
  if String.eqb (mgmt.CN c) cn then Some (mgmt.BytesRecv c, mgmt.BytesSent c) else reading cn cur.
Proof. unfold reading. by rewrite foldl_app. Qed.

Lemma read_all_lookup now cur m ts cn :
  read_all now m cur !! (ts, cn) =
  if decide (ts = unix now) then match reading cn cur with Some v => Some v | None => m !! (ts, cn) end
  else m !! (ts, cn).
Proof.
  induction cur as [|c cur IH] using rev_ind; [cbn; by case_decide|].
  unfold read_all. rewrite foldl_app, reading_snoc. cbn [foldl].
  destruct (decide ((unix now, mgmt.CN c) = (ts, cn))) as [[= <- <-]|Hne].
  - rewrite lookup_insert_eq, decide_True, String.eqb_refl by done. done.
  - rewrite lookup_insert_ne by done. fold (read_all now m cur). rewrite IH. case_decide as Hts; [|done].
    destruct (String.eqb_spec (mgmt.CN c) cn) as [E|]; [|done]. by subst.
Qed.

Lemma read_all_or now cur m ts cn : read_all now m cur !! (ts, cn) =
  match (if decide (ts = unix now) then reading cn cur else None) with Some v => Some v | None => m !! (ts, cn) end.
Proof. rewrite read_all_lookup. by case_decide. Qed.

Lemma filter_keeps {A} (P : A → Prop) `{∀ x, Decision (P x)} (l : list A) : (∀ x, x ∈ l → P x) → filter P l = l.
Proof.
  induction l as [|x l IH]; intros Hl; [done|]. rewrite filter_cons_True by (apply Hl; by left).
  f_equal. apply IH. intros y Hy. apply Hl. by right.
Qed.

Section Correct.
  Context {S : Type} `{mgmt.Server S} `{!JsonInto upstream.Config} `{!JsonInto StatsConfig}.
  Context (getenv : string → string) (unmarshal_config : string → ovpnconf.Config → ovpnconf.Config).
  Context (srv : Server) (DefaultRemote : World S → string).

#[local] Hint Resolve frame_query_calm frame_disk_calm frame_LoadJSON_calm : worlds.

Lemma frame_refresh cur : frame (@calm S) (RefreshCertsHosts getenv unmarshal_config srv DefaultRemote cur).
Proof.
  unfold RefreshCertsHosts. apply frame_if; [eauto with worlds|].
  apply frame_bind; [typeclasses eauto|apply frame_query_calm|intros certs].
  apply frame_bind; [typeclasses eauto| |intros cfg].
  - intros w. unfold load_config, on_db, calm, configapi.LoadConfig. destruct (GetSetting "vpn_config" (db w)) as [s r] eqn:E.
    apply query_inv in E as ([]&?&?&_). done.
  - apply frame_bind; [typeclasses eauto|intros w; by unfold calm|intros cn; apply frame_disk_calm].
Qed.

(** The readings and the pruning of a sampling tick. *)
Lemma sampling_run retention cur (w : World S) {A} (a : A) : healthy (db w) → forallb fits cur = true →
  let now := clock (db w) in let t := foldl (push_sample now) (tables (db w)) cur in
  ∃ w', (each (λ c, on_db (AddClientSample now (mgmt.CN c) (mgmt.BytesRecv c) (mgmt.BytesSent c))) cur ;;
         w_ignore (on_db (PruneStats (now - retention))) ;; mret a) w = (w', Ok a) ∧
    tables (db w') = with_ended (with_samples t (filter (λ r : row, (r.1.1 <? unix (now - retention)) = false) (client_samples t)))
      (filter (λ r, (e_disconnected r <? unix (now - retention)) = false) (client_sessions t)).
Proof.
  intros Hh Hfit now t.
  destruct (each_healthy (λ c, AddClientSample now (mgmt.CN c) (mgmt.BytesRecv c) (mgmt.BytesSent c)) (push_sample now) cur w)
    as (w1&E1&T1&_&H1); [|done|].
  { intros c s Hc. apply AddClientSample_healthy. rewrite forallb_forall in Hfit. apply Hfit. by apply list_elem_of_In. }
  destruct (PruneStats_healthy (now - retention) (db w1) H1) as (s2&r2&E2&_&T2).
  exists (set_db w1 s2). unfold mbind, W_bind. rewrite E1. unfold w_ignore, on_db. rewrite E2. split; [done|].
  cbn. by rewrite T2, T1.
Qed.

(** What a tick that finds [cur] alive leaves. *)
Lemma record_tick_run sample retention prev cur (w : World S) :
  healthy (db w) → forallb fits (gone prev (live_of cur)) = true → (sample = true → forallb fits cur = true) →
  let now := clock (db w) in let t := tables (db w) in
  ∃ w' new, record_tick getenv unmarshal_config srv DefaultRemote sample retention prev cur w = (w', Ok (live_of cur)) ∧
    ended_data <$> new = ended_row now <$> gone prev (live_of cur) ∧
    tables (db w') =
      if sample then
        with_ended (with_samples t (filter (λ r : row, (r.1.1 <? unix (now - retention)) = false)
                                       (read_all now (client_samples t) cur)))
          (filter (λ r, (e_disconnected r <? unix (now - retention)) = false) (client_sessions t ++ new))
      else with_ended t (client_sessions t ++ new).
Proof.
  intros Hh Hgone Hcur now t. unfold record_tick.
  pose proof (frame_refresh cur w) as (Ht1&Hc1&Hh1). specialize (Hh1 Hh).
  destruct (RefreshCertsHosts getenv unmarshal_config srv DefaultRemote cur w) as [w1 r1] eqn:E1. cbn [fst] in *.
  destruct (each_healthy (λ was, EndSession (ended now was)) (push_ended now) (gone prev (live_of cur)) w1) as (w2&E2&T2&C2&H2); [|done|].
  { intros c s Hc. apply EndSession_healthy. rewrite forallb_forall in Hgone. apply Hgone. by apply list_elem_of_In. }
  destruct (ended_fold_new now (gone prev (live_of cur)) t) as (new&Hnew&Hdata).
  rewrite Ht1 in T2. fold t in T2. rewrite Hnew in T2.
  assert (Hrun : ∀ k : Z → W S (gmap session mgmt.VPNClient),
    (w_ignore (RefreshCertsHosts getenv unmarshal_config srv DefaultRemote cur) ;;
     now ← w_now; each (λ was, on_db (EndSession (ended now was))) (gone prev (live_of cur)) ;; k now) w = k now w2).
  { intros k. unfold mbind, W_bind, w_ignore, w_now. rewrite E1. cbn [fst]. rewrite Hc1. fold now. by rewrite E2. }
  rewrite Hrun. destruct sample; cbn [negb].
  - destruct (sampling_run retention cur w2 (live_of cur) H2 (Hcur eq_refl)) as (w3&E3&T3).
    rewrite C2, Hc1 in E3, T3. fold now in E3, T3. exists w3, new. rewrite E3. split_and!; [done..|].
    by rewrite T3, T2, sample_fold.
  - exists w2, new. done.
Qed.

(** What the tick finds alive; nothing to go on while the tunnel is down or
    its status file cannot be read. *)
Definition seen (pid : Z) (w : World S) : option (list mgmt.VPNClient) :=
  if pid =? 0 then None else ok_or_none (mgmt.Status (ReadFile (StatusPath srv) (disk w)).2).

Lemma samplerTick_run pid upstreams sample retention prev (w : World S) : healthy (db w) →
  ∃ w1, calm w w1 ∧
    samplerTick getenv unmarshal_config srv DefaultRemote pid upstreams sample retention prev w =
    match seen pid w with
    | None => (w1, Ok prev)
    | Some cur => record_tick getenv unmarshal_config srv DefaultRemote sample retention prev cur w1
    end.
Proof.
  intros Hh. unfold samplerTick, seen. destruct (pid =? 0); [exists w; done|].
  destruct (LoadJSON_Ok upstreamapi.upstreamConfigKey (upstreamapi.DefaultUpstreamConfig getenv) (db w)) as [cfg Hcfg].
  pose proof (frame_LoadJSON_calm upstreamapi.upstreamConfigKey (upstreamapi.DefaultUpstreamConfig getenv) w) as Hcalm.
  set (wa := (on_db (upstreamapi.UpstreamAuthActive getenv) w).1).
  assert (on_db (upstreamapi.UpstreamAuthActive getenv) w = (wa, Ok (upstreamapi.per_cn_active cfg)) ∧ calm w wa ∧ disk wa = disk w)
    as (Ea&Hca&Hda).
  { subst wa. unfold on_db, upstreamapi.UpstreamAuthActive, upstreamapi.LoadUpstreamConfig, mbind, M_bind in *.
    destruct (LoadJSON upstreamapi.upstreamConfigKey (upstreamapi.DefaultUpstreamConfig getenv) (db w)) as [s0 r0].
    cbn in Hcfg |- *. subst r0. cbn. split_and!; done. }
  unfold mbind at 1, W_bind at 1. rewrite Ea. set (active := upstreamapi.per_cn_active cfg).
  set (wb := if upstreams && active then (mgmt_connect wa).1 else wa).
  assert (Hb : calm wa wb ∧ disk wb = disk wa).
  { subst wb. destruct (upstreams && active); [|done]. unfold mgmt_connect. by destruct (mgmt.Connect (conn wa)). }
  assert (Hrun : ∀ k : W S (gmap session mgmt.VPNClient),
    ((if upstreams && active then w_ignore mgmt_connect else mret tt) ;; k) wa = k wb).
  { intros k. subst wb. by destruct (upstreams && active). }
  rewrite Hrun. unfold mbind at 1, W_bind at 1, w_try, mgmt_status.
  destruct Hb as [Hcb Hdb]. rewrite Hdb, Hda. destruct (ReadFile (StatusPath srv) (disk w)) as [f rf]. cbn [fst snd].
  exists (mkWorld (svc wb) f (conn wb)). split; [by transitivity wa; [|transitivity wb]|].
  by destruct (mgmt.Status rf).
Qed.

(** C35: A tick of the sampler, on a database in order. While the tunnel is down
    or the status file unreadable it changes nothing and keeps what it knew.
    Otherwise it knows exactly the sessions listed; every session it knew that
    is gone is written once, ended now, with its last counters; a sampling tick
    also writes the latest reading of every client under the current second and
    drops what is older than the retention, nothing else; and no other table
    changes. *)
Theorem samplerTick_correct pid upstreams sample retention prev (w w' : World S) r :
  healthy (db w) → keyed prev →
  samplerTick getenv unmarshal_config srv DefaultRemote pid upstreams sample retention prev w = (w', r) →
  let now := clock (db w) in let t := tables (db w) in let t' := tables (db w') in
  match seen pid w with
  | None => r = Ok prev ∧ t' = t
  | Some cur =>
      forallb fits (gone prev (live_of cur)) = true → (sample = true → forallb fits cur = true) → 0 ≤ retention →
      r = Ok (live_of cur) ∧ keyed (live_of cur) ∧ (∀ k, is_Some (live_of cur !! k) ↔ k ∈ session_of <$> cur) ∧
      (∃ new, client_sessions t' =
          (if sample then filter (λ r, unix (now - retention) ≤ e_disconnected r) (client_sessions t) else client_sessions t) ++ new ∧
        ended_data <$> new = ended_row now <$> gone prev (live_of cur)) ∧
      NoDup (session_of <$> gone prev (live_of cur)) ∧
      (∀ c, c ∈ gone prev (live_of cur) ↔ prev !! session_of c = Some c ∧ session_of c ∉ session_of <$> cur) ∧
      (∀ ts cn, client_samples t' !! (ts, cn) =
        if sample then
          if decide (ts < unix (now - retention)) then None
          else match (if decide (ts = unix now) then reading cn cur else None) with
               | Some v => Some v | None => client_samples t !! (ts, cn) end
        else client_samples t !! (ts, cn)) ∧
      t' = with_ended (with_samples t (client_samples t')) (client_sessions t')
  end.
Proof.
  intros Hh Hk Hrun now t t'. destruct (samplerTick_run pid upstreams sample retention prev w Hh) as (w1&(Ht&Hc&Hh1)&E).
  rewrite E in Hrun. destruct (seen pid w) as [cur|]; [|by injection Hrun as <- <-].
  intros Hgone Hcur Hret.
  destruct (record_tick_run sample retention prev cur w1 (Hh1 Hh) Hgone Hcur) as (w2&new&E2&Hdata&T2).
  rewrite E2 in Hrun. injection Hrun as <- <-. rewrite Ht, Hc in T2. rewrite Hc in Hdata. fold now t in T2, Hdata.
  split_and!; [done|apply live_of_keyed|intros; apply live_of_lookup| |by apply gone_NoDup| | |].
  - exists new. split; [|done]. subst t'. rewrite T2. destruct sample; [|done]. cbn.
    rewrite filter_app. f_equal; [by apply list_filter_iff; intros; rewrite Z.ltb_ge|].
    apply filter_keeps. intros x Hx. apply (list_elem_of_fmap_2 ended_data) in Hx. rewrite Hdata in Hx.
    apply list_elem_of_fmap in Hx as (c&Hx&_). unfold ended_data, ended_row in Hx. injection Hx as _ _ _ -> _ _.
    apply Z.ltb_ge. unfold unix. apply Z.div_le_mono; [done|lia].
  - intros c. rewrite gone_spec by done. rewrite <- live_of_lookup, eq_None_not_Some. done.
  - intros ts cn. subst t'. rewrite T2. destruct sample; [|done]. cbn.
    rewrite <- (read_all_or now cur (client_samples t) ts cn). case_decide as Hold.
    + apply map_lookup_filter_None_2. right. intros x _. simpl. by rewrite (proj2 (Z.ltb_lt _ _) Hold).
    + apply option_eq. intros v. rewrite map_lookup_filter_Some. simpl. rewrite Z.ltb_ge. naive_solver lia.
  - subst t'. rewrite T2. by destruct sample.
Qed.
End Correct.
(** ** Witnesses *)

Module demo_sampler.
Definition plain_json {A} : JsonInto A := {| json_marshal _ := Ok "{}"; json_unmarshal _ def := Ok def |}.
Definition carol : mgmt.VPNClient :=
  mgmt.mkVPNClient "2" "carol" "203.0.113.7:40" "10.8.0.4" 500 600 (1690000000 * second) "AES-256-GCM".
Definition a_srv : Server := mkServer "/d/pki" "/d/tc.key" "/d/s.crt" "/d/s.key" "/d/server.conf" "/d/certs.hosts" "/d/custom.hosts" "/d/status" "/d".
Definition tick_world : World unit :=
  mkWorld (auth.NewService demo_store)
    (mkFs {[ "/d/status" := mgmt.status_file mgmt.demo_entries ]} []) (mgmt.mkClient tt false [] []).
Definition known : gmap session mgmt.VPNClient := live_of [mgmt.alice; carol].
Definition demo_tick := @samplerTick unit mgmt.demo_server plain_json (λ _, "") (λ _ c, c) a_srv (λ _, "vpn.example.org")
  42 true true (3600 * second) known tick_world.
End demo_sampler.
Import demo_sampler.

(** Of alice and carol, carol left and bob arrived. *)
Example samplerTick_correct_witness :
  demo_tick.2 = Ok (live_of [mgmt.alice; mgmt.bob]) ∧
  (∃ new, client_sessions (tables (db demo_tick.1)) = new ∧ ended_data <$> new = [ended_row (300 * second) carol]) ∧
  client_samples (tables (db demo_tick.1)) !! (300, "bob") = Some (0, 7).
Proof.
  destruct demo_tick as [w' r] eqn:E.
  pose proof (@samplerTick_correct unit mgmt.demo_server plain_json (λ _, "") (λ _ c, c) a_srv (λ _, "vpn.example.org")
    42 true true (3600 * second) known tick_world w' r demo_healthy (live_of_keyed _) E) as H.
  assert (seen a_srv 42 tick_world = Some [mgmt.alice; mgmt.bob]) as Hs by by vm_compute.
  rewrite Hs in H. destruct H as (Hr&_&_&(new&Hnew&Hd)&_&_&Hsm&_); [by vm_compute|by intros _|done|].
  cbn [fst snd]. split; [done|]. split.
  - exists new. split; [by rewrite Hnew|]. rewrite Hd. by vm_compute.
  - rewrite (Hsm 300 "bob"). by vm_compute.
Defined.

(** A retention of 2,562,048 hours or more overflows the duration: a sampling
    tick then prunes everything, what it has just written included. *)
Example retention_overflows : Retention (mkStatsConfig 60 2562047) = 2562047 * hour ∧ Retention (mkStatsConfig 60 2562048) < 0.
Proof. by vm_compute. Qed.
End sampler.
