(* ===== verification/Backup.v ===== *)
(** * Backup: encrypted export and import of the state (internal/backup/backup.go)

    Which files an archive holds, how it is sealed, and what a restore writes.
    Tar, gzip and SQLite's snapshot are interfaces. *)

From Stdlib Require Import Ascii.
From S2P Require Import Prelude GoStr GoErr GoFs Store StoreUsers Totp Auth Mgmt Pki World LogRotate.

Module backup.
Import store world.

(** ** Paths *)

(** [filepath.Clean] of a relative or absolute slash path: elements are
    dropped or cancelled in order; [st] is the result so far, reversed. *)
Definition clean_step (rooted : bool) (st : list string) (x : string) : list string :=
  if String.eqb x "" || String.eqb x "." then st
  else if String.eqb x ".." then
    match st with
    | [] => if rooted then [] else [".."]
    | top :: st' => if String.eqb top ".." then ".." :: st else st'
    end
  else x :: st.

Definition IsAbs (path : string) : bool := match path with String "/" _ => true | _ => false end.

Definition clean_elems (path : string) : list string := rev (foldl (clean_step (IsAbs path)) [] (split "/" path)).

Definition Clean (path : string) : string :=
  match clean_elems path with
  | [] => if IsAbs path then "/" else "."
  | es => (if IsAbs path then "/" else "") +:+ join "/" es
  end.

(** [filepath.Join] of two parts: cleaned, an empty one left out. *)
Definition Join (a b : string) : string :=
  if String.eqb a "" then (if String.eqb b "" then "" else Clean b)
  else if String.eqb b "" then Clean a else Clean (a +:+ "/" +:+ b).

(** ** The archive *)

Record entry := mkEntry { e_name : string; e_regular : bool; e_data : string }.

(** How reading an archive ends: at its end, at a header that cannot be read,
    or inside the data of an entry. *)
Inductive ending := AtEnd | BadHeader (e : goerr) | BadData (name : string) (e : goerr).

(** A compressed archive read entry by entry; [None]: not even a gzip header. *)
Class Tar `{logrotate.Gzip} := {
  tar_write : list (string * string) → result string;
  targz_read : string → option (list entry * ending);
  targz_read_write : ∀ l d, tar_write l = Ok d →
    targz_read (logrotate.gzip d) = Some ((λ p, mkEntry p.1 true p.2) <$> l, AtEnd) }.

(** [VACUUM INTO]'s copy of the database. *)
Class Snapshot := { vacuum : Tables → string }.

Definition requiredFiles : list (string * string) :=
  [("pki/ca.crt", "pki/ca.crt"); ("pki/ca.key.enc", "pki/ca.key.enc"); ("pki/crl.pem", "pki/crl.pem");
   ("pki/tls-crypt.key", "pki/tls-crypt.key"); ("server.conf", "server.conf"); ("totp.key", "totp.key")].

Section Backup.
  Context {S : Type} `{pki.EnvelopeJson} `{Argon2 : auth.Argon2} `{Aead : users.Aead}.
  Context `{Tar} `{Snapshot}.

Fixpoint read_required (dataDir : string) (fs : list (string * string)) : W S (list (string * string)) :=
  match fs with
  | [] => mret []
  | (src, name) :: fs' =>
      data ← w_err (Wrapf "backup: %s: %w" [src]) (on_disk (ReadFile (Join dataDir src)));
      rest ← read_required dataDir fs';
      mret ((name, data) :: rest)
  end.

(** The optional log. *)
Definition read_log (dataDir : string) : W S (list (string * string)) :=
  r ← w_try (on_disk (ReadFile (Join dataDir "logs/openvpn.log")));
  mret (match r with Ok d => [("logs/openvpn.log", d)] | Err _ => [] end).

(** The temporary copy is written by the database and removed again. *)
Definition snapshotDB : W S string := on_db (query (λ t, Ok (vacuum t))).

(** What [w] is given. *)
Definition Create (dataDir passphrase : string) : W S string :=
  req ← read_required dataDir requiredFiles;
  log ← read_log dataDir;
  db ← w_err (Wrapf "backup: database snapshot: %w" []) snapshotDB;
  tar ← w_of (tar_write (req ++ log ++ [("ovcp.db", db)]));
  on_pki (pki.Seal (logrotate.gzip tar) passphrase).

(** ** Restoring *)

Definition MkdirAll : F unit := Sync.

Definition unsafe (name : string) : bool := let c := Clean name in has_prefix ".." c || IsAbs c.

(** Up to the write of one regular entry. *)
Definition prepare (name : string) : F unit :=
  if unsafe name then f_fail (Errorf "backup: unsafe path in archive: %q" [name]) else MkdirAll.

Fixpoint restore_entries (dataDir : string) (es : list entry) (fin : ending) : F unit :=
  match es with
  | [] => match fin with
          | AtEnd => mret tt
          | BadHeader e => f_fail (Wrapf "backup: corrupt archive: %w" [] e)
          | BadData name e => prepare name ;; f_fail e
          end
  | e :: es' =>
      if negb (e_regular e) then restore_entries dataDir es' fin
      else prepare (e_name e) ;;
           WriteFile (Join dataDir (Clean (e_name e))) (e_data e) ;;
           restore_entries dataDir es' fin
  end.

Definition Restore (dataDir data passphrase : string) (force : bool) : F unit := λ s,
  let '(s1, there) := if force then (s, Ok false) else Exists (Join dataDir "pki/ca.crt") s in
  match there with
  | Ok true => (s1, Err (Sentinel ErrAlreadyInitialized))
  | _ =>
      match pki.Open data passphrase with
      | Err e => (s1, Err e)
      | Ok plain =>
          match targz_read plain with
          | None => (s1, Err (Wrapf "backup: corrupt archive: %w" [] (ExternalErr "gzip: invalid header")))
          | Some (es, fin) => restore_entries dataDir es fin s1
          end
      end
  end.
End Backup.

(** ** Where a restored path lies *)

(** A path's text from its elements: [Clean]'s last step. *)
Definition render (rooted : bool) (es : list string) : string :=
  match es with
  | [] => if rooted then "/" else "."
  | _ => (if rooted then "/" else "") +:+ join "/" es
  end.

(** A name of its own in a directory. *)
Definition plain (x : string) : Prop := x ≠ "" ∧ x ≠ "." ∧ x ≠ ".." ∧ no_char "/" x = true.

(** The directory itself, or something below it. *)
Definition below (dir p : string) : Prop := ∃ es, Forall plain es ∧ p = render (IsAbs dir) (clean_elems dir ++ es).

Lemma Clean_render p : Clean p = render (IsAbs p) (clean_elems p).
Proof. unfold Clean, render. by destruct (clean_elems p), (IsAbs p). Qed.

Lemma plain_step rooted st x : plain x → clean_step rooted st x = x :: st.
Proof.
  intros (H1&H2&H3&_). unfold clean_step. by rewrite !(proj2 (String.eqb_neq x _)).
Qed.

Lemma plain_steps rooted es st : Forall plain es → foldl (clean_step rooted) st es = rev es ++ st.
Proof.
  intros Hes. revert st. induction Hes as [|x es Hx _ IH]; intros st; [done|]. cbn [foldl rev].
  rewrite plain_step by done. rewrite IH. by rewrite <-app_assoc.
Qed.

(** What cancelling leaves of a relative path: parents, then plain names. *)
Lemma clean_stack xs st : Forall (λ x, no_char "/" x = true) xs →
  (∃ ps n, st = ps ++ replicate n ".." ∧ Forall plain ps) →
  ∃ ps n, foldl (clean_step false) st xs = ps ++ replicate n ".." ∧ Forall plain ps.
Proof.
  intros Hx. revert st. induction Hx as [|x xs Hx _ IH]; intros st Hst; [done|]. cbn [foldl]. apply IH.
  destruct Hst as (ps&n&->&Hps). unfold clean_step.
  destruct (String.eqb_spec x "") as [->|H1]; [by exists ps, n|].
  destruct (String.eqb_spec x ".") as [->|H2]; [by exists ps, n|]. cbn [orb].
  destruct (String.eqb_spec x "..") as [->|H3].
  - destruct ps as [|q ps]; cbn [app].
    + exists [], (S n). by destruct n.
    + apply Forall_cons in Hps as [(?&?&Hq&?) Hps]. destruct (String.eqb_spec q ".."); [done|]. by exists ps, n.
  - exists (x :: ps), n. split; [done|]. by apply Forall_cons.
Qed.

Lemma clean_relative name : IsAbs name = false → has_prefix ".." (Clean name) = false → Forall plain (clean_elems name).
Proof.
  intros Ha Hp. rewrite Clean_render, Ha in Hp. unfold clean_elems in *. rewrite Ha in *.
  destruct (clean_stack (split "/" name) [] (split_pieces _ _)) as (ps&n&E&Hps); [by exists [], 0%nat|].
  rewrite E in *. destruct n as [|n]; [rewrite app_nil_r; by apply Forall_rev|].
  rewrite replicate_S_end, app_assoc, rev_unit in Hp. cbn [render] in Hp.
  destruct (rev (ps ++ replicate n "..")) as [|y l].
  - by vm_compute in Hp.
  - rewrite join_cons, s_app_nil_l, has_prefix_app in Hp by done. done.
Qed.

(** Cleaning a name that is let through, below a directory. *)
Lemma split_render es : Forall plain es → es ≠ [] → split "/" (render false es) = es.
Proof.
  intros Hes Hne. unfold render. destruct es as [|x es]; [done|]. rewrite s_app_nil_l. apply split_join; [done|].
  eapply Forall_impl; [exact Hes|]. by intros y (_&_&_&?).
Qed.

Lemma clean_below dir b : dir ≠ "" → clean_elems (dir +:+ "/" +:+ b) = rev (foldl (clean_step (IsAbs dir)) (rev (clean_elems dir)) (split "/" b)).
Proof.
  intros Hd. unfold clean_elems. change ("/" +:+ b) with (String "/" b). rewrite split_sep, foldl_app, rev_involutive.
  destruct dir as [|c dir]; [done|]. by rewrite s_app_cons.
Qed.

Lemma render_steps rooted st es : Forall plain es → foldl (clean_step rooted) st (split "/" (render false es)) = rev es ++ st.
Proof.
  intros Hes. destruct es as [|x es]; [done|]. rewrite split_render by done. by apply plain_steps.
Qed.

Lemma render_relative es : Forall plain es → IsAbs (render false es) = false.
Proof.
  intros Hes. destruct es as [|x es]; [done|]. apply Forall_inv in Hes as (H1&_&_&H4). unfold render. rewrite s_app_nil_l.
  destruct x as [|c x]; [done|]. rewrite no_char_cons in H4. apply andb_true_iff in H4 as [Hc _].
  assert (∃ y, join "/" (String c x :: es) = String c y) as [y ->] by (destruct es; eexists; [done|by rewrite join_cons, s_app_cons]).
  unfold IsAbs. destruct c as [[] [] [] [] [] [] [] []]; done.
Qed.

Lemma render_ne es : Forall plain es → render false es ≠ "".
Proof.
  intros Hes Hb. destruct es as [|x es]; [done|]. apply (f_equal (split "/")) in Hb. rewrite split_render in Hb by done.
  injection Hb as -> _. apply Forall_inv in Hes as [? _]. done.
Qed.

Lemma Join_render dir es : Forall plain es → Join dir (render false es) = render (IsAbs dir) (clean_elems dir ++ es).
Proof.
  intros Hes. unfold Join. rewrite (proj2 (String.eqb_neq _ _) (render_ne es Hes)).
  destruct (String.eqb_spec dir "") as [->|Hd]; rewrite Clean_render.
  - unfold clean_elems at 1. rewrite render_relative, render_steps, app_nil_r, rev_involutive by done. done.
  - rewrite clean_below, render_steps, rev_app_distr, !rev_involutive by done.
    destruct dir as [|c dir]; [done|]. by rewrite s_app_cons.
Qed.

(** A name that is not refused stays in the directory. *)
Lemma safe_below dir name : unsafe name = false → below dir (Join dir (Clean name)).
Proof.
  unfold unsafe. intros [Hp Ha]%orb_false_iff.
  assert (IsAbs name = false) as Hn.
  { destruct (IsAbs name) eqn:E; [|done]. rewrite Clean_render, E in Ha. unfold render in Ha. by destruct (clean_elems name). }
  pose proof (clean_relative name Hn Hp) as Hes. exists (clean_elems name). split; [done|].
  rewrite Clean_render, Hn. by apply Join_render.
Qed.

Section Restoring.
  Context `{pki.EnvelopeJson} `{Argon2 : auth.Argon2} `{Aead : users.Aead} `{Tar} `{Snapshot}.

Lemma only_same {B} (P : string → Prop) (m : F B) : (∀ s, files (m s).1 = files s) → only P m.
Proof. intros Hm s p _. by rewrite Hm. Qed.
Lemma only_prepare (P : string → Prop) name : only P (prepare name).
Proof.
  apply only_same. intros s. unfold prepare, MkdirAll, Sync. destruct (unsafe name); [done|]. by destruct (next_fault s) as [[e k]|].
Qed.

Lemma only_restore dataDir es fin : only (below dataDir) (restore_entries dataDir es fin).
Proof.
  induction es as [|e es IH]; cbn [restore_entries].
  - destruct fin as [|e|name e]; [by apply only_same|apply only_fail|]. apply only_bind; [apply only_prepare|]. intros []. apply only_fail.
  - destruct (e_regular e); cbn [negb]; [|done]. destruct (unsafe (e_name e)) eqn:Eu.
    + apply only_same. intros s. unfold prepare. rewrite Eu. done.
    + apply only_bind; [apply only_prepare|]. intros []. apply only_bind; [by apply only_WriteFile, safe_below|]. by intros [].
Qed.

(** C9: a restore is confined to its directory. Whatever the archive holds,
    whoever made it and wherever the disk fails, the only files that can differ
    afterwards are the data directory's own: their path is the directory's
    elements followed by plain names, never "..". Without [force] nothing at
    all changes where an authority's certificate is already installed. *)
Theorem Restore_confined dataDir data passphrase force s s' r (E : Restore dataDir data passphrase force s = (s', r)) :
  (∀ p, ¬ below dataDir p → files s' !! p = files s !! p) ∧
  (force = false → sound s → is_Some (files s !! Join dataDir "pki/ca.crt") → r = Err (Sentinel ErrAlreadyInitialized) ∧ files s' = files s).
Proof.
  unfold Restore in E. split.
  - intros p Hp. destruct (if force then (s, Ok false) else Exists (Join dataDir "pki/ca.crt") s) as [s1 there] eqn:E1.
    assert (files s1 = files s) as Hs1.
    { destruct force; [by injection E1 as <- _|]. unfold Exists in E1. by destruct (next_fault s) as [[e k]|]; injection E1 as <- _. }
    rewrite <-Hs1. destruct there as [[]|e]; try (injection E as <- _; done);
      (destruct (pki.Open data passphrase) as [plain|e']; [|by injection E as <- _]);
      (destruct (targz_read plain) as [[es fin]|]; [|by injection E as <- _]);
      pose proof (only_restore dataDir es fin s1 p Hp) as HO; by rewrite E in HO.
  - intros -> Hs Hc. destruct (sound_next s (files s) Hs) as [Hn _]. unfold Exists in E. rewrite Hn in E.
    rewrite bool_decide_eq_true_2 in E by done. by injection E as <- <-.
Qed.

(** ** Reading back what was written *)

Definition solid (x : string) : Prop := x ≠ "" ∧ x ≠ "." ∧ no_char "/" x = true.
Lemma plain_solid x : plain x → solid x.
Proof. by intros (?&?&_&?). Qed.

Lemma clean_solid p : Forall solid (clean_elems p).
Proof.
  unfold clean_elems. apply Forall_rev.
  assert (∀ xs st rooted, Forall (λ x, no_char "/" x = true) xs → Forall solid st → Forall solid (foldl (clean_step rooted) st xs)) as Hg.
  2:{ apply Hg; [apply split_pieces|constructor]. }
  intros xs st rooted Hx. revert st. induction Hx as [|x xs Hx _ IH]; intros st Hst; [done|]. cbn [foldl]. apply IH.
  unfold clean_step. destruct (String.eqb_spec x ""), (String.eqb_spec x "."); try done. cbn [orb].
  destruct (String.eqb_spec x ".."); [subst|by apply Forall_cons].
  destruct st as [|t st]; [destruct rooted; [done|by apply Forall_cons]|].
  apply Forall_cons in Hst as [Ht Hst]. destruct (String.eqb_spec t ".."); [|done].
  apply Forall_cons. split; [done|]. by apply Forall_cons.
Qed.

Lemma render_false_inj es es' : Forall solid es → Forall solid es' → render false es = render false es' → es = es'.
Proof.
  assert (∀ l, Forall solid l → l ≠ [] → split "/" (render false l) = l) as Hs.
  { intros l Hl Hne. unfold render. destruct l; [done|]. rewrite s_app_nil_l. apply split_join; [done|].
    eapply Forall_impl; [exact Hl|]. by intros ? (_&_&?). }
  assert (∀ l, Forall solid l → render false [] = render false l → [] = l) as Hz.
  { intros [|x l] Hl E; [done|]. apply (f_equal (split "/")) in E. rewrite (Hs (x :: l)) in E by done.
    injection E as <- _. apply Forall_inv in Hl as (_&?&_). done. }
  intros Hes Hes' E. destruct es as [|x es]; [by apply Hz|]. destruct es' as [|x' es']; [symmetry; by apply Hz|].
  by rewrite <-(Hs (x :: es)), E, Hs.
Qed.

Lemma render_inj rooted es es' : Forall solid es → Forall solid es' → render rooted es = render rooted es' → es = es'.
Proof.
  destruct rooted; [|apply render_false_inj]. intros Hes Hes' E.
  assert (∀ x l, Forall solid (x :: l) → render true [] ≠ render true (x :: l)) as Hz.
  { intros x l Hl Ez. unfold render in Ez. apply (s_app_inj "/" "") in Ez. apply (f_equal (split "/")) in Ez.
    rewrite split_join in Ez; [|done|eapply Forall_impl; [exact Hl|]; by intros ? (_&_&?)].
    injection Ez as <- _. apply Forall_inv in Hl as [? _]. done. }
  destruct es as [|x es], es' as [|x' es']; [done|by apply Hz in E|symmetry in E; by apply Hz in E|].
  apply render_false_inj; [done..|]. unfold render in *. by apply s_app_inj in E.
Qed.

(** A name that cleaning leaves alone. *)
Definition clean_name (name : string) : Prop := Forall plain (split "/" name).

Lemma clean_name_render name : clean_name name → name = render false (split "/" name).
Proof.
  intros Hn. pose proof (split_ne_nil "/" name). pose proof (join_split "/" name) as E.
  unfold render. destruct (split "/" name); [done|]. by rewrite s_app_nil_l.
Qed.
Lemma Join_clean dir name : clean_name name → Join dir name = render (IsAbs dir) (clean_elems dir ++ split "/" name).
Proof. intros Hn. rewrite (clean_name_render name Hn) at 1. by apply Join_render. Qed.
Lemma Join_inj dir a b : clean_name a → clean_name b → Join dir a = Join dir b → a = b.
Proof.
  intros Ha Hb. rewrite !Join_clean by done. intros E. apply render_inj in E.
  - apply app_inv_head in E. by apply split_inj in E.
  - apply Forall_app. split; [apply clean_solid|]. eapply Forall_impl; [exact Ha|apply plain_solid].
  - apply Forall_app. split; [apply clean_solid|]. eapply Forall_impl; [exact Hb|apply plain_solid].
Qed.
Lemma Clean_of_render es : Forall plain es → Clean (render false es) = render false es.
Proof. intros Hes. rewrite Clean_render. unfold clean_elems. by rewrite render_relative, render_steps, app_nil_r, rev_involutive. Qed.
Lemma clean_name_same name : clean_name name → Clean name = name.
Proof. intros Hn. rewrite (clean_name_render name Hn). by apply Clean_of_render. Qed.

(** A name a restore accepts, and where it puts it. *)
Definition restorable (p : string * string) : Prop := clean_name p.1 ∧ unsafe p.1 = false.

Definition put (dir : string) (m : gmap string string) (l : list (string * string)) : gmap string string :=
  foldl (λ m p, <[Join dir p.1 := p.2]> m) m l.

Lemma put_other dir l m q : q ∉ Join dir <$> l.*1 → put dir m l !! q = m !! q.
Proof.
  revert m. induction l as [|[n d] l IH]; intros m Hq; [done|]. cbn in Hq. apply not_elem_of_cons in Hq as [Hq Hl].
  change (put dir (<[Join dir n := d]> m) l !! q = m !! q). rewrite (IH _ Hl). by apply lookup_insert_ne.
Qed.

Lemma put_elem dir l m n d : Forall restorable l → NoDup l.*1 → (n, d) ∈ l → put dir m l !! Join dir n = Some d.
Proof.
  revert m. induction l as [|[n' d'] l IH]; intros m Hr Hnd Hin; [by apply elem_of_nil in Hin|].
  apply Forall_cons in Hr as [Hr Hrs]. cbn in Hnd. apply NoDup_cons in Hnd as [Hn Hnd].
  apply elem_of_cons in Hin as [[= -> ->]|Hin]; [|by apply IH].
  change (put dir (<[Join dir n' := d']> m) l !! Join dir n' = Some d'). rewrite put_other; [apply lookup_insert_eq|].
  intros (x&E&([x' y]&->&Hx)%list_elem_of_fmap)%list_elem_of_fmap. rewrite Forall_forall in Hrs.
  apply Join_inj in E; [|apply Hr|apply (Hrs _ Hx)]. cbn in E. subst. apply Hn. apply list_elem_of_fmap. by exists (x', y).
Qed.

Lemma put_not_listed dir l m n : Forall restorable l → clean_name n → n ∉ l.*1 → put dir m l !! Join dir n = m !! Join dir n.
Proof.
  intros Hr Hn Hl. apply put_other. intros (x&E&([y d]&->&Hx)%list_elem_of_fmap)%list_elem_of_fmap.
  rewrite Forall_forall in Hr. apply Join_inj in E; [|done|apply (Hr _ Hx)]. subst. apply Hl. apply list_elem_of_fmap. by exists (y, d).
Qed.

Lemma restore_run dir l s : sound s → Forall restorable l →
  ∃ s', restore_entries dir ((λ p, mkEntry p.1 true p.2) <$> l) AtEnd s = (s', Ok tt) ∧ files s' = put dir (files s) l.
Proof.
  intros Hs Hl. revert s Hs. induction Hl as [|[n d] l [Hn Hu] Hl IH]; intros s Hs; [by exists s|]. cbn in Hn, Hu.
  cbn [fmap list_fmap restore_entries e_regular e_name e_data negb fst snd]. unfold prepare, MkdirAll. rewrite Hu.
  destruct (Sync_sound s Hs) as [E1 S1]. destruct (WriteFile_sound (Join dir (Clean n)) d _ S1) as [E2 S2].
  unfold mbind, F_bind. rewrite E1, E2. destruct (IH _ S2) as (s'&E&F). exists s'. split; [exact E|].
  rewrite F. cbn. by rewrite clean_name_same.
Qed.

(** *** What an archive holds *)

Lemma ReadFile_W {S} path (w w' : World S) r : on_disk (ReadFile path) w = (w', r) →
  files (disk w') = files (disk w) ∧ tables (db w') = tables (db w) ∧ match r with Ok d => files (disk w) !! path = Some d | Err _ => True end.
Proof.
  intros E. apply on_disk_run in E as (E&Hsvc&_). unfold db. rewrite Hsvc.
  unfold ReadFile in E. destruct (next_fault (disk w)) as [[e k]|]; [by injection E as <- <-|].
  destruct (files (disk w) !! path) eqn:Ed; by injection E as <- <-.
Qed.

Lemma read_required_run {S} dataDir fs (w w' : World S) l : read_required dataDir fs w = (w', Ok l) →
  files (disk w') = files (disk w) ∧ tables (db w') = tables (db w) ∧
  Forall2 (λ f p, p.1 = f.2 ∧ files (disk w) !! Join dataDir f.1 = Some p.2) fs l.
Proof.
  revert w l. induction fs as [|[src name] fs IH]; intros w l E; [by injection E as <- <-|]. cbn [read_required] in E.
  apply w_bind_run in E as [(w1&d&E1&E)|(e&_&[=])].
  assert (on_disk (ReadFile (Join dataDir src)) w = (w1, Ok d)) as E1'.
  { unfold w_err in E1. destruct (on_disk _ w) as [? [?|?]]; by simplify_eq. }
  apply ReadFile_W in E1' as (F1&T1&D1).
  apply w_bind_run in E as [(w2&rest&E2&[= <- <-])|(e&_&[=])]. apply IH in E2 as (F2&T2&HF). rewrite F2, T2, F1, T1.
  split; [done|]. split; [done|]. constructor; [done|]. eapply Forall2_impl; [exact HF|]. cbn. intros ? ? [? ?]. by rewrite <-F1.
Qed.

Definition log_name : string := "logs/openvpn.log".

Lemma Create_run {S} dataDir passphrase (w w' : World S) data : Create dataDir passphrase w = (w', Ok data) →
  ∃ req log tar, Forall2 (λ f p, p.1 = f.2 ∧ files (disk w) !! Join dataDir f.1 = Some p.2) requiredFiles req ∧
    (log = [] ∨ ∃ t, log = [(log_name, t)] ∧ files (disk w) !! Join dataDir log_name = Some t) ∧
    tar_write (req ++ log ++ [("ovcp.db", vacuum (tables (db w)))]) = Ok tar ∧ pki.Open data passphrase = Ok (logrotate.gzip tar).
Proof.
  intros E. apply w_bind_run in E as [(w1&req&E1&E)|(e&_&[=])]. apply read_required_run in E1 as (F1&T1&HF).
  apply w_bind_run in E as [(w2&log&E2&E)|(e&_&[=])].
  apply w_bind_run in E2 as [(w2'&r&E2&[= <- <-])|(e&_&[=])]. apply w_try_run in E2 as (r0&[= ->]&E2).
  apply ReadFile_W in E2 as (F2&T2&D2).
  apply w_bind_run in E as [(w3&snap&E3&E)|(e&_&[=])].
  assert (snap = vacuum (tables (db w2'))) as ->.
  { unfold w_err, snapshotDB in E3. destruct (on_db _ w2') as [w3' [x|e]] eqn:E4; [|done]. injection E3 as <- <-.
    apply on_db_run in E4 as [E4 _]. apply query_inv in E4 as (_&_&_&[[= ->]|[[? [=]] _]]). done. }
  apply w_bind_run in E as [(w4&tar&[= <- Htar]&E)|(e&_&[=])]. apply on_pki_run in E as (env&E&_). apply pki.Open_Seal in E.
  rewrite T2, T1 in Htar. eexists _, _, tar. split_and!; [exact HF| |exact Htar|exact E].
  destruct r0 as [t|e]; [right; exists t; by rewrite <-F1|by left].
Qed.

(** The names of an archive, with its log or without. *)
Lemma archive_names (l : list (string * string)) log : log = [] ∨ log = [log_name] → l.*1 = requiredFiles.*2 ++ log ++ ["ovcp.db"] →
  NoDup l.*1 ∧ Forall restorable l ∧ (log = [] → log_name ∉ l.*1) ∧ l.*1 ⊆ requiredFiles.*2 ++ [log_name; "ovcp.db"].
Proof.
  intros Hlog Hl. split_and!.
  - rewrite Hl. destruct Hlog as [-> | ->]; apply (bool_decide_eq_true_1 _); vm_compute; reflexivity.
  - apply (proj1 (Forall_fmap fst (λ n, clean_name n ∧ unsafe n = false) l)). rewrite Hl. unfold clean_name, plain.
    destruct Hlog as [-> | ->]; repeat constructor; done.
  - intros ->. rewrite Hl. apply (bool_decide_eq_true_1 _). vm_compute. reflexivity.
  - rewrite Hl. destruct Hlog as [-> | ->]; intros x; rewrite !elem_of_app; set_solver.
Qed.

Lemma Restore_opened dst data passphrase force d l tar : sound d → force = true ∨ files d !! Join dst "pki/ca.crt" = None →
  pki.Open data passphrase = Ok (logrotate.gzip tar) → tar_write l = Ok tar → Forall restorable l →
  ∃ d', Restore dst data passphrase force d = (d', Ok tt) ∧ files d' = put dst (files d) l.
Proof.
  intros Hs Hf Hopen Htar Hr. unfold Restore. rewrite Hopen, (targz_read_write _ _ Htar).
  destruct force; [by apply restore_run|]. destruct Hf as [Hf|Hf]; [done|].
  destruct (sound_next d (files d) Hs) as [N Hs']. unfold Exists. rewrite N, Hf.
  by apply (restore_run dst l (after d (files d))).
Qed.

Lemma names_alike req (m : gmap string string) dataDir :
  Forall2 (λ f p, p.1 = f.2 ∧ m !! Join dataDir f.1 = Some p.2) requiredFiles req →
  req.*1 = requiredFiles.*2 ∧ ∀ n t, (n, t) ∈ req → m !! Join dataDir n = Some t.
Proof.
  intros HF. split.
  - induction HF as [|f p fs ps [Hp _] _ IH]; [done|]. cbn. by rewrite Hp, IH.
  - intros n t [i Hi]%list_elem_of_lookup. eapply Forall2_lookup_r in HF as ([src nm]&Hsn&Hp&Ht); [|exact Hi]. cbn in *. subst.
    assert (Forall (λ f : string * string, f.1 = f.2) requiredFiles) as Hsame by (repeat constructor).
    apply (Forall_lookup_1 _ _ _ _ Hsame) in Hsn. cbn in Hsn. by rewrite <-Hsn.
Qed.

(** C8: a backup restores. Whenever a backup was made, restoring it with its
    passphrase onto a disk that works, forced or where no authority is
    installed, succeeds: the authority's certificate, sealed key, revocation
    list and tls-crypt key, the server's configuration and the TOTP key are
    then those that were backed up, byte for byte, the database is the snapshot
    of the tables at the time, the log came along if it could be read, and no
    other file of the host was touched. *)
Theorem Restore_Create {S} dataDir dst passphrase force (w w' : World S) data d
    (E : Create dataDir passphrase w = (w', Ok data)) (Hs : sound d)
    (Hf : force = true ∨ files d !! Join dst "pki/ca.crt" = None) :
  ∃ d', Restore dst data passphrase force d = (d', Ok tt) ∧
    (∀ name, name ∈ requiredFiles.*2 → is_Some (files d' !! Join dst name) ∧
       files d' !! Join dst name = files (disk w) !! Join dataDir name) ∧
    files d' !! Join dst "ovcp.db" = Some (vacuum (tables (db w))) ∧
    (files d' !! Join dst log_name = files (disk w) !! Join dataDir log_name ∨ files d' !! Join dst log_name = files d !! Join dst log_name) ∧
    (∀ q, q ∉ Join dst <$> (requiredFiles.*2 ++ [log_name; "ovcp.db"]) → files d' !! q = files d !! q).
Proof.
  apply Create_run in E as (req&log&tar&HF&Hlog&Htar&Hopen). apply names_alike in HF as [Hreq Hsrc].
  set (l := req ++ log ++ [("ovcp.db", vacuum (tables (db w)))]) in *.
  destruct (archive_names l log.*1) as (Hnd&Hr&Hout&Hsub).
  { destruct Hlog as [->|(t&->&_)]; auto. }
  { unfold l. by rewrite !fmap_app, Hreq. }
  destruct (Restore_opened dst data passphrase force d l tar Hs Hf Hopen Htar Hr) as (d'&ER&F'). exists d'.
  split; [exact ER|]. rewrite F'.
  assert (∀ n t, (n, t) ∈ l → put dst (files d) l !! Join dst n = Some t) as Hput by (intros n t; by apply put_elem).
  split_and!.
  - intros name Hn. rewrite <-Hreq in Hn. apply list_elem_of_fmap in Hn as ([n t]&->&Hn). cbn.
    rewrite (Hput n t), (Hsrc n t) by (done || (apply elem_of_app; by left)). done.
  - apply Hput. unfold l. rewrite !elem_of_app, list_elem_of_singleton. auto.
  - destruct Hlog as [Hlog|(t&Hlog&Ht)].
    + right. apply put_not_listed; [done|repeat constructor; done|]. apply Hout. by rewrite Hlog.
    + left. rewrite Ht. apply Hput. unfold l. rewrite Hlog, !elem_of_app, !list_elem_of_singleton. auto.
  - intros q Hq. apply put_other. intros (n&->&Hn)%list_elem_of_fmap. by apply Hq, list_elem_of_fmap_2, Hsub.
Qed.
End Restoring.

(** ** A concrete backup *)

Module demo_backup.
#[export] Existing Instances logrotate.plain_gzip pki.demo_pki.toy_envelope auth.toy_argon2 users.toy_aead.

(** Archives of texts without line breaks: names and contents line by line. *)
Fixpoint lines_of (l : list (string * string)) : list string :=
  match l with [] => [] | (n, d) :: l' => n :: d :: lines_of l' end.
Fixpoint pairs_of (ls : list string) : list (string * string) :=
  match ls with n :: d :: ls' => (n, d) :: pairs_of ls' | _ => [] end.
Lemma pairs_lines l : pairs_of (lines_of l ++ [""]) = l.
Proof. induction l as [|[n d] l IH]; [done|]. cbn. by rewrite IH. Qed.
#[export] Instance toy_tar : Tar.
Proof.
  refine {| tar_write l := if forallb (no_char LF) (lines_of l) then Ok (unlines (lines_of l)) else Err (ExternalErr "tar");
            targz_read s := match logrotate.gunzip s with
              | Some d => Some ((λ p : string * string, mkEntry p.1 true p.2) <$> pairs_of (split LF d), AtEnd)
              | None => None end |}.
  intros l d. destruct (forallb _ _) eqn:E; [|done]. intros [= <-]. rewrite logrotate.gunzip_gzip.
  rewrite split_unlines, pairs_lines; [done|]. rewrite Forall_forall. intros x Hx. eapply forallb_forall in E; [exact E|].
  by apply list_elem_of_In.
Defined.
#[export] Instance toy_snapshot : Snapshot := {| vacuum t := itoa (Z.of_nat (length (audit_log t))) |}.

Definition installed : World unit :=
  mkWorld (auth.NewService (auth.empty_store 0))
    (mkFs (list_to_map ((λ n, (Join "/d" n, "the " +:+ n)) <$> requiredFiles.*2)) []) (mgmt.mkClient tt false [] []).
Definition bak : string := match (Create "/d" "s3cret" installed).2 with Ok d => d | Err _ => "" end.
Lemma bak_ok : (Create "/d" "s3cret" installed).2 = Ok bak.
Proof. vm_compute. reflexivity. Qed.
Definition blank : Fs := mkFs {[ "/etc/passwd" := "root" ]} [].

(** An archive that climbs out of the directory. *)
Definition climbing : string :=
  match (pki.Seal (logrotate.gzip (unlines ["a/../../etc/passwd"; "evil"])) "s3cret" (pki_env installed)).2 with
  | Ok d => d | Err _ => "" end.
End demo_backup.
Import demo_backup.

Lemma Restore_Create_witness :
  ∃ d', Restore "/new" bak "s3cret" false blank = (d', Ok tt) ∧
    files d' !! "/new/pki/ca.key.enc" = Some "the pki/ca.key.enc" ∧ files d' !! "/new/ovcp.db" = Some "0".
Proof.
  destruct (Restore_Create "/d" "/new" "s3cret" false installed _ bak blank (eq_trans (surjective_pairing _) (f_equal (pair _) bak_ok))) as (d'&ER&Hreq&Hdb&_).
  { by apply Forall_nil. }
  { right. reflexivity. }
  exists d'. split; [exact ER|]. split; [|exact Hdb].
  destruct (Hreq "pki/ca.key.enc") as [_ HE]; [apply list_elem_of_In; do 1 right; left; reflexivity|].
  change (Join "/new" "pki/ca.key.enc") with "/new/pki/ca.key.enc" in HE. rewrite HE. reflexivity.
Defined.

Lemma Restore_confined_witness :
  let p := Restore "/new" climbing "s3cret" true blank in
  is_ok p.2 = false ∧ files p.1 !! "/etc/passwd" = Some "root".
Proof.
  intros p. split; [vm_compute; reflexivity|].
  destruct (Restore_confined "/new" climbing "s3cret" true blank _ _ (surjective_pairing _)) as [H _].
  unfold p. rewrite H; [reflexivity|]. intros (es&_&Hes). destruct es; discriminate.
Defined.
End backup.
