(* ===== verification/Telegram.v ===== *)
(** * Telegram: the bot (internal/telegram)

    Cutting a message into chunks the Bot API takes, who is the administrator,
    the settings and what they forget, the poller's lifecycle, one round of
    polling and every command. The Bot API itself is what the calls are
    recorded for; only [getMe]'s answer matters. *)

From Stdlib Require Import Ascii.
From stdpp Require Import sorting.
From S2P Require Import Prelude GoStr GoRunes GoErr GoTime Names Store StoreStats Mgmt Control.

Module telegram.
Import store control.

(** ** Messages *)

Definition maxMessage : nat := 4096.

(** [for cut = n; !utf8.RuneStart(text[cut]); cut--]: [None] when it runs off
    the front. *)
Fixpoint rune_cut (n : nat) (text : string) : option nat :=
  match s_get n text with
  | Some c => if rune_start c then Some n else match n with O => None | S n' => rune_cut n' text end
  | None => None
  end.

Definition cut_at (text : string) : option nat :=
  match last_index_byte LF (s_take maxMessage text) with
  | Some (S i) => Some (S i)
  | _ => rune_cut maxMessage text
  end.

(** The chunks sent; [None]: a panic, or no end within the fuel. *)
Fixpoint chunks (fuel : nat) (text : string) : option (list string) :=
  if (slen text <=? maxMessage)%nat then Some [text]
  else match fuel with
       | O => None
       | S fuel' =>
           match cut_at text with
           | None => None
           | Some cut => cons (s_take cut text) <$> chunks fuel' (trim_prefix nl (s_drop cut text))
           end
       end.

(** ** The Bot API's data *)

Record user := mkUser { uID : Z; uUsername : string }.
Record message := mkMessage { mChat : Z; mFrom : user; mText : string }.
Record callbackQuery := mkCallback { cbID : string; cbFrom : user; cbData : string; cbMessage : option message }.
Record update := mkUpdate { UpdateID : Z; uMessage : option message; uCallback : option callbackQuery }.

Definition button : Type := string * string.
Inductive markup := NoMarkup | Inline (rows : list (list button)) | Reply (rows : list (list string)).

Inductive apicall :=
  | GetMe | GetUpdates (offset : Z) | SendMessage (chat : Z) (text : string) (m : markup)
  | AnswerCallback (id : string) | SetMyCommands (cmds : list (string * string)).

(** The store, the calls made with the token each used, and whatever the
    workers live in. *)
Record Bot (E : Type) := mkBot { bst : Store; calls : list (string * apicall); ext : E }.
Arguments mkBot {E}. Arguments bst {E}. Arguments calls {E}. Arguments ext {E}.

(** A store call inside the process; its error is a value. *)
Definition on_store {E A} (m : M A) : P (Bot E) (result A) := λ b,
  let '(s, r) := m (bst b) in (mkBot s (calls b) (ext b), Some r).
Definition api {E} (token : string) (c : apicall) : P (Bot E) unit := λ b,
  (mkBot (bst b) (calls b ++ [(token, c)]) (ext b), Some tt).
Definition panics {D A} : P D A := λ d, (d, None).
Definition the_time {E} : P (Bot E) Z := λ b, (b, Some (clock (bst b))).

Fixpoint send_all {E} (token : string) (chat : Z) (m : markup) (cs : list string) : P (Bot E) unit :=
  match cs with
  | [] => mret tt
  | [c] => api token (SendMessage chat c m)
  | c :: cs' => api token (SendMessage chat c NoMarkup) ;; send_all token chat m cs'
  end.

Definition sendMessage {E} (token : string) (chat : Z) (text : string) (m : markup) : P (Bot E) unit :=
  match chunks (slen text) text with
  | Some cs => send_all token chat m cs
  | None => panics
  end.

(** ** The administrator *)

Definition keyToken : string := "telegram_bot_token".
Definition keyAdmin : string := "telegram_admin".
Definition keyChat : string := "telegram_chat_id".

Definition notifyActions : list string := ["revoke"; "user_add"; "user_del"; "ca_rotate"; "renew_ca"].

(** [strconv.ParseInt(s, 10, 64)]. *)
Definition isNumericID (s : string) : bool := match atoi s with Some _ => true | None => false end.

(** [unicode.SimpleFold]. *)
Class SimpleFolds := { simple_fold : Z → Z }.

(** [strings.EqualFold] of two runes. *)
Fixpoint in_orbit `{SimpleFolds} (fuel : nat) (start r target : Z) : bool :=
  match fuel with
  | O => false
  | S f => if (r =? start) || (target <=? r) then r =? target else in_orbit f start (simple_fold r) target
  end.
Definition fold_rune `{SimpleFolds} (a b : Z) : bool :=
  let lo := Z.min a b in let hi := Z.max a b in
  (lo =? hi) ||
  (if hi <? 128 then (65 <=? lo) && (lo <=? 90) && (hi =? lo + 32)
   else in_orbit 8 lo (simple_fold lo) hi).
Fixpoint fold_all `{SimpleFolds} (a b : list (Z * string)) : bool :=
  match a, b with
  | [], [] => true
  | x :: a', y :: b' => fold_rune x.1 y.1 && fold_all a' b'
  | _, _ => false
  end.
Definition EqualFold `{SimpleFolds} (a b : string) : bool := fold_all (runes a) (runes b).

Definition matches `{SimpleFolds} (admin : string) (u : user) : bool :=
  match atoi admin with
  | Some id => uID u =? id
  | None => negb (String.eqb (uUsername u) "") && EqualFold (trim_prefix "@" admin) (uUsername u)
  end.

Definition no_user : user := mkUser 0 "".

(** The sender and the chat; a callback without its message panics. *)
Definition senderOf {D} (u : update) : P D (user * Z) :=
  match uCallback u with
  | Some cb => match cbMessage cb with Some m => mret (cbFrom cb, mChat m) | None => panics end
  | None => match uMessage u with Some m => mret (mFrom m, mChat m) | None => mret (no_user, 0) end
  end.

(** [GetSetting] with its error dropped. *)
Definition setting {E} (key : string) : P (Bot E) string :=
  r ← on_store (GetSetting key); mret (match r with Ok v => v | Err _ => "" end).

(** The chat to write to: the numeric admin's own, else the one learned. *)
Definition bad_int (s : string) : goerr := Errorf "strconv.ParseInt: parsing %q: invalid syntax" [s].
Definition parse_id (s : string) : result Z := match atoi s with Some id => Ok id | None => Err (bad_int s) end.
Definition chatIDFor {E} (admin : string) : P (Bot E) (result Z) :=
  match atoi admin with
  | Some id => mret (Ok id)
  | None =>
      cached ← setting keyChat;
      mret (if String.eqb cached "" then Err (Errorf "telegram: no chat linked yet" []) else parse_id cached)
  end.

Section Settings.
  Context {E : Type} (getMe : string → option goerr).

Definition SetToken (token : string) : P (Bot E) (result unit) :=
  api token GetMe ;;
  match getMe token with
  | Some e => mret (Err (Wrapf "invalid token: %w" [] e))
  | None =>
      old ← setting keyToken;
      r ← on_store (SetSetting keyToken token);
      match r with
      | Err e => mret (Err e)
      | Ok _ => if String.eqb token old then mret (Ok tt) else on_store (SetSetting keyChat "")
      end
  end.

Definition warnOldAdmin (old newAdmin : string) : P (Bot E) unit :=
  token ← setting keyToken;
  chat ← chatIDFor old;
  match chat with
  | Ok chatID =>
      if String.eqb old "" || String.eqb token "" then mret tt
      else sendMessage token chatID
             ("🚨 admin identity changed to " +:+ newAdmin +:+ " — if this wasn't you, investigate now.") NoMarkup
  | Err _ => mret tt
  end.

Definition SetAdmin (admin : string) : P (Bot E) (result unit) :=
  old ← setting keyAdmin;
  r ← on_store (SetSetting keyAdmin admin);
  match r with
  | Err e => mret (Err e)
  | Ok _ =>
      if String.eqb admin old then mret (Ok tt)
      else warnOldAdmin old admin ;; on_store (SetSetting keyChat "")
  end.

(** [SetTelegram] (internal/api): the admin first. *)
Definition SetTelegram (actor admin token : string) : P (Bot E) (result unit) :=
  if String.eqb admin "" && String.eqb token "" then
    mret (Err (Errorf "nothing to set: an admin and/or a token" []))
  else
    r ← (if String.eqb admin "" then mret (Ok tt) else
           r ← SetAdmin admin;
           match r with
           | Err e => mret (Err e)
           | Ok _ => on_store (ignore (Audit actor "telegram_admin_change" ("admin=" +:+ admin)))
           end);
    match r with
    | Err e => mret (Err e)
    | Ok _ =>
        if String.eqb token "" then mret (Ok tt) else
        r ← SetToken token;
        match r with
        | Err e => mret (Err e)
        | Ok _ => on_store (ignore (Audit actor "telegram_token_change" ""))
        end
    end.

Definition ConfigStatus : P (Bot E) TelegramStatus :=
  token ← setting keyToken;
  admin ← setting keyAdmin;
  chat ← setting keyChat;
  mret (mkTelegramStatus false (negb (String.eqb token "")) admin (isNumericID admin || negb (String.eqb chat "")) false).
End Settings.

(** ** The poller's lifecycle *)

(** Whether the lock is held by an operation in flight, whether the poller
    runs, with which token and admin, and the loops started and cancelled. *)
Record Poller := mkPoller { locked : bool; running : bool; loops : list (string * string * bool) }.

(** [acquireOp]: a try-lock. *)
Definition acquireOp (p : Poller) : Poller + goerr :=
  if locked p then inr (Wrapf "telegram: %w" [] (Sentinel ErrBusy)) else inl (mkPoller true (running p) (loops p)).
Definition unlock (p : Poller) : Poller := mkPoller false (running p) (loops p).

(** [start] and [stop], the lock held: [token] and [admin] as stored. *)
Definition start (token admin : string) (p : Poller) : Poller * option goerr :=
  if running p then (p, None)
  else if String.eqb token "" || String.eqb admin "" then (p, Some (Errorf "telegram: token/admin not configured" []))
  else (mkPoller (locked p) true (loops p ++ [(token, admin, true)]), None).

(** The newest loop's context is cancelled. *)
Definition cancel_last (l : list (string * string * bool)) : list (string * string * bool) :=
  match last l with Some (t, a, _) => removelast l ++ [(t, a, false)] | None => [] end.
Definition stop (p : Poller) : Poller :=
  if running p then mkPoller (locked p) false (cancel_last (loops p)) else p.

Definition Start (token admin : string) (p : Poller) : Poller * option goerr :=
  match acquireOp p with
  | inr e => (p, Some e)
  | inl p1 => let '(p2, e) := start token admin p1 in (unlock p2, e)
  end.
Definition Stop (p : Poller) : Poller * option goerr :=
  match acquireOp p with inr e => (p, Some e) | inl p1 => (unlock (stop p1), None) end.
Definition Restart (token admin : string) (p : Poller) : Poller * option goerr :=
  match acquireOp p with
  | inr e => (p, Some e)
  | inl p1 => let '(p2, e) := start token admin (stop p1) in (unlock p2, e)
  end.
(** ** The chunks a message is cut into *)

(** How a text is cut: whole when it fits; at its last line break within the
    limit, the break dropped; else within three bytes of the limit, at the
    start of a character (a line break there is dropped too). *)
Inductive pieces : list string → string → Prop :=
  | pieces_whole t : (slen t ≤ maxMessage)%nat → pieces [t] t
  | pieces_line c t cs :
      c ≠ "" → (slen c < maxMessage)%nat → no_char LF (s_take (maxMessage - S (slen c)) t) = true →
      (maxMessage < slen (c +:+ nl +:+ t))%nat → pieces cs t → pieces (c :: cs) (c +:+ nl +:+ t)
  | pieces_rune c t cs :
      (maxMessage - 3 ≤ slen c ≤ maxMessage)%nat → no_char LF (s_drop 1 c) = true → starts_ok t = true →
      (maxMessage < slen (c +:+ t))%nat → pieces cs (trim_prefix nl t) → pieces (c :: cs) (c +:+ t).

Lemma rune_cut_spec n k c text : (n < slen text)%nat → (k ≤ n)%nat → s_get (n - k) text = Some c → rune_start c = true →
  ∃ i d, rune_cut n text = Some i ∧ (n - k ≤ i ≤ n)%nat ∧ s_get i text = Some d ∧ rune_start d = true.
Proof.
  intros Hn Hkn Hg Hc. revert n Hn Hkn Hg. induction k as [|k IH]; intros n Hn Hkn Hg.
  - rewrite Nat.sub_0_r in Hg. exists n, c. split_and!; try done; try lia. destruct n; cbn [rune_cut]; by rewrite Hg, Hc.
  - destruct n as [|n]; [lia|]. cbn [rune_cut]. replace (S n - S k)%nat with (n - k)%nat in Hg by lia.
    destruct (s_get (S n) text) as [d|] eqn:Hd.
    + destruct (rune_start d) eqn:Hs; [exists (S n), d; split_and!; try done; lia|].
      destruct (IH n ltac:(lia) ltac:(lia) Hg) as (i&c'&Hi&Hin&Hg'&Hc').
      exists i, c'. split_and!; try done; try lia.
    + unfold s_get in Hd. rewrite lookup_ge_None, length_chars in Hd. lia.
Qed.

(** Where a long valid text is cut. *)
Lemma cut_at_spec text : valid_utf8 text = true → (maxMessage < slen text)%nat →
  ∃ c t, text = c +:+ t ∧ cut_at text = Some (slen c) ∧ starts_ok t = true ∧ c ≠ "" ∧
    ((∃ t', t = nl +:+ t' ∧ (slen c < maxMessage)%nat ∧ no_char LF (s_take (maxMessage - S (slen c)) t') = true) ∨
     ((maxMessage - 3 ≤ slen c ≤ maxMessage)%nat ∧ no_char LF (s_drop 1 c) = true)).
Proof.
  intros Hv Hl. set (hd := s_take maxMessage text).
  assert (Hsplit : ∀ i, (i ≤ slen text)%nat → slen (s_take i text) = i) by (intros i Hi; rewrite s_length_take; lia).
  assert (Hrune : (no_char LF (s_drop 1 hd) = true) → ∃ i, rune_cut maxMessage text = Some i ∧
    starts_ok (s_drop i text) = true ∧ (maxMessage - 3 ≤ i ≤ maxMessage)%nat ∧ no_char LF (s_drop 1 (s_take i text)) = true).
  { intros Hno. destruct (valid_utf8_paced text Hv maxMessage Hl) as (k&d&Hk&Hkn&Hgk&Hd).
    destruct (rune_cut_spec maxMessage k d text Hl Hkn Hgk Hd) as (i&c&->&Hi&Hg&Hc).
    exists i. split_and!; try done; try lia.
    - by rewrite (s_get_drop _ _ _ Hg).
    - rewrite s_drop_take by (unfold maxMessage in *; lia). unfold hd in Hno.
      rewrite s_drop_take in Hno by (unfold maxMessage; lia).
      rewrite <- (s_take_take _ (maxMessage - 1)) by lia. by apply no_char_take. }
  assert (Hcut : ∀ i, cut_at text = Some i → (maxMessage - 3 ≤ i ≤ maxMessage)%nat → slen (s_take i text) = i)
    by (intros; apply Hsplit; lia).
  destruct (last_index_byte LF hd) as [[|i]|] eqn:E.
  1,3: destruct Hrune as (i&Hc&Hs&Hi&Hno);
    [|exists (s_take i text), (s_drop i text); rewrite Hsplit by (unfold maxMessage in *; lia); split_and!;
      [by rewrite s_take_drop|unfold cut_at; fold hd; by rewrite E|done| |by right];
      intros H0; apply (f_equal slen) in H0; rewrite Hsplit in H0 by (unfold maxMessage in *; lia); simpl in H0;
      unfold maxMessage in *; lia].
  - by apply last_index_byte_Some in E as [_ ?].
  - apply last_index_byte_None in E. destruct hd; [done|]. rewrite no_char_cons in E. by apply andb_true_iff in E as [_ ?].
  - pose proof (last_index_byte_lt _ _ _ E) as Hlt. unfold hd in Hlt. rewrite s_length_take in Hlt.
    pose proof (last_index_byte_Some _ _ _ E) as [Hd Hno].
    assert (Ht : s_drop (S i) text = String LF (s_drop (S (S i)) text)).
    { unfold hd in Hd. rewrite s_drop_take in Hd by lia. destruct (maxMessage - S i)%nat eqn:Em; [lia|].
      destruct (s_drop (S i) text) as [|d r] eqn:Er; [cbn in Hd; by destruct n|]. cbn [s_take] in Hd. injection Hd as -> _.
      by rewrite (s_drop_S _ _ _ _ Er). }
    exists (s_take (S i) text), (s_drop (S i) text). rewrite Hsplit by lia. split_and!.
    + by rewrite s_take_drop.
    + unfold cut_at. fold hd. by rewrite E.
    + by rewrite Ht.
    + intros H0. apply (f_equal slen) in H0. rewrite Hsplit in H0 by lia. done.
    + left. exists (s_drop (S (S i)) text). split_and!; [done|lia|].
      unfold hd in Hno. by rewrite s_drop_take in Hno by lia.
Qed.
Lemma trim_nl_spec t : starts_ok t = true → valid_utf8 t = true →
  valid_utf8 (trim_prefix nl t) = true ∧ (slen (trim_prefix nl t) ≤ slen t)%nat.
Proof.
  intros _ Hv. unfold trim_prefix. destruct (cut_prefix nl t) as [r|] eqn:E; [|done].
  apply cut_prefix_Some in E as ->. unfold nl in *. sapp. split; [|simpl; lia].
  unfold valid_utf8 in *. rewrite runes_step in Hv. by apply andb_true_iff in Hv as [_ ?].
Qed.

Lemma chunks_pieces fuel text : (slen text ≤ fuel)%nat → valid_utf8 text = true →
  ∃ cs, chunks fuel text = Some cs ∧ pieces cs text ∧ Forall (λ c, valid_utf8 c = true) cs.
Proof.
  revert text. induction fuel as [|fuel IH]; intros text Hf Hv; cbn [chunks];
    destruct (Nat.leb_spec (slen text) maxMessage) as [Hl|Hl];
    try (exists [text]; split_and!; [done|by constructor|by constructor]); [unfold maxMessage in Hl; lia|].
  destruct (cut_at_spec text Hv Hl) as (c&t&->&->&Hs&Hc&Hcase).
  assert (Hlc : (0 < slen c)%nat) by (destruct c; [done|simpl; lia]).
  rewrite s_take_app, s_drop_app. rewrite valid_utf8_app in Hv by done. apply andb_true_iff in Hv as [Hvc Hvt].
  destruct (trim_nl_spec t Hs Hvt) as [Hvt' Hlt]. rewrite s_length_app in Hf.
  destruct (IH (trim_prefix nl t) ltac:(lia) Hvt') as (cs&->&Hp&Hall).
  exists (c :: cs). split_and!; [done| |by constructor].
  destruct Hcase as [(t'&->&Hlc'&Hno)|[Hlc' Hno]].
  - rewrite trim_prefix_app in Hp. by apply pieces_line.
  - by apply pieces_rune.
Qed.

Lemma pieces_sizes cs t : pieces cs t → Forall (λ c, (slen c ≤ maxMessage)%nat) cs ∧ ∃ init z, cs = init ++ [z].
Proof.
  induction 1 as [t Hl|c t cs _ Hl _ _ _ [IH (i&z&->)]|c t cs Hl _ _ _ _ [IH (i&z&->)]].
  - split; [by apply Forall_singleton|by exists [], t].
  - split; [constructor; [lia|done]|by exists (c :: i), z].
  - split; [constructor; [lia|done]|by exists (c :: i), z].
Qed.

Lemma send_all_run {E} token chat m init z (b : Bot E) :
  send_all token chat m (init ++ [z]) b =
  (mkBot (bst b) (calls b ++ ((λ c, (token, SendMessage chat c NoMarkup)) <$> init) ++ [(token, SendMessage chat z m)]) (ext b), Some tt).
Proof.
  revert b. induction init as [|c init IH]; intros b; [done|].
  assert (send_all token chat m ((c :: init) ++ [z]) b =
    send_all token chat m (init ++ [z]) (mkBot (bst b) (calls b ++ [(token, SendMessage chat c NoMarkup)]) (ext b))) as ->
    by (by destruct init).
  rewrite IH. cbn [bst calls ext fmap list_fmap]. by rewrite <- app_assoc.
Qed.

(** C33: Sending a message of valid UTF-8 always ends, and sends every part of
    the text once and in order: the chunks partition it as [pieces] says, none
    is over the limit or cuts a character in two, and only the last one carries
    the keyboard. *)
Theorem sendMessage_correct {E} token chat text m (b : Bot E) :
  valid_utf8 text = true →
  ∃ init z, pieces (init ++ [z]) text ∧
    Forall (λ c, (slen c ≤ maxMessage)%nat ∧ valid_utf8 c = true) (init ++ [z]) ∧
    sendMessage token chat text m b =
    (mkBot (bst b) (calls b ++ ((λ c, (token, SendMessage chat c NoMarkup)) <$> init) ++ [(token, SendMessage chat z m)]) (ext b), Some tt).
Proof.
  intros Hv. destruct (chunks_pieces (slen text) text) as (cs&Hc&Hp&Hval); [done..|].
  destruct (pieces_sizes _ _ Hp) as [Hsz (init&z&->)]. exists init, z. split_and!; [done|by apply Forall_and|].
  unfold sendMessage. rewrite Hc. apply send_all_run.
Qed.

(** A text that is not valid can be beyond sending: with no character start
    after its first byte the loop either indexes before the text or cuts at 0
    and gets no shorter. *)
Lemma rune_cut_back n c0 rest : (∀ c, c ∈ chars rest → rune_start c = false) → (n ≤ slen rest)%nat →
  rune_cut n (String c0 rest) = if rune_start c0 then Some 0%nat else None.
Proof.
  intros Hc. induction n as [|n IH]; intros Hn; [done|]. cbn [rune_cut]. unfold s_get. rewrite chars_cons. cbn [lookup list_lookup].
  destruct (chars rest !! n) as [d|] eqn:E; [|rewrite lookup_ge_None, length_chars in E; lia].
  rewrite (Hc d) by (by eapply list_elem_of_lookup_2). apply IH. lia.
Qed.

Lemma unsendable fuel c0 rest : (∀ c, c ∈ chars rest → rune_start c = false) → c0 ≠ LF →
  (maxMessage ≤ slen rest)%nat → chunks fuel (String c0 rest) = None.
Proof.
  intros Hc H0 Hl. induction fuel as [|fuel IH]; cbn [chunks];
    (destruct (Nat.leb_spec (slen (String c0 rest)) maxMessage) as [Hle|_]; [simpl slen in Hle; lia|]); [done|].
  assert (Hno : no_char LF (String c0 rest) = true).
  { apply no_char_spec. rewrite chars_cons. intros [E|Hin]%elem_of_cons; [congruence|]. by specialize (Hc _ Hin). }
  assert (last_index_byte LF (s_take maxMessage (String c0 rest)) = None) as Hnone.
  { destruct (last_index_byte _ _) as [i|] eqn:E; [|done]. apply last_index_byte_Some in E as [E _].
    exfalso. assert (no_char LF (s_drop i (s_take maxMessage (String c0 rest))) = true) as Hd; [|rewrite E in Hd; done].
    assert (no_char LF (s_take i (s_take maxMessage (String c0 rest)) +:+ s_drop i (s_take maxMessage (String c0 rest))) = true) as Hd
      by (rewrite s_take_drop; by apply no_char_take).
    rewrite no_char_app in Hd. by apply andb_true_iff in Hd as [_ ?]. }
  unfold cut_at. rewrite Hnone, rune_cut_back by done. destruct (rune_start c0); [|done].
  cbn [s_take s_drop]. unfold trim_prefix, nl. cbn [cut_prefix].
  case_match; [|by rewrite IH]. case_match; simplify_eq. by match goal with E : Ascii.eqb _ _ = true |- _ => apply Ascii.eqb_eq in E end.
Qed.

(** 4096 bytes and a final line break: the second message is empty. *)
Example empty_last_chunk :
  chunks 5000 (of_chars (repeat "a"%char 4096) +:+ nl) = Some [of_chars (repeat "a"%char 4096); ""].
Proof. by vm_compute. Qed.

Example sendMessage_correct_witness :
  let text := of_chars (repeat "a"%char 3000) +:+ nl +:+ of_chars (repeat "b"%char 2000) in
  valid_utf8 text = true ∧
  ∃ init z, pieces (init ++ [z]) text ∧
    Forall (λ c, (slen c ≤ maxMessage)%nat ∧ valid_utf8 c = true) (init ++ [z]) ∧
    sendMessage "t" 7 text NoMarkup (mkBot demo_store [] tt) =
    (mkBot demo_store (((λ c, ("t", SendMessage 7 c NoMarkup)) <$> init) ++ [("t", SendMessage 7 z NoMarkup)]) tt, Some tt).
Proof. intros text. split; [by vm_compute|]. apply (sendMessage_correct "t" 7 text NoMarkup (mkBot demo_store [] tt)). by vm_compute. Defined.
End telegram.
