(* ===== verification/TelegramBot.v ===== *)
(** * TelegramBot: polling and commands (internal/telegram/poller.go)

    One round of the polling loop, who is listened to, what every command does
    and the texts it answers with. *)

From Stdlib Require Import Ascii.
From stdpp Require Import sorting.
From S2P Require Import Prelude GoStr GoErr GoTime Names Store StoreStats Mgmt Control Telegram.

Module telegrambot.
Import store control telegram.

(** ** Durations and dates as text *)

(** [d.Round(time.Second)], halves away from zero. *)
Definition round_second (d : Z) : Z :=
  if d <? 0 then let r := Z.rem (- d) second in if 2 * r <? second then d + r else d - second + r
  else let r := Z.rem d second in if 2 * r <? second then d - r else d + second - r.

(** [String()] of a duration in whole seconds. *)
Definition dur_string (d : Z) : string :=
  let s := Z.abs d / second in
  (if d <? 0 then "-" else "") +:+
  (if 3600 <=? s then itoa (s / 3600) +:+ "h" +:+ itoa (s mod 3600 / 60) +:+ "m" +:+ itoa (s mod 60) +:+ "s"
   else if 60 <=? s then itoa (s / 60) +:+ "m" +:+ itoa (s mod 60) +:+ "s"
   else itoa s +:+ "s").

(** [int(d.Hours() / 24)] of a duration that is not negative. *)
Definition Hours (d : Z) : SpecFloat.spec_float :=
  SpecFloat.SFadd 53 1024 (stats.float64_of_Z (Z.quot d hour))
    (SpecFloat.SFdiv 53 1024 (stats.float64_of_Z (Z.rem d hour)) (stats.float64_of_Z hour)).
Definition days_of (d : Z) : Z :=
  stats.uint64_of_float (SpecFloat.SFdiv 53 1024 (Hours d) (stats.float64_of_Z 24)).

(** ** Names *)

Definition cmdStatus : string := "status".
Definition cmdMenu : string := "menu".
Definition cmdStart : string := "start".
Definition cmdStop : string := "stop".
Definition cmdRestart : string := "restart".
Definition cmdReconnect : string := "reconnect".
Definition cmdDNS : string := "dns".
Definition cmdDNSStart : string := "dns_start".
Definition cmdDNSStop : string := "dns_stop".
Definition cmdDNSRestart : string := "dns_restart".
Definition cmdCerts : string := "certs".

Definition lblStart : string := "▶ start".
Definition lblStop : string := "⏹ stop".
Definition lblRestart : string := "🔄 restart".
Definition lblReconnect : string := "🔌 reconnect".
Definition lblStatus : string := "📊 status".
Definition lblDNS : string := "🌐 dns".
Definition lblCerts : string := "📜 certs".

Definition opsKeyboard : markup :=
  Reply [[lblStart; lblStop]; [lblRestart; lblReconnect]; [lblStatus]; [lblDNS]; [lblCerts]].
Definition dnsKeyboard : markup :=
  Inline [[("start", cmdDNSStart); ("stop", cmdDNSStop); ("restart", cmdDNSRestart)]].

Definition botCommands : list (string * string) :=
  [(cmdStatus, "full status: vpn, dns, certs"); (cmdMenu, "hand out the control-panel keyboard");
   (cmdStart, "bring the tunnel up"); (cmdStop, "bring it down (asks first)");
   (cmdRestart, "full bounce (asks first)"); (cmdReconnect, "SIGUSR1: renegotiate, no restart");
   (cmdDNS, "dnsmasq status + start|stop|restart"); (cmdCerts, "list certs: expiring, expired, revoked, valid")].

Definition menuText : string := "ovcp control panel:".

Definition resultText (ok : string) (e : option goerr) : string :=
  match e with Some e => "⚠️ " +:+ Error e | None => ok end.

(** ** Commands, as data *)

Inductive worker := WVpn | WDns.
Inductive verb := VStart | VStop | VRestart | VReconnect.

(** What a command asks for: an operation on a worker, or only an answer. *)
Inductive reaction :=
  | Operate (w : worker) (v : verb) (ok : string)
  | Ask (text : string) (m : markup)
  | StatusText | DnsLine | CertsText | Silence.

Definition confirm (what data : string) : markup := Inline [[("yes, " +:+ what, data); ("cancel", "cancel")]].

Definition is_one (cmd : string) (l : list string) : bool := existsb (String.eqb cmd) l.
Definition forms (cmd label : string) : list string := ["/" +:+ cmd; cmd; label].

(** "/dns start" is "dns_start". *)
Definition fold_dns (cmd : string) : string :=
  match cut_prefix ("/" +:+ cmdDNS +:+ " ") cmd with Some arg => "dns_" +:+ trim_space arg | None => cmd end.

(** The switch, in order. *)
Definition react (cmd : string) : reaction :=
  if is_one cmd (forms cmdStatus lblStatus) then StatusText
  else if is_one cmd ["/" +:+ cmdMenu; cmdMenu] then Ask menuText opsKeyboard
  else if is_one cmd (forms cmdStart lblStart) then Operate WVpn VStart "🟢 up."
  else if is_one cmd (forms cmdStop lblStop) then Ask "stop the tunnel? every client drops." (confirm "stop" "vpn_stop_confirm")
  else if is_one cmd (forms cmdRestart lblRestart) then
    Ask "restart? full bounce, clients briefly drop." (confirm "restart" "vpn_restart_confirm")
  else if is_one cmd (forms cmdReconnect lblReconnect) then Operate WVpn VReconnect "🔌 reconnect signal sent (SIGUSR1)."
  else if String.eqb cmd "vpn_stop_confirm" then Operate WVpn VStop "🔴 down."
  else if String.eqb cmd "vpn_restart_confirm" then Operate WVpn VRestart "🔄 restarted."
  else if is_one cmd (forms cmdDNS lblDNS) then DnsLine
  else if is_one cmd (forms cmdCerts lblCerts) then CertsText
  else if String.eqb cmd cmdDNSStart then Operate WDns VStart "🟢 dns up."
  else if String.eqb cmd cmdDNSStop then
    Ask "stop dns? clients stop resolving internal names." (confirm "stop" "dns_stop_confirm")
  else if String.eqb cmd cmdDNSRestart then
    Ask "restart dns? full bounce, clients briefly can't resolve." (confirm "restart" "dns_restart_confirm")
  else if String.eqb cmd "dns_stop_confirm" then Operate WDns VStop "🔴 dns down."
  else if String.eqb cmd "dns_restart_confirm" then Operate WDns VRestart "🔄 dns restarted."
  else if String.eqb cmd "cancel" then Ask "cancelled." NoMarkup
  else Silence.

Section Poller.
  Context {E : Type} `{SimpleFolds}.
  Context (vpn dns : Lifecycle (Bot E)) (clients : P (Bot E) (result (list mgmt.VPNClient))).
  Context (CACert : result (string * Z)) (offset : Z → Z) (ProcessStartedAt : Z).

Definition since (t : Z) : P (Bot E) string := now ← the_time; mret (dur_string (round_second (time_sub now t))).

Definition vpnLine : P (Bot E) string :=
  pid ← lc_Pid vpn;
  if pid =? 0 then mret "🔴 vpn down" else
  cl ← clients;
  started ← lc_StartedAt vpn;
  up ← since started;
  mret ("🟢 vpn up (pid " +:+ itoa pid +:+ ", up " +:+ up +:+ ") · " +:+
        itoa (match cl with Ok l => Z.of_nat (length l) | Err _ => 0 end) +:+ " client(s) connected").

Definition dnsLine : P (Bot E) string :=
  pid ← lc_Pid dns;
  if pid =? 0 then mret "🔴 dns down" else
  started ← lc_StartedAt dns;
  up ← since started;
  mret ("🟢 dns up (pid " +:+ itoa pid +:+ ", up " +:+ up +:+ ")").

Definition certLine : P (Bot E) string :=
  r ← on_store (AllCerts CACert);
  now ← the_time;
  let '(live, soon) := CertCounts now (match r with Ok cs => cs | Err _ => [] end) in
  mret (if soon =? 0 then "📜 " +:+ itoa live +:+ " cert(s)"
        else "📜 " +:+ itoa live +:+ " cert(s) · " +:+ itoa soon +:+ " expiring ≤" +:+ itoa ExpiryWarnDays +:+ "d").

Definition certStatusSections : list (string * string) :=
  [("expiring", "⏳ Expiring"); ("expired", "❌ Expired"); ("revoked", "🚫 Revoked"); ("valid", "✅ Valid")].

Definition certDetail (now : Z) (c : Cert) : string :=
  let st := Status now c in
  if String.eqb st "expiring" then itoa (days_of (time_sub (NotAfter c) now)) +:+ "d left"
  else if String.eqb st "expired" then "expired " +:+ itoa (days_of (time_sub now (NotAfter c))) +:+ "d ago"
  else if String.eqb st "revoked" then "revoked"
  else "until " +:+ date_string offset (NotAfter c).

Definition by_expiry (a b : Cert) : Prop := NotAfter a ≤ NotAfter b.
#[local] Instance by_expiry_dec : RelDecision by_expiry := λ a b, decide (NotAfter a ≤ NotAfter b).

Definition section_text (now : Z) (certs : list Cert) (sec : string * string) : string :=
  let g := merge_sort by_expiry (List.filter (λ c, String.eqb (Status now c) sec.1) certs) in
  match g with
  | [] => ""
  | _ => nl +:+ sec.2 +:+ " (" +:+ itoa (Z.of_nat (length g)) +:+ ")" +:+
         concat_s ((λ c, nl +:+ "  · " +:+ CN c +:+ " (" +:+ Kind c +:+ ") — " +:+ certDetail now c) <$> g)
  end.

Definition certsText : P (Bot E) string :=
  r ← on_store (AllCerts CACert);
  now ← the_time;
  mret (match r with
        | Err e => "⚠️ " +:+ Error e
        | Ok certs => "📜 Certificates (" +:+ itoa (Z.of_nat (length certs)) +:+ " total)" +:+
                      concat_s (section_text now certs <$> certStatusSections)
        end).

Definition statusText : P (Bot E) string :=
  up ← since ProcessStartedAt;
  v ← vpnLine; d ← dnsLine; c ← certLine;
  mret (v +:+ nl +:+ d +:+ nl +:+ c +:+ nl +:+ "ovcp up " +:+ up).

(** ** What a command does *)

Definition target (w : worker) : Lifecycle (Bot E) := match w with WVpn => vpn | WDns => dns end.
Definition operation (w : worker) (v : verb) : P (Bot E) (option goerr) :=
  match v with
  | VStart => lc_Start (target w) | VStop => lc_Stop (target w)
  | VRestart => lc_Restart (target w) | VReconnect => lc_Reconnect (target w)
  end.

Definition handleCommand (token : string) (chatID : Z) (cmd : string) : P (Bot E) unit :=
  match react (fold_dns cmd) with
  | StatusText => t ← statusText; sendMessage token chatID t NoMarkup
  | DnsLine => t ← dnsLine; sendMessage token chatID t dnsKeyboard
  | CertsText => t ← certsText; sendMessage token chatID t NoMarkup
  | Ask text m => sendMessage token chatID text m
  | Operate w v ok => e ← operation w v; sendMessage token chatID (resultText ok e) NoMarkup
  | Silence => mret tt
  end.

Definition handle (token admin : string) (u : update) : P (Bot E) unit :=
  '(from, chatID) ← senderOf u;
  if uID from =? 0 then mret tt
  else if negb (matches admin from) then mret tt
  else
    on_store (SetSetting keyChat (itoa chatID)) ;;
    match uCallback u with
    | Some cb => api token (AnswerCallback (cbID cb)) ;; handleCommand token chatID (cbData cb)
    | None => match uMessage u with
              | Some m => handleCommand token chatID (trim_space (mText m))
              | None => mret tt
              end
    end.

(** A batch, and the offset after it. *)
Fixpoint handle_all (token admin : string) (offset : Z) (us : list update) : P (Bot E) Z :=
  match us with
  | [] => mret offset
  | u :: us' => handle token admin u ;; handle_all token admin (UpdateID u + 1) us'
  end.

(** One round of [loop]: the answer to [getUpdates] from [offset], the offset
    and the failures in a row after it. *)
Definition poll_round (token admin : string) (offset streak : Z) (answer : result (list update)) : P (Bot E) (Z * Z) :=
  api token (GetUpdates offset) ;;
  match answer with
  | Err _ => mret (offset, streak + 1)
  | Ok us => o ← handle_all token admin offset us; mret (o, 0)
  end.

Definition loop_start (token : string) : P (Bot E) unit := api token (SetMyCommands botCommands).

(** ** Notifications *)

Definition Notify (text : string) : P (Bot E) unit :=
  admin ← setting keyAdmin;
  token ← setting keyToken;
  if String.eqb admin "" || String.eqb token "" then mret tt else
  chat ← chatIDFor admin;
  match chat with
  | Err _ => mret tt
  | Ok chatID => sendMessage token chatID text NoMarkup
  end.

Definition OnAudit (actor action detail : string) : P (Bot E) unit :=
  if negb (existsb (String.eqb action) notifyActions) then mret tt
  else Notify ("🔔 " +:+ actor +:+ ": " +:+ action +:+ " " +:+ detail).

(** ** Who is listened to *)

(** Who sent an update; no one when it is neither kind. *)
Definition sender (u : update) : user :=
  match uCallback u with Some cb => cbFrom cb | None => match uMessage u with Some m => mFrom m | None => no_user end end.

(** The update reads as one of the administrator's. *)
Definition authorized (admin : string) (u : update) : bool :=
  negb (uID (sender u) =? 0) && matches admin (sender u).

(** A callback without the message it was pressed under, which Telegram leaves
    out of old ones. *)
Definition inaccessible (u : update) : bool :=
  match uCallback u with Some cb => match cbMessage cb with None => true | Some _ => false end | None => false end.

(** What comes before the first of those. *)
Fixpoint readable (us : list update) : list update :=
  match us with u :: r => if inaccessible u then [] else u :: readable r | [] => [] end.

(** The offset after a batch. *)
Definition next_offset (off : Z) (us : list update) : Z := foldl (λ _ u, UpdateID u + 1) off us.

Lemma senderOf_sender u (b : Bot E) : inaccessible u = false → ∃ chat, senderOf u b = (b, Some (sender u, chat)).
Proof.
  intros Hu. unfold senderOf, sender, inaccessible in *. destruct (uCallback u) as [cb|].
  - destruct (cbMessage cb); [by eexists|done].
  - destruct (uMessage u); by eexists.
Qed.

Lemma handle_inaccessible token admin u (b : Bot E) : inaccessible u = true → handle token admin u b = (b, None).
Proof.
  unfold handle, mbind, P_bind, senderOf, inaccessible. destruct (uCallback u) as [cb|]; [|done]. by destruct (cbMessage cb).
Qed.

Lemma handle_stranger token admin u (b : Bot E) : inaccessible u = false → authorized admin u = false →
  handle token admin u b = (b, Some tt).
Proof.
  intros Hu Ha. destruct (senderOf_sender u b Hu) as [chat Hs]. unfold handle, mbind, P_bind. rewrite Hs.
  unfold authorized in Ha. destruct (uID (sender u) =? 0); [done|]. cbn [negb andb] in Ha. by rewrite Ha.
Qed.

Lemma handle_all_cons token admin off u us (b : Bot E) :
  handle_all token admin off (u :: us) b =
  match handle token admin u b with
  | (b', Some _) => handle_all token admin (UpdateID u + 1) us b'
  | (b', None) => (b', None)
  end.
Proof. cbn [handle_all]. unfold mbind, P_bind. by destruct (handle token admin u b) as [b' [[]|]]. Qed.

(** The offset a batch starts from does not matter to what it does. *)
Lemma handle_all_offset token admin off off' us (b : Bot E) :
  (handle_all token admin off us b).1 = (handle_all token admin off' us b).1 ∧
  ((handle_all token admin off us b).2 = None ↔ (handle_all token admin off' us b).2 = None).
Proof. destruct us as [|u us]; [done|]. by rewrite !handle_all_cons. Qed.

(** C34: Only the administrator's updates do anything: a batch has the effect of
    the administrator's updates alone, in their order, whatever anyone else
    sends in between, and the polling moves past all of it; except that a
    callback without its message, whoever pressed it, panics the poller, and
    only what came before it counts. *)
Theorem only_the_admin token admin off us (b : Bot E) :
  let mine := List.filter (authorized admin) (readable us) in
  (handle_all token admin off us b).1 = (handle_all token admin off mine b).1 ∧
  (handle_all token admin off us b).2 =
    (if decide ((handle_all token admin off mine b).2 = None ∨ existsb inaccessible us = true) then None else Some (next_offset off us)).
Proof.
  cbv zeta. revert off b. induction us as [|u us IH]; intros off b; [by cbn|].
  cbn [readable next_offset foldl existsb]. rewrite handle_all_cons. destruct (inaccessible u) eqn:Hu.
  { rewrite handle_inaccessible by done. cbn. rewrite decide_True by (by right). done. }
  cbn [List.filter orb]. destruct (authorized admin u) eqn:Ha.
  - rewrite handle_all_cons. destruct (handle token admin u b) as [b' [[]|]]; [apply IH|by rewrite decide_True by (by left)].
  - rewrite handle_stranger by done. destruct (IH (UpdateID u + 1) b) as [-> ->].
    destruct (handle_all_offset token admin (UpdateID u + 1) off (List.filter (authorized admin) (readable us)) b) as [-> H2].
    split; [done|]. apply decide_ext. by rewrite H2.
Qed.
End Poller.

(** ** What a command may do *)

(** The text the confirmation button of a stop or a restart sends back. *)
Definition confirmation (w : worker) (v : verb) : option string :=
  match w, v with
  | WVpn, VStop => Some "vpn_stop_confirm" | WVpn, VRestart => Some "vpn_restart_confirm"
  | WDns, VStop => Some "dns_stop_confirm" | WDns, VRestart => Some "dns_restart_confirm"
  | _, _ => None
  end.

(** What the bot offers: the slash menu, the keyboard's labels, the DNS
    buttons. *)
Definition offered : list string :=
  ((λ c, "/" +:+ c.1) <$> botCommands) ++ ["/dns start"; "/dns stop"; "/dns restart"] ++
  [lblStart; lblStop; lblRestart; lblReconnect; lblStatus; lblDNS; lblCerts] ++ [cmdDNSStart; cmdDNSStop; cmdDNSRestart].

Definition interrupts (r : reaction) : bool :=
  match r with Operate _ VStop _ | Operate _ VRestart _ => true | _ => false end.

(** The button under an answer that stops or restarts when pressed. *)
Definition buttons (r : reaction) : list string :=
  match r with Ask _ (Inline rows) => snd <$> concat rows | _ => [] end.

Lemma is_one_spec cmd l : is_one cmd l = true ↔ cmd ∈ l.
Proof.
  unfold is_one. rewrite existsb_exists. setoid_rewrite String.eqb_eq. split; [intros (x&Hx&->); by apply list_elem_of_In|].
  intros Hx. exists cmd. by rewrite <- list_elem_of_In.
Qed.

(** A worker is stopped or restarted only by the text of the confirmation
    button for exactly that; everything the bot offers is handled, and none of
    it interrupts anything by itself: asking to stop or restart only shows the
    button, whose text then does it. *)
Theorem interruptions_confirmed :
  (∀ cmd w v ok, react cmd = Operate w v ok → v = VStop ∨ v = VRestart → confirmation w v = Some cmd) ∧
  (∀ w v cmd, confirmation w v = Some cmd → ∃ ok, react (fold_dns cmd) = Operate w v ok) ∧
  (∀ cmd, cmd ∈ offered → react (fold_dns cmd) ≠ Silence ∧ interrupts (react (fold_dns cmd)) = false) ∧
  (∀ w v cmd, confirmation w v = Some cmd → ∃ c, c ∈ offered ∧ buttons (react (fold_dns c)) = [cmd; "cancel"]).
Proof.
  split_and!.
  - intros cmd w v ok. unfold react. repeat case_match; intros [= <- <- <-] [?|?]; try done;
      by match goal with E : String.eqb _ _ = true |- _ => apply String.eqb_eq in E as -> end.
  - intros [] [] cmd [= <-]; eexists; by vm_compute.
  - intros cmd Hc. assert (forallb (λ c, negb (interrupts (react (fold_dns c))) &&
      match react (fold_dns c) with Silence => false | _ => true end) offered = true) as Hall by by vm_compute.
    rewrite forallb_forall in Hall. apply list_elem_of_In, Hall, andb_true_iff in Hc as [Hi Hs].
    apply negb_true_iff in Hi. split; [|done]. by destruct (react _).
  - intros [] [] cmd [= <-]; [exists "/stop"|exists "/restart"|exists cmdDNSStop|exists cmdDNSRestart];
      (split; [by apply (bool_decide_unpack _); vm_compute|by vm_compute]).
Qed.
(** ** Witnesses: workers that log what they are asked *)

Module demo_bot.
Definition ascii_folds : SimpleFolds :=
  {| simple_fold r := if (65 <=? r) && (r <=? 90) then r + 32 else if (97 <=? r) && (r <=? 122) then r - 32 else r |}.
Definition Log : Type := Bot (list string).
Definition asked (what : string) : P Log (option goerr) := λ b, (mkBot (bst b) (calls b) (ext b ++ [what]), Some None).
Definition logging (name : string) : Lifecycle Log :=
  mkLifecycle _ (asked (name +:+ " start")) (asked (name +:+ " stop")) (asked (name +:+ " restart"))
    (asked (name +:+ " reconnect")) (λ b, (b, Some 42)) (λ b, (b, Some 0)).
Definition bot0 : Log := mkBot demo_store [] [].
Definition from (id : Z) (name text : string) : update :=
  mkUpdate id (Some (mkMessage 77 (mkUser id name) text)) None.
Definition pressed (id : Z) (name data : string) : update :=
  mkUpdate id None (Some (mkCallback "q" (mkUser id name) data (Some (mkMessage 77 (mkUser 99 "bot") "")))).
(** A stranger presses the confirmation; the administrator asks for a stop. *)
Definition batch : list update :=
  [pressed 3 "mallory" "vpn_stop_confirm"; from 4 "Alice" " /stop "; from 5 "" "/start"; pressed 6 "ALICE" "dns_restart_confirm"].
End demo_bot.
Import demo_bot.

Definition demo_all := @handle_all _ ascii_folds (logging "vpn") (logging "dns") (λ b, (b, Some (Ok []))) (Err (Errorf "no ca" [])) (λ _, 0) 0.

Example only_the_admin_witness :
  let mine := List.filter (@authorized ascii_folds "@alice") (readable batch) in
  UpdateID <$> mine = [4; 6] ∧ ext (demo_all "t" "@alice" 0 batch bot0).1 = ["dns restart"] ∧
  (demo_all "t" "@alice" 0 batch bot0).1 = (demo_all "t" "@alice" 0 mine bot0).1 ∧
  (demo_all "t" "@alice" 0 batch bot0).2 =
    (if decide ((demo_all "t" "@alice" 0 mine bot0).2 = None ∨ existsb inaccessible batch = true) then None else Some (next_offset 0 batch)).
Proof.
  intros mine. split; [by vm_compute|]. split; [by vm_compute|].
  apply (@only_the_admin _ ascii_folds (logging "vpn") (logging "dns") (λ b, (b, Some (Ok [])))
    (Err (Errorf "no ca" [])) (λ _, 0) 0 "t" "@alice" 0 batch bot0).
Defined.

(** A callback without its message: an ordinary update of the Bot API's type
    that the sender's lookup dereferences before anyone is authorized. *)
Example inaccessible_message_panics :
  (demo_all "t" "@alice" 0 [mkUpdate 1 None (Some (mkCallback "q" (mkUser 3 "mallory") "x" None))] bot0).2 = None.
Proof. done. Qed.
End telegrambot.
