(* ===== verification/TelegramLoop.v ===== *)
(** * TelegramLoop: what the bot goes through (internal/telegram/bot.go, poller.go)

    One call of the Bot API, and the polling loop from its start to the end of
    its context: which updates it handles, in which order and how often. The
    Bot API's update queue is an interface with what its documentation
    promises. *)

From Stdlib Require Import Ascii.
From stdpp Require Import sorting.
From S2P Require Import Prelude GoStr GoErr Store Mgmt Control Telegram TelegramBot.

Module telegramloop.
Import store control telegram telegrambot.

(** ** One call *)

(** The answer's envelope, and what the client of net/http and encoding/json
    make of a request and of texts. *)
Record Envelope := mkEnvelope { env_ok : bool; env_description : string; env_result : string }.

Section Call.
  Context {W : Type} (apiBase : string).
  Context (new_request : string → string → option goerr) (Do : string → string → W → W * result string).
  Context (decode : string → result Envelope).

(** [out] reads the result; [None] when it is not asked for. *)
Definition call {A} (token method body : string) (out : option (string → result A)) (w : W) : W * result (option A) :=
  let url := apiBase +:+ token +:+ "/" +:+ method in
  match new_request url body with
  | Some e => (w, Err e)
  | None =>
      match Do url body w with
      | (w, Err e) => (w, Err e)
      | (w, Ok resp) => (w,
          env ← decode resp;
          if negb (env_ok env) then Err (Errorf "telegram: %s" [env_description env])
          else match out with Some f => Some <$> f (env_result env) | None => Ok None end)
      end
  end.

Definition getUpdates (token : string) (marshal : Z → string) (updates : string → result (list update)) (offset : Z) (w : W)
  : W * result (list update) :=
  let '(w, r) := call token "getUpdates" (marshal offset) (Some updates) w in (w, default [] <$> r).

(** An answer that says it is not ok is an error, whatever else it holds. *)
Lemma call_refused {A} token method body (out : option (string → result A)) w w' resp env :
  new_request (apiBase +:+ token +:+ "/" +:+ method) body = None →
  Do (apiBase +:+ token +:+ "/" +:+ method) body w = (w', Ok resp) → decode resp = Ok env → env_ok env = false →
  call token method body out w = (w', Err (Errorf "telegram: %s" [env_description env])).
Proof. intros Hn Hd Hc Hk. unfold call. rewrite Hn, Hd, Hc. cbn. by rewrite Hk. Qed.
End Call.

(** ** The queue of updates *)

(** core.telegram.org/bots/api#getupdates: [received] are the updates the
    queue held unconfirmed and those that have come since; [confirmed] is the
    greatest offset a request has brought; [expired] are the ids of what was
    kept for longer than a day and thrown away. *)
Class Updates (V : Type) := {
  ask : Z → V → V * result (list update);
  received : V → list update;
  confirmed : V → Z;
  expired : V → list Z }.

Definition id_lt (a b : update) : Prop := UpdateID a < UpdateID b.
Definition from_id (c : Z) (u : update) : Prop := c ≤ UpdateID u.
#[export] Instance from_id_dec c u : Decision (from_id c u).
Proof. unfold from_id. apply _. Defined.

Definition kept (gone : list Z) (u : update) : Prop := UpdateID u ∉ gone.
#[export] Instance kept_dec gone u : Decision (kept gone u).
Proof. unfold kept. apply _. Defined.

(** The ids grow from one update to the next: the documentation promises it as
    long as no week passes without an update; after one the next id is chosen
    at random. What a request returns is promised here only while they do. *)
Definition ids_ascend {V} `{Updates V} (v : V) : Prop := StronglySorted id_lt (received v).

Class UpdatesLaws (V : Type) `{Updates V} : Prop := {
  ids_positive v u : u ∈ received v → 0 < UpdateID u;
  received_grows off v : ∃ more, received (ask off v).1 = received v ++ more;
  expired_grows off v : expired v ⊆ expired (ask off v).1;
  ask_ok off v v' us : ask off v = (v', Ok us) → confirmed v' = Z.max (confirmed v) off ∧
    (ids_ascend v' → ∃ n, us = take n (filter (kept (expired v')) (filter (from_id (confirmed v')) (received v'))));
  ask_err off v v' e : ask off v = (v', Err e) → confirmed v' = confirmed v ∨ confirmed v' = Z.max (confirmed v) off }.

(** ** The loop *)

Definition getUpdatesWarnThreshold : Z := 3.
(** A failure is logged as a warning from the third in a row on. *)
Definition warns (streak : Z) : bool := getUpdatesWarnThreshold <=? streak.

Section Loop.
  Context {V X : Type} `{Updates V} `{SimpleFolds}.
  Context (vpn dns : Lifecycle (Bot X)) (clients : P (Bot X) (result (list mgmt.VPNClient))).
  Context (CACert : result (string * Z)) (offset : Z → Z) (ProcessStartedAt : Z).
  Context (token admin : string).

Notation poll := (poll_round vpn dns clients CACert offset ProcessStartedAt token admin).
Notation handle_all := (handle_all vpn dns clients CACert offset ProcessStartedAt token admin).

Definition on_queue {A} (f : V → V * A) : P (V * Bot X) A := λ s, let '(v, a) := f s.1 in ((v, s.2), Some a).
Definition on_bot {A} (m : P (Bot X) A) : P (V * Bot X) A := λ s, let '(b, a) := m s.2 in ((s.1, b), a).

Definition answered (r : result (list update)) : list update := match r with Ok us => us | Err _ => [] end.

(** [n] rounds before the context ends; with the result the updates gone
    through. *)
Fixpoint rounds (n : nat) (off streak : Z) : P (V * Bot X) (list update * (Z * Z)) :=
  match n with
  | O => mret ([], (off, streak))
  | S n =>
      ans ← on_queue (ask off);
      '(off, streak) ← on_bot (poll off streak ans);
      '(us, r) ← rounds n off streak;
      mret (answered ans ++ us, r)
  end.

Definition loop (n : nat) : P (V * Bot X) (list update * (Z * Z)) :=
  on_bot (loop_start token) ;; rounds n 0 0.

(** What the bot itself does: it handles the updates one after the other, and
    asks for more with the offset of the last one handled. *)
Inductive goes : Z → list update → Bot X → Bot X → Prop :=
  | goes_nowhere off b : goes off [] b b
  | goes_ask off us b b' : goes off us (api token (GetUpdates off) b).1 b' → goes off us b b'
  | goes_handle off u us b b1 b' :
      handle vpn dns clients CACert offset ProcessStartedAt token admin u b = (b1, Some tt) →
      goes (UpdateID u + 1) us b1 b' → goes off (u :: us) b b'.

Lemma p_bind_inv {D A B} (m : P D A) (f : A → P D B) d d' b : mbind f m d = (d', Some b) →
  ∃ d1 a, m d = (d1, Some a) ∧ f a d1 = (d', Some b).
Proof. unfold mbind, P_bind. destruct (m d) as [d1 [a|]]; [|done]. eauto. Qed.

Lemma goes_app off us us' b b1 b' : goes off us b b1 → goes (next_offset off us) us' b1 b' → goes off (us ++ us') b b'.
Proof. induction 1; cbn; [done|intros; apply goes_ask; auto|]. intros. eapply goes_handle; eauto. Qed.

Lemma handle_all_goes off us b b' o : handle_all off us b = (b', Some o) → o = next_offset off us ∧ goes off us b b'.
Proof.
  revert off b. induction us as [|u us IH]; intros off b.
  - intros [= <- <-]. split; [done|constructor].
  - rewrite handle_all_cons. destruct (handle _ _ _ _ _ _ _ _ u b) as [b1 [[]|]] eqn:E; [|done].
    intros [-> Hg]%IH. split; [done|]. by eapply goes_handle.
Qed.

Lemma poll_goes off streak ans b b' o s : poll off streak ans b = (b', Some (o, s)) →
  o = next_offset off (answered ans) ∧ goes off (answered ans) b b'.
Proof.
  unfold poll_round. intros (b1&[]&E0&E1)%p_bind_inv. destruct ans as [us|e]; cbn in *.
  - apply p_bind_inv in E1 as (b2&o'&E2&E3). injection E3 as <- <- _. apply handle_all_goes in E2 as [-> Hg].
    split; [done|]. constructor. by rewrite E0.
  - injection E1 as <- <- _. split; [done|]. constructor. rewrite E0. constructor.
Qed.

(** ** Sorted updates and offsets *)

Lemma next_offset_app off a b : next_offset off (a ++ b) = next_offset (next_offset off a) b.
Proof. apply foldl_app. Qed.

Lemma sorted_split (a b : list update) : StronglySorted id_lt (a ++ b) →
  (∀ x y, x ∈ a → y ∈ b → id_lt x y) ∧ StronglySorted id_lt a.
Proof.
  induction a as [|x a IH]; cbn; [intros _; split; [set_solver|constructor]|].
  intros [Hs Hf]%StronglySorted_inv. rewrite Forall_app, !Forall_forall in Hf. destruct Hf as [Hfa Hfb].
  destruct (IH Hs) as [H1 H2]. split.
  - intros y z [->|Hy]%elem_of_cons Hz; [by apply Hfb|by apply H1].
  - constructor; [done|]. by apply Forall_forall.
Qed.

(** Past a sorted batch, the offset is above all of it. *)
Lemma next_offset_above a off x : StronglySorted id_lt a → x ∈ a → UpdateID x < next_offset off a.
Proof.
  intros Hs Hx. destruct (last a) as [y|] eqn:El; [|by rewrite last_None in El; subst; apply elem_of_nil in Hx].
  apply last_Some in El as [l ->]. rewrite next_offset_app. cbn. apply sorted_split in Hs as [Hs _].
  apply elem_of_app in Hx as [Hx|Hx]; [|apply list_elem_of_singleton in Hx as ->; lia].
  specialize (Hs x y Hx ltac:(by left)). unfold id_lt in Hs. lia.
Qed.

Lemma next_offset_below a b off y : StronglySorted id_lt (a ++ b) → y ∈ b → off ≤ UpdateID y → next_offset off a ≤ UpdateID y.
Proof.
  intros Hs Hy Ho. destruct (last a) as [x|] eqn:El; [|by rewrite last_None in El; subst].
  apply last_Some in El as [l ->]. rewrite next_offset_app. cbn. apply sorted_split in Hs as [Hs _].
  specialize (Hs x y ltac:(set_solver) Hy). unfold id_lt in Hs. lia.
Qed.

Lemma filter_all_in {A} (P : A → Prop) `{∀ x, Decision (P x)} (l : list A) : (∀ x, x ∈ l → P x) → filter P l = l.
Proof.
  induction l as [|x l IH]; [done|]. intros Hl. rewrite filter_cons, decide_True by (apply Hl; by left).
  f_equal. apply IH. intros y Hy. apply Hl. by right.
Qed.
Lemma filter_none {A} (P : A → Prop) `{∀ x, Decision (P x)} (l : list A) : (∀ x, x ∈ l → ¬ P x) → filter P l = [].
Proof.
  induction l as [|x l IH]; [done|]. intros Hl. rewrite filter_cons, decide_False by (apply Hl; by left).
  apply IH. intros y Hy. apply Hl. by right.
Qed.

(** Some of a filtered list from its front is some of the list from its front,
    filtered. *)
Lemma take_filter_front {A} (P : A → Prop) `{∀ x, Decision (P x)} k (l : list A) :
  ∃ j, take k (filter P l) = filter P (take j l).
Proof.
  revert k. induction l as [|x l IH]; intros k; [exists 0%nat; by destruct k|]. rewrite filter_cons. case_decide as Hx.
  - destruct k as [|k]; [by exists 0%nat|]. destruct (IH k) as [j Hj]. exists (S j). rewrite !firstn_cons, filter_cons, decide_True by done. by rewrite Hj.
  - destruct (IH k) as [j Hj]. exists (S j). by rewrite firstn_cons, filter_cons, decide_False.
Qed.

Lemma sublist_in {A} (a b : list A) x : a `sublist_of` b → x ∈ a → x ∈ b.
Proof. induction 1; set_solver. Qed.
Lemma sublist_sorted (a b : list update) : a `sublist_of` b → StronglySorted id_lt b → StronglySorted id_lt a.
Proof.
  induction 1 as [|x a b Hab IH|x a b Hab IH]; intros Hs; [done| |]; apply StronglySorted_inv in Hs as [Hs Hf]; [|by apply IH].
  constructor; [by apply IH|]. rewrite Forall_forall in *. intros y Hy. by apply Hf, (sublist_in a).
Qed.

(** What is asked for after [done], of a front [seen] whose rest is gone, is
    what is left of the rest. *)
Lemma filter_rest gone seen rest done : StronglySorted id_lt (seen ++ rest) → (∀ x, x ∈ rest → 0 < UpdateID x) →
  done `sublist_of` seen → (∀ u, u ∈ seen → u ∈ done ∨ UpdateID u ∈ gone) →
  filter (kept gone) (filter (from_id (next_offset 0 done)) (seen ++ rest)) = filter (kept gone) rest.
Proof.
  intros Hs Hp Hd Hg. assert (StronglySorted id_lt (done ++ rest)) as Hs'.
  { apply (sublist_sorted _ (seen ++ rest)); [by apply sublist_app|done]. }
  rewrite !filter_app, (filter_none (kept gone)), (filter_all_in (from_id _)); [done| |].
  - intros x Hx. apply (next_offset_below done rest); [done..|]. specialize (Hp x Hx). lia.
  - intros x [Hf Hx]%list_elem_of_filter Hk. destruct (Hg x Hx) as [Hin|Hin]; [|done].
    apply sorted_split in Hs' as [_ Hs']. pose proof (next_offset_above done 0 x Hs' Hin). unfold from_id in Hf. lia.
Qed.

Lemma filter_sorted (P : update → Prop) `{∀ x, Decision (P x)} l : StronglySorted id_lt l → StronglySorted id_lt (filter P l).
Proof.
  induction 1 as [|x l Hs IH Hf]; [constructor|]. rewrite filter_cons. case_decide; [|done].
  constructor; [done|]. rewrite Forall_forall in *. intros y [_ Hy]%list_elem_of_filter. auto.
Qed.

Lemma filter_filter_max c off (l : list update) : filter (from_id (Z.max c off)) l = filter (from_id off) (filter (from_id c) l).
Proof. rewrite list_filter_filter. apply list_filter_iff. intros u. unfold from_id. lia. Qed.

(** ** A run of the loop *)

Context `{!UpdatesLaws V}.

(** What a loop may come to see: the updates not confirmed when it starts. *)
Definition pending (c0 : Z) (v : V) : list update := filter (from_id c0) (received v).

Lemma pending_sorted c0 v : ids_ascend v → StronglySorted id_lt (pending c0 v).
Proof. apply filter_sorted. Qed.
Lemma pending_grows c0 off v : ∃ more, pending c0 (ask off v).1 = pending c0 v ++ more.
Proof. destruct (received_grows off v) as [more E]. exists (filter (from_id c0) more). unfold pending. by rewrite E, filter_app. Qed.

(** [done] went through all of a front of the queue but what had expired. *)
Definition went (c0 : Z) (v : V) (done : list update) : Prop :=
  ∃ m, done `sublist_of` take m (pending c0 v) ∧ ∀ u, u ∈ take m (pending c0 v) → u ∈ done ∨ UpdateID u ∈ expired v.

(** The loop between two rounds: [done] are the updates gone through since it
    started, when the queue's offset was [c0]. *)
Record between (c0 : Z) (v : V) (done : list update) (off : Z) : Prop := {
  bt_done : went c0 v done;
  bt_off : off = next_offset 0 done;
  bt_conf : c0 ≤ confirmed v ≤ Z.max c0 off }.

Lemma take_app_grow {A} m (l more : list A) : ∃ m', take m l = take m' (l ++ more).
Proof.
  exists (m `min` length l)%nat. rewrite take_app_le by lia. destruct (decide (m ≤ length l)%nat).
  - by rewrite Nat.min_l.
  - by rewrite Nat.min_r, !take_ge by lia.
Qed.

Lemma went_ask c0 v done off : went c0 v done → went c0 (ask off v).1 done.
Proof.
  intros (m&Hd&Hg). destruct (pending_grows c0 off v) as [more E]. destruct (take_app_grow m (pending c0 v) more) as [m' Hm].
  exists m'. rewrite E, <-Hm. split; [done|]. intros u Hu. destruct (Hg u Hu) as [?|?%(expired_grows off v)]; auto.
Qed.

Lemma went_on c0 v done k : went c0 v done → ids_ascend v →
  let us := take k (filter (kept (expired v)) (filter (from_id (Z.max c0 (next_offset 0 done))) (received v))) in
  went c0 v (done ++ us).
Proof.
  intros (m&Hd&Hg) Hs%(pending_sorted c0). rewrite filter_filter_max. fold (pending c0 v).
  pose proof (take_drop m (pending c0 v)) as Htd.
  assert (filter (kept (expired v)) (filter (from_id (next_offset 0 done)) (pending c0 v))
    = filter (kept (expired v)) (drop m (pending c0 v))) as ->.
  { pose proof (filter_rest (expired v) (take m (pending c0 v)) (drop m (pending c0 v)) done) as Hr. rewrite Htd in Hr.
    apply Hr; [done| |done|done].
    intros x Hx%subseteq_drop. eapply ids_positive. by apply list_elem_of_filter in Hx as [_ Hx]. }
  cbv zeta. destruct (take_filter_front (kept (expired v)) k (drop m (pending c0 v))) as [j ->].
  exists (m + j)%nat. rewrite <-take_take_drop. split.
  - apply sublist_app; [done|]. apply sublist_filter.
  - intros u [Hu|Hu]%elem_of_app.
    + destruct (Hg u Hu); [left|by right]. apply elem_of_app. by left.
    + destruct (decide (UpdateID u ∈ expired v)); [by right|left]. apply elem_of_app. right. by apply list_elem_of_filter.
Qed.

Lemma offset_grows off us : StronglySorted id_lt us → (∀ u, u ∈ us → off ≤ UpdateID u) → off ≤ next_offset off us.
Proof.
  intros Hs Hu. destruct us as [|u us]; [cbn; lia|]. pose proof (next_offset_above (u :: us) off u Hs ltac:(left)).
  specialize (Hu u ltac:(left)). lia.
Qed.

(** The next batch is the next part of the queue. *)
Lemma between_step c0 v done off v' ans : between c0 v done off → ask off v = (v', ans) → ids_ascend v' →
  between c0 v' (done ++ answered ans) (next_offset off (answered ans)).
Proof.
  intros [Hd Ho Hc] E Hs. apply (went_ask _ _ _ off) in Hd. rewrite E in Hd. cbn in Hd.
  assert (next_offset off (answered ans) = next_offset 0 (done ++ answered ans)) as Hn by by rewrite next_offset_app, <-Ho.
  destruct ans as [us|e]; cbn [answered] in *.
  - apply ask_ok in E as [Ec Hk]. destruct (Hk Hs) as [k Hus]. rewrite Ec in Hus.
    replace (Z.max (confirmed v) off) with (Z.max c0 off) in Hus by lia. split; [|done|].
    + rewrite Hus, Ho. by apply went_on.
    + enough (off ≤ next_offset off us) by lia. apply offset_grows; rewrite Hus.
      * eapply sublist_sorted; [apply sublist_take|]. by apply filter_sorted, filter_sorted.
      * intros u Hu%subseteq_take. apply list_elem_of_filter in Hu as [_ Hu]. apply list_elem_of_filter in Hu as [Hf _].
        unfold from_id in Hf. lia.
  - rewrite app_nil_r in *. cbn in *. split; [done..|]. apply ask_err in E. lia.
Qed.

Lemma rounds_inv n off streak v b v' b' us r : rounds (S n) off streak (v, b) = ((v', b'), Some (us, r)) →
  ∃ v1 ans b1 streak1 us1, ask off v = (v1, ans) ∧ goes off (answered ans) b b1 ∧ us = answered ans ++ us1 ∧
    rounds n (next_offset off (answered ans)) streak1 (v1, b1) = ((v', b'), Some (us1, r)).
Proof.
  cbn [rounds]. intros ([v1 b0]&ans&E1&E)%p_bind_inv. unfold on_queue in E1. cbn in E1. destruct (ask off v) as [v1' ans'] eqn:Ea.
  injection E1 as -> <- ->. apply p_bind_inv in E as ([v2 b2]&[off1 streak1]&E2&E). unfold on_bot in E2. cbn in E2.
  destruct (poll off streak ans b) as [b2' r2] eqn:Ep. injection E2 as <- -> ->. apply poll_goes in Ep as [-> Hg].
  apply p_bind_inv in E as ([v3 b3]&[us3 r3]&E3&E). injection E as -> -> <- ->. by exists v1, ans, b2, streak1, us3.
Qed.

Lemma rounds_grow n off streak v b v' b' us r : rounds n off streak (v, b) = ((v', b'), Some (us, r)) →
  ∃ more, received v' = received v ++ more.
Proof.
  revert off streak v b us. induction n as [|n IH]; intros off streak v b us.
  - intros [= <- _ _ _]. exists []. by rewrite app_nil_r.
  - intros (v1&ans&b1&s1&us1&Ea&_&_&[more E]%IH)%rounds_inv. destruct (received_grows off v) as [more' E'].
    rewrite Ea in E'. cbn in E'. rewrite E, E', <-app_assoc. by eexists.
Qed.

Lemma rounds_between c0 n off streak v b v' b' us off' streak' done : between c0 v done off → ids_ascend v' →
  rounds n off streak (v, b) = ((v', b'), Some (us, (off', streak'))) → between c0 v' (done ++ us) off' ∧ goes off us b b'.
Proof.
  intros Hb Hs. revert off streak v b us done Hb. induction n as [|n IH]; intros off streak v b us done Hb.
  - intros [= <- <- <- <- <-]. rewrite app_nil_r. split; [done|constructor].
  - intros (v1&ans&b1&s1&us1&Ea&Hg&->&E)%rounds_inv. assert (ids_ascend v1) as Hs1.
    { destruct (rounds_grow _ _ _ _ _ _ _ _ _ E) as [more Em]. unfold ids_ascend in *. rewrite Em in Hs. by apply sorted_split in Hs as [_ Hs]. }
    eapply IH in E as [Hb' Hg']; [|by eapply between_step]. rewrite app_assoc. split; [done|]. by eapply goes_app.
Qed.

Lemma sorted_nodup us : StronglySorted id_lt us → NoDup us.
Proof.
  induction 1 as [|x l _ IH Hf]; constructor; [|done]. intros Hin. rewrite Forall_forall in Hf. specialize (Hf x Hin). unfold id_lt in Hf. lia.
Qed.

(** C38: What the bot goes through between its start and its end, as long as
    no week without updates makes the ids start over and nothing panics it: the
    updates the queue held unconfirmed and those that come meanwhile, in their
    order, from the first on, none twice, and none left out but what Telegram
    threw away after a day. It handles exactly these and in this order, and all
    it does besides is to ask for more. Only what it has gone through is ever
    confirmed, so what it has not is still there for the next start, however
    many requests fail. *)
Theorem loop_in_order n v b v' b' us off streak
  (E : loop n (v, b) = ((v', b'), Some (us, (off, streak)))) (Hc : 0 ≤ confirmed v) (Hids : ids_ascend v') :
  goes 0 us (loop_start token b).1 b' ∧
  (∃ seen rest, pending (confirmed v) v' = seen ++ rest ∧ us `sublist_of` seen ∧
    (∀ u, u ∈ seen → u ∈ us ∨ UpdateID u ∈ expired v') ∧
    ∀ u, u ∈ rest → u ∈ pending (confirmed v') v') ∧
  NoDup us ∧ off = next_offset 0 us ∧ confirmed v ≤ confirmed v' ≤ Z.max (confirmed v) off.
Proof.
  unfold loop in E. apply p_bind_inv in E as ([v1 b1]&[]&E1&E). unfold on_bot in E1. cbn in E1. injection E1 as <- <-.
  assert (between (confirmed v) v [] 0) as Hb by (split; [exists 0%nat; set_solver|done|lia]).
  apply (rounds_between _ _ _ _ _ _ _ _ _ _ _ [] Hb Hids) in E as [[(m&Hd&Hg) Ho Hconf] Hgo]. cbn [app] in Hd, Hg, Ho.
  pose proof (pending_sorted (confirmed v) v' Hids) as Hs. pose proof (take_drop m (pending (confirmed v) v')) as Htd.
  assert (StronglySorted id_lt (us ++ drop m (pending (confirmed v) v'))) as Hs'.
  { eapply sublist_sorted; [|exact Hs]. rewrite <-Htd at 2. by apply sublist_app. }
  split_and!; [done| | |done|lia|lia].
  - exists (take m (pending (confirmed v) v')), (drop m (pending (confirmed v) v')). split_and!; [done..|]. intros u Hu.
    pose proof Hu as [Hf Hin]%subseteq_drop%list_elem_of_filter. apply list_elem_of_filter. split; [|done]. unfold from_id in *.
    pose proof (ids_positive v' u Hin) as Hpos. pose proof (next_offset_below us _ 0 u Hs' Hu ltac:(lia)). lia.
  - by apply sorted_nodup; apply sorted_split in Hs' as [_ Hs'].
Qed.

End Loop.

(** ** A queue that keeps the promises *)

Module demo_queue.
(** Messages, numbered from one; what comes before each coming request, what
    is thrown away by then and whether it fails. *)
Record queue := mkQueue { q_msgs : list message; q_conf : Z; q_gone : list Z; q_coming : list (list message * list Z * option goerr) }.

Definition numbered (ms : list message) : list update := imap (λ i m, mkUpdate (Z.of_nat i + 1) (Some m) None) ms.

#[export] Instance queue_updates : Updates queue := {
  ask off q :=
    let '(ms, old, fault) := default ([], [], None) (head (q_coming q)) in
    let msgs := q_msgs q ++ ms in let gone := q_gone q ++ old in
    match fault with
    | Some e => (mkQueue msgs (q_conf q) gone (tail (q_coming q)), Err e)
    | None => let c := Z.max (q_conf q) off in
              (mkQueue msgs c gone (tail (q_coming q)), Ok (take 2 (filter (kept gone) (filter (from_id c) (numbered msgs)))))
    end;
  received q := numbered (q_msgs q);
  confirmed := q_conf;
  expired := q_gone }.

Lemma numbered_ids ms u : u ∈ numbered ms → 0 < UpdateID u.
Proof. intros (i&Hi)%list_elem_of_lookup. unfold numbered in Hi. rewrite list_lookup_imap in Hi. destruct (ms !! i); [|done]. injection Hi as <-. cbn. lia. Qed.

Lemma numbered_snoc ms m : numbered (ms ++ [m]) = numbered ms ++ [mkUpdate (Z.of_nat (length ms) + 1) (Some m) None].
Proof. unfold numbered. by rewrite imap_app; cbn; rewrite Nat.add_0_r. Qed.

Lemma numbered_sorted ms : StronglySorted id_lt (numbered ms).
Proof.
  induction ms as [|m ms IH] using rev_ind; [constructor|]. rewrite numbered_snoc.
  assert (∀ u, u ∈ numbered ms → UpdateID u < Z.of_nat (length ms) + 1) as Hlt.
  { intros u (i&Hi)%list_elem_of_lookup. unfold numbered in Hi. rewrite list_lookup_imap in Hi.
    destruct (ms !! i) eqn:Em; [|done]. apply lookup_lt_Some in Em. injection Hi as <-. cbn. lia. }
  clear -IH Hlt. induction IH as [|x l _ IH Hf]; cbn; [repeat constructor|]. constructor.
  - apply IH. intros u Hu. apply Hlt. by right.
  - apply Forall_app. split; [done|]. constructor; [|constructor]. apply Hlt. by left.
Qed.

#[export] Instance queue_laws : UpdatesLaws queue.
Proof.
  split.
  - intros v u. apply numbered_ids.
  - intros off v. cbn. destruct (default _ _) as [[ms old] fault].
    assert (∃ more, numbered (q_msgs v ++ ms) = numbered (q_msgs v) ++ more) as [more E] by (eexists; apply imap_app).
    destruct fault; cbn; by exists more.
  - intros off v. cbn. destruct (default _ _) as [[ms old] []]; cbn; set_solver.
  - intros off v v' us. cbn. destruct (default _ _) as [[ms old] [e|]]; [done|]. intros [= <- <-]. split; [done|]. by exists 2%nat.
  - intros off v v' e. cbn. destruct (default _ _) as [[ms old] [e'|]]; [|done]. intros [= <- _]. by left.
Qed.
End demo_queue.
Import demo_queue demo_bot.

Definition says (text : string) : message := mkMessage 77 (mkUser 4 "Alice") text.

(** Three messages waiting, one more during a request that fails, while the
    third is thrown away, and one later. *)
Definition queue0 : queue :=
  mkQueue [says "/start"; says "/dns start"; says "/start"] 0 []
    [([], [], None); ([says "/reconnect"], [3], Some (ExternalErr "timeout")); ([says "hello"], [], None)].

Definition demo_loop (n : nat) := @loop queue (list string) _ ascii_folds (logging "vpn") (logging "dns") (λ b, (b, Some (Ok [])))
  (Err (Errorf "no ca" [])) (λ _, 0) 0 "t" "@alice" n.

Example loop_in_order_witness :
  (∃ v' b' us, demo_loop 3 (queue0, bot0) = ((v', b'), Some (us, (6, 0))) ∧ NoDup us ∧ length us = 4%nat) ∧
  ext (demo_loop 3 (queue0, bot0)).1.2 = ["vpn start"; "dns start"; "vpn reconnect"].
Proof.
  split; [|by vm_compute]. destruct (demo_loop 3 (queue0, bot0)) as [[v' b'] r] eqn:E.
  assert (r = Some ([mkUpdate 1 (Some (says "/start")) None; mkUpdate 2 (Some (says "/dns start")) None;
                     mkUpdate 4 (Some (says "/reconnect")) None; mkUpdate 5 (Some (says "hello")) None], (6, 0))) as ->
    by (apply (f_equal snd) in E; vm_compute in E; by rewrite <-E).
  exists v', b'. eexists. split; [done|].
  split; [|done]. exact (proj1 (proj2 (proj2 (loop_in_order (logging "vpn") (logging "dns") (λ b, (b, Some (Ok [])))
    (Err (Errorf "no ca" [])) (λ _, 0) 0 "t" "@alice" 3 queue0 bot0 v' b' _ 6 0 E ltac:(cbn; lia) (numbered_sorted _))))).
Defined.

(** A bot stopped after a batch and before its next request has not confirmed
    the batch: the next start goes through it again. *)
Example handled_twice :
  let '((v, b), _) := demo_loop 1 (mkQueue [says "/start"] 0 [] [], bot0) in ext (demo_loop 1 (v, b)).1.2 = ["vpn start"; "vpn start"].
Proof. by vm_compute. Qed.
End telegramloop.
