(* ===== verification/ServerApi.v ===== *)
(** * ServerApi: the remaining actions of the web API (internal/api/handlers.go, results.go, logs.go)

    The server as a whole, with its workers: health, the signed-in user, ending
    sessions, rotation, status, the lifecycle routes, the bot's settings, the
    log level and the two archives. *)

From Stdlib Require Import Ascii.
From stdpp Require Import sorting.
From S2P Require Import Prelude GoStr GoErr GoFs GoTime GoEnc NetIP Names Upstream UpstreamApply Store StoreUsers Totp.
From S2P Require Import Auth Mgmt Control OvpnConf Pki LogRotate World CertApi UserApi ConfigApi UpstreamApi Records Backup Telegram.

Module serverapi.
Import store users auth world certapi userapi configapi logrotate upstreamapi control.

(** ** The running server *)

(** [DebugLevel] is the logger's level; [sent] are the calls made to the
    Telegram API. *)
Record Host (S H : Type) := mkHost { sv : Serve S H; DebugLevel : Z; sent : list (string * telegram.apicall) }.
Arguments mkHost {S H}. Arguments sv {S H}. Arguments DebugLevel {S H}. Arguments sent {S H}.

Definition hdb {S H} (h : Host S H) : Store := db (wd (sv h)).
Definition hdisk {S H} (h : Host S H) : Fs := disk (wd (sv h)).

Definition Act (S H B : Type) : Type := Host S H → Host S H * result B.
#[export] Instance Act_ret S H : MRet (Act S H) := λ _ a h, (h, Ok a).
#[export] Instance Act_bind S H : MBind (Act S H) := λ _ _ f m h,
  match m h with (h', Ok a) => f a h' | (h', Err e) => (h', Err e) end.

Definition a_fail {S H B} (e : goerr) : Act S H B := λ h, (h, Err e).
Definition a_of {S H B} (r : result B) : Act S H B := λ h, (h, r).
Definition on_x {S H B} (m : X S H B) : Act S H B := λ h,
  let '(x, r) := m (sv h) in (mkHost x (DebugLevel h) (sent h), r).
Definition w_ {S H B} (m : W S B) : Act S H B := on_x (on_w m).
Definition m_ {S H B} (m : M B) : Act S H B := w_ (on_db m).
Definition a_err {S H B} (f : goerr → goerr) (m : Act S H B) : Act S H B := λ h,
  match m h with (h', Err e) => (h', Err (f e)) | r => r end.

(** A panic, whatever the errors it was given on the way. *)
Fixpoint panicked (e : goerr) : bool :=
  match e with
  | ExternalErr w => has_prefix "panic: " w
  | Wrapf _ _ e' | HTTPError _ e' => panicked e'
  | Joined es => existsb panicked es
  | Sentinel _ | Errorf _ _ => false
  end.

(** An error looked at; a panic goes through. *)
Definition a_try {S H B} (m : Act S H B) : Act S H (result B) := λ h,
  match m h with
  | (h', Err e) => (h', if panicked e then Err e else Ok (Err e))
  | (h', Ok b) => (h', Ok (Ok b))
  end.

(** A worker's computation. *)
Definition on_p {S H B} (m : P (Host S H) (result B)) : Act S H B := λ h,
  match m h with (h', Some r) => (h', r) | (h', None) => (h', Err (pki.go_panic "worker")) end.

(** The bot's settings, over the server's store. *)
Definition on_bot {S H B} (m : P (telegram.Bot unit) (result B)) : Act S H B := λ h,
  match m (telegram.mkBot (hdb h) [] tt) with
  | (b, r) => (mkHost (mkServe (set_db (wd (sv h)) (telegram.bst b)) (trk (sv h))) (DebugLevel h) (sent h ++ telegram.calls b),
               match r with Some r => r | None => Err (pki.go_panic "telegram") end)
  end.

(** The workers of a serve process; there is no dnsmasq worker without
    dnsmasq. *)
Record Runtime (S H : Type) := mkRuntime {
  rt_VPN : Lifecycle (Host S H); rt_DNS : option (Lifecycle (Host S H)); rt_Telegram : TelegramController (Host S H);
  rt_AfterVPNStart : option (P (Host S H) (option goerr)); rt_started : Z }.
Arguments rt_VPN {S H}. Arguments rt_DNS {S H}. Arguments rt_Telegram {S H}.
Arguments rt_AfterVPNStart {S H}. Arguments rt_started {S H}.

(** ** The host's routing *)

(** What the host answers: the forwarding switch's file, and the listing of
    the nat table, [None] without iptables on PATH. *)
Record Probe := mkProbe { ip_forward : result string; iptables : option (result string) }.

Definition ipForwardEnabled (p : Probe) : bool :=
  match ip_forward p with Ok b => String.eqb (trim_space b) "1" | Err _ => false end.

(** Whether a rule is there, and whether that could be told. *)
Definition natConfigured (p : Probe) : bool * bool :=
  match iptables p with
  | Some (Ok out) => let up := to_upper out in (contains "MASQUERADE" up || contains "SNAT" up, true)
  | _ => (false, false)
  end.

Definition RoutingPrereqsWarning (p : Probe) (ovcpNAT : bool) : string :=
  let '(found, checked) := natConfigured p in
  let missing :=
    (if ipForwardEnabled p then [] else ["IPv4 forwarding is off (sysctl -w net.ipv4.ip_forward=1)"]) ++
    (if negb ovcpNAT && checked && negb found then ["no outbound NAT/masquerade rule found in iptables' nat table"] else []) in
  match missing with [] => "" | _ => "baseline routing: " +:+ join "; " missing end.

(** The path [LookPath] finds and what [--version] prints: the version line's
    name and version. *)
Definition binVersion (found : option (string * string)) (verIdx : nat) : option (string * string) :=
  '(p, out) ← found;
  let fs := fields (cut LF out).1.1 in
  name ← fs !! 0%nat;
  ver ← fs !! verIdx;
  Some (name +:+ " " +:+ ver, p).

(** ** Results *)

(** What the server is told at start. *)
Record Facts := mkFacts {
  Version : string; BuildTarget : string; Platform : string; OpenVPNVersion : string; OpenVPNPath : string;
  DnsmasqVersion : string; DnsmasqPath : string; NftVersion : string; NftPath : string; UpstreamsEnabled : bool }.

(** [meCA]: the authority's name, expiry and status. *)
Record Me := mkMe {
  meUsername : string; meRole : string; meServerCN : string; meFacts : Facts;
  meMinSecretLen : nat; meMinSecretClasses : nat; mePollSecs : Z; meCA : option (string * Z * string) }.

Record Status := mkStatus {
  sRunning : bool; sPid : Z; sStartedAt : Z; sServeStartedAt : Z; sError : string; sClients : list mgmt.VPNClient;
  sDNSRunning : bool; sDNSPid : Z; sDNSStartedAt : Z; sCertsTotal : Z; sCertsExpiring : Z;
  sTelegram : option TelegramStatus; sRoutingWarning : string; sUpstreamsEnabled : bool;
  sUpstreamDefault : string; sUpstreamWarning : string }.

Definition bool_of {B} (o : option B) : bool := match o with Some _ => true | None => false end.

(** [Download]: a file's name and type, and what writes it. *)
Record Download (S H : Type) := mkDownload { dName : string; dType : string; dWrite : Act S H string }.
Arguments mkDownload {S H}. Arguments dName {S H}. Arguments dType {S H}. Arguments dWrite {S H}.

Record StatusExport := mkStatusExport {
  seGeneratedAt : Z; seServerCN : string; seVersion : string; seVPNUp : bool; seClients : list mgmt.VPNClient;
  seCerts : list Cert; seUsers : list UserSummary; seConfig : ovpnconf.Config }.

(** [StatusSource]: where [BuildStatus] reads live state. *)
Record StatusSource (S H : Type) := mkSource {
  ss_VPN : Act S H ControlResult; ss_DNS : Act S H ControlResult;
  ss_Clients : Act S H (list mgmt.VPNClient); ss_Telegram : Act S H TelegramStatus }.
Arguments mkSource {S H}. Arguments ss_VPN {S H}. Arguments ss_DNS {S H}.
Arguments ss_Clients {S H}. Arguments ss_Telegram {S H}.

(** An archive of named files, and the export's JSON. *)
Class Zip := { zip_write : list (string * string) → string }.
Class ExportJson := { export_json : StatusExport → result string }.

Section Handlers.
  Context {S H : Type} `{mgmt.Server S} `{tracker.HostOps H}.
  Context `{pki.X509} `{!pki.EcPem} `{pki.EnvelopeJson} `{pki.Calendar} `{Argon2} `{Aead} `{UnicodeTables}.
  Context `{backup.Tar} `{backup.Snapshot} `{Zip} `{ExportJson}.
  Context `{!JsonInto upstream.Config} `{!JsonInto LogConfig} `{!JsonInto StatsConfig} `{!JsonInto DNSConfig}.
  Context (getenv : string → string) (unmarshal_config : string → ovpnconf.Config → ovpnconf.Config).
  Context (srv : Server) (DefaultRemote : World S → string) (facts : Facts) (rt : Runtime S H).
  Context (getMe : string → option goerr) (offset : Z → Z).

Notation Act := (Act S H).

Definition audit (actor action detail : string) : Act unit := w_ (world.audit actor action detail).
Definition a_now : Act Z := w_ w_now.
Definition remote : Act string := w_ (records.w_remote DefaultRemote).

(** ** Health and identity *)

Definition handleHealthz : Act string := a_err (λ _, http_fail 503 "db unreachable") (m_ Ping) ;; mret "ok".

(** The authority's certificate: its name and expiry. *)
Definition ca_cert : Act (string * Z) :=
  c ← w_ (on_pki (pki.CACert (Dir srv)));
  mret (pki.Subject (pki.body c), pki.NotAfter (pki.body c)).

Definition me (u : User) : Act Me :=
  cn ← remote;
  cfg ← m_ (configapi.LoadConfig getenv unmarshal_config);
  ca ← a_try ca_cert;
  t ← a_now;
  mret (mkMe (Username u) (Role u) cn facts MinSecretLen MinSecretClasses (ovpnconf.EffectiveStatusInterval cfg)
          (match ca with
           | Ok (cn, na) => Some (cn, na, store.Status t (mkCert "" "" "" "" zero_time na None false))
           | Err _ => None
           end)).

Definition handleMe (u : User) : Act Me := me u.

(** ** Sessions, logs, audit *)

(** [kill] is the caller's transport. *)
Definition Kill (actor cn : string) (kill : string → string → X S H Z) : X S H Msg :=
  n ← kill cn "HALT";
  if n =? 0 then x_fail (Wrapf "%s: %w" [cn] (Sentinel ErrNotConnected)) else
  upstreamapi.audit actor "kill" ("cn=" +:+ cn) ;;
  mret (mkMsg ("killed " +:+ cn) true).

Definition handleKill (actor cn : string) : X S H Msg :=
  if String.eqb cn "" then x_fail (http_fail 400 "cn required") else Kill actor cn (λ cn msg, on_w (mgmt_kill cn msg)).

Definition RotateLogs (actor dataDir : string) : W S Msg :=
  cfg ← on_db (LoadLogConfig getenv);
  t ← w_now;
  on_disk (logrotate.RotateLogs (logrotate.quiet t) (LogPaths (join_path dataDir "logs")) cfg) ;;
  world.audit actor "log_rotate" "" ;;
  mret (mkMsg "rotated" true).

Definition handleLogsRotate (actor : string) : W S Msg := RotateLogs actor (DataDir srv).

Definition handleAudit : W S (list AuditEntry) := w_err (HTTPError 500) (on_db (AuditTail 200)).

(** ** The log level *)

Definition LevelDebug : Z := -4.
Definition LevelInfo : Z := 0.

Definition handleDebugGet : Act bool := λ h, (h, Ok (DebugLevel h <=? LevelDebug)).

Definition set_level (l : Z) : Act unit := λ h, (mkHost (sv h) l (sent h), Ok tt).

Definition handleDebugSet (actor : string) (on : bool) : Act bool :=
  set_level (if on then LevelDebug else LevelInfo) ;;
  audit actor ("debug_" +:+ (if on then "on" else "off")) "" ;;
  mret on.

(** ** The workers *)

(** 409 for an operation in flight, 404 for an unknown one, else 502. *)
Definition opStatus (e : goerr) : Z :=
  if errors_is e ErrBusy then 409 else if errors_is e ErrUnknownOp then 404 else 502.

(** A worker that is not there panics. *)
Definition handleProc (name : string) (target : option (Lifecycle (Host S H))) (isVPN : bool) (actor op : string) :
    Act ControlResult :=
  match target with
  | None => a_fail (pki.go_panic "nil dereference")
  | Some t =>
      res ← a_err (λ e, HTTPError (opStatus e) e)
              (on_p (RunOp (rt_started rt) t op isVPN (if isVPN then rt_AfterVPNStart rt else None)));
      (if String.eqb op "status" then mret tt else audit actor (name +:+ "_" +:+ op) ("pid=" +:+ itoa (cr_Pid res))) ;;
      mret res
  end.

Definition telegram_status : Act TelegramStatus := on_p (st ← tc_Status (rt_Telegram rt); mret (Ok st)).

Definition handleTelegramConfigGet : Act TelegramStatus := telegram_status.

Definition handleTelegramConfigSet (actor token admin : string) : Act TelegramStatus :=
  on_bot (telegram.SetTelegram getMe actor admin token) ;; telegram_status.

Definition handleTelegramOp (actor op : string) : Act TelegramStatus :=
  st ← a_err (λ e, HTTPError (opStatus e) e) (on_p (RunTelegramOp (rt_Telegram rt) op));
  (if String.eqb op "status" then mret tt
   else audit actor ("telegram_" +:+ op) ("running=" +:+ (if tg_Running st then "true" else "false"))) ;;
  mret st.

(** ** Status *)

Definition liveSource : StatusSource S H := mkSource
  (on_p (RunOp (rt_started rt) (rt_VPN rt) "status" true None))
  (match rt_DNS rt with
   | None => mret (mkControlResult 0 false zero_time zero_time)
   | Some t => on_p (RunOp (rt_started rt) t "status" false None)
   end)
  (w_ (mgmt_status (StatusPath srv)))
  telegram_status.

Definition all_certs : Act (list Cert) :=
  ca ← a_try ca_cert; m_ (AllCerts ca).

(** An unreachable serve leaves the dns and bot fields unasked. *)
Definition BuildStatus (probe : Probe) (src : StatusSource S H) (upstreams : bool) : Act Status :=
  v ← a_try (ss_VPN src);
  '(run, err, clients) ← (match v with
    | Err e => mret (None, Error e, [])
    | Ok r => if cr_Pid r =? 0 then mret (None, "", []) else
        cl ← a_try (ss_Clients src);
        mret (match cl with Err e => (Some r, Error e, []) | Ok cl => (Some r, "", cl) end)
    end : Act (option ControlResult * string * list mgmt.VPNClient));
  '(dns, tg) ← (match v with
    | Err _ => mret (None, None)
    | Ok _ =>
        d ← a_try (ss_DNS src);
        t ← a_try (ss_Telegram src);
        mret (match d with Ok d => if cr_Pid d =? 0 then None else Some d | Err _ => None end, records.ok_or_none t)
    end : Act (option ControlResult * option TelegramStatus));
  certs ← a_try all_certs;
  t ← a_now;
  let '(total, expiring) := match certs with Ok cs => CertCounts t cs | Err _ => (0, 0) end in
  '(def, down) ← (if upstreams then
      cfg ← m_ (LoadUpstreamConfig getenv);
      w ← on_x (down_warning (upstream.Upstreams cfg));
      mret (upstream.Default cfg, w)
    else mret ("", "") : Act (string * string));
  mret (mkStatus (bool_of run) (from_option cr_Pid 0 run) (from_option cr_StartedAt zero_time run)
          (match v with Ok r => cr_ServeStartedAt r | Err _ => zero_time end) err clients
          (bool_of dns) (from_option cr_Pid 0 dns) (from_option cr_StartedAt zero_time dns)
          total expiring tg (RoutingPrereqsWarning probe upstreams) upstreams def down).

Definition handleStatus (probe : Probe) : Act Status := BuildStatus probe liveSource (UpstreamsEnabled facts).

(** ** Archives *)

Definition handleBackup (actor passphrase : string) : Act (Download S H) :=
  if String.eqb passphrase "" then a_fail (http_fail 400 "passphrase required") else
  t ← a_now;
  mret (mkDownload ("ovcp-backup-" +:+ file_stamp offset t +:+ ".ovcpbak") "application/octet-stream"
    (data ← w_ (backup.Create (DataDir srv) passphrase);
     audit actor "backup_create" "" ;;
     mret data)).

(** [os.ReadDir]'s regular files, in name order; unreadable, none. *)
Definition dir_names (dir : string) (m : gmap string string) : list string :=
  merge_sort s_le (filter (λ n, no_char "/" n = true) (omap (cut_prefix (dir +:+ "/")) (map_to_list m).*1)).
Definition ReadDir (dir : string) : F (list string) := λ s,
  match next_fault s with
  | Some _ => (after s (files s), Ok [])
  | None => (after s (files s), Ok (dir_names dir (files s)))
  end.

(** The files that can be read, with their contents. *)
Fixpoint read_files (dir : string) (names : list string) : Act (list (string * string)) :=
  match names with
  | [] => mret []
  | n :: ns =>
      r ← w_ (w_try (on_disk (ReadFile (join_path dir n))));
      rest ← read_files dir ns;
      mret (match r with Ok d => (n, d) :: rest | Err _ => rest end)
  end.

Definition audit_line (e : AuditEntry) : string :=
  rfc3339 offset (TS e) +:+ " " +:+ Actor e +:+ " " +:+ Action e +:+ " " +:+ Detail e +:+ nl.

Definition statusExport : Act StatusExport :=
  clients ← a_try (w_ (mgmt_status (StatusPath srv)));
  t ← a_now;
  cn ← remote;
  pid ← on_p (p ← lc_Pid (rt_VPN rt); mret (Ok p));
  cfg ← m_ (configapi.LoadConfig getenv unmarshal_config);
  certs ← a_try (m_ ListCerts);
  users ← a_try (m_ ListUsers);
  mret (mkStatusExport t cn (Version facts) (negb (pid =? 0) && is_ok clients) (default [] (records.ok_or_none clients))
          (default [] (records.ok_or_none certs)) (NewUserSummary <$> default [] (records.ok_or_none users)) cfg).

Definition writeAuditZip : Act string :=
  names ← w_ (on_disk (ReadDir (join_path (DataDir srv) "logs")));
  logs ← read_files (join_path (DataDir srv) "logs") names;
  trail ← a_try (m_ (AuditEach (-1)));
  ex ← statusExport;
  mret (zip_write (logs ++ [("audit.log", concat_s (audit_line <$> default [] (records.ok_or_none trail)))] ++
                   match export_json ex with Ok d => [("status.json", d)] | Err _ => [] end)).

Definition handleLogsDownload : Act (Download S H) :=
  t ← a_now;
  cn ← remote;
  let cn := records.sanitizeFilename cn in
  mret (mkDownload ((if String.eqb cn "" then "ovcp-audit-" else "ovcp-audit-" +:+ cn +:+ "-") +:+
                    file_stamp offset t +:+ ".zip") "application/zip" writeAuditZip).
End Handlers.
End serverapi.
