(* ===== verification/HttpApi.v ===== *)
(** * HttpApi: the web API's front (internal/api/api.go, handlers.go)

    Which route serves a request, what its role and the session must be, how
    errors become statuses, and signing in and out. *)

From Stdlib Require Import Ascii.
From S2P Require Import Prelude GoStr GoErr GoFs GoEnc Names Store StoreUsers StoreStats StoreInv Totp Auth.
From S2P Require Import Mgmt OvpnConf Pki World CertApi UserApi ServerApi.

Module httpapi.
Import store users auth world serverapi.

(** ** Requests and routes *)

(** [segments]: the path split at its slashes, unescaped, as the multiplexer
    sees it; [query]: each name's first value, in name order. *)
Record Request := mkRequest {
  Method : string; segments : list string; query : list (string * string); Body : string;
  session_ck : option string; csrf_ck : option string; csrf_hdr : string; RemoteAddr : string }.

(** A pattern's method and segments. *)
Definition pattern_method (p : string) : string := (cut " " p).1.1.
Definition pattern_segments (p : string) : list string := tl (split "/" (cut " " p).1.2).

Definition is_wild (seg : string) : bool := has_prefix "{" seg.

(** A wildcard takes one segment that is not empty. *)
Definition match_segment (pat seg : string) : bool :=
  if is_wild pat then negb (String.eqb seg "") else String.eqb pat seg.
Fixpoint match_segments (pats segs : list string) : bool :=
  match pats, segs with
  | [], [] => true
  | p :: ps, s :: ss => match_segment p s && match_segments ps ss
  | _, _ => false
  end.
(** GET also serves HEAD. *)
Definition match_method (pat meth : string) : bool :=
  String.eqb pat meth || (String.eqb pat "GET" && String.eqb meth "HEAD").
Definition match_route (p : string) (r : Request) : bool :=
  match_method (pattern_method p) (Method r) && match_segments (pattern_segments p) (segments r).

(** ** Responses *)

(** [Aborted]: the handler panicked, which the server recovers from by closing
    the connection. *)
Inductive response (A : Type) := Reply (a : A) | Failure (code : Z) (msg : string) | Aborted.
Arguments Reply {A}. Arguments Failure {A}. Arguments Aborted {A}.

(** [respond]: an [httpError]'s own status, an unknown target 404, else 400. *)
Fixpoint http_code (e : goerr) : option Z :=
  match e with
  | HTTPError c _ => Some c
  | Wrapf _ _ e' => http_code e'
  | Joined es => fold_right (λ e' r, match http_code e' with Some c => Some c | None => r end) None es
  | _ => None
  end.
Definition status_of (e : goerr) : Z :=
  match http_code e with
  | Some c => c
  | None => if errors_is e ErrNotConnected || errors_is e ErrNoActiveCert || errors_is e ErrNoUpstream then 404 else 400
  end.
Definition respond {A} (r : result A) : response A :=
  match r with Ok a => Reply a | Err e => if panicked e then Aborted else Failure (status_of e) (Error e) end.

(** A path's values for the names a pattern's wildcards have. *)
Fixpoint path_values (pats segs : list string) : list (string * string) :=
  match pats, segs with
  | p :: ps, s :: ss =>
      match cut_prefix "{" p with
      | Some name => (trim_suffix "}" name, s) :: path_values ps ss
      | None => path_values ps ss
      end
  | _, _ => []
  end.

(** [clientIP]: up to the last colon. *)
Definition clientIP (r : Request) : string :=
  match last_index_byte ":" (RemoteAddr r) with
  | Some (S i) => s_take (S i) (RemoteAddr r)
  | _ => RemoteAddr r
  end.

Section Front.
  Context {S H : Type} `{UnicodeTables} `{Argon2} `{Sha256} `{Hmac : totp.Hmac} `{Aead} `{pki.X509} `{!pki.EcPem}.
  Context (getenv : string → string) (unmarshal_config : string → ovpnconf.Config → ovpnconf.Config).
  Context (srv : certapi.Server) (DefaultRemote : World S → string) (facts : Facts).

(** ** The guard of every route that is not public *)

Definition csrf_ok (r : Request) : bool :=
  String.eqb (Method r) "GET" ||
  match csrf_ck r with Some c => negb (String.eqb c "") && String.eqb (csrf_hdr r) c | None => false end.

Definition wrap {B} (required : string) (serve : User → Act S H (response B)) (r : Request) : Act S H (response B) :=
  match session_ck r with
  | None => mret (Failure 401 "not authenticated")
  | Some c =>
      v ← w_ (w_try (on_db (Validate c)));
      match v with
      | Err _ | Ok None => mret (Failure 401 "not authenticated")
      | Ok (Some u) =>
          if negb (csrf_ok r) then mret (Failure 403 "csrf check failed")
          else if negb (Can (Role u) required) then mret (Failure 403 "insufficient role")
          else serve u
      end
  end.

(** ** Signing in and out *)

Record Cookie := mkCookie { ck_name : string; ck_value : string; ck_http_only : bool; ck_max_age : Z }.

Definition sessionCookie : string := "ovcp_session".
Definition csrfCookie : string := "ovcp_csrf".

Definition set_svc (w : World S) (a : Service) : World S := mkWorld a (disk w) (conn w).

Definition w_login (username password totp ip : string) : W S (string * User) := λ w,
  let '(a, r) := Login username password totp ip (svc w) in (set_svc w a, r).

Definition randToken : W S string := raw ← on_db (rand_read 32); mret (encode_raw base64_url raw).

Definition login_error (e : goerr) : goerr :=
  match e with
  | Sentinel ErrTOTPRequired => userapi.http_fail 401 "totp required"
  | Sentinel ErrRateLimited => userapi.http_fail 429 "too many attempts, try again later"
  | _ => userapi.http_fail 401 "invalid credentials"
  end.

(** The cookies set; the CSRF token's randomness is never refused. *)
Definition handleLogin (r : Request) (username password totp : string) : Act S H (list Cookie * Me) :=
  '(token, u) ← w_ (w_err login_error (w_login username password totp (clientIP r)));
  csrf ← w_ (w_try randToken);
  let age := Z.quot SessionTTL second in
  m ← me getenv unmarshal_config srv DefaultRemote facts u;
  mret ([mkCookie sessionCookie token true age;
         mkCookie csrfCookie (match csrf with Ok t => t | Err _ => "" end) false age], m).

Definition handleLogout (r : Request) : W S (list Cookie) :=
  (match session_ck r with Some c => w_ignore (on_db (Logout c)) | None => mret tt end) ;;
  mret [mkCookie sessionCookie "" false (-1)].
End Front.
End httpapi.
