(* ===== verification/TsGen.v ===== *)
(** * TsGen: the web API's types for the web UI (internal/api/ts.go)

    The route table's inputs and outputs as TypeScript declarations, read off
    Go types by reflection. A Go type is a handle; what reflection tells about
    it is a parameter, as the types are whatever the program declares. *)

From Stdlib Require Import Ascii.
From stdpp Require Import sorting.
From S2P Require Import Prelude GoStr GoErr GoFs.

Module tsgen.

(** ** What reflection tells *)

(** The kinds [ts] tells apart; [Number] stands for the integer and float
    kinds it lists, which neither [uint8] nor [uintptr] is. *)
Record Field (T : Type) := mkField { f_name : string; f_tag : string; f_type : T; f_anonymous : bool; f_exported : bool }.
Inductive kind (T : Type) :=
  | Pointer (elem : T) | KString | KBool | Number | Uint8 | Slice (elem : T) | KMap (key elem : T)
  | Struct (fields : list (Field T)) | Other.
Arguments mkField {T}. Arguments f_name {T}. Arguments f_tag {T}. Arguments f_type {T}. Arguments f_anonymous {T}.
Arguments f_exported {T}. Arguments Pointer {T}. Arguments KString {T}. Arguments KBool {T}. Arguments Number {T}.
Arguments Uint8 {T}. Arguments Slice {T}. Arguments KMap {T}. Arguments Struct {T}. Arguments Other {T}.

(** [Name] and [String], the kind, the type [patched] answers where the type
    has that method, and whether it, or its pointer, marshals itself. *)
Record Type_ (T : Type) := mkType {
  Name : string; String_ : string; Kind : kind T; patched : option T; json_marshaler : bool; text_marshaler : bool }.
Arguments mkType {T}. Arguments Name {T}. Arguments String_ {T}. Arguments Kind {T}. Arguments patched {T}.
Arguments json_marshaler {T}. Arguments text_marshaler {T}.

(** ** Fields as encoding/json names them *)

Record jsonFieldOf (T : Type) := mkJsonField { j_name : string; j_type : T; j_optional : bool }.
Arguments mkJsonField {T}. Arguments j_name {T}. Arguments j_type {T}. Arguments j_optional {T}.

(** A computation may not end ([None]) and may panic ([Err]). *)
Definition R (A : Type) : Type := option (result A).
#[export] Instance R_ret : MRet R := λ _ a, Some (Ok a).
#[export] Instance R_bind : MBind R := λ _ _ f m,
  match m with Some (Ok a) => f a | Some (Err e) => Some (Err e) | None => None end.

(** A step on the value of a computation. *)
Notation "f <$$> m" := (x ← m; mret (f x)) (at level 61, left associativity).

Section Gen.
  Context {T : Type} `{EqDecision T} (info : T → Type_ T) (timeT downloadT : T).

Definition is_struct (t : T) : bool := match Kind (info t) with Struct _ => true | _ => false end.
Definition fields_of (t : T) : list (Field T) := match Kind (info t) with Struct fs => fs | _ => [] end.

Section JsonFields.
  Context (embedded : T → R (list (jsonFieldOf T))).
Definition json_field1 (f : Field T) : R (list (jsonFieldOf T)) :=
  let '(name, opts, _) := cut "," (f_tag f) in
  if String.eqb name "-" then mret []
  else if f_anonymous f && String.eqb name "" && is_struct (f_type f) then embedded (f_type f)
  else if f_exported f then
    mret [mkJsonField (if String.eqb name "" then f_name f else name) (f_type f)
            (contains "omitempty" opts || contains "omitzero" opts)]
  else mret [].
Fixpoint json_fields_go (fs : list (Field T)) : R (list (jsonFieldOf T)) :=
  match fs with
  | [] => mret []
  | f :: fs => a ← json_field1 f; b ← json_fields_go fs; mret (a ++ b)
  end.
End JsonFields.

Fixpoint jsonFields (fuel : nat) (t : T) : R (list (jsonFieldOf T)) :=
  match fuel with
  | O => None
  | S fuel => json_fields_go (jsonFields fuel) (fields_of t)
  end.

(** The first of that name. *)
Definition jsonField (fuel : nat) (t : T) (name : string) : R (option (jsonFieldOf T)) :=
  fs ← jsonFields fuel t; mret (List.find (λ f, String.eqb (j_name f) name) fs).

(** A pattern's {names}; one that is not a string field of the input panics. *)
Fixpoint wildcards_go (fuel : nat) (pattern : string) (i : T) (segs : list string) : R (list string) :=
  match segs with
  | [] => mret []
  | seg :: segs =>
      match cut_prefix "{" seg with
      | None => wildcards_go fuel pattern i segs
      | Some name =>
          let name := trim_suffix "}" name in
          f ← jsonField fuel i name;
          match f with
          | Some f => match Kind (info (j_type f)) with
                      | KString => names ← wildcards_go fuel pattern i segs; mret (name :: names)
                      | _ => Some (Err (Errorf "%s: {%s} is not a string field of %s" [pattern; name; String_ (info i)]))
                      end
          | None => Some (Err (Errorf "%s: {%s} is not a string field of %s" [pattern; name; String_ (info i)]))
          end
      end
  end.
Definition wildcards (fuel : nat) (pattern : string) (i : T) : R (list string) :=
  wildcards_go fuel pattern i (split "/" pattern).

(** ** Types *)

Record tsGen := mkTsGen { decls : gmap string string; types : gmap string T }.

Definition G (A : Type) : Type := tsGen → R (A * tsGen).
#[export] Instance G_ret : MRet G := λ _ a g, Some (Ok (a, g)).
#[export] Instance G_bind : MBind G := λ _ _ f m g, '(a, g) ← m g; f a g.
Definition g_panic {A} (msg : string) : G A := λ _, Some (Err (ExternalErr msg)).
Definition g_of {A} (r : R A) : G A := λ g, a ← r; mret (a, g).

Section Fields.
  Context (ts : T → G string).
Fixpoint field_texts (fs : list (jsonFieldOf T)) : G string :=
  match fs with
  | [] => mret ""
  | f :: fs =>
      s ← ts (j_type f);
      rest ← field_texts fs;
      mret (" " +:+ j_name f +:+ (if j_optional f then "?" else "") +:+ ": " +:+ s +:+ ";" +:+ rest)
  end.

(** [fields], of a type whose JSON fields are known. *)
Definition fields_text (fs : list (jsonFieldOf T)) : G string :=
  match fs with
  | [] => mret "Record<string, never>"
  | _ => body ← field_texts fs; mret ("{" +:+ body +:+ " }")
  end.
End Fields.

Definition register (t : T) : G unit := λ g, mret (tt, mkTsGen (decls g) (<[Name (info t) := t]> (types g))).
Definition declare (t : T) (d : string) : G unit := λ g, mret (tt, mkTsGen (<[Name (info t) := d]> (decls g)) (types g)).

Fixpoint ts (fuel : nat) (t : T) : G string :=
  match fuel with
  | O => λ _, None
  | S fuel =>
      if decide (t = timeT) then mret "string"
      else if decide (t = downloadT) then mret "Download"
      else match patched (info t) with
      | Some t' => ts fuel t'
      | None =>
      if json_marshaler (info t) then g_panic ("ts: " +:+ String_ (info t) +:+ " has its own MarshalJSON")
      else if text_marshaler (info t) then mret "string"
      else match Kind (info t) with
      | Pointer e => s ← ts fuel e; mret (s +:+ " | null")
      | KString => mret "string"
      | KBool => mret "boolean"
      | Number => mret "number"
      | Slice e =>
          match Kind (info e) with
          | Uint8 => mret "string"
          | _ =>
              s ← ts fuel e;
              if negb (contains_any " |" s) then mret (s +:+ "[]")
              else s ← ts fuel e; mret ("(" +:+ s +:+ ")[]")
          end
      | KMap k e => a ← ts fuel k; b ← ts fuel e; mret ("Record<" +:+ a +:+ ", " +:+ b +:+ ">")
      | Struct _ =>
          fs ← g_of (jsonFields fuel t);
          if String.eqb (Name (info t)) "" || bool_decide (fs = []) then fields_text (ts fuel) fs
          else λ g,
            match types g !! Name (info t) with
            | Some seen =>
                if decide (seen = t) then mret (Name (info t), g)
                else g_panic ("ts: " +:+ String_ (info t) +:+ " and " +:+ String_ (info seen) +:+ " share a name") g
            | None =>
                (register t ;; d ← fields_text (ts fuel) fs; declare t d ;; mret (Name (info t))) g
            end
      | Uint8 | Other => g_panic ("ts: unsupported " +:+ String_ (info t))
      end
      end
  end.

(** ** The whole file *)

Record route := mkRoute { pattern : string; r_in : T; r_out : T }.

Fixpoint route_lines (fuel : nat) (rs : list route) : G string :=
  match rs with
  | [] => mret ""
  | r :: rs =>
      a ← ts fuel (r_in r);
      b ← ts fuel (r_out r);
      rest ← route_lines fuel rs;
      mret ("  " +:+ quote (pattern r) +:+ ": { in: Partial<" +:+ a +:+ ">; out: " +:+ b +:+ " }" +:+ nl +:+ rest)
  end.

Definition decl_lines (d : gmap string string) : string :=
  concat_s ((λ name, "export interface " +:+ name +:+ " " +:+ default "" (d !! name) +:+ nl) <$> merge_sort s_le (map_to_list d).*1).

Definition file_head : string :=
  "// Generated from internal/api's routes by `go run ./cmd/apits`; do not edit." +:+ nl +:+ nl +:+
  "export interface Routes {" +:+ nl.
Definition file_middle : string := "}" +:+ nl +:+ nl +:+ "export interface Download { blob: Blob; filename: string }" +:+ nl.

Definition TypeScript (fuel : nat) (routes : list route) : R string :=
  '(lines, g) ← route_lines fuel routes (mkTsGen ∅ ∅);
  mret (file_head +:+ lines +:+ file_middle +:+ decl_lines (decls g)).

(** ** What the text stands for

    A TypeScript type as data: a word, a nullable, an array, a record, an
    object with its fields in order, or the interface of a Go type. *)

Inductive ty :=
  | TyWord (s : string) | TyNull (t : ty) | TyArray (t : ty) | TyRecord (k v : ty) | TyObj (fs : ty_fields) | TyRef (t : T)
with ty_fields := TyNil | TyCons (name : string) (optional : bool) (t : ty) (fs : ty_fields).

Fixpoint print (t : ty) : string :=
  match t with
  | TyWord s => s
  | TyNull t => print t +:+ " | null"
  | TyArray t => if contains_any " |" (print t) then "(" +:+ print t +:+ ")[]" else print t +:+ "[]"
  | TyRecord k v => "Record<" +:+ print k +:+ ", " +:+ print v +:+ ">"
  | TyObj fs => "{" +:+ print_fields fs +:+ " }"
  | TyRef t => Name (info t)
  end
with print_fields (fs : ty_fields) : string :=
  match fs with
  | TyNil => ""
  | TyCons n o t fs => " " +:+ n +:+ (if o then "?" else "") +:+ ": " +:+ print t +:+ ";" +:+ print_fields fs
  end.

(** The interfaces a type mentions. *)
Fixpoint refs (t : ty) : list T :=
  match t with
  | TyWord _ => []
  | TyNull t | TyArray t => refs t
  | TyRecord k v => refs k ++ refs v
  | TyObj fs => refs_fields fs
  | TyRef t => [t]
  end
with refs_fields (fs : ty_fields) : list T :=
  match fs with TyNil => [] | TyCons _ _ t fs => refs t ++ refs_fields fs end.

(** The shape of a Go type, without the generator's state: a named struct is a
    reference, and a struct's fields are those [jsonFields] finds. *)
Section Shapes.
  Context (shape : T → R ty).
Fixpoint shape_fields (fs : list (jsonFieldOf T)) : R ty_fields :=
  match fs with
  | [] => mret TyNil
  | f :: fs => t ← shape (j_type f); r ← shape_fields fs; mret (TyCons (j_name f) (j_optional f) t r)
  end.
Definition shape_struct (fs : list (jsonFieldOf T)) : R ty :=
  match fs with [] => mret (TyWord "Record<string, never>") | _ => b ← shape_fields fs; mret (TyObj b) end.
End Shapes.

Fixpoint shape (fuel : nat) (t : T) : R ty :=
  match fuel with
  | O => None
  | S fuel =>
      if decide (t = timeT) then mret (TyWord "string")
      else if decide (t = downloadT) then mret (TyWord "Download")
      else match patched (info t) with
      | Some t' => shape fuel t'
      | None =>
      if json_marshaler (info t) then Some (Err (ExternalErr "MarshalJSON"))
      else if text_marshaler (info t) then mret (TyWord "string")
      else match Kind (info t) with
      | Pointer e => TyNull <$$> shape fuel e
      | KString => mret (TyWord "string")
      | KBool => mret (TyWord "boolean")
      | Number => mret (TyWord "number")
      | Slice e => match Kind (info e) with Uint8 => mret (TyWord "string") | _ => TyArray <$$> shape fuel e end
      | KMap k e => a ← shape fuel k; b ← shape fuel e; mret (TyRecord a b)
      | Struct _ =>
          fs ← jsonFields fuel t;
          if String.eqb (Name (info t)) "" || bool_decide (fs = []) then shape_struct (shape fuel) fs else mret (TyRef t)
      | Uint8 | Other => Some (Err (ExternalErr "unsupported"))
      end
      end
  end.

(** The body of an interface. *)
Definition body (fuel : nat) (t : T) : R ty := fs ← jsonFields fuel t; shape_struct (shape fuel) fs.

(** ** The generator's state *)

(** All the interfaces mentioned are the known ones. *)
Definition closed (g : tsGen) (l : list T) : Prop := Forall (λ r, types g !! Name (info r) = Some r) l.

(** Known types go by their names; each is declared with its body, or is
    being declared. *)
Record wf (P : gset string) (g : tsGen) : Prop := {
  wf_type n t : types g !! n = Some t → n = Name (info t) ∧
    (n ∈ P ∨ ∃ f y, body f t = Some (Ok y) ∧ decls g !! n = Some (print y) ∧ closed g (refs y));
  wf_decl n d : decls g !! n = Some d → is_Some (types g !! n) }.

Lemma closed_grows g g' l : types g ⊆ types g' → closed g l → closed g' l.
Proof. intros Hg Hl. eapply Forall_impl; [exact Hl|]. intros r Hr. cbn in *. by apply (lookup_weaken (types g)). Qed.

Lemma r_bind_inv {A B} (m : R A) (f : A → R B) b : mbind f m = Some (Ok b) → ∃ a, m = Some (Ok a) ∧ f a = Some (Ok b).
Proof. unfold mbind, R_bind. destruct m as [[a|e]|]; [eauto|done|done]. Qed.
Lemma g_bind_inv {A B} (m : G A) (f : A → G B) g b g' : mbind f m g = Some (Ok (b, g')) →
  ∃ a g1, m g = Some (Ok (a, g1)) ∧ f a g1 = Some (Ok (b, g')).
Proof. intros ([a g1]&E1&E2)%r_bind_inv. eauto. Qed.
Lemma g_ret_inv {A} (a b : A) g g' : (mret a : G A) g = Some (Ok (b, g')) → a = b ∧ g = g'.
Proof. by intros [= -> ->]. Qed.

(** What a run of the generator on a type is. *)
Definition run_ok (P : gset string) (g g' : tsGen) (l : list T) : Prop :=
  types g ⊆ types g' ∧ wf P g' ∧ closed g' l.

Definition refines (m : T → G string) (sh : T → R ty) : Prop := ∀ t P g s g', wf P g → m t g = Some (Ok (s, g')) →
  ∃ y, sh t = Some (Ok y) ∧ s = print y ∧ run_ok P g g' (refs y).

Lemma run_ok_word P g : wf P g → run_ok P g g [].
Proof. intros Hw. split_and!; [done|done|constructor]. Qed.

Lemma run_ok_app P g g1 g2 a b : run_ok P g g1 a → run_ok P g1 g2 b → run_ok P g g2 (a ++ b).
Proof.
  intros (S1&_&C1) (S2&W2&C2). split_and!; [by etrans|done|]. apply Forall_app. split; [by eapply closed_grows|done].
Qed.

Lemma field_texts_spec m sh fs : refines m sh → ∀ P g s g', wf P g → field_texts m fs g = Some (Ok (s, g')) →
  ∃ ys, shape_fields sh fs = Some (Ok ys) ∧ s = print_fields ys ∧ run_ok P g g' (refs_fields ys).
Proof.
  intros Hm. induction fs as [|f fs IH]; intros P g s g' Hw; cbn [field_texts shape_fields].
  - intros [<- <-]%g_ret_inv. exists TyNil. split_and!; [done|done|by apply run_ok_word].
  - intros (a&g1&E1&E)%g_bind_inv. apply g_bind_inv in E as (rest&g2&E2&E). apply g_ret_inv in E as [<- <-].
    destruct (Hm _ _ _ _ _ Hw E1) as (y&Ey&->&R1). destruct (IH P g1 rest g2 ltac:(apply R1) E2) as (ys&Eys&->&R2).
    exists (TyCons (j_name f) (j_optional f) y ys). rewrite Ey. cbn. rewrite Eys. split_and!; [done|done|by eapply run_ok_app].
Qed.

Lemma fields_text_spec m sh fs : refines m sh → ∀ P g s g', wf P g → fields_text m fs g = Some (Ok (s, g')) →
  ∃ y, shape_struct sh fs = Some (Ok y) ∧ s = print y ∧ run_ok P g g' (refs y).
Proof.
  intros Hm P g s g' Hw. unfold fields_text, shape_struct. destruct fs as [|f fs].
  - intros [<- <-]%g_ret_inv. eexists. split_and!; [done|done|by apply run_ok_word].
  - intros (b&g1&E1&E)%g_bind_inv. apply g_ret_inv in E as [<- <-].
    destruct (field_texts_spec m sh _ Hm P g b g1 Hw E1) as (ys&->&->&R1). by exists (TyObj ys).
Qed.

(** A type's name taken: it is known, and being declared. *)
Lemma register_wf P g t : wf P g → types g !! Name (info t) = None →
  let g0 := mkTsGen (decls g) (<[Name (info t) := t]> (types g)) in
  types g ⊆ types g0 ∧ wf ({[Name (info t)]} ∪ P) g0.
Proof.
  intros Hw Hn. set (n := Name (info t)) in *. set (g0 := mkTsGen _ _).
  assert (types g ⊆ types g0) as S0 by by apply insert_subseteq. split; [done|]. split.
  - intros m u. cbn. intros [[<- <-]|[Hm Hu]]%lookup_insert_Some; [split; [done|left; set_solver]|].
    destruct (wf_type _ _ Hw _ _ Hu) as [-> [?|(f'&y&?&?&?)]]; (split; [done|]); [left; set_solver|right].
    exists f', y. split_and!; [done|done|by eapply closed_grows].
  - intros m d' Hd. cbn. destruct (decide (m = n)) as [->|]; [by rewrite lookup_insert_eq|].
    rewrite lookup_insert_ne by done. by eapply (wf_decl _ _ Hw).
Qed.

(** A new interface: known while its fields are read, then declared. *)
Lemma declare_spec f t P g d g1 : wf P g → types g !! Name (info t) = None →
  (∃ fs, jsonFields f t = Some (Ok fs) ∧
    fields_text (ts f) fs (mkTsGen (decls g) (<[Name (info t) := t]> (types g))) = Some (Ok (d, g1))) →
  refines (ts f) (shape f) →
  let g2 := mkTsGen (<[Name (info t) := d]> (decls g1)) (types g1) in run_ok P g g2 [t].
Proof.
  intros Hw Hn (fs&Efs&E) Hr. set (n := Name (info t)) in *. set (g0 := mkTsGen (decls g) (<[n := t]> (types g))) in *.
  destruct (register_wf P g t Hw Hn) as [S0 W0].
  destruct (fields_text_spec _ _ fs Hr _ g0 d g1 W0 E) as (y&Ey&->&S1&W1&C1).
  assert (types g1 !! n = Some t) as Ht by (eapply lookup_weaken; [|exact S1]; apply lookup_insert_eq).
  split_and!.
  - by etrans.
  - split; cbn.
    + intros m u Hu. destruct (wf_type _ _ W1 _ _ Hu) as [Em Hd]. split; [done|]. destruct (decide (m = n)) as [->|Hne].
      * right. rewrite Ht in Hu. injection Hu as <-. exists f, y. split_and!; [|by rewrite lookup_insert_eq|done].
        unfold body. by rewrite Efs.
      * destruct Hd as [?|(f'&y'&?&?&?)]; [left; set_solver|right]. exists f', y'. by rewrite lookup_insert_ne.
    + intros m d' Hd. destruct (decide (m = n)) as [->|]; [by eexists|]. rewrite lookup_insert_ne in Hd by done.
      by eapply (wf_decl _ _ W1).
  - by repeat constructor.
Qed.

Lemma ts_refines fuel : refines (ts fuel) (shape fuel).
Proof.
  induction fuel as [|f IH]; intros t P g s g' Hw; [done|]. cbn [ts shape].
  destruct (decide (t = timeT)); [intros [<- <-]%g_ret_inv; eexists; split_and!; [done|done|by apply run_ok_word]|].
  destruct (decide (t = downloadT)); [intros [<- <-]%g_ret_inv; eexists; split_and!; [done|done|by apply run_ok_word]|].
  destruct (patched (info t)) as [t'|]; [by apply IH|]. destruct (json_marshaler (info t)); [done|].
  destruct (text_marshaler (info t)); [intros [<- <-]%g_ret_inv; eexists; split_and!; [done|done|by apply run_ok_word]|].
  destruct (Kind (info t)) as [e| | | | |e|k e|fds|] eqn:Ek; try done.
  - intros (a&g1&E1&E)%g_bind_inv. apply g_ret_inv in E as [<- <-]. destruct (IH _ _ _ _ _ Hw E1) as (y&->&->&R1). by exists (TyNull y).
  - intros [<- <-]%g_ret_inv. eexists. split_and!; [done|done|by apply run_ok_word].
  - intros [<- <-]%g_ret_inv. eexists. split_and!; [done|done|by apply run_ok_word].
  - intros [<- <-]%g_ret_inv. eexists. split_and!; [done|done|by apply run_ok_word].
  - assert (∀ g1 a, ts f e g = Some (Ok (a, g1)) →
      (if negb (contains_any " |" a) then mret (a +:+ "[]") else s ← ts f e; mret ("(" +:+ s +:+ ")[]")) g1 = Some (Ok (s, g')) →
      ∃ y, (TyArray <$$> shape f e) = Some (Ok y) ∧ s = print y ∧ run_ok P g g' (refs y)) as Hslice.
    { intros g1 a E1 E. destruct (IH _ _ _ _ _ Hw E1) as (y&Ey&->&R1). rewrite Ey. exists (TyArray y). split; [done|]. cbn.
      destruct (contains_any " |" (print y)); cbn [negb] in E.
      - apply g_bind_inv in E as (b&g2&E2&E). apply g_ret_inv in E as [<- <-].
        destruct (IH _ P _ _ _ ltac:(apply R1) E2) as (y'&Ey'&->&R2). rewrite Ey in Ey'. injection Ey' as <-.
        split; [done|]. destruct R1 as (S1&_), R2 as (S2&W2&C2). split_and!; [by etrans|done|done].
      - by apply g_ret_inv in E as [<- <-]. }
    destruct (Kind (info e)); try (intros (a&g1&E1&E)%g_bind_inv; by apply (Hslice g1 a)).
    intros [<- <-]%g_ret_inv. eexists. split_and!; [done|done|by apply run_ok_word].
  - intros (a&g1&E1&E)%g_bind_inv. apply g_bind_inv in E as (b&g2&E2&E). apply g_ret_inv in E as [<- <-].
    destruct (IH _ _ _ _ _ Hw E1) as (y1&->&->&R1). destruct (IH _ P _ _ _ ltac:(apply R1) E2) as (y2&E2'&->&R2). cbn. rewrite E2'.
    exists (TyRecord y1 y2). split_and!; [done|done|by eapply run_ok_app].
  - intros (fs&g1&E1&E)%g_bind_inv. unfold g_of in E1. apply r_bind_inv in E1 as (fs'&Efs&[= -> ->]). rewrite Efs. cbn.
    destruct (String.eqb _ _ || _); [by eapply fields_text_spec|].
    destruct (types g1 !! Name (info t)) as [seen|] eqn:Et.
    + destruct (decide (seen = t)) as [->|]; [|done]. injection E as <- <-. exists (TyRef t). split_and!; [done..|].
      split_and!; [done|done|]. by repeat constructor.
    + apply g_bind_inv in E as ([]&g0&E0&E). injection E0 as <-. apply g_bind_inv in E as (d&g2&E2&E).
      apply g_bind_inv in E as ([]&g3&E3&E). injection E3 as <-. apply g_ret_inv in E as [<- <-].
      exists (TyRef t). split_and!; [done|done|]. eapply declare_spec; eauto.
Qed.

(** ** Ending

    More fuel never changes an answer. *)

Definition mono {A} (m : nat → R A) : Prop := ∀ f f' r, (f ≤ f')%nat → m f = Some r → m f' = Some r.
Definition halts {A} (m : nat → R A) : Prop := ∃ f r, m f = Some r.

Lemma mono_const {A} (r : R A) : mono (λ _, r).
Proof. by intros f f' x _. Qed.
Lemma mono_bind {A B} (m : nat → R A) (h : nat → A → R B) : mono m → (∀ a, mono (λ f, h f a)) → mono (λ f, m f ≫= h f).
Proof.
  intros Hm Hh f f' r Hle. unfold mbind, R_bind. destruct (m f) as [[a|e]|] eqn:E; [| |done]; rewrite (Hm _ _ _ Hle E); [|done].
  by apply Hh.
Qed.
Lemma halts_const {A} (r : result A) : halts (λ _, Some r).
Proof. by exists O, r. Qed.
Lemma halts_bind {A B} (m : nat → R A) (h : nat → A → R B) : mono m → (∀ a, mono (λ f, h f a)) →
  halts m → (∀ f a, m f = Some (Ok a) → halts (λ f, h f a)) → halts (λ f, m f ≫= h f).
Proof.
  intros Mm Mh (f1&r1&E1) Hh. destruct r1 as [a|e].
  - destruct (Hh f1 a E1) as (f2&r2&E2). exists (f1 `max` f2)%nat, r2. unfold mbind, R_bind.
    rewrite (Mm f1 (f1 `max` f2)%nat _ ltac:(lia) E1). eapply Mh; [|exact E2]. lia.
  - exists f1, (Err e). unfold mbind, R_bind. by rewrite E1.
Qed.
Lemma halts_S {A} (m : nat → R A) : halts (λ f, m (S f)) → halts m.
Proof. intros (f&r&E). by exists (S f), r. Qed.
Lemma mono_S {A} (m : nat → R A) : (∀ f r, m f = Some r → m (S f) = Some r) → mono m.
Proof. intros Hm f f' r Hle. induction Hle; [done|]. intros E. by apply Hm, IHHle. Qed.

Definition grows {A} (x y : R A) : Prop := ∀ r, x = Some r → y = Some r.
Lemma grows_refl {A} (x : R A) : grows x x.
Proof. by intros r. Qed.
Lemma grows_bind {A B} (x y : R A) (h k : A → R B) : grows x y → (∀ a, grows (h a) (k a)) → grows (x ≫= h) (y ≫= k).
Proof.
  intros Hx Hh r. unfold mbind, R_bind. destruct x as [[a|e]|]; [| |done]; rewrite (Hx _ eq_refl); [|done]. apply Hh.
Qed.

Lemma json_fields_go_grows e e' fs : (∀ t, grows (e t) (e' t)) → grows (json_fields_go e fs) (json_fields_go e' fs).
Proof.
  intros He. induction fs as [|f fs IH]; cbn [json_fields_go]; [apply grows_refl|].
  apply grows_bind; [|intros a; apply grows_bind; [done|intros b; apply grows_refl]].
  unfold json_field1. destruct (cut _ _) as [[n o] ?]. destruct (String.eqb n "-"); [apply grows_refl|].
  destruct (_ && _ && _); [apply He|]. apply grows_refl.
Qed.

Lemma jsonFields_mono t : mono (λ f, jsonFields f t).
Proof.
  apply mono_S. intros f. revert t. induction f as [|f IH]; intros t r; [done|].
  apply (json_fields_go_grows _ (jsonFields (S f))). intros u r'. apply IH.
Qed.

Lemma fields_text_grows m m' fs g : (∀ t g, grows (m t g) (m' t g)) → grows (fields_text m fs g) (fields_text m' fs g).
Proof.
  intros Hm. assert (∀ g, grows (field_texts m fs g) (field_texts m' fs g)) as Hf.
  { induction fs as [|f fs IH]; intros g'; cbn [field_texts]; [apply grows_refl|].
    apply grows_bind; [apply Hm|]. intros [a g1]. apply grows_bind; [apply IH|]. intros [b g2]. apply grows_refl. }
  unfold fields_text. destruct fs; [apply grows_refl|]. apply grows_bind; [apply Hf|]. intros [b g2]. apply grows_refl.
Qed.

Lemma ts_mono t g : mono (λ f, ts f t g).
Proof.
  apply mono_S. intros f. revert t g. induction f as [|f IH]; intros t g; [done|].
  change (grows (ts (S f) t g) (ts (S (S f)) t g)). remember (S f) as f'. rewrite Heqf' at 1. cbn [ts].
  assert (∀ t g, grows (ts f t g) (ts f' t g)) as IH' by exact IH. clear IH.
  destruct (decide (t = timeT)); [apply grows_refl|]. destruct (decide (t = downloadT)); [apply grows_refl|].
  destruct (patched (info t)) as [t'|]; [apply IH'|]. destruct (json_marshaler (info t)); [apply grows_refl|].
  destruct (text_marshaler (info t)); [apply grows_refl|].
  destruct (Kind (info t)) as [e| | | | |e|k e|fds|]; try apply grows_refl.
  - apply grows_bind; [apply IH'|]. intros [a g1]. apply grows_refl.
  - assert (grows ((s ← ts f e; if negb (contains_any " |" s) then mret (s +:+ "[]") else s ← ts f e; mret ("(" +:+ s +:+ ")[]")) g)
      ((s ← ts f' e; if negb (contains_any " |" s) then mret (s +:+ "[]") else s ← ts f' e; mret ("(" +:+ s +:+ ")[]")) g)) as Hs.
    { apply grows_bind; [apply IH'|]. intros [a g1]. destruct (negb _); [apply grows_refl|].
      apply grows_bind; [apply IH'|]. intros [b g2]. apply grows_refl. }
    destruct (Kind (info e)); (exact Hs || apply grows_refl).
  - apply grows_bind; [apply IH'|]. intros [a g1]. apply grows_bind; [apply IH'|]. intros [b g2]. apply grows_refl.
  - apply grows_bind.
    { apply grows_bind; [|intros a; apply grows_refl]. intros r. apply (jsonFields_mono t f f'). lia. }
    intros [fs g1]. destruct (_ || _); [by apply fields_text_grows|].
    destruct (types g1 !! _) as [seen|]; [apply grows_refl|].
    apply grows_bind; [apply grows_refl|]. intros [[] g2]. apply grows_bind; [by apply fields_text_grows|].
    intros [d g3]. apply grows_refl.
Qed.

(** No type is its own element with no named struct in between, on which the
    generator never ends ([type L []L], which Go accepts), and no struct embeds
    itself, which Go refuses: every type but a named struct is made of smaller
    ones. *)
Record tame (erank rank : T → nat) (names : gset string) : Prop := {
  tm_embed t f : f ∈ fields_of t → is_struct (f_type f) = true → f_anonymous f = true → (erank (f_type f) < erank t)%nat;
  tm_patched t t' : patched (info t) = Some t' → (rank t' < rank t)%nat;
  tm_pointer t e : Kind (info t) = Pointer e → (rank e < rank t)%nat;
  tm_slice t e : Kind (info t) = Slice e → (rank e < rank t)%nat;
  tm_map t k e : Kind (info t) = KMap k e → (rank k < rank t)%nat ∧ (rank e < rank t)%nat;
  tm_struct t f fs j : Name (info t) = "" → jsonFields f t = Some (Ok fs) → j ∈ fs → (rank (j_type j) < rank t)%nat;
  tm_names t : is_struct t = true → Name (info t) ≠ "" → Name (info t) ∈ names }.

Section Ending.
  Context (erank rank : T → nat) (names : gset string) (Htame : tame erank rank names).

Lemma json_fields_go_mono fs : mono (λ f, json_fields_go (jsonFields f) fs).
Proof.
  intros f f' r Hle. apply json_fields_go_grows. intros t r'. by apply jsonFields_mono.
Qed.

Lemma json_field1_mono f : mono (λ n, json_field1 (jsonFields n) f).
Proof.
  unfold json_field1. destruct (cut _ _) as [[n o] ?]. destruct (String.eqb n "-"); [apply mono_const|].
  destruct (_ && _ && _); [apply jsonFields_mono|apply mono_const].
Qed.

Lemma jsonFields_halts t : halts (λ f, jsonFields f t).
Proof.
  remember (erank t) as k eqn:Ek. revert t Ek. induction k as [k IH] using lt_wf_ind. intros t ->. apply halts_S. cbn [jsonFields].
  assert (∀ fs, (∀ f, f ∈ fs → f ∈ fields_of t) → halts (λ n, json_fields_go (jsonFields n) fs)) as Hgo; [|by apply Hgo].
  induction fs as [|f fs IHfs]; intros Hin; cbn [json_fields_go]; [apply halts_const|].
  apply halts_bind; [apply json_field1_mono| | |].
  - intros a. apply mono_bind; [apply json_fields_go_mono|]. intros b. apply mono_const.
  - unfold json_field1. destruct (cut _ _) as [[n o] ?]. destruct (String.eqb n "-"); [apply halts_const|].
    destruct (f_anonymous f && _ && _) eqn:Ee; [|destruct (f_exported f); apply halts_const].
    apply andb_true_iff in Ee as [[Ea _]%andb_true_iff Es]. eapply IH; [|done].
    eapply tm_embed; [exact Htame| |done|done]. apply Hin. by left.
  - intros _ a _. apply halts_bind; [apply json_fields_go_mono|intros b; apply mono_const| |intros _ b _; apply halts_const].
    apply IHfs. intros x Hx. apply Hin. by right.
Qed.

(** Names not taken yet. *)
Definition left_of (g : tsGen) : nat := size (names ∖ dom (types g)).
Lemma left_grows g g' : types g ⊆ types g' → (left_of g' ≤ left_of g)%nat.
Proof. intros Hg%subseteq_dom. unfold left_of. apply subseteq_size. set_solver. Qed.

Definition ends (n : nat) (t : T) : Prop := ∀ P g, wf P g → (left_of g ≤ n)%nat → halts (λ f, ts f t g).

Lemma field_texts_mono fs g : mono (λ f, field_texts (ts f) fs g).
Proof.
  revert g. induction fs as [|f fs IH]; intros g; cbn [field_texts]; [apply mono_const|].
  apply (mono_bind (λ n, ts n (j_type f) g) (λ n p, let '(a, g1) := p in _)); [apply ts_mono|]. intros [a g1].
  apply (mono_bind (λ n, field_texts (ts n) fs g1) (λ n p, let '(b, g2) := p in _)); [apply IH|]. intros [b g2]. apply mono_const.
Qed.

Lemma field_texts_ends n fs : (∀ j, j ∈ fs → ends n (j_type j)) → ∀ P g, wf P g → (left_of g ≤ n)%nat →
  halts (λ f, field_texts (ts f) fs g).
Proof.
  induction fs as [|f fs IH]; intros He P g Hw Hn; cbn [field_texts]; [apply halts_const|].
  apply (halts_bind (λ n, ts n (j_type f) g) (λ n p, let '(a, g1) := p in _)); [apply ts_mono| | |].
  - intros [a g1]. apply (mono_bind (λ n, field_texts (ts n) fs g1) (λ n p, let '(b, g2) := p in _)); [apply field_texts_mono|].
    intros [b g2]. apply mono_const.
  - eapply He; [by left|done|done].
  - intros m [a g1] E1. destruct (ts_refines m _ _ _ _ _ Hw E1) as (y&_&_&S1&W1&_).
    apply (halts_bind (λ n, field_texts (ts n) fs g1) (λ n p, let '(b, g2) := p in _)); [apply field_texts_mono| | |].
    + intros [b g2]. apply mono_const.
    + eapply IH; [intros j Hj; apply He; by right|done|]. pose proof (left_grows _ _ S1). lia.
    + intros _ [b g2] _. apply halts_const.
Qed.

Lemma fields_text_ends n fs : (∀ j, j ∈ fs → ends n (j_type j)) → ∀ P g, wf P g → (left_of g ≤ n)%nat →
  halts (λ f, fields_text (ts f) fs g).
Proof.
  intros He P g Hw Hn. unfold fields_text. destruct fs as [|f fs]; [apply halts_const|].
  apply (halts_bind (λ n, field_texts (ts n) (f :: fs) g) (λ n p, let '(b, g2) := p in _)); [apply field_texts_mono| | |].
  - intros [b g2]. apply mono_const.
  - by eapply field_texts_ends.
  - intros _ [b g2] _. apply halts_const.
Qed.
Lemma fields_text_mono fs g : mono (λ f, fields_text (ts f) fs g).
Proof. intros f f' r Hle. apply fields_text_grows. intros t g' r'. by apply ts_mono. Qed.

(** The text of one type, and then something that does not recurse. *)
Lemma then_ends (n : nat) t (k : string → tsGen → R (string * tsGen)) P g : ends n t → wf P g → (left_of g ≤ n)%nat →
  (∀ a g1, ∃ r, k a g1 = Some r) → halts (λ f, '(a, g1) ← ts f t g; k a g1).
Proof.
  intros He Hw Hn Hk. apply (halts_bind (λ n, ts n t g) (λ n p, let '(a, g1) := p in k a g1)); [apply ts_mono| | |].
  - intros [a g1]. apply mono_const.
  - by eapply He.
  - intros _ [a g1] _. destruct (Hk a g1) as [r ->]. apply halts_const.
Qed.

Lemma slice_ends (n : nat) e P g : ends n e → wf P g → (left_of g ≤ n)%nat →
  halts (λ f, (s ← ts f e; if negb (contains_any " |" s) then mret (s +:+ "[]") else s ← ts f e; mret ("(" +:+ s +:+ ")[]")) g).
Proof.
  intros He Hw Hn.
  apply (halts_bind (λ n, ts n e g) (λ n p, let '(a, g1) := p in
    (if negb (contains_any " |" a) then mret (a +:+ "[]") else s ← ts n e; mret ("(" +:+ s +:+ ")[]")) g1)); [apply ts_mono| | |].
  - intros [a g1]. destruct (negb _); [apply mono_const|].
    apply (mono_bind (λ n, ts n e g1) (λ n p, let '(b, g2) := p in _)); [apply ts_mono|]. intros [b g2]. apply mono_const.
  - by eapply He.
  - intros f [a g1] E1. destruct (negb _); [apply halts_const|]. destruct (ts_refines f _ _ _ _ _ Hw E1) as (y&_&_&S1&W1&_).
    eapply (then_ends n e (λ b g2, Some (Ok ("(" +:+ b +:+ ")[]", g2)))); [done|done| |by eauto]. pose proof (left_grows _ _ S1). lia.
Qed.

Lemma struct_ends n t P g : Kind (info t) = Struct (fields_of t) →
  (∀ m, (m < n)%nat → ∀ u, ends m u) → (∀ u, (rank u < rank t)%nat → ends n u) → wf P g → (left_of g ≤ n)%nat →
  halts (λ f, (fs ← g_of (jsonFields f t);
          if String.eqb (Name (info t)) "" || bool_decide (fs = []) then fields_text (ts f) fs
          else λ g,
            match types g !! Name (info t) with
            | Some seen =>
                if decide (seen = t) then mret (Name (info t), g)
                else g_panic ("ts: " +:+ String_ (info t) +:+ " and " +:+ String_ (info seen) +:+ " share a name") g
            | None =>
                (register t ;; d ← fields_text (ts f) fs; declare t d ;; mret (Name (info t))) g
            end) g).
Proof.
  intros Ek Hless Hrank Hw Hn.
  apply (halts_bind (λ f, g_of (jsonFields f t) g) (λ n p, let '(fs, g) := p in
    (if String.eqb (Name (info t)) "" || bool_decide (fs = []) then fields_text (ts n) fs
    else λ g, match types g !! Name (info t) with
         | Some seen =>
             if decide (seen = t) then mret (Name (info t), g)
             else g_panic ("ts: " +:+ String_ (info t) +:+ " and " +:+ String_ (info seen) +:+ " share a name") g
         | None => (register t ;; d ← fields_text (ts n) fs; declare t d ;; mret (Name (info t))) g
         end) g)).
  - apply mono_bind; [apply jsonFields_mono|]. intros a. apply mono_const.
  - intros [fs g1]. destruct (_ || _); [apply fields_text_mono|]. destruct (types g1 !! _); [apply mono_const|].
    apply mono_bind; [apply mono_const|]. intros [[] g2].
    apply (mono_bind (λ n, fields_text (ts n) fs g2) (λ n p, let '(d, g3) := p in _)); [apply fields_text_mono|]. intros [d g3]. apply mono_const.
  - apply halts_bind; [apply jsonFields_mono|intros a; apply mono_const|apply jsonFields_halts|intros _ a _; apply halts_const].
  - intros f [fs g1] E. unfold g_of in E. apply r_bind_inv in E as (fs'&Efs&[= -> ->]).
    destruct (String.eqb (Name (info t)) "" || bool_decide (fs = [])) eqn:Eb.
    + destruct fs as [|j0 fs]; [apply halts_const|]. rewrite orb_false_r in Eb. apply String.eqb_eq in Eb.
      eapply fields_text_ends; [|exact Hw|exact Hn]. intros j Hj. apply Hrank. eapply tm_struct; [exact Htame|done|done|done].
    + apply orb_false_iff in Eb as [Hname%String.eqb_neq _].
      destruct (types g1 !! Name (info t)) as [seen|] eqn:Et; [destruct (decide _); apply halts_const|].
      destruct (register_wf P g1 t Hw Et) as [_ W0]. set (g0 := mkTsGen _ _) in *.
      assert (left_of g0 < n)%nat as Hlt.
      { unfold left_of, g0 in *. cbn in *. eapply Nat.lt_le_trans; [|exact Hn]. apply subset_size. rewrite dom_insert_L.
        assert (Name (info t) ∈ names) as Hin by (eapply tm_names; [exact Htame| |done]; unfold is_struct; by rewrite Ek).
        apply not_elem_of_dom in Et. set_solver. }
      change (halts (λ f, '(d, g2) ← fields_text (ts f) fs g0; (declare t d ;; mret (Name (info t))) g2)).
      apply (halts_bind (λ f, fields_text (ts f) fs g0) (λ f p, let '(d, g2) := p in _)); [apply fields_text_mono| | |].
      * intros [d g2]. apply mono_const.
      * eapply (fields_text_ends (left_of g0)); [|exact W0|done]. intros j Hj. by apply Hless.
      * intros _ [d g2] _. apply halts_const.
Qed.

Lemma ts_ends n t : ends n t.
Proof.
  revert t. induction n as [n IHn] using lt_wf_ind. intros t. remember (rank t) as k eqn:Ek. revert t Ek.
  induction k as [k IHk] using lt_wf_ind. intros t -> P g Hw Hn. apply halts_S. cbn [ts].
  assert (∀ u, (rank u < rank t)%nat → ends n u) as IH by (intros u Hu; by eapply IHk).
  destruct (decide (t = timeT)); [apply halts_const|]. destruct (decide (t = downloadT)); [apply halts_const|].
  destruct (patched (info t)) as [t'|] eqn:Ep; [eapply IH; [by eapply tm_patched|done|done]|].
  destruct (json_marshaler (info t)); [apply halts_const|]. destruct (text_marshaler (info t)); [apply halts_const|].
  destruct (Kind (info t)) as [e| | | | |e|k e|fds|] eqn:Ek; try apply halts_const.
  - eapply (then_ends n e (λ a g1, Some (Ok (a +:+ " | null", g1)))); [apply IH; by eapply tm_pointer|done|done|by eauto].
  - assert (halts (λ f, (s ← ts f e; if negb (contains_any " |" s) then mret (s +:+ "[]") else s ← ts f e; mret ("(" +:+ s +:+ ")[]")) g)) as Hs
      by (eapply (slice_ends n); [apply IH; by eapply tm_slice|done|done]).
    destruct (Kind (info e)); first [exact Hs|apply halts_const].
  - destruct (tm_map _ _ _ Htame _ _ _ Ek) as [Hk He].
    apply (halts_bind (λ n, ts n k g) (λ n p, let '(a, g1) := p in (b ← ts n e; mret ("Record<" +:+ a +:+ ", " +:+ b +:+ ">")) g1)); [apply ts_mono| | |].
    + intros [a g1]. apply (mono_bind (λ n, ts n e g1) (λ n p, let '(b, g2) := p in _)); [apply ts_mono|]. intros [b g2]. apply mono_const.
    + by eapply IH.
    + intros f [a g1] E1. destruct (ts_refines f _ _ _ _ _ Hw E1) as (y&_&_&S1&W1&_).
      eapply (then_ends n e (λ b g2, Some (Ok ("Record<" +:+ a +:+ ", " +:+ b +:+ ">", g2)))); [by apply IH|done| |by eauto].
      pose proof (left_grows _ _ S1). lia.
  - eapply struct_ends; [|done|done|done|done]. unfold fields_of. by rewrite Ek.
Qed.
Lemma route_lines_mono rs g : mono (λ f, route_lines f rs g).
Proof.
  revert g. induction rs as [|r rs IH]; intros g; cbn [route_lines]; [apply mono_const|].
  apply (mono_bind (λ n, ts n (r_in r) g) (λ n p, let '(a, g1) := p in _)); [apply ts_mono|]. intros [a g1].
  apply (mono_bind (λ n, ts n (r_out r) g1) (λ n p, let '(b, g2) := p in _)); [apply ts_mono|]. intros [b g2].
  apply (mono_bind (λ n, route_lines n rs g2) (λ n p, let '(c, g3) := p in _)); [apply IH|]. intros [c g3]. apply mono_const.
Qed.

Lemma route_lines_ends rs P g : wf P g → halts (λ f, route_lines f rs g).
Proof.
  revert g. induction rs as [|r rs IH]; intros g Hw; cbn [route_lines]; [apply halts_const|].
  apply (halts_bind (λ n, ts n (r_in r) g) (λ n p, let '(a, g1) := p in (b ← ts n (r_out r); rest ← route_lines n rs;
    mret ("  " +:+ quote (pattern r) +:+ ": { in: Partial<" +:+ a +:+ ">; out: " +:+ b +:+ " }" +:+ nl +:+ rest)) g1)); [apply ts_mono| | |].
  - intros [a g1]. apply (mono_bind (λ n, ts n (r_out r) g1) (λ n p, let '(b, g2) := p in _)); [apply ts_mono|]. intros [b g2].
    apply (mono_bind (λ n, route_lines n rs g2) (λ n p, let '(c, g3) := p in _)); [apply route_lines_mono|]. intros [c g3]. apply mono_const.
  - by eapply (ts_ends (left_of g)).
  - intros f [a g1] E1. destruct (ts_refines f _ _ _ _ _ Hw E1) as (y&_&_&S1&W1&_).
    apply (halts_bind (λ n, ts n (r_out r) g1) (λ n p, let '(b, g2) := p in (rest ← route_lines n rs;
      mret ("  " +:+ quote (pattern r) +:+ ": { in: Partial<" +:+ a +:+ ">; out: " +:+ b +:+ " }" +:+ nl +:+ rest)) g2)); [apply ts_mono| | |].
    + intros [b g2]. apply (mono_bind (λ n, route_lines n rs g2) (λ n p, let '(c, g3) := p in _)); [apply route_lines_mono|].
      intros [c g3]. apply mono_const.
    + by eapply (ts_ends (left_of g1)).
    + intros f2 [b g2] E2. destruct (ts_refines f2 _ _ _ _ _ W1 E2) as (y2&_&_&S2&W2&_).
      apply (halts_bind (λ n, route_lines n rs g2) (λ n p, let '(c, g3) := p in _)); [apply route_lines_mono| |by apply IH|].
      * intros [c g3]. apply mono_const.
      * intros _ [c g3] _. apply halts_const.
Qed.
Lemma TypeScript_mono routes : mono (λ f, TypeScript f routes).
Proof.
  apply (mono_bind (λ f, route_lines f routes (mkTsGen ∅ ∅)) (λ _ p, let '(lines, g) := p in _)); [apply route_lines_mono|].
  intros [lines g]. apply mono_const.
Qed.
End Ending.

(** ** The file *)

Definition row_text (r : route) (p : ty * ty) : string :=
  "  " +:+ quote (pattern r) +:+ ": { in: Partial<" +:+ print p.1 +:+ ">; out: " +:+ print p.2 +:+ " }" +:+ nl.

Definition row_ok (r : route) (p : ty * ty) : Prop :=
  (∃ f, shape f (r_in r) = Some (Ok p.1)) ∧ (∃ f, shape f (r_out r) = Some (Ok p.2)).

Definition row_refs (p : ty * ty) : list T := refs p.1 ++ refs p.2.

Lemma route_lines_spec f rs P g s g' : wf P g → route_lines f rs g = Some (Ok (s, g')) →
  ∃ rows, Forall2 row_ok rs rows ∧ s = concat_s (zip_with row_text rs rows) ∧ run_ok P g g' (mjoin (row_refs <$> rows)).
Proof.
  revert g s. induction rs as [|r rs IH]; intros g s Hw; cbn [route_lines].
  - intros [<- <-]%g_ret_inv. exists []. split_and!; [constructor|done|by apply run_ok_word].
  - intros (a&g1&E1&E)%g_bind_inv. apply g_bind_inv in E as (b&g2&E2&E). apply g_bind_inv in E as (c&g3&E3&E).
    apply g_ret_inv in E as [<- <-]. destruct (ts_refines f _ _ _ _ _ Hw E1) as (y1&Y1&->&R1).
    destruct (ts_refines f _ P _ _ _ ltac:(apply R1) E2) as (y2&Y2&->&R2).
    destruct (IH _ _ ltac:(apply R2) E3) as (rows&Hrows&->&R3). exists ((y1, y2) :: rows). split_and!.
    + constructor; [split; by exists f|done].
    + cbn. unfold row_text. cbn. by rewrite !s_app_assoc.
    + cbn. unfold row_refs. cbn. rewrite <-app_assoc. eapply run_ok_app; [exact R1|]. by eapply run_ok_app.
Qed.

(** What holds of every binding by some value holds of a map of values. *)
Lemma map_choice {A B} (m : gmap string A) (Q : string → A → B → Prop) : (∀ n a, m !! n = Some a → ∃ b, Q n a b) →
  ∃ d : gmap string (A * B), (∀ n a b, d !! n = Some (a, b) → m !! n = Some a ∧ Q n a b) ∧
    (∀ n a, m !! n = Some a → ∃ b, d !! n = Some (a, b)).
Proof.
  induction m as [|n a m Hn IH] using map_ind; intros Hq.
  - exists ∅. split; intros *; by rewrite lookup_empty.
  - destruct IH as (d&D1&D2). { intros n' a' E. apply Hq. rewrite lookup_insert_ne; [done|congruence]. }
    destruct (Hq n a (lookup_insert_eq _ _ _)) as [b Hb]. exists (<[n := (a, b)]> d). split.
    + intros n' a' b' [[<- [= <- <-]]|[Hne E]]%lookup_insert_Some; [by rewrite lookup_insert_eq|].
      rewrite lookup_insert_ne by done. by apply D1.
    + intros n' a' [[<- <-]|[Hne E]]%lookup_insert_Some; [exists b; by rewrite lookup_insert_eq|].
      rewrite lookup_insert_ne by done. by apply D2.
Qed.

(** A file is right when each route's line shows the shapes of its types, each
    interface declared is the body of one Go type of its
    name, and every interface mentioned, in a route or in a declaration, is
    the one declared. *)
Definition file_ok (routes : list route) (text : string) : Prop := ∃ rows (d : gmap string (T * ty)),
  Forall2 row_ok routes rows ∧
  text = file_head +:+ concat_s (zip_with row_text routes rows) +:+ file_middle +:+ decl_lines ((print ∘ snd) <$> d) ∧
  (∀ n t y, d !! n = Some (t, y) → n = Name (info t) ∧ ∃ f, body f t = Some (Ok y)) ∧
  (∀ t, (t ∈ mjoin (row_refs <$> rows) ∨ ∃ n u y, d !! n = Some (u, y) ∧ t ∈ refs y) → ∃ y, d !! Name (info t) = Some (t, y)).

(** On tame types the generator ends, by a panic or with a file; and a file it
    returns declares every interface it mentions, once, as the one Go type of
    that name, with the fields [jsonFields] reads off it. *)
Theorem TypeScript_correct erank rank names routes (Htame : tame erank rank names) :
  ∃ f r, (∀ f', (f ≤ f')%nat → TypeScript f' routes = Some r) ∧
    match r with Ok text => file_ok routes text | Err _ => True end.
Proof.
  assert (wf ∅ (mkTsGen ∅ ∅)) as W0 by (split; intros *; cbn; by rewrite lookup_empty).
  destruct (route_lines_ends erank rank names Htame routes ∅ _ W0) as (f&r&E).
  exists f, (match r with Ok (lines, g) => Ok (file_head +:+ lines +:+ file_middle +:+ decl_lines (decls g)) | Err e => Err e end). split.
  { intros f' Hle. apply (TypeScript_mono routes f f' _ Hle). unfold TypeScript. rewrite E. by destruct r as [[lines g]|]. }
  destruct r as [[lines g]|e]; [|done]. destruct (route_lines_spec f routes _ _ _ _ W0 E) as (rows&Hrows&->&_&Wg&Cg).
  destruct (map_choice (types g) (λ n t y, (∃ f, body f t = Some (Ok y)) ∧ decls g !! n = Some (print y) ∧ closed g (refs y))) as (d&D1&D2).
  { intros n t Ht. destruct (wf_type _ _ Wg _ _ Ht) as [_ [?|(f'&y&?&?&?)]]; [set_solver|]. exists y. by eauto. }
  exists rows, d. split_and!; [done| | |].
  - do 3 f_equal. apply (f_equal decl_lines). apply map_eq. intros n. rewrite lookup_fmap.
    destruct (d !! n) as [[t y]|] eqn:Ed; [by apply D1 in Ed as (_&_&->&_)|]. cbn.
    destruct (decls g !! n) as [s|] eqn:Es; [|done]. destruct (wf_decl _ _ Wg _ _ Es) as [t Ht].
    destruct (D2 _ _ Ht) as [y Hy]. congruence.
  - intros n t y Ed. apply D1 in Ed as (Ht&Hb&_). by split; [apply (wf_type _ _ Wg _ _ Ht)|].
  - intros t Hin. apply D2. destruct Hin as [Hin|(n&u&y&Ed&Hin)].
    + unfold closed in Cg. rewrite Forall_forall in Cg. by apply Cg.
    + apply D1 in Ed as (_&_&_&Cy). unfold closed in Cy. rewrite Forall_forall in Cy. by apply Cy.
Qed.

End Gen.

(** ** A few types *)

Module demo_types.
Definition prim (name : string) (k : kind nat) : Type_ nat := mkType name name k None false false.
Definition field (name tag : string) (t : nat) : Field nat := mkField name tag t false true.

(** A preview, a list that mentions itself, an anonymous struct around an
    embedded one, and what else has a rule of its own. *)
Definition info (t : nat) : Type_ nat :=
  match t with
  | 0%nat => prim "Time" (Struct [])
  | 1%nat => prim "Download" (Struct [])
  | 2%nat => prim "string" KString
  | 3%nat => prim "bool" KBool
  | 4%nat => prim "int" Number
  | 5%nat => prim "none" (Struct [])
  | 6%nat => prim "" (Slice 2%nat)
  | 7%nat => prim "Preview" (Struct [field "Diff" "diff" 6; field "Changed" "changed" 3; field "Warning" "warning,omitempty" 2])
  | 8%nat => prim "Row" (Struct [field "CN" "" 2; field "Since" "since" 0; field "Next" "next" 9; mkField "secret" "" 2%nat false false])
  | 9%nat => prim "" (Pointer 8%nat)
  | 10%nat => prim "" (Slice 9%nat)
  | 11%nat => prim "" (Struct [mkField "Preview" "" 7%nat true true; field "Rows" "rows" 10; field "Raw" "-" 4])
  | 12%nat => prim "" (KMap 2%nat 4%nat)
  | 13%nat => mkType "Patch" "api.Patch" (Struct []) (Some 7%nat) true false
  | _ => prim "chan" Other
  end.
Definition rank (t : nat) : nat := match t with 6 | 9 | 12 | 13 => 1 | 10 => 2 | 11 => 3 | _ => 0 end%nat.
Definition erank (t : nat) : nat := if (t =? 11)%nat then 1 else 0.

(** Handles beyond the last are all alike. *)
Ltac each_handle t := do 14 (try destruct t as [|t]); try done.

Lemma demo_tame : tame info erank rank {["Time"; "Download"; "none"; "Preview"; "Row"; "Patch"]}.
Proof.
  split.
  - intros t f Hf Hs Ha. each_handle t; cbn in Hf; rewrite ?elem_of_cons, ?elem_of_nil in Hf; naive_solver (cbn; lia).
  - intros t t' E. each_handle t. injection E as <-. cbn. lia.
  - intros t e E. each_handle t. injection E as <-. cbn. lia.
  - intros t e E. each_handle t; injection E as <-; cbn; lia.
  - intros t k e E. each_handle t. injection E as <- <-. cbn. lia.
  - intros t f fs j Hn E Hj. destruct f as [|[|f]]; [done| |]; each_handle t; cbn in E; try discriminate E;
      injection E as <-; cbn in Hj; rewrite ?elem_of_cons, ?elem_of_nil in Hj; naive_solver (cbn; lia).
  - intros t Hs Hn. each_handle t; cbn; set_solver.
Qed.

Definition routes : list route :=
  [mkRoute "POST /preview" 13%nat 7%nat; mkRoute "GET /rows" 5%nat 11%nat; mkRoute "GET /counts" 5%nat 12%nat; mkRoute "GET /file" 5%nat 1%nat].
Definition routes_text : string := file_head +:+
  "  " +:+ quote "POST /preview" +:+ ": { in: Partial<Preview>; out: Preview }" +:+ nl +:+
  "  " +:+ quote "GET /rows" +:+ ": { in: Partial<Record<string, never>>; out: { diff: string[]; changed: boolean; warning?: string; rows: (Row | null)[]; } }" +:+ nl +:+
  "  " +:+ quote "GET /counts" +:+ ": { in: Partial<Record<string, never>>; out: Record<string, number> }" +:+ nl +:+
  "  " +:+ quote "GET /file" +:+ ": { in: Partial<Record<string, never>>; out: Download }" +:+ nl +:+ file_middle +:+
  "export interface Preview { diff: string[]; changed: boolean; warning?: string; }" +:+ nl +:+
  "export interface Row { CN: string; since: string; next: Row | null; }" +:+ nl.
End demo_types.

Lemma TypeScript_correct_witness :
  TypeScript demo_types.info 0%nat 1%nat 8 demo_types.routes = Some (Ok demo_types.routes_text) ∧
  file_ok demo_types.info 0%nat 1%nat demo_types.routes demo_types.routes_text.
Proof.
  assert (TypeScript demo_types.info 0%nat 1%nat 8 demo_types.routes = Some (Ok demo_types.routes_text)) as E by (vm_compute; reflexivity).
  split; [exact E|]. destruct (TypeScript_correct demo_types.info 0%nat 1%nat _ _ _ demo_types.routes demo_types.demo_tame) as (f&r&H1&H2).
  pose proof (H1 (f + 8)%nat ltac:(lia)) as E1.
  pose proof (TypeScript_mono demo_types.info 0%nat 1%nat demo_types.routes 8%nat (f + 8)%nat _ ltac:(lia) E) as E2.
  rewrite E2 in E1. injection E1 as <-. exact H2.
Defined.

(** A pattern's wildcards, and one that names no string field of the input. *)
Example wildcards_ex :
  wildcards demo_types.info 5 "DELETE /rows/{CN}" 8%nat = Some (Ok ["CN"]) ∧
  wildcards demo_types.info 5 "DELETE /rows/{since}" 8%nat = Some (Err (Errorf "%s: {%s} is not a string field of %s" ["DELETE /rows/{since}"; "since"; "Row"])).
Proof. by vm_compute. Qed.

(** Two types of one name are refused. *)
Example one_name : ∃ e, TypeScript (λ t, if (t =? 8)%nat then mkType "Preview" "other.Preview" (Struct [demo_types.field "A" "a" 2%nat]) None false false
  else demo_types.info t) 0%nat 1%nat 8 [mkRoute "GET /a" 7%nat 8%nat] = Some (Err e).
Proof. eexists. by vm_compute. Qed.
End tsgen.
