(* ===== verification/Server.v ===== *)
(** * Server: the web API as a whole (internal/api/api.go, [Handler])

    Every route with the handler behind it, from the request to the response,
    and what no request can do to the server whoever sends it. *)

From Stdlib Require Import Ascii.
From S2P Require Import Prelude GoStr GoErr GoFs GoEnc NetIP Names Upstream UpstreamApply Store StoreUsers StoreStats StoreInv Totp.
From S2P Require Import Auth Mgmt Control OvpnConf Pki LogRotate World CertApi UserApi ConfigApi UpstreamApi Records Sampler.
From S2P Require Import Backup Telegram ServerApi HttpApi.

Module server.
Import store users storeinv auth world configapi logrotate upstreamapi serverapi httpapi.

(** ** Reading a request *)

(** [encoding/json] on a request's body: its first value if it is JSON, none
    when the body is empty; a value's field read as a type, the zero value when
    it is missing, [None] when it has another type; whether a key names a
    field. *)
Class RequestJson := {
  json_value : string → option (option string);
  json_str : string → string → option string;
  json_int : string → string → option Z;
  json_bool : string → string → option bool;
  json_upstream : string → option upstream.Upstream;
  json_names : string → string → bool;
  patch_config : string → ovpnconf.Config → result ovpnconf.Config }.

Record Input := mkInput { raw : option string; params : list (string * string) }.

Section Read.
  Context `{RequestJson}.

(** The body, or on GET the query; the path's values go on top. *)
Definition readIn (pattern : string) (r : Request) : option Input :=
  let wild := path_values (pattern_segments pattern) (segments r) in
  if String.eqb (Method r) "GET" then Some (mkInput None (query r ++ wild))
  else v ← json_value (Body r); Some (mkInput v wild).

Definition in_body {B} (zero : B) (get : string → option B) (i : Input) : option B :=
  match raw i with None => Some zero | Some v => get v end.
Definition in_str (f : string) (i : Input) : option string :=
  base ← in_body "" (λ v, json_str v f) i;
  Some (foldl (λ acc p, if json_names p.1 f then p.2 else acc) base (params i)).
Definition in_int (f : string) : Input → option Z := in_body 0 (λ v, json_int v f).
Definition in_bool (f : string) : Input → option bool := in_body false (λ v, json_bool v f).
Definition in_upstream : Input → option upstream.Upstream :=
  in_body (upstream.mkUpstream "" "" "" "" 0 0 0 "") json_upstream.
(** [Patch.Onto]'s argument. *)
Definition in_patch {C} (onto : string → C → result C) (i : Input) : option (C → result C) := onto <$> raw i.
End Read.

(** What a handler returns, by its type. *)
Inductive output :=
  | OHealth (status : string) | OMe (cookies : list Cookie) (m : Me) | OLogout (cookies : list Cookie)
  | OMsg (m : userapi.Msg) | OStatus (s : Status) | OStats (s : sampler.StatsSnapshot) | OCerts (l : list records.CertRow)
  | OConfig (c : ovpnconf.Config) | OPreview (p : Preview) | OAudit (l : list AuditEntry) | OLines (l : list string)
  | OLogConfig (c : LogConfig) | OStatsConfig (c : StatsConfig) | ODebug (on : bool)
  | OIssued (r : certapi.IssueResult) | ORevoked (r : certapi.RevokeResult) | ORenewed (r : certapi.RenewResult)
  | OExported (r : certapi.ExportResult) | OControl (r : control.ControlResult) | ORecords (r : records.RecordList)
  | ODNS (v : DNSView) | OUpstreams (v : UpstreamView) | OTelegram (s : control.TelegramStatus)
  | OUsers (l : list userapi.UserSummary) | OTOTP (e : userapi.TOTPEnrollment)
  | OFile (name type data : string).

(** A JSON value, or a file still to be written. *)
Inductive reply (S H : Type) := Json (o : output) | File (d : Download S H).
Arguments Json {S H}. Arguments File {S H}.

(** A route: what its handler does for a user and an input, [None] when the
    input is not what it reads. *)
Record entry (S H : Type) := mkEntry {
  pattern : string; role : string; serve : Request → User → Input → option (Act S H (reply S H)) }.
Arguments mkEntry {S H}. Arguments pattern {S H}. Arguments role {S H}. Arguments serve {S H}.

Definition json {S H B} (f : B → output) (m : Act S H B) : option (Act S H (reply S H)) :=
  Some (b ← m; mret (Json (f b))).
Definition file {S H} (m : Act S H (Download S H)) : option (Act S H (reply S H)) := Some (d ← m; mret (File d)).

Section Server.
  Context {S H : Type} `{mgmt.Server S} `{tracker.HostOps H}.
  Context `{pki.X509} `{!pki.EcPem} `{pki.EnvelopeJson} `{pki.Calendar} `{Argon2} `{Aead} `{UnicodeTables}.
  Context `{Sha256} `{Hmac : totp.Hmac} `{RequestJson}.
  Context `{backup.Tar} `{backup.Snapshot} `{Zip} `{ExportJson}.
  Context `{!JsonInto upstream.Config} `{!JsonInto LogConfig} `{!JsonInto StatsConfig} `{!JsonInto DNSConfig}.
  Context (getenv : string → string) (unmarshal_config : string → ovpnconf.Config → ovpnconf.Config).
  Context (marshal_config : ovpnconf.Config → string) (qr_data_uri : string → result string).
  Context (srv : certapi.Server) (DefaultRemote : World S → string) (facts : Facts) (rt : Runtime S H).
  Context (getMe : string → option goerr) (offset : Z → Z) (probe : Probe).

Notation Act := (Act S H).
Notation conf := (certapi.ConfigPath srv).
Notation ups := (UpstreamsEnabled facts).

(** ** The routes *)

Definition route_login (r : Request) (_ : User) (i : Input) : option (Act (reply S H)) :=
  u ← in_str "Username" i; p ← in_str "Password" i; t ← in_str "TOTP" i;
  json (λ p, OMe p.1 p.2) (handleLogin getenv unmarshal_config srv DefaultRemote facts r u p t).

Definition route_export (u : User) (i : Input) : option (Act (reply S H)) :=
  cn ← in_str "CN" i; pass ← in_str "Passphrase" i; remote ← in_str "Remote" i; key ← in_str "KeyPassphrase" i;
  extra ← in_str "Extra" i; days ← in_int "Days" i; split ← in_bool "SplitTunnel" i; renew ← in_bool "Renew" i;
  json OExported (w_ (certapi.handleExport getenv unmarshal_config srv DefaultRemote (Username u) cn pass remote key extra days split renew)).

Definition on_user (u : User) (i : Input) {B} (f : B → output) (m : string → string → Act B) : option (Act (reply S H)) :=
  name ← in_str "name" i; json f (m (Username u) name).

Definition on_op (u : User) (i : Input) {B} (f : B → output) (m : string → string → Act B) : option (Act (reply S H)) :=
  op ← in_str "op" i; json f (m (Username u) op).

Definition session_routes : list (entry S H) := [
  mkEntry "GET /healthz" "" (λ _ _ _, json OHealth handleHealthz);
  mkEntry "POST /api/login" "" route_login;
  mkEntry "POST /api/logout" RoleReadonly (λ r _ _, json OLogout (w_ (handleLogout r)));
  mkEntry "GET /api/me" RoleReadonly (λ _ u _, json (OMe []) (handleMe getenv unmarshal_config srv DefaultRemote facts u));
  mkEntry "GET /api/status" RoleReadonly (λ _ _ _, json OStatus (handleStatus getenv srv facts rt probe));
  mkEntry "GET /api/stats" RoleReadonly (λ _ _ i, cn ← in_str "cn" i; json OStats (m_ (sampler.handleStats getenv cn)));
  mkEntry "GET /api/certs" RoleReadonly (λ _ _ _, json OCerts (w_ records.handleCertList));
  mkEntry "GET /api/vpn/config" RoleReadonly (λ _ _ _, json OConfig (m_ (handleVPNConfigGet getenv unmarshal_config)));
  mkEntry "GET /api/audit" RoleReadonly (λ _ _ _, json OAudit (w_ handleAudit));
  mkEntry "GET /api/logs/download" RoleOperator
    (λ _ _ _, file (handleLogsDownload getenv unmarshal_config srv DefaultRemote facts rt offset));
  mkEntry "GET /api/logs/config" RoleReadonly (λ _ _ _, json OLogConfig (m_ (handleLogsConfigGet getenv)));
  mkEntry "PUT /api/logs/config" RoleAdmin
    (λ _ u i, json OLogConfig (m_ (handleLogsConfigSet getenv (Username u) (in_patch json_unmarshal i))));
  mkEntry "POST /api/logs/rotate" RoleAdmin (λ _ u _, json OMsg (w_ (handleLogsRotate getenv srv (Username u))));
  mkEntry "GET /api/stats/config" RoleReadonly (λ _ _ _, json OStatsConfig (m_ (handleStatsConfigGet getenv)));
  mkEntry "PUT /api/stats/config" RoleAdmin
    (λ _ u i, json OStatsConfig (m_ (handleStatsConfigSet getenv (Username u) (in_patch json_unmarshal i))));
  mkEntry "GET /api/debug" RoleReadonly (λ _ _ _, json ODebug handleDebugGet);
  mkEntry "POST /api/debug" RoleAdmin (λ _ u i, on ← in_bool "debug" i; json ODebug (handleDebugSet (Username u) on));
  mkEntry "POST /api/clients/kill" RoleOperator (λ _ u i, cn ← in_str "CN" i; json OMsg (on_x (handleKill (Username u) cn)))].

Definition cert_routes : list (entry S H) := [
  mkEntry "POST /api/certs" RoleOperator (λ _ u i,
    cn ← in_str "CN" i; pass ← in_str "Passphrase" i; key ← in_str "KeyPassphrase" i; days ← in_int "Days" i;
    json OIssued (w_ (certapi.handleIssue srv (Username u) cn pass key days)));
  mkEntry "POST /api/certs/revoke" RoleOperator (λ _ u i,
    serial ← in_str "Serial" i; pass ← in_str "Passphrase" i;
    json ORevoked (w_ (certapi.handleRevoke srv (Username u) serial pass)));
  mkEntry "POST /api/certs/renew" RoleAdmin (λ _ u i,
    pass ← in_str "Passphrase" i; days ← in_int "Days" i;
    json ORenewed (w_ (certapi.handleRenew srv DefaultRemote (Username u) pass days)));
  mkEntry "POST /api/backup" RoleAdmin (λ _ u i, pass ← in_str "Passphrase" i; file (handleBackup srv offset (Username u) pass));
  mkEntry "POST /api/certs/export" RoleOperator (λ _ u i, route_export u i);
  mkEntry "PUT /api/vpn/config" RoleAdmin (λ _ u i,
    json OConfig (w_ (handleVPNConfigPut getenv unmarshal_config marshal_config (Username u) conf (in_patch patch_config i))));
  mkEntry "POST /api/vpn/config/preview" RoleAdmin (λ _ _ i,
    json OPreview (m_ (handleVPNConfigPreview getenv unmarshal_config (in_patch patch_config i))));
  mkEntry "POST /api/vpn/{op}" RoleAdmin (λ _ u i, on_op u i OControl (handleProc rt "vpn" (Some (rt_VPN rt)) true));
  mkEntry "POST /api/dns/{op}" RoleAdmin (λ _ u i, on_op u i OControl (handleProc rt "dns" (rt_DNS rt) false));
  mkEntry "PATCH /api/certs/{serial}/dns" RoleOperator (λ _ u i,
    serial ← in_str "serial" i; include ← in_bool "IncludeDNS" i;
    json OMsg (m_ (records.handleCertDNS (Username u) serial include)))].

Definition config_routes : list (entry S H) := [
  mkEntry "GET /api/records" RoleReadonly (λ _ _ _,
    json ORecords (w_ (records.handleRecords getenv unmarshal_config srv DefaultRemote)));
  mkEntry "PUT /api/records/custom" RoleAdmin (λ _ u i,
    content ← in_str "Content" i; json OMsg (w_ (records.handleCustomHostsPut srv (Username u) content)));
  mkEntry "POST /api/records/custom/preview" RoleAdmin (λ _ _ i,
    content ← in_str "Content" i; json OPreview (w_ (records.handleCustomHostsPreview srv content)));
  mkEntry "GET /api/dns/config" RoleReadonly (λ _ _ _, json ODNS (m_ (handleDNSConfigGet getenv unmarshal_config)));
  mkEntry "PUT /api/dns/config" RoleAdmin (λ _ u i,
    block ← in_bool "BlockInternet" i;
    json ODNS (m_ (handleDNSConfigSet getenv unmarshal_config (Username u) (mkDNSConfig block))));
  mkEntry "GET /api/upstreams" RoleReadonly (λ _ _ _, json OUpstreams (on_x (handleUpstreamsGet getenv)));
  mkEntry "POST /api/upstreams" RoleAdmin (λ _ u i,
    up ← in_upstream i; json OUpstreams (on_x (handleUpstreamAdd getenv ups (Username u) up)));
  mkEntry "DELETE /api/upstreams/{id}" RoleAdmin (λ _ u i,
    id ← in_str "id" i; json OUpstreams (on_x (handleUpstreamDelete getenv ups (Username u) id)));
  mkEntry "PUT /api/upstreams/default" RoleAdmin (λ _ u i,
    id ← in_str "ID" i; json OUpstreams (on_x (handleUpstreamSetDefault getenv ups (Username u) id)));
  mkEntry "PUT /api/upstreams/assign" RoleAdmin (λ _ u i,
    cn ← in_str "CN" i; id ← in_str "ID" i; clear ← in_bool "Clear" i;
    json OUpstreams (on_x (handleUpstreamAssign getenv unmarshal_config marshal_config (certapi.StatusPath srv) ups conf
                             (Username u) cn id clear)));
  mkEntry "POST /api/upstreams/reconcile" RoleAdmin (λ _ u _,
    json OUpstreams (on_x (handleUpstreamReconcile getenv ups (Username u))));
  mkEntry "GET /api/telegram/config" RoleReadonly (λ _ _ _, json OTelegram (handleTelegramConfigGet rt));
  mkEntry "PUT /api/telegram/config" RoleAdmin (λ _ u i,
    token ← in_str "Token" i; admin ← in_str "Admin" i;
    json OTelegram (handleTelegramConfigSet rt getMe (Username u) token admin));
  mkEntry "POST /api/telegram/{op}" RoleAdmin (λ _ u i, on_op u i OTelegram (handleTelegramOp rt));
  mkEntry "GET /api/certs/download" RoleReadonly (λ _ _ i,
    serial ← in_str "serial" i;
    file (p ← w_ (records.handleCertDownload serial);
          mret (mkDownload p.1 "application/x-pem-file" (mret p.2))))].

Definition user_routes : list (entry S H) := [
  mkEntry "GET /api/users" RoleAdmin (λ _ _ _, json OUsers (m_ userapi.handleUsersList));
  mkEntry "POST /api/users" RoleAdmin (λ _ u i,
    name ← in_str "Username" i; password ← in_str "Password" i; role ← in_str "Role" i;
    json OMsg (m_ (userapi.handleUserAdd getenv (Username u) name password role)));
  mkEntry "DELETE /api/users/{name}" RoleAdmin (λ _ u i,
    on_user u i OMsg (λ actor name, m_ (userapi.handleUserDelete actor name)));
  mkEntry "PATCH /api/users/{name}" RoleAdmin (λ _ u i,
    off ← in_bool "Disabled" i; on_user u i OMsg (λ actor name, m_ (userapi.handleUserDisabled actor name off)));
  mkEntry "POST /api/users/{name}/password" RoleAdmin (λ _ u i,
    password ← in_str "Password" i;
    on_user u i OMsg (λ actor name, m_ (userapi.handleUserPassword getenv actor name password)));
  mkEntry "POST /api/users/{name}/totp" RoleAdmin (λ _ u i,
    on_user u i OTOTP (λ actor name, cn ← remote DefaultRemote; m_ (userapi.handleUserTOTPEnroll qr_data_uri cn actor name)));
  mkEntry "DELETE /api/users/{name}/totp" RoleAdmin (λ _ u i,
    on_user u i OMsg (λ actor name, m_ (userapi.handleUserTOTPOff actor name)))].

Definition log_routes : list (entry S H) :=
  (λ name, mkEntry ("GET /api/logs/" +:+ name) RoleReadonly
             (λ _ _ _, json OLines (w_ (on_disk (records.logHandler (certapi.DataDir srv) (name +:+ ".log")))))) <$> LogNames.

Definition api : list (entry S H) := session_routes ++ cert_routes ++ config_routes ++ user_routes ++ log_routes.

(** ** A request, to its response *)

(** A file's bytes are written while answering; an error then is a 500. *)
Definition write_reply (p : reply S H) : Act (response output) := λ h,
  match p with
  | Json o => (h, Ok (Reply o))
  | File d => match dWrite d h with
              | (h', Ok data) => (h', Ok (Reply (OFile (dName d) (dType d) data)))
              | (h', Err e) => (h', Ok (if panicked e then Aborted else Failure 500 (Error e)))
              end
  end.

Definition bad_json : response output := Failure 400 "bad json".

Definition run_route (e : entry S H) (r : Request) (u : User) : Act (response output) := λ h,
  match readIn (pattern e) r ≫= serve e r u with
  | None => (h, Ok bad_json)
  | Some m => match m h with
              | (h', Ok p) => write_reply p h'
              | (h', Err err) => (h', Ok (respond (Err err)))
              end
  end.

(** Handlers of public routes read no user. *)
Definition nobody : User := mkUser 0 "" "" "" "" false 0.

Definition find_entry (r : Request) : option (entry S H) := List.find (λ e, match_route (pattern e) r) api.

(** [None]: no route of the API; the user interface or the multiplexer
    answers. *)
Definition Handler (r : Request) : Act (option (response output)) :=
  match find_entry r with
  | None => mret None
  | Some e =>
      resp ← (if String.eqb (role e) "" then run_route e r nobody else wrap (role e) (run_route e r) r);
      mret (Some resp)
  end.

(** One request after another, each at its own time and with its own faults
    and entropy ahead of it. *)
Record moment := mkMoment {
  m_clock : Z; m_db_faults : list (option goerr); m_entropy : string; m_disk_faults : list fault }.

Definition at_moment (m : moment) (h : Host S H) : Host S H :=
  let w := wd (sv h) in
  let s := db w in
  let s' := mkStore (tables s) (totpKey s) (hook s) (hooked s) (m_clock m) (m_db_faults m) (m_entropy m) in
  mkHost (mkServe (mkWorld (mkService s' (Lim (svc w)) (UserLim (svc w)))
                     (mkFs (files (disk w)) (m_disk_faults m)) (conn w)) (trk (sv h))) (DebugLevel h) (sent h).

Definition serve_all (rs : list (moment * Request)) (h : Host S H) : Host S H :=
  foldl (λ h p, (Handler p.2 (at_moment p.1 h)).1) h rs.
End Server.
End server.
