(* ===== verification/HttpShell.v ===== *)
(** * HttpShell: what goes out over the wire (internal/api/api.go)

    A handler's result as operations on net/http's response writer, the two
    wrappers around every handler (security headers, request log), and the
    fallback that serves the web UI's files. *)

From Stdlib Require Import Ascii.
From S2P Require Import Prelude GoStr GoErr GoFs NetIP Names Store StoreUsers StoreStats Totp Auth Mgmt OvpnConf Pki World.
From S2P Require Import CertApi UserApi ConfigApi UpstreamApi Records Sampler Backup ServerApi HttpApi Server.

Module httpshell.
Import httpapi server.

(** ** net/http's response writer *)

(** The header map as set so far; the status and headers as sent, once they
    are; the body. *)
Record Writer := mkWriter { w_header : gmap string (list string); w_sent : option (Z * gmap string (list string)); w_body : string }.

Inductive op :=
  | HeaderSet (key value : string) | HeaderAdd (key value : string)
  | WriteHeader (code : Z) | Write (data : string).

(** The first status sent is the one, with the headers of that moment; a write
    before it sends 200. *)
Definition send (code : Z) (w : Writer) : Writer :=
  match w_sent w with
  | Some _ => w
  | None => mkWriter (w_header w) (Some (code, w_header w)) (w_body w)
  end.
Definition do_op (w : Writer) (o : op) : Writer :=
  match o with
  | HeaderSet k v => mkWriter (<[k := [v]]> (w_header w)) (w_sent w) (w_body w)
  | HeaderAdd k v => mkWriter (<[k := default [] (w_header w !! k) ++ [v]]> (w_header w)) (w_sent w) (w_body w)
  | WriteHeader c => send c w
  | Write d => let w := send 200 w in mkWriter (w_header w) (w_sent w) (w_body w +:+ d)
  end.
Definition run (ops : list op) (w : Writer) : Writer := foldl do_op w ops.
Definition new_writer : Writer := mkWriter ∅ None "".

(** A handler that returns without writing has answered 200. *)
Definition finish (w : Writer) : Z * gmap string (list string) * string :=
  match w_sent w with Some (c, h) => (c, h, w_body w) | None => (200, w_header w, w_body w) end.

(** ** [respond] and [jsonErr] *)

Section Respond.
  Context (encode : output → string) (encode_error : string → string) (cookie_text : Cookie → string).

Definition jsonErr (code : Z) (msg : string) : list op :=
  [HeaderSet "Content-Type" "application/json"; WriteHeader code; Write (encode_error msg)].

(** A fault of the server is logged with its text. *)
Definition jsonErr_warns (code : Z) : bool := 500 <=? code.

Definition cookies_of (o : output) : list Cookie := match o with OMe cs _ | OLogout cs => cs | _ => [] end.
Definition set_cookies (cs : list Cookie) : list op := (λ c, HeaderAdd "Set-Cookie" (cookie_text c)) <$> cs.

Definition disposition (name : string) : string := "attachment; filename=" +:+ String DQ (name +:+ String DQ "").

(** A file's bytes go out as they are written; an error comes after them. *)
Definition respond_file (name type : string) (chunks : list string) (err : option goerr) : list op :=
  [HeaderSet "Content-Type" type; HeaderSet "Content-Disposition" (disposition name)] ++ (Write <$> chunks) ++
  match err with Some e => jsonErr 500 (Error e) | None => [] end.

(** [None]: the connection is aborted. *)
Definition respond_ops (r : response output) : option (list op) :=
  match r with
  | Reply (OFile name type data) => Some (respond_file name type [data] None)
  | Reply o => Some (set_cookies (cookies_of o) ++ [HeaderSet "Content-Type" "application/json"; Write (encode o)])
  | Failure code msg => Some (jsonErr code msg)
  | Aborted => None
  end.
End Respond.

(** ** The wrappers *)

Definition security : list (string * string) := [
  ("Strict-Transport-Security", "max-age=31536000"); ("X-Content-Type-Options", "nosniff"); ("X-Frame-Options", "DENY");
  ("Content-Security-Policy", "default-src 'self'; style-src 'self' 'unsafe-inline'; img-src 'self' data:");
  ("Referrer-Policy", "no-referrer"); ("Permissions-Policy", "geolocation=(), microphone=(), camera=()")].

Definition secureHeaders (next : list op) : list op := ((λ p, HeaderSet p.1 p.2) <$> security) ++ next.

(** [statusWriter]: the last status set, 200 when none is. *)
Definition statusWriter (ops : list op) : Z := foldl (λ st o, match o with WriteHeader c => c | _ => st end) 200 ops.

Inductive level := Debug | Warn.
Record logged := mkLogged { lg_level : level; lg_method : string; lg_path : string; lg_status : Z; lg_remote : string }.

(** The response on the wire and the line logged for it; the duration aside. *)
Definition requestLog (path : string) (r : Request) (next : list op) : (Z * gmap string (list string) * string) * logged :=
  let st := statusWriter next in
  (finish (run next new_writer), mkLogged (if 500 <=? st then Warn else Debug) (Method r) path st (clientIP r)).

(** ** The web UI's files *)

Record Ui := mkUi { ui_files : gset string; ui_dirs : gset string }.

(** [fs.ValidPath]: slash-separated, rooted, without empty or dot elements. *)
Definition ValidPath (p : string) : bool :=
  String.eqb p "." || forallb (λ e, negb (String.eqb e "" || String.eqb e "." || String.eqb e "..")) (split "/" p).
Definition ui_stat (ui : Ui) (p : string) : bool :=
  ValidPath p && (String.eqb p "." || bool_decide (p ∈ ui_files ui) || bool_decide (p ∈ ui_dirs ui)).

Inductive served := File (p : string) | Redirect (to : string) | Listing (p : string) | NotFound.

(** [http.FileServer] on a path already clean but for a slash at its end. *)
Definition in_dir (d f : string) : string := if String.eqb d "." then f else d +:+ "/" +:+ f.
Definition FileServer (ui : Ui) (path : string) : served :=
  if has_suffix "/index.html" path then Redirect "./" else
  let p := trim_suffix "/" (trim_prefix "/" path) in
  let p := if String.eqb p "" then "." else p in
  if bool_decide (p ∈ ui_files ui) then (if has_suffix "/" path then Redirect ("../" +:+ base_name p) else File p)
  else if String.eqb p "." || bool_decide (p ∈ ui_dirs ui) then
    if negb (has_suffix "/" path) then Redirect (base_name p +:+ "/")
    else if bool_decide (in_dir p "index.html" ∈ ui_files ui) then File (in_dir p "index.html") else Listing p
  else NotFound.

Definition spa (ui : Ui) (path : string) : served :=
  let p := trim_prefix "/" path in
  let p := if String.eqb p "" then "index.html" else p in
  FileServer ui (if ui_stat ui p then path else "/").

(** ** What goes out *)

(** The headers of a response hold a key with a value. *)
Definition sent_header (k v : string) (ops : list op) : Prop := (finish (run ops new_writer)).1.2 !! k = Some [v].

Definition touches (k : string) (o : op) : bool := match o with HeaderSet k' _ | HeaderAdd k' _ => String.eqb k' k | _ => false end.

(** A header nobody touches stays, and is sent. *)
Lemma run_keeps k v ops w : Forall (λ o, touches k o = false) ops → w_header w !! k = Some [v] →
  (∀ c h, w_sent w = Some (c, h) → h !! k = Some [v]) →
  w_header (run ops w) !! k = Some [v] ∧ (∀ c h, w_sent (run ops w) = Some (c, h) → h !! k = Some [v]).
Proof.
  intros Ht. revert w. induction Ht as [|o ops Ho _ IH]; intros w Hh Hs; [done|]. cbn. apply IH.
  - destruct o; cbn in *; try apply String.eqb_neq in Ho; rewrite ?lookup_insert_ne by done; try done;
      unfold send; by destruct (w_sent w).
  - destruct o; cbn in *; try done; unfold send; destruct (w_sent w) as [[c0 h0]|] eqn:E; cbn; try done;
      try (rewrite E; done); intros c h [= <- <-]; by eauto.
Qed.

Lemma run_app a b w : run (a ++ b) w = run b (run a w).
Proof. apply foldl_app. Qed.

Lemma secured k v ops : (k, v) ∈ security → Forall (λ o, touches k o = false) ops → sent_header k v (secureHeaders ops).
Proof.
  intros Hin Ht. unfold sent_header, secureHeaders. rewrite run_app.
  destruct (run_keeps k v ops (run ((λ p, HeaderSet p.1 p.2) <$> security) new_writer) Ht) as [H1 H2].
  - unfold security in Hin. repeat (apply elem_of_cons in Hin as [[= -> ->]|Hin]; [by vm_compute|]). by apply elem_of_nil in Hin.
  - intros c h E. by vm_compute in E.
  - unfold finish. destruct (w_sent _) as [[c h]|] eqn:E; cbn; [by eapply H2|done].
Qed.

(** The statuses set in the order of the operations, writes counting as 200. *)
Fixpoint first_status (ops : list op) : Z :=
  match ops with
  | [] => 200
  | WriteHeader c :: _ => c
  | Write _ :: _ => 200
  | _ :: ops => first_status ops
  end.

Lemma run_sent ops w s : w_sent w = Some s → w_sent (run ops w) = Some s.
Proof.
  revert w. induction ops as [|o ops IH]; intros w Hw; [done|]. cbn. apply IH. destruct o; cbn; unfold send; by rewrite ?Hw.
Qed.
Lemma wire_status ops w : w_sent w = None → (finish (run ops w)).1.1 = first_status ops.
Proof.
  revert w. induction ops as [|o ops IH]; intros w Hw; [unfold finish; cbn; by rewrite Hw|]. destruct o; cbn [first_status].
  - by apply (IH (do_op w (HeaderSet key value))).
  - by apply (IH (do_op w (HeaderAdd key value))).
  - unfold finish. change (run (WriteHeader code :: ops) w) with (run ops (do_op w (WriteHeader code))).
    rewrite (run_sent ops _ (code, w_header w)); [done|]. cbn. unfold send. by rewrite Hw.
  - unfold finish. change (run (Write data :: ops) w) with (run ops (do_op w (Write data))).
    rewrite (run_sent ops _ (200, w_header w)); [done|]. cbn. unfold send. by rewrite Hw.
Qed.

Definition is_header (o : op) : bool := match o with HeaderSet _ _ | HeaderAdd _ _ => true | _ => false end.

Lemma first_status_headers a b : Forall (λ o, is_header o = true) a → first_status (a ++ b) = first_status b.
Proof. induction 1 as [|o a Ho _ IH]; [done|]. by destruct o. Qed.
Lemma statusWriter_headers a b : Forall (λ o, is_header o = true) a → statusWriter (a ++ b) = statusWriter b.
Proof. intros Ha. unfold statusWriter. rewrite foldl_app. f_equal. generalize 200. induction Ha as [|o a Ho _ IH]; intros z; [done|]. destruct o; try done; apply IH. Qed.
Lemma security_is_headers : Forall (λ o, is_header o = true) ((λ p, HeaderSet p.1 p.2) <$> security).
Proof. by repeat constructor. Qed.

Section Answers.
  Context (encode : output → string) (encode_error : string → string) (cookie_text : Cookie → string).
Notation respond_ops := (respond_ops encode encode_error cookie_text).

(** The status a response has. *)
Definition code_of (r : response output) : Z := match r with Failure code _ => code | _ => 200 end.

Lemma respond_untouched k v r ops : (k, v) ∈ security → respond_ops r = Some ops → Forall (λ o, touches k o = false) ops.
Proof.
  intros Hin E. assert (k ∉ ["Content-Type"; "Content-Disposition"; "Set-Cookie"]) as Hk.
  { unfold security in Hin. repeat (apply elem_of_cons in Hin as [[= -> _]|Hin]; [by apply (bool_decide_unpack _); vm_compute|]).
    by apply elem_of_nil in Hin. }
  rewrite !not_elem_of_cons in Hk. destruct Hk as (K1&K2&K3&_).
  assert (∀ k', k ≠ k' → (k' =? k)%string = false) as Hne by (intros k' ?; apply String.eqb_neq; congruence).
  assert (∀ l, Forall (λ o, touches k o = false) (set_cookies cookie_text l)) as Hc.
  { intros l. unfold set_cookies. apply Forall_fmap, Forall_true. intros c. by apply Hne. }
  destruct r as [o|c m|]; cbn in E; [|injection E as <-; repeat constructor; by apply Hne|done].
  destruct o; injection E as <-; first [apply Forall_app; split; [apply Hc|]|idtac]; repeat constructor; by apply Hne.
Qed.

Lemma respond_status r ops : respond_ops r = Some ops → first_status ops = code_of r ∧ statusWriter ops = code_of r.
Proof.
  assert (∀ l, Forall (λ o, is_header o = true) (set_cookies cookie_text l)) as Hc.
  { intros l. unfold set_cookies. apply Forall_fmap, Forall_true. by intros c. }
  destruct r as [o|c m|]; cbn; [|by intros [= <-]|done].
  destruct o; intros [= <-]; rewrite ?first_status_headers, ?statusWriter_headers by apply Hc; done.
Qed.

(** Every answer the API gives leaves with the six security headers as
    they are meant, under the status the handler's result has, and the request
    log has that status, as a warning exactly when it is a server's fault. *)
Theorem answers_hardened path r resp ops (E : respond_ops resp = Some ops) :
  let '(wire, line) := requestLog path r (secureHeaders ops) in
  (∀ k v, (k, v) ∈ security → wire.1.2 !! k = Some [v]) ∧
  wire.1.1 = code_of resp ∧ lg_status line = code_of resp ∧
  (lg_level line = Warn ↔ 500 ≤ code_of resp) ∧ lg_method line = Method r ∧ lg_remote line = clientIP r.
Proof.
  destruct (respond_status resp ops E) as [Hf Hs]. unfold requestLog, secureHeaders.
  rewrite statusWriter_headers, Hs by apply security_is_headers. split_and!; try done.
  - intros k v Hin. apply (secured k v ops Hin). by eapply respond_untouched.
  - rewrite wire_status by done. by rewrite first_status_headers by apply security_is_headers.
  - cbn. destruct (Z.leb_spec 500 (code_of resp)); split; (done || lia).
Qed.
End Answers.

(** A file whose writing fails after its first byte: the client has a complete
    200 with the error's JSON at the end of the file, and only the log says
    500. *)
Lemma failed_download encode_error path r name type chunk chunks e :
  let ops := respond_file encode_error name type (chunk :: chunks) (Some e) in
  let '(wire, line) := requestLog path r (secureHeaders ops) in
  wire.1.1 = 200 ∧ lg_status line = 500 ∧ wire.2 = concat_s (chunk :: chunks) +:+ encode_error (Error e).
Proof.
  cbn zeta. unfold requestLog, secureHeaders, respond_file. split_and!.
  - rewrite wire_status by done. by rewrite first_status_headers by apply security_is_headers.
  - cbn [lg_status]. rewrite statusWriter_headers by apply security_is_headers. unfold statusWriter. by rewrite !foldl_app.
  - rewrite run_app. set (w0 := run _ new_writer). assert (w_body w0 = "" ∧ w_sent w0 = None) as [Hb Hs] by by vm_compute.
    clearbody w0. rewrite run_app. set (w1 := run [_; _] w0). assert (w_body w1 = "" ∧ w_sent w1 = None) as [Hb1 Hs1] by done.
    clearbody w1. rewrite run_app. clear w0 Hb Hs.
    assert (∀ cs w, w_body (run (Write <$> cs) w) = w_body w +:+ concat_s cs) as Hw.
    { induction cs as [|c cs IH]; intros w; cbn; [by rewrite s_app_nil_r|]. change (foldl do_op ?x ?l) with (run l x).
      rewrite IH. cbn. unfold send. by destruct (w_sent w); cbn; rewrite s_app_assoc. }
    set (w2 := run (Write <$> chunk :: chunks) w1). specialize (Hw (chunk :: chunks) w1). fold w2 in Hw. rewrite Hb1 in Hw.
    assert (w_sent w2 = Some (200, w_header w1)) as H2.
    { change (w_sent (run (Write <$> chunks) (do_op w1 (Write chunk))) = Some (200, w_header w1)). apply run_sent. cbn. unfold send. by rewrite Hs1. }
    clearbody w2. destruct w2 as [h2 s2 b2]. cbn in H2, Hw. rewrite H2, Hw. done.
Qed.

(** ** The web UI *)

Lemma spa_root ui : "index.html" ∈ ui_files ui → "." ∉ ui_files ui → FileServer ui "/" = File "index.html".
Proof.
  intros Hi Hd. unfold FileServer. cbn. rewrite bool_decide_false by done. by rewrite bool_decide_true.
Qed.

Lemma valid_no_slash p : ValidPath p = true → has_suffix "/" p = false.
Proof.
  intros Hv. apply not_true_iff_false. intros (q&->)%has_suffix_spec. unfold ValidPath in Hv.
  rewrite (split_sep "/" q "") in Hv. apply orb_true_iff in Hv as [Hv|Hv].
  - apply String.eqb_eq in Hv. destruct q as [|c q]; [done|]. cbn in Hv. injection Hv as _ Hq. by destruct q.
  - rewrite forallb_app in Hv. cbn in Hv. by rewrite andb_false_r in Hv.
Qed.

Lemma trim_suffix_id p s : has_suffix p s = false → trim_suffix p s = s.
Proof. unfold has_suffix, trim_suffix. by destruct (cut_suffix p s). Qed.

Lemma slash_suffix p : p ≠ "" → has_suffix "/" ("/" +:+ p) = true → has_suffix "/" p = true.
Proof.
  intros Hp (q&E)%has_suffix_spec. destruct q as [|c q]; [by injection E|]. change (String "/" p = String c (q +:+ "/")) in E.
  injection E as _ ->.
  apply has_suffix_spec. by exists q.
Qed.

(** Whatever is asked for, the web UI answers with one of its files or a
    redirect: no directory is ever listed and nothing is missing. *)
Lemma spa_serves ui path : "index.html" ∈ ui_files ui → "." ∉ ui_files ui →
  match spa ui path with File p => p ∈ ui_files ui | Redirect _ => True | _ => False end.
Proof.
  intros Hi Hd. unfold spa. set (p := trim_prefix "/" path).
  assert (match FileServer ui "/" with File p => p ∈ ui_files ui | Redirect _ => True | _ => False end) as Hroot
    by by rewrite spa_root.
  destruct (String.eqb p "") eqn:Ep.
  - apply String.eqb_eq in Ep. destruct (ui_stat ui "index.html"); [|done]. unfold FileServer. fold p. rewrite Ep. cbn.
    destruct (has_suffix "/index.html" path); [done|]. rewrite (bool_decide_false (_ ∈ _)) by done.
    destruct (has_suffix "/" path); [|done]. cbn. by rewrite bool_decide_true.
  - destruct (ui_stat ui p) eqn:Es; [|done]. unfold ui_stat in Es. apply andb_true_iff in Es as [Hv%valid_no_slash Hin].
    apply String.eqb_neq in Ep. assert (has_suffix "/" path = false) as Hs.
    { apply not_true_iff_false. intros Hs. unfold p, trim_prefix in *. destruct (cut_prefix "/" path) as [q|] eqn:Ec; [|congruence].
      apply cut_prefix_Some in Ec as ->. apply slash_suffix in Hs; congruence. }
    unfold FileServer. destruct (has_suffix "/index.html" path); [done|]. fold p. rewrite (trim_suffix_id "/" p Hv), Hs.
    rewrite (proj2 (String.eqb_neq p "")) by done. cbn [negb].
    destruct (bool_decide (p ∈ ui_files ui)) eqn:Ef; [by apply bool_decide_eq_true in Ef|].
    rewrite orb_false_r in Hin. by rewrite Hin.
Qed.

(** ** Concrete answers *)

Definition plain_error (msg : string) : string := "{" +:+ quote "error" +:+ ":" +:+ quote msg +:+ "}" +:+ nl.
Definition asker : Request := mkRequest "POST" ["api"; "debug"] [] "" None None "" "10.8.0.2:51234".

Lemma answers_hardened_witness :
  let '(wire, line) := requestLog "/api/debug" asker (secureHeaders (jsonErr plain_error 403 "csrf check failed")) in
  wire.1.2 !! "X-Frame-Options" = Some ["DENY"] ∧ wire.1.1 = 403 ∧ line = mkLogged Debug "POST" "/api/debug" 403 "10.8.0.2".
Proof.
  pose proof (answers_hardened (λ _, "{}") plain_error (λ _, "") "/api/debug" asker (Failure 403 "csrf check failed") _ eq_refl) as H.
  destruct (requestLog _ _ _) as [wire line] eqn:El. destruct H as (H1&H2&_). split; [|split].
  - apply H1. unfold security. rewrite !elem_of_cons. right; right; left. reflexivity.
  - exact H2.
  - injection El as _ <-. reflexivity.
Defined.

Definition demo_ui : Ui := mkUi {["index.html"; "assets/app.js"]} {["assets"]}.
Example spa_ex :
  spa demo_ui "/" = File "index.html" ∧ spa demo_ui "/users" = File "index.html" ∧ spa demo_ui "/assets/app.js" = File "assets/app.js" ∧
  spa demo_ui "/assets" = Redirect "assets/" ∧ spa demo_ui "/assets/" = File "index.html" ∧ spa demo_ui "/../etc/passwd" = File "index.html".
Proof. by vm_compute. Qed.

End httpshell.
