(* ===== verification/Privilege.v ===== *)
(** * Privilege: what a request can change (internal/api/api.go, all handlers)

    How far each role reaches: the relation between the server before and
    after a request, followed through every handler down to the statements. *)

From Stdlib Require Import Ascii.
From stdpp Require Import sorting.
From S2P Require Import Prelude GoStr GoErr GoFs GoEnc NetIP Names Upstream UpstreamApply Store StoreUsers StoreStats StoreInv Totp.
From S2P Require Import Auth Mgmt Control OvpnConf Pki LogRotate World CertApi UserApi ConfigApi UpstreamApi Records Sampler.
From S2P Require Import Backup Telegram ServerApi HttpApi Server.

Module privilege.
Import store users storeinv auth world configapi logrotate upstreamapi serverapi httpapi server.

(** ** Computations that keep a relation *)

Definition bnd {Σ X} (R : Σ → Σ → Prop) (m : Σ → Σ * X) : Prop := ∀ s, R s (m s).1.

Section Generic.
  Context {Σ : Type} (R : Σ → Σ → Prop) `{!PreOrder R}.

Lemma bnd_same {X} (f : Σ → X) : bnd R (λ s, (s, f s)).
Proof. intros s. reflexivity. Qed.
Lemma bnd_bind {X Y} (m : Σ → Σ * result X) (f : X → Σ → Σ * result Y) : bnd R m → (∀ x, bnd R (f x)) →
  bnd R (λ s, match m s with (s', Ok x) => f x s' | (s', Err e) => (s', Err e) end).
Proof.
  intros Hm Hf s. specialize (Hm s). destruct (m s) as [s1 [x|e]]; [|done].
  simpl in *. etrans; [exact Hm|apply Hf].
Qed.
Lemma bnd_pbind {X Y} (m : Σ → Σ * option X) (f : X → Σ → Σ * option Y) : bnd R m → (∀ x, bnd R (f x)) →
  bnd R (λ s, match m s with (s', Some x) => f x s' | (s', None) => (s', None) end).
Proof.
  intros Hm Hf s. specialize (Hm s). destruct (m s) as [s1 [x|]]; [|done].
  simpl in *. etrans; [exact Hm|apply Hf].
Qed.
(** The result looked at, or turned into another. *)
Lemma bnd_map {X Y} (m : Σ → Σ * X) (g : Σ * X → Y) : bnd R m → bnd R (λ s, ((m s).1, g (m s))).
Proof. intros Hm s. apply Hm. Qed.
End Generic.

(** ** The levels *)

(** The statements of any requests. *)
Definition life : Tables → Tables → Prop := rtc (λ t t', ∃ tok, effect tok t t').

(** The reach of a level: 0 leaves certificates, accounts, settings and traffic
    history alone; 1 may change certificates; 2 anything, through the schema's
    statements. *)
Record t_within (lv : Z) (t t' : Tables) : Prop := {
  tw_life : life t t';
  tw_admin : lv < 2 → users t' = users t ∧ settings t' = settings t ∧
             client_samples t' = client_samples t ∧ client_sessions t' = client_sessions t;
  tw_operator : lv < 1 → certs t' = certs t }.

#[export] Instance t_within_preorder lv : PreOrder (t_within lv).
Proof.
  split.
  - intros t. split; [apply rtc_refl|done..].
  - intros a b c [L1 A1 O1] [L2 A2 O2]. split; [by etrans| |].
    + intros Hl. destruct (A1 Hl) as (?&?&?&?), (A2 Hl) as (?&?&?&?). split_and!; congruence.
    + intros Hl. rewrite O2 by done. by apply O1.
Qed.

Definition m_within (lv : Z) (s s' : Store) : Prop := t_within lv (tables s) (tables s').
#[export] Instance m_within_preorder lv : PreOrder (m_within lv).
Proof. unfold m_within. split; [intros ?; reflexivity|]. intros ???. apply transitivity. Qed.

Section Levels.
  Context {S H : Type} (srv : certapi.Server).

(** Files: an operator reaches the revocation list only. *)
Record w_within (lv : Z) (w w' : World S) : Prop := {
  ww_tables : t_within lv (tables (db w)) (tables (db w'));
  ww_admin : lv < 2 → ∀ q, q ≠ pki.CRLPath (certapi.Dir srv) → q ≠ pki.CRLPath (certapi.Dir srv) +:+ ".tmp" →
    files (disk w') !! q = files (disk w) !! q;
  ww_operator : lv < 1 → files (disk w') = files (disk w) }.

#[export] Instance w_within_preorder lv : PreOrder (w_within lv).
Proof.
  split.
  - intros w. by split.
  - intros a b c [T1 A1 O1] [T2 A2 O2]. split; [by etrans| |].
    + intros Hl q H1 H2. rewrite A2 by done. by apply A1.
    + intros Hl. rewrite O2 by done. by apply O1.
Qed.

(** The routing state, the log level and the bot's calls. *)
Record x_within (lv : Z) (x x' : Serve S H) : Prop := {
  xw_world : w_within lv (wd x) (wd x'); xw_admin : lv < 2 → trk x' = trk x }.

#[export] Instance x_within_preorder lv : PreOrder (x_within lv).
Proof.
  split; [by split|]. intros a b c [W1 A1] [W2 A2]. split; [by etrans|]. intros Hl. rewrite A2 by done. by apply A1.
Qed.

Record h_within (lv : Z) (h h' : Host S H) : Prop := {
  hw_serve : x_within lv (sv h) (sv h');
  hw_admin : lv < 2 → DebugLevel h' = DebugLevel h ∧ sent h' = sent h }.

#[export] Instance h_within_preorder lv : PreOrder (h_within lv).
Proof.
  split; [by split|]. intros a b c [W1 A1] [W2 A2]. split; [by etrans|]. intros Hl.
  destruct (A1 Hl), (A2 Hl). split; congruence.
Qed.

(** A higher level reaches further. *)
Lemma t_within_mono lv lv' t t' : lv ≤ lv' → t_within lv t t' → t_within lv' t t'.
Proof. intros Hl [L A O]. split; [done| |]; intros ?; [apply A|apply O]; lia. Qed.
Lemma h_within_mono lv lv' h h' : lv ≤ lv' → h_within lv h h' → h_within lv' h h'.
Proof.
  intros Hl [[[T A O] X] D]. split; [split; [split|]|].
  - by eapply t_within_mono.
  - intros ?. apply A. lia.
  - intros ?. apply O. lia.
  - intros ?. apply X. lia.
  - intros ?. apply D. lia.
Qed.

(** ** Lifting *)

Lemma bnd_on_db lv {B} (m : M B) : bnd (m_within lv) m → bnd (w_within lv) (on_db m).
Proof. intros Hm w. unfold on_db. specialize (Hm (db w)). destruct (m (db w)). by split. Qed.
Lemma bnd_on_w lv {B} (m : W S B) : bnd (w_within lv) m → bnd (x_within lv) (on_w m).
Proof. intros Hm x. unfold on_w. specialize (Hm (wd x)). destruct (m (wd x)). by split. Qed.
Lemma bnd_on_x lv {B} (m : X S H B) : bnd (x_within lv) m → bnd (h_within lv) (on_x m).
Proof. intros Hm h. unfold on_x. specialize (Hm (sv h)). destruct (m (sv h)). by split. Qed.

Lemma bnd_ignore lv {B} (m : W S B) : bnd (w_within lv) m → bnd (w_within lv) (w_ignore m).
Proof. intros Hm w. apply Hm. Qed.
Lemma bnd_try lv {B} (m : W S B) : bnd (w_within lv) m → bnd (w_within lv) (w_try m).
Proof. intros Hm w. specialize (Hm w). unfold w_try. by destruct (m w). Qed.
Lemma bnd_err lv {B} f (m : W S B) : bnd (w_within lv) m → bnd (w_within lv) (w_err f m).
Proof. intros Hm w. specialize (Hm w). unfold w_err. by destruct (m w) as [w' []]. Qed.
Lemma bnd_a_try lv {B} (m : Act S H B) : bnd (h_within lv) m → bnd (h_within lv) (a_try m).
Proof. intros Hm h. specialize (Hm h). unfold a_try. by destruct (m h) as [h' []]. Qed.
Lemma bnd_a_err lv {B} f (m : Act S H B) : bnd (h_within lv) m → bnd (h_within lv) (a_err f m).
Proof. intros Hm h. specialize (Hm h). unfold a_err. by destruct (m h) as [h' []]. Qed.
Lemma bnd_on_p lv {B} (m : control.P (Host S H) (result B)) : bnd (h_within lv) m → bnd (h_within lv) (on_p m).
Proof. intros Hm h. specialize (Hm h). unfold on_p. by destruct (m h) as [h' []]. Qed.

(** Reading the disk. *)
Lemma bnd_disk_read lv {B} (m : F B) : (∀ d, files (m d).1 = files d) → bnd (w_within lv) (on_disk m).
Proof.
  intros Hm w. unfold on_disk. specialize (Hm (disk w)). destruct (m (disk w)) as [d r]. simpl in Hm.
  split; simpl; [reflexivity|by rewrite Hm|done].
Qed.
Lemma bnd_disk lv {B} (m : F B) : 2 ≤ lv → bnd (w_within lv) (on_disk m).
Proof. intros Hl w. unfold on_disk. destruct (m (disk w)). split; simpl; [reflexivity|lia..]. Qed.
Lemma bnd_pki lv {B} (m : pki.K B) : 2 ≤ lv → bnd (w_within lv) (on_pki m).
Proof. intros Hl w. unfold on_pki. destruct (m (pki_env w)). split; simpl; [reflexivity|lia..]. Qed.
Lemma bnd_pki_read lv {B} (m : pki.K B) : pki.readonly m → bnd (w_within lv) (on_pki m).
Proof.
  intros Hm w. unfold on_pki. specialize (Hm (pki_env w)). destruct (m (pki_env w)) as [e r]. simpl in Hm.
  split; simpl; [reflexivity|by rewrite Hm|done].
Qed.
Lemma bnd_kill lv `{mgmt.Server S} cn msg : bnd (w_within lv) (mgmt_kill cn msg).
Proof.
  intros w. destruct (mgmt_kill cn msg w) as [w' r] eqn:E. apply mgmt_kill_run in E as [E D]. simpl.
  split; unfold db; rewrite ?E, ?D; done.
Qed.
Lemma ReadFile_files path d : files (ReadFile path d).1 = files d.
Proof. unfold ReadFile. by repeat case_match. Qed.
Lemma bnd_status lv path : bnd (w_within lv) (mgmt_status path).
Proof.
  intros w. unfold mgmt_status. pose proof (ReadFile_files path (disk w)) as E. destruct (ReadFile path (disk w)) as [d r].
  simpl in E. split; simpl; [reflexivity|by rewrite E|done].
Qed.
Lemma bnd_trk lv `{tracker.HostOps H} {B} (m : tracker.M (W := H) B) : 2 ≤ lv → bnd (x_within lv) (on_trk m).
Proof. intros Hl x. unfold on_trk. destruct (m (trk x)). split; simpl; [reflexivity|lia]. Qed.
End Levels.

(** ** Statements of the store *)

Section Statements.
  Context `{Aead}.

Lemma bnd_query lv {B} (f : Tables → result B) : bnd (m_within lv) (store.query f).
Proof. exact (acts_query (t_within lv) f). Qed.
Lemma bnd_exec lv {B} (f : Tables → result (Tables * B)) : (∀ t t' a, f t = Ok (t', a) → t_within lv t t') →
  bnd (m_within lv) (exec f).
Proof. exact (acts_exec (t_within lv) f). Qed.
Lemma bnd_transaction lv {B} (m : M B) : bnd (m_within lv) m → bnd (m_within lv) (transaction m).
Proof. exact (acts_transaction (t_within lv) m). Qed.
Lemma bnd_dupCN lv cn {B} (m : M B) : bnd (m_within lv) m → bnd (m_within lv) (or_dupCN cn m).
Proof. exact (acts_or_dupCN (t_within lv) cn m). Qed.
Lemma bnd_hook lv a b c : bnd (m_within lv) (run_hook a b c).
Proof. exact (acts_run_hook (t_within lv) a b c). Qed.
Lemma bnd_m_ignore lv {B} (m : M B) : bnd (m_within lv) m → bnd (m_within lv) (ignore m).
Proof. intros Hm s. apply Hm. Qed.

Lemma life_step tok t t' : effect tok t t' → life t t'.
Proof. intros He. apply rtc_once. by exists tok. Qed.
Lemma life_effects tok t t' : effects tok t t' → life t t'.
Proof. intros He. eapply rtc_subrel; [|exact He]. intros ???. by exists tok. Qed.

(** What an administrator's request runs on the store is an operation of it. *)
Lemma bnd_op lv (o : op) {B} (m : M B) : 2 ≤ lv → (∀ s, (m s).1 = run_op o s) → bnd (m_within lv) m.
Proof.
  intros Hl Hm s. rewrite Hm. split; [|lia..]. eapply life_effects, run_op_effects.
Qed.

Lemma bnd_Audit lv actor action detail : bnd (m_within lv) (Audit actor action detail).
Proof.
  apply bnd_bind; [apply _|intros s; reflexivity|]. intros t0. apply bnd_bind; [apply _| |intros []; apply bnd_hook].
  apply bnd_exec. intros t t' [] [= <-]. split; [|done..]. eapply (life_step None), E_audit.
Qed.
Lemma bnd_insertCert lv c : 1 ≤ lv → bnd (m_within lv) (exec (insertCert (certArgs c))).
Proof.
  intros Hl. apply bnd_exec. intros t t' [] E. split; [by eapply (life_step None), E_insert| |lia].
  intros _. unfold insertCert in E. repeat case_match; by simplify_eq/=.
Qed.
Lemma bnd_AddCert lv c : 1 ≤ lv → bnd (m_within lv) (AddCert c).
Proof. intros Hl. by apply bnd_dupCN, bnd_insertCert. Qed.
Lemma bnd_ReplaceCert lv c : 1 ≤ lv → bnd (m_within lv) (ReplaceCert c).
Proof.
  intros Hl. apply bnd_transaction, bnd_bind; [apply _|intros s; reflexivity|]. intros t0.
  apply bnd_bind; [apply _| |intros []; by apply bnd_dupCN, bnd_insertCert].
  apply bnd_exec. intros t t' [] [= <-]. split; [|done|lia].
  eapply (life_step None), E_revoke. intros r. unfold activeCert. by intros [_ ?]%andb_true_iff.
Qed.
Lemma bnd_Revoke lv serial t0 : 1 ≤ lv → bnd (m_within lv) (Revoke serial t0).
Proof.
  intros Hl. apply bnd_bind; [apply _| |intros []; intros s; reflexivity].
  apply bnd_exec. intros t t' row [= <- <-]. split; [|done|lia].
  eapply (life_step None), E_revoke. intros r. unfold active_client. by intros [_ ?]%andb_true_iff.
Qed.
Lemma bnd_SetCertDNS lv serial include : 1 ≤ lv → bnd (m_within lv) (SetCertDNS serial include).
Proof.
  intros Hl. apply bnd_bind; [apply _|apply bnd_query|]. intros [r|]; [|intros s; reflexivity].
  case_match; [intros s; reflexivity|]. apply bnd_bind; [apply _| |intros []; intros s; reflexivity].
  apply bnd_exec. intros t t' [] [= <-]. split; [|done|lia]. eapply (life_step None), E_dns.
Qed.
Lemma bnd_DeleteSession lv tok : bnd (m_within lv) (DeleteSession tok).
Proof. apply bnd_exec. intros t t' [] [= <-]. split; [|done..]. eapply (life_step None), E_logout. Qed.
Lemma bnd_AddSession lv tok id ttl : bnd (m_within lv) (AddSession tok id ttl).
Proof.
  intros s. pose proof (run_op_effects (OAddSession tok id ttl) s) as HL. simpl in HL.
  destruct (AddSession tok id ttl s) as [s' r] eqn:E. simpl in *. split; [by eapply life_effects| |]; intros _;
    (apply store_bind_run in E as [(s1&t0&[= <- <-]&E)|(e&[=]&_)]);
    apply exec_inv in E as (_&_&[(?&_&->&_)|(t&[]&Hi&->&_)]); try done;
    unfold insertSession in Hi; repeat case_match; by simplify_eq/=.
Qed.
Lemma bnd_LoadJSON lv {B} `{JsonInto B} key (def : B) : bnd (m_within lv) (LoadJSON key def).
Proof. intros s. unfold LoadJSON. pose proof (bnd_query lv (λ t, Ok (default "" (settings t !! key))) s) as Hq.
  unfold GetSetting. by destruct (store.query _ s). Qed.
Lemma bnd_SaveJSON lv {B} `{JsonInto B} key (v : B) : 2 ≤ lv → bnd (m_within lv) (SaveJSON key v).
Proof.
  intros Hl. unfold SaveJSON. destruct (json_marshal v) as [enc|e]; [by apply (bnd_op lv (OSetSetting key enc))|intros s; reflexivity].
Qed.
End Statements.

(** ** Following a handler *)

Create HintDb server discriminated.
#[export] Hint Resolve bnd_query bnd_Audit bnd_AddCert bnd_ReplaceCert bnd_Revoke bnd_SetCertDNS bnd_DeleteSession
  bnd_AddSession bnd_LoadJSON bnd_SaveJSON bnd_disk bnd_pki bnd_kill bnd_status bnd_trk : server.
#[export] Hint Extern 0 (_ ≤ _) => lia : server.
#[export] Hint Extern 2 (bnd _ (SetSetting ?k ?v)) => apply (bnd_op _ (OSetSetting k v)); [lia|reflexivity] : server.
#[export] Hint Extern 2 (bnd _ (users.AddUser ?n ?h ?r)) => apply (bnd_op _ (OAddUser n h r)); [lia|reflexivity] : server.
#[export] Hint Extern 2 (bnd _ (users.SetUserDisabled ?n ?b)) => apply (bnd_op _ (OSetUserDisabled n b)); [lia|reflexivity] : server.
#[export] Hint Extern 2 (bnd _ (users.SetUserPassword ?n ?h)) => apply (bnd_op _ (OSetUserPassword n h)); [lia|reflexivity] : server.
#[export] Hint Extern 2 (bnd _ (users.SetUserTOTP ?n ?x)) => apply (bnd_op _ (OSetUserTOTP n x)); [lia|reflexivity] : server.
#[export] Hint Extern 2 (bnd _ (users.DeleteUser ?n)) => apply (bnd_op _ (ODeleteUser n)); [lia|reflexivity] : server.

(** Down to the leaves, which are hints or leave the state alone. *)
Ltac walk :=
  lazymatch goal with
  | |- bnd ?R (mbind ?f ?m) =>
      first [refine (bnd_bind R m f _ _)|refine (bnd_pbind R m f _ _)]; [walk|intros ?; cbn beta; walk]
  | |- bnd _ (m_ _) => apply bnd_on_x, bnd_on_w, bnd_on_db; walk
  | |- bnd _ (w_ _) => apply bnd_on_x, bnd_on_w; walk
  | |- bnd _ (on_x _) => apply bnd_on_x; walk
  | |- bnd _ (on_w _) => apply bnd_on_w; walk
  | |- bnd _ (db_ _) => apply bnd_on_w, bnd_on_db; walk
  | |- bnd _ (on_db _) => apply bnd_on_db; walk
  | |- bnd _ (on_p _) => apply bnd_on_p; walk
  | |- bnd _ (a_try _) => apply bnd_a_try; walk
  | |- bnd _ (a_err _ _) => apply bnd_a_err; walk
  | |- bnd _ (w_try _) => apply bnd_try; walk
  | |- bnd _ (w_err _ _) => apply bnd_err; walk
  | |- bnd _ (w_ignore _) => apply bnd_ignore; walk
  | |- bnd _ (ignore _) => apply bnd_m_ignore; walk
  | |- bnd _ (let '(_, _) := ?x in _) => destruct x; walk
  | |- bnd _ (if ?b then _ else _) => destruct b; walk
  | |- bnd _ (match ?x with _ => _ end) => destruct x eqn:?; walk
  | |- _ => first [solve [eauto with server]|solve [intros ?; reflexivity]|idtac]
  end.

Lemma bnd_GetSetting lv key : bnd (m_within lv) (GetSetting key).
Proof. apply bnd_query. Qed.
#[export] Hint Resolve bnd_GetSetting : server.

Lemma bnd_LoadConfig lv getenv um : bnd (m_within lv) (configapi.LoadConfig getenv um).
Proof.
  intros s. pose proof (bnd_GetSetting lv "vpn_config" s) as Hq. unfold configapi.LoadConfig. by destruct (GetSetting _ s).
Qed.
#[export] Hint Resolve bnd_LoadConfig : server.
Lemma bnd_audit lv {S} (srv : certapi.Server) actor action detail : bnd (w_within (S:=S) srv lv) (world.audit actor action detail).
Proof. unfold world.audit. walk. Qed.
Lemma bnd_m_audit lv actor action detail : bnd (m_within lv) (userapi.audit actor action detail).
Proof. unfold userapi.audit. walk. Qed.
#[export] Hint Resolve bnd_audit bnd_m_audit : server.

(** What a reply is worth: the handler, then the file it writes. *)
Definition answer {S H} (m : Act S H (reply S H)) : Act S H (response output) := λ h,
  match m h with (h', Ok p) => write_reply p h' | (h', Err e) => (h', Ok (respond (Err e))) end.
Definition answers {S H} srv lv (o : option (Act S H (reply S H))) : Prop := ∀ m, o = Some m → bnd (h_within srv lv) (answer m).

Section Answers.
  Context {S H : Type} (srv : certapi.Server) (lv : Z).

Lemma answers_json {B} (f : B → output) (m : Act S H B) : bnd (h_within srv lv) m → answers srv lv (json f m).
Proof.
  intros Hm ? [= <-] h. specialize (Hm h). unfold answer, mbind, Act_bind. by destruct (m h) as [h' [b|e]].
Qed.
Lemma answers_file (m : Act S H (Download S H)) : bnd (h_within srv lv) m →
  (∀ h h' d, m h = (h', Ok d) → bnd (h_within srv lv) (dWrite d)) → answers srv lv (file m).
Proof.
  intros Hm Hd ? [= <-] h. specialize (Hm h). unfold answer, mbind, Act_bind.
  destruct (m h) as [h' [d|e]] eqn:E; [|done]. simpl in *. specialize (Hd _ _ _ E h').
  destruct (dWrite d h') as [h2 [data|e]]; simpl in *; by etrans.
Qed.
Lemma answers_bind {B} (o : option B) (k : B → option (Act S H (reply S H))) : (∀ b, answers srv lv (k b)) → answers srv lv (o ≫= k).
Proof. intros Hk m. destruct o as [b|]; [apply Hk|done]. Qed.
End Answers.

(** ** The handlers *)

(** What the workers promise the API: reading their state changes nothing a
    reader may not change, and their operations go through the store's
    statements. *)
Record lawful {S H} (srv : certapi.Server) (rt : Runtime S H) : Prop := {
  law_reads : ∀ t, t = rt_VPN rt ∨ rt_DNS rt = Some t →
    bnd (h_within srv 0) (control.lc_Pid t) ∧ bnd (h_within srv 0) (control.lc_StartedAt t);
  law_ops : ∀ t, t = rt_VPN rt ∨ rt_DNS rt = Some t →
    bnd (h_within srv 2) (control.lc_Start t) ∧ bnd (h_within srv 2) (control.lc_Stop t) ∧
    bnd (h_within srv 2) (control.lc_Restart t) ∧ bnd (h_within srv 2) (control.lc_Reconnect t);
  law_bot : let t := rt_Telegram rt in
    bnd (h_within srv 0) (control.tc_Status t) ∧ bnd (h_within srv 2) (control.tc_Start t) ∧
    bnd (h_within srv 2) (control.tc_Stop t) ∧ bnd (h_within srv 2) (control.tc_Restart t);
  law_after : ∀ m, rt_AfterVPNStart rt = Some m → bnd (h_within srv 2) m }.

Section Handlers.
  Context {S H : Type} `{mgmt.Server S} `{tracker.HostOps H}.
  Context `{pki.X509} `{!pki.EcPem} `{pki.EnvelopeJson} `{pki.Calendar} `{Argon2} `{Aead} `{UnicodeTables}.
  Context `{Sha256} `{Hmac : totp.Hmac} `{RequestJson}.
  Context `{backup.Tar} `{backup.Snapshot} `{Zip} `{ExportJson}.
  Context `{!JsonInto upstream.Config} `{!JsonInto LogConfig} `{!JsonInto StatsConfig} `{!JsonInto DNSConfig}.
  Context (getenv : string → string) (unmarshal_config : string → ovpnconf.Config → ovpnconf.Config).
  Context (marshal_config : ovpnconf.Config → string) (qr_data_uri : string → result string).
  Context (srv : certapi.Server) (DefaultRemote : World S → string) (facts : Facts) (rt : Runtime S H).
  Context (getMe : string → option goerr) (offset : Z → Z) (probe : Probe) (Hrt : lawful srv rt).

Notation mb := (bnd (m_within _)).
Notation wb lv := (bnd (w_within (S:=S) srv lv)).
Notation hb lv := (bnd (h_within (S:=S) (H:=H) srv lv)).

Lemma hb_mono lv lv' {B} (m : control.P (Host S H) B) : lv ≤ lv' → bnd (h_within srv lv) m → bnd (h_within srv lv') m.
Proof. intros Hl Hm h. by eapply h_within_mono. Qed.

Lemma lc_pid lv t : 0 ≤ lv → t = rt_VPN rt ∨ rt_DNS rt = Some t → hb lv (control.lc_Pid t).
Proof. intros Hl Ht. apply (hb_mono 0); [done|]. by apply (law_reads srv rt Hrt). Qed.
Lemma lc_started lv t : 0 ≤ lv → t = rt_VPN rt ∨ rt_DNS rt = Some t → hb lv (control.lc_StartedAt t).
Proof. intros Hl Ht. apply (hb_mono 0); [done|]. by apply (law_reads srv rt Hrt). Qed.

Lemma RunOp_status started t b : t = rt_VPN rt ∨ rt_DNS rt = Some t → hb 0 (control.RunOp started t "status" b None).
Proof.
  intros Ht. unfold control.RunOp. cbn [control.lifecycle_verb String.eqb Ascii.eqb Bool.eqb].
  walk; (apply lc_pid || apply lc_started); done.
Qed.

Lemma RunOp_within started t op b after : t = rt_VPN rt ∨ rt_DNS rt = Some t →
  (∀ m, after = Some m → hb 2 m) → hb 2 (control.RunOp started t op b after).
Proof.
  intros Ht Ha. destruct (law_ops srv rt Hrt t Ht) as (H1'&H2'&H3'&H4').
  unfold control.RunOp. apply bnd_pbind; [apply _|by apply lc_pid|]. intros before.
  destruct (control.lifecycle_verb t op b) as [m|] eqn:E; [|intros h; reflexivity].
  assert (hb 2 m) as Hm.
  { unfold control.lifecycle_verb, control.lift_op in E. repeat case_match; simplify_eq; walk; done. }
  walk; (apply lc_pid || apply lc_started); done.
Qed.

Lemma on_proc name target isVPN actor op : target = Some (rt_VPN rt) ∨ target = rt_DNS rt →
  hb 2 (handleProc rt name target isVPN actor op).
Proof.
  intros Ht. unfold handleProc. destruct target as [t|]; [|intros h; reflexivity].
  assert (t = rt_VPN rt ∨ rt_DNS rt = Some t) as Ht' by naive_solver.
  walk; [apply RunOp_within; [done|]|unfold serverapi.audit; walk]. intros m. destruct isVPN; [apply Hrt|done].
Qed.

Lemma on_telegram_status lv : 0 ≤ lv → hb lv (telegram_status rt).
Proof. intros Hl. unfold telegram_status. destruct (law_bot srv rt Hrt) as [Hs _]. walk. by apply (hb_mono 0). Qed.

Lemma on_telegram_op actor op : hb 2 (handleTelegramOp rt actor op).
Proof.
  destruct (law_bot srv rt Hrt) as (H1'&H2'&H3'&H4'). apply (hb_mono 0 2) in H1'; [|done].
  unfold handleTelegramOp, control.RunTelegramOp, control.telegram_verb, serverapi.audit. walk.
Qed.

(** Reading the authority's certificate, and the lists that show it. *)
Lemma readonly_CACert : pki.readonly (pki.CACert (certapi.Dir srv)).
Proof. unfold pki.CACert, pki.CACertPEM. apply pki.readonly_bind; [apply pki.readonly_ReadFile|intros; apply pki.readonly_of]. Qed.
Lemma on_ca lv : hb lv (ca_cert srv).
Proof. unfold ca_cert. walk. apply bnd_pki_read, readonly_CACert. Qed.
Lemma on_me lv u : hb lv (me getenv unmarshal_config srv DefaultRemote facts u).
Proof. unfold me, remote, a_now. walk. apply on_ca. Qed.
Lemma on_all_certs lv : hb lv (all_certs srv).
Proof. unfold all_certs, AllCerts, ListCerts. walk. apply on_ca. Qed.
Lemma on_read_file lv path : wb lv (on_disk (ReadFile path)).
Proof. apply bnd_disk_read, ReadFile_files. Qed.

Lemma on_status : hb 0 (handleStatus getenv srv facts rt probe).
Proof.
  unfold handleStatus, BuildStatus, liveSource, a_now. cbn [ss_VPN ss_DNS ss_Clients ss_Telegram].
  walk; try apply on_all_certs; try (apply on_telegram_status; done); try (apply RunOp_status; auto).
Qed.

(** *** Certificates *)

Lemma on_cert_config lv : wb lv (certapi.LoadConfig getenv unmarshal_config).
Proof. unfold certapi.LoadConfig. walk. Qed.

Lemma on_RegenCRL lv pass : 1 ≤ lv → wb lv (certapi.RegenCRL srv pass).
Proof.
  intros Hl w. destruct (certapi.RegenCRL srv pass w) as [w' r] eqn:E. apply certapi.RegenCRL_run in E as (T&_&F&_).
  split; simpl; [by rewrite T|intros _; exact F|lia].
Qed.

Lemma on_IssueClient lv q : 1 ≤ lv → wb lv (certapi.IssueClient srv q).
Proof.
  intros Hl. unfold certapi.IssueClient, RequireActiveCert. walk; try by apply on_RegenCRL.
  - apply bnd_pki_read, pki.readonly_Issue.
  - apply bnd_pki_read, pki.readonly_EncryptKeyPEM.
Qed.

Lemma on_ExportClient lv tc q o : 1 ≤ lv → wb lv (certapi.ExportClient getenv unmarshal_config srv tc q o).
Proof.
  intros Hl. unfold certapi.ExportClient. walk; try apply on_cert_config; try apply on_read_file; try by apply on_IssueClient.
  apply bnd_pki_read, pki.readonly_ReadFile.
Qed.

Lemma on_RevokeCert lv actor serial pass : 1 ≤ lv → wb lv (certapi.RevokeCert srv actor serial pass).
Proof.
  intros Hl. unfold certapi.RevokeCert. walk; [apply bnd_pki_read, certapi.readonly_CheckPassphrase|by apply on_RegenCRL].
Qed.

Lemma on_handleIssue actor cn pass key days : wb 1 (certapi.handleIssue srv actor cn pass key days).
Proof. unfold certapi.handleIssue, certapi.AuditClient. walk. by apply on_IssueClient. Qed.

Lemma on_handleRevoke actor serial pass : wb 1 (certapi.handleRevoke srv actor serial pass).
Proof. unfold certapi.handleRevoke, certapi.restartSessions. walk. by apply on_RevokeCert. Qed.

Lemma on_handleExport actor cn pass remote key extra days split renew :
  wb 1 (certapi.handleExport getenv unmarshal_config srv DefaultRemote actor cn pass remote key extra days split renew).
Proof.
  assert (∀ dr, wb 1 (certapi.handleExport getenv unmarshal_config srv (λ _, dr) actor cn pass remote key extra days split renew)) as Hb.
  2:{ intros w. exact (Hb (DefaultRemote w) w). }
  intros dr. unfold certapi.handleExport, certapi.restartSessions, certapi.AuditClient.
  match goal with |- bnd _ (λ w, ?m w) => change (wb 1 m) end. cbv zeta. walk; by apply on_ExportClient.
Qed.

Lemma on_handleRenew actor pass days : wb 2 (certapi.handleRenew srv DefaultRemote actor pass days).
Proof.
  assert (∀ dr, wb 2 (certapi.handleRenew srv (λ _, dr) actor pass days)) as Hb.
  2:{ intros w. exact (Hb (DefaultRemote w) w). }
  intros dr. unfold certapi.handleRenew, certapi.RenewServer, certapi.WriteServerCert, RequireActiveCert.
  match goal with |- bnd _ (λ w, ?m w) => change (wb 2 m) end. walk.
Qed.

(** *** Settings and upstreams *)

Lemma on_LoadConfigs lv : bnd (m_within lv) (LoadLogConfig getenv) ∧ bnd (m_within lv) (LoadStatsConfig getenv) ∧
  bnd (m_within lv) (LoadDNSConfig getenv) ∧ bnd (m_within lv) (LoadUpstreamConfig getenv).
Proof. split_and!; apply bnd_LoadJSON. Qed.

Lemma on_PreviewVPNConfig lv c : bnd (m_within lv) (PreviewVPNConfig getenv unmarshal_config c).
Proof. unfold PreviewVPNConfig, of_db. destruct (on_LoadConfigs lv) as (?&?&?&?). walk. Qed.

Lemma on_ViewDNS lv : bnd (m_within lv) (ViewDNS getenv unmarshal_config).
Proof. unfold ViewDNS. destruct (on_LoadConfigs lv) as (?&?&?&?). walk. Qed.

Lemma on_SetVPNConfig actor path c : wb 2 (SetVPNConfig getenv unmarshal_config marshal_config actor path c).
Proof. unfold SetVPNConfig, SaveConfig. walk. apply on_PreviewVPNConfig. Qed.

Lemma on_mergedConfig lv q : bnd (m_within lv) (mergedConfig getenv unmarshal_config q).
Proof. unfold mergedConfig, of_db. walk. Qed.

Lemma on_SetClientAuth path b : wb 2 (SetManagementClientAuth getenv unmarshal_config marshal_config path b).
Proof. unfold SetManagementClientAuth, SaveConfig. walk. Qed.

Notation xb lv := (bnd (x_within (S:=S) (H:=H) srv lv)).

Lemma on_saveApply actor cfg apply msg action detail : xb 2 (apply cfg) →
  xb 2 (saveApplyUpstreams actor cfg apply msg action detail).
Proof. intros Ha. unfold saveApplyUpstreams, ViewUpstreams, SaveUpstreamConfig, upstreamapi.audit. walk. Qed.

Lemma on_apply enabled cfg : xb 2 (applyUpstreams getenv enabled cfg).
Proof. unfold applyUpstreams, down_warning. walk. Qed.

Lemma on_guard lv enabled : xb lv (guard_enabled enabled).
Proof. unfold guard_enabled, x_of. walk. Qed.

Lemma on_upstream_add enabled actor u : xb 2 (handleUpstreamAdd getenv enabled actor u).
Proof.
  destruct (on_LoadConfigs 2) as (?&?&?&?). unfold handleUpstreamAdd, AddUpstream, x_of. pose proof (on_guard 2 enabled).
  walk. apply on_saveApply, on_apply.
Qed.
Lemma on_upstream_delete enabled actor id : xb 2 (handleUpstreamDelete getenv enabled actor id).
Proof.
  destruct (on_LoadConfigs 2) as (?&?&?&?). unfold handleUpstreamDelete, DeleteUpstream. pose proof (on_guard 2 enabled).
  walk. apply on_saveApply, on_apply.
Qed.
Lemma on_upstream_default enabled actor id : xb 2 (handleUpstreamSetDefault getenv enabled actor id).
Proof.
  destruct (on_LoadConfigs 2) as (?&?&?&?). unfold handleUpstreamSetDefault, SetDefaultUpstream, x_of. pose proof (on_guard 2 enabled).
  walk; apply on_saveApply, on_apply.
Qed.
Lemma on_upstream_reconcile enabled actor : xb 2 (handleUpstreamReconcile getenv enabled actor).
Proof.
  destruct (on_LoadConfigs 2) as (?&?&?&?).
  unfold handleUpstreamReconcile, ReconcileUpstreams, ViewUpstreams, upstreamapi.audit. pose proof (on_guard 2 enabled).
  pose proof (on_apply enabled). walk.
Qed.

Lemma on_upstream_assign path enabled conf actor cn id clear :
  xb 2 (handleUpstreamAssign getenv unmarshal_config marshal_config path enabled conf actor cn id clear).
Proof.
  destruct (on_LoadConfigs 2) as (?&?&?&?).
  unfold handleUpstreamAssign, AssignUpstream, applyAssign, guard_enabled, x_of, UpstreamAuthActive, SaveUpstreamConfig,
    RewriteConnectedClientRule, ViewUpstreams, upstreamapi.audit. walk; apply on_SetClientAuth.
Qed.

(** *** Accounts and the bot *)

Lemma on_rand_read lv n : bnd (m_within lv) (rand_read n).
Proof. intros s. unfold rand_read, m_within. case_match; simpl; reflexivity. Qed.

Lemma on_password actor name password : bnd (m_within 2) (userapi.checkPassword getenv actor name password) ∧
  bnd (m_within 2) (HashPassword password).
Proof. unfold userapi.checkPassword, HashPassword. split; walk. apply on_rand_read. Qed.
Lemma on_user_add actor name password role : bnd (m_within 2) (userapi.handleUserAdd getenv actor name password role).
Proof. destruct (on_password actor name password). unfold userapi.handleUserAdd, userapi.AddUser. walk. Qed.
Lemma on_user_password actor name password : bnd (m_within 2) (userapi.handleUserPassword getenv actor name password).
Proof. destruct (on_password actor name password). unfold userapi.handleUserPassword, userapi.SetUserPassword. walk. Qed.
Lemma on_user_delete actor name : bnd (m_within 2) (userapi.handleUserDelete actor name).
Proof. unfold userapi.handleUserDelete, userapi.DeleteUser. walk. Qed.
Lemma on_user_disabled actor name off : bnd (m_within 2) (userapi.handleUserDisabled actor name off).
Proof. unfold userapi.handleUserDisabled, userapi.SetUserDisabled. walk. Qed.
Lemma on_user_enroll actor name cn : bnd (m_within 2) (userapi.handleUserTOTPEnroll qr_data_uri cn actor name).
Proof. unfold userapi.handleUserTOTPEnroll, userapi.EnrollTOTP, userapi.TOTPGenerateSecret. walk. apply on_rand_read. Qed.
Lemma on_user_off actor name : bnd (m_within 2) (userapi.handleUserTOTPOff actor name).
Proof. unfold userapi.handleUserTOTPOff, userapi.DisableTOTP. walk. Qed.

Lemma on_list_users lv : bnd (m_within lv) (ListUsers : M (list User)).
Proof. intros s. unfold ListUsers, with_key. apply bnd_query. Qed.
Lemma on_handleUsersList lv : bnd (m_within lv) userapi.handleUsersList.
Proof. intros s. pose proof (on_list_users lv s) as HL. unfold userapi.handleUsersList. by destruct (ListUsers s) as [s' []]. Qed.

(** The bot works on the server's store. *)
Definition b_within {E} (lv : Z) (b b' : telegram.Bot E) : Prop := m_within lv (telegram.bst b) (telegram.bst b').
#[local] Instance b_within_preorder {E} lv : PreOrder (@b_within E lv).
Proof. unfold b_within. split; [intros ?; reflexivity|]. intros ???. apply transitivity. Qed.

Lemma on_store_bot {E} lv {B} (m : M B) : bnd (m_within lv) m → bnd (@b_within E lv) (telegram.on_store m).
Proof. intros Hm b. unfold telegram.on_store, b_within. specialize (Hm (telegram.bst b)). by destruct (m (telegram.bst b)). Qed.

Lemma on_api {E} lv token c : bnd (@b_within E lv) (telegram.api token c).
Proof. intros b. unfold b_within, m_within. simpl. reflexivity. Qed.

Lemma on_send {E} lv token chat text mk : bnd (@b_within E lv) (telegram.sendMessage token chat text mk).
Proof.
  unfold telegram.sendMessage. destruct (telegram.chunks _ _) as [ps|]; [|intros b; reflexivity].
  induction ps as [|x ps IH]; [intros b; reflexivity|]. cbn [telegram.send_all].
  destruct ps; [apply on_api|]. apply bnd_pbind; [apply _|apply on_api|]. intros []. exact IH.
Qed.

Lemma on_SetTelegram actor admin token : hb 2 (on_bot (telegram.SetTelegram getMe actor admin token)).
Proof.
  assert (bnd (b_within 2) (telegram.SetTelegram (E:=unit) getMe actor admin token)) as Hb.
  { unfold telegram.SetTelegram, telegram.SetAdmin, telegram.SetToken, telegram.warnOldAdmin, telegram.chatIDFor, telegram.setting.
    walk; try apply on_send; try apply on_api; apply on_store_bot; walk. }
  intros h. unfold on_bot. specialize (Hb (telegram.mkBot (hdb h) [] tt)). destruct (telegram.SetTelegram _ _ _ _ _) as [b r].
  split; [split; [split|]|]; simpl; [exact Hb|lia..].
Qed.

(** Signing in and out: sessions and the audit log. *)
Lemma on_refuse lv name ip a : m_within lv (St a) (St (refuse name ip a).1).
Proof. exact (bnd_Audit lv name "login_fail" ("ip=" +:+ ip) (St a)). Qed.

Lemma on_open_session lv name ip u a : m_within lv (St a) (St (open_session name ip u a).1).
Proof.
  unfold open_session. pose proof (on_rand_read lv 32 (St a)) as H1'. destruct (rand_read 32 (St a)) as [s1 [raw|e]]; [|done].
  pose proof (bnd_AddSession lv (hashToken (encode_raw base64_url raw)) (users.ID u) SessionTTL s1) as H2'.
  destruct (AddSession _ _ _ s1) as [s2 [[]|e]]; simpl in *; [|by etrans].
  etrans; [exact H1'|]. etrans; [exact H2'|]. apply bnd_Audit.
Qed.

Lemma on_check_user lv name password code ip u a : m_within lv (St a) (St (check_user name password code ip u a).1).
Proof. unfold check_user. repeat case_match; try apply on_refuse; try apply on_open_session. reflexivity. Qed.

Lemma on_Login lv name password code ip a : m_within lv (St a) (St (Login name password code ip a).1).
Proof.
  unfold Login. destruct (totp.Allow _ (limit_key _ _) _) as [l1 []]; [|reflexivity]. cbn [negb].
  destruct (totp.Allow _ (login_name name) _) as [l2 []]; [|reflexivity]. cbn [negb St].
  destruct (GetUser _ (St a)) as [s1 [u|e]] eqn:E; apply GetUser_run in E as (T&_&_);
    (assert (m_within lv (St a) s1) as Hs by (unfold m_within; rewrite T; reflexivity)); (etrans; [exact Hs|]).
  - exact (on_check_user lv _ _ _ _ u (mkService s1 l1 l2)).
  - exact (on_refuse lv _ _ (mkService s1 l1 l2)).
Qed.

Lemma on_login lv r name password code :
  hb lv (handleLogin getenv unmarshal_config srv DefaultRemote facts r name password code).
Proof.
  assert (∀ ip, wb lv (w_login (S:=S) name password code ip)) as Hl.
  2:{ unfold handleLogin, randToken. walk; [apply on_rand_read|apply on_me]. }
  intros ip w. unfold w_login. pose proof (on_Login lv name password code ip (svc w)) as HL.
  destruct (Login _ _ _ _ _) as [a r']. by split.
Qed.

Lemma on_logout lv r : wb lv (handleLogout r).
Proof. unfold handleLogout, Logout. walk. Qed.

(** *** Records, logs and archives *)

Lemma on_handleRecords lv : wb lv (records.handleRecords getenv unmarshal_config srv DefaultRemote).
Proof. unfold records.handleRecords, ListCerts, records.load_config, records.w_remote. walk; apply on_read_file. Qed.

Lemma on_hosts_put actor content : wb 2 (records.handleCustomHostsPut srv actor content).
Proof. unfold records.handleCustomHostsPut, records.SetCustomHosts. walk. Qed.
Lemma on_hosts_preview content : wb 2 (records.handleCustomHostsPreview srv content).
Proof. unfold records.handleCustomHostsPreview. walk. Qed.

Lemma on_cert_views lv serial : wb lv records.handleCertList ∧ wb lv (records.handleCertDownload serial).
Proof. unfold records.handleCertList, records.handleCertDownload, ListCerts, GetCert. split; walk. Qed.

Lemma on_cert_dns actor serial b : bnd (m_within 1) (records.handleCertDNS actor serial b).
Proof. unfold records.handleCertDNS, records.SetCertDNS. walk. Qed.

Lemma on_log lv dir name : wb lv (on_disk (records.logHandler dir name)).
Proof.
  apply bnd_disk_read. intros d. unfold records.logHandler, records.tailLines.
  pose proof (ReadFile_files (join_path (join_path dir "logs") name) d) as E.
  destruct (ReadFile _ d) as [d' r]. simpl in E. by repeat case_match; simplify_eq/=.
Qed.

Lemma on_read_files lv dir ns : hb lv (read_files dir ns).
Proof. induction ns as [|n ns IH]; cbn [read_files]; walk. apply on_read_file. Qed.

Lemma on_zip : hb 1 (writeAuditZip getenv unmarshal_config srv DefaultRemote facts rt offset).
Proof.
  unfold writeAuditZip, statusExport, AuditEach, ListCerts, remote, a_now.
  walk; try apply on_read_files; try apply on_list_users.
  - apply bnd_disk_read. intros d. unfold ReadDir. by destruct (next_fault d).
  - apply lc_pid; [done|by left].
Qed.

Lemma on_logs_download : hb 1 (handleLogsDownload getenv unmarshal_config srv DefaultRemote facts rt offset) ∧
  ∀ h h' d, handleLogsDownload getenv unmarshal_config srv DefaultRemote facts rt offset h = (h', Ok d) → hb 1 (dWrite d).
Proof.
  split; [unfold handleLogsDownload, remote, a_now; walk|].
  intros h h' d [= _ <-]. apply on_zip.
Qed.

Lemma on_create dir pass : wb 2 (backup.Create dir pass).
Proof.
  assert (∀ fs, wb 2 (backup.read_required (S:=S) dir fs)) as Hr.
  { induction fs as [|[a b] fs IH]; cbn [backup.read_required]; walk. }
  unfold backup.Create, backup.read_log, backup.snapshotDB, w_of. walk.
Qed.

Lemma on_backup actor pass : hb 2 (handleBackup srv offset actor pass) ∧
  ∀ h h' d, handleBackup srv offset actor pass h = (h', Ok d) → hb 2 (dWrite d).
Proof.
  unfold handleBackup, a_now. split; [walk|]. intros h h' d. case_match; [done|]. intros [= _ <-]. cbn [dWrite].
  unfold serverapi.audit. walk. apply on_create.
Qed.

(** *** Every route *)

Definition entry_ok (e : entry S H) : Prop := ∀ r u i, answers srv (rank (role e)) (serve e r u i).

Ltac route :=
  intros r u i; cbn [serve role];
  (let g := fresh in match goal with |- answers _ ?l _ => let l' := eval vm_compute in l in change l with l' end);
  unfold route_login, route_export, on_op, on_user; repeat (apply answers_bind; intros ?);
  try (apply answers_json; unfold handleMe, m_, w_, handleTelegramConfigGet, handleTelegramConfigSet).

#[local] Hint Resolve on_login on_logout on_me on_status on_handleRecords on_proc on_telegram_op on_SetTelegram
  on_handleIssue on_handleRevoke on_handleExport on_handleRenew on_SetVPNConfig on_PreviewVPNConfig on_ViewDNS
  on_mergedConfig on_upstream_assign on_upstream_add on_upstream_delete on_upstream_default on_upstream_reconcile
  on_cert_dns on_log on_list_users on_hosts_put on_hosts_preview on_telegram_status on_user_add on_user_password
  on_user_delete on_user_disabled on_user_enroll on_user_off on_handleUsersList : server.

Ltac routes := repeat (apply Forall_cons; split); [..|apply Forall_nil_2]; route.

Lemma session_routes_ok : Forall entry_ok (session_routes getenv unmarshal_config srv DefaultRemote facts rt offset probe).
Proof.
  pose proof on_logs_download as [Hd1 Hd2].
  destruct (on_LoadConfigs 0) as (?&?&?&?), (on_LoadConfigs 2) as (?&?&?&?), (on_cert_views 0 "") as [? _].
  unfold session_routes. routes; [..|by apply answers_file| | | | | | | |].
  all: unfold handleHealthz, Ping, sampler.handleStats, sampler.Stats, stats.ClientSamples, stats.Samples, stats.Sessions, handleVPNConfigGet,
    handleAudit, AuditTail, AuditEach, handleLogsConfigGet, handleLogsConfigSet, SaveLogConfig, handleLogsRotate, RotateLogs,
    handleStatsConfigGet, handleStatsConfigSet, SaveStatsConfig, of_db, handleDebugSet, serverapi.audit, handleKill, Kill, upstreamapi.audit, db_.
  all: walk.
  intros h. split; simpl; [reflexivity|lia].
Qed.

Lemma cert_routes_ok : Forall entry_ok (cert_routes getenv unmarshal_config marshal_config srv DefaultRemote rt offset).
Proof.
  unfold cert_routes. routes; try (apply answers_file; apply on_backup).
  all: unfold handleVPNConfigPut, handleVPNConfigPreview; walk.
Qed.

Lemma config_routes_ok : Forall entry_ok (config_routes getenv unmarshal_config marshal_config srv DefaultRemote facts rt getMe).
Proof.
  destruct (on_LoadConfigs 0) as (?&?&?&?).
  unfold config_routes. routes.
  all: unfold handleDNSConfigGet, handleDNSConfigSet, SetDNSConfig, SaveDNSConfig, handleUpstreamsGet, ViewUpstreams; try walk.
  apply answers_file; [destruct (on_cert_views 0 b) as [_ ?]; walk|]. intros h h' d.
  unfold mbind, Act_bind. destruct (w_ _ h) as [h1 [p|e]]; [|done]. intros [= _ <-] h2. reflexivity.
Qed.

Lemma user_routes_ok : Forall entry_ok (user_routes getenv qr_data_uri DefaultRemote).
Proof.
  unfold user_routes. routes. all: walk. intros h. unfold remote, records.w_remote, w_, on_x, on_w. simpl. by destruct h as [[? ?] ? ?].
Qed.

Lemma log_routes_ok : Forall entry_ok (log_routes srv).
Proof. unfold log_routes, LogNames. cbn [fmap list_fmap]. routes; walk. Qed.

(** ** Requests *)

Notation api := (api getenv unmarshal_config marshal_config qr_data_uri srv DefaultRemote facts rt getMe offset probe).
Notation find_entry := (find_entry getenv unmarshal_config marshal_config qr_data_uri srv DefaultRemote facts rt getMe offset probe).
Notation Handler := (Handler getenv unmarshal_config marshal_config qr_data_uri srv DefaultRemote facts rt getMe offset probe).

Lemma api_ok e : e ∈ api → entry_ok e.
Proof.
  assert (Forall entry_ok api) as Ha; [|rewrite Forall_forall in Ha; apply Ha].
  unfold server.api. rewrite !Forall_app.
  auto using session_routes_ok, cert_routes_ok, config_routes_ok, user_routes_ok, log_routes_ok.
Qed.

Lemma run_route_within e r u : e ∈ api → hb (rank (role e)) (run_route e r u).
Proof.
  intros He h. unfold run_route. destruct (readIn (pattern e) r) as [i|]; [|reflexivity]. cbn [mbind option_bind].
  destruct (serve e r u i) as [m|] eqn:E; [|reflexivity]. exact (api_ok e He r u i m E h).
Qed.

(** Whom the request's cookie stands for, and how far that reaches. *)
Definition caller (r : Request) (h : Host S H) : option User :=
  match session_ck r with
  | Some c => match (Validate c (hdb h)).2 with Ok u => u | Err _ => None end
  | None => None
  end.
Definition reach (r : Request) (h : Host S H) : Z := match caller r h with Some u => rank (Role u) | None => 0 end.

Lemma rank_pos r : 0 ≤ rank r.
Proof. unfold rank. repeat case_match; lia. Qed.

(** Only the sequence of the database's coming faults has moved on. *)
Definition looked (h h' : Host S H) : Prop :=
  ∃ fs, h' = mkHost (mkServe (set_db (wd (sv h)) (set_faults (hdb h) fs)) (trk (sv h))) (DebugLevel h) (sent h).

Lemma query_run {B} (f : Tables → result B) s : ∃ fs r, store.query f s = (set_faults s fs, r).
Proof.
  unfold store.query, exec. destruct (faults s) as [|[e|] fs]; cbn [tl];
    [|by exists fs, (Err e)|]; destruct (f (tables s)) as [b|e]; cbn; by eexists _, _.
Qed.

Lemma Validate_run c s : ∃ fs r, Validate c s = (set_faults s fs, r).
Proof.
  unfold Validate. case_match; [exists (faults s), (Ok None); by destruct s|]. apply query_run.
Qed.

Lemma looked_within lv h h' : looked h h' → h_within srv lv h h'.
Proof. intros [fs ->]. split; [split; [split|]|]; simpl; done || reflexivity. Qed.

(** How far a request gets: no one's, an unproven one's, a user's without the
    role, or its handler. *)
Inductive admitted := Stranger | Forged | Refused | Allowed (u : User).
Definition admission (required : string) (r : Request) (h : Host S H) : admitted :=
  match caller r h with
  | None => Stranger
  | Some u => if csrf_ok r then if Can (Role u) required then Allowed u else Refused else Forged
  end.

Lemma wrap_verdict {B} required (k : User → Act S H (response B)) r h :
  ∃ h1, looked h h1 ∧
    wrap required k r h = match admission required r h with
                          | Stranger => (h1, Ok (Failure 401 "not authenticated"))
                          | Forged => (h1, Ok (Failure 403 "csrf check failed"))
                          | Refused => (h1, Ok (Failure 403 "insufficient role"))
                          | Allowed u => k u h1
                          end.
Proof.
  unfold wrap, admission, caller. destruct (session_ck r) as [c|]; [|exists h; split; [|done]; exists (faults (hdb h))].
  2:{ destruct h as [[[[[] ? ?] ? ?] ?] ? ?]. reflexivity. }
  destruct (Validate_run c (hdb h)) as (fs&v&E). rewrite E. cbn [snd].
  exists (mkHost (mkServe (set_db (wd (sv h)) (set_faults (hdb h) fs)) (trk (sv h))) (DebugLevel h) (sent h)).
  split; [by exists fs|]. unfold mbind, Act_bind, w_, on_x, on_w, w_try, on_db. unfold hdb in E. rewrite E.
  destruct v as [[u|]|e]; [|done..]. by destruct (csrf_ok r), (Can (Role u) required).
Qed.

Lemma find_entry_elem r e : find_entry r = Some e → e ∈ api ∧ match_route (pattern e) r = true.
Proof. intros Hf. unfold server.find_entry in Hf. apply List.find_some in Hf as [Hi Hm]. by rewrite list_elem_of_In. Qed.

Lemma Handler_within r h h' resp : Handler r h = (h', resp) → h_within srv (reach r h) h h'.
Proof.
  intros E.
  unfold server.Handler in E. destruct (find_entry r) as [e|] eqn:Ef; [|injection E as <- _; reflexivity].
  apply find_entry_elem in Ef as [He _]. assert (h' = ((if String.eqb (role e) "" then run_route e r nobody
    else wrap (role e) (run_route e r) r) h).1) as ->.
  { unfold mbind, Act_bind in E. destruct (String.eqb (role e) "");
      [destruct (run_route e r nobody h) as [h1 [p|err]]|destruct (wrap (role e) (run_route e r) r h) as [h1 [p|err]]];
      by injection E as <- _. }
  clear E. destruct (String.eqb_spec (role e) "") as [Hr|Hr].
  - eapply h_within_mono; [|apply (run_route_within e r nobody He)]. rewrite Hr. unfold reach. case_match; [apply rank_pos|done].
  - destruct (wrap_verdict (role e) (run_route e r) r h) as (h1&Hl&->). unfold admission, reach.
    destruct (caller r h) as [u|]; [|by apply looked_within].
    destruct (csrf_ok r); [|by apply looked_within]. destruct (Can (Role u) (role e)) eqn:HC; [|by apply looked_within].
    etrans; [by apply looked_within|]. eapply h_within_mono; [|apply (run_route_within e r u He)]. unfold Can in HC. lia.
Qed.

(** C1: least privilege. Whatever a request holds, whoever sends it and
    whatever fails underneath, its reach is that of the user its cookie stands
    for. With no user, or a read-only one, no certificate, account, setting,
    traffic record or file changes; with an operator only certificates and the
    published revocation list can; the routing, the log level and the bot are
    an administrator's; and even those act through the store's own statements. *)
Theorem least_privilege r h h' resp (E : Handler r h = (h', resp)) : h_within srv (reach r h) h h'.
Proof. by eapply Handler_within. Qed.

(** ** Dispatch *)

(** Two patterns some request could match both of. *)
Fixpoint segments_overlap (ps qs : list string) : bool :=
  match ps, qs with
  | [], [] => true
  | p :: ps, q :: qs => (is_wild p || is_wild q || String.eqb p q) && segments_overlap ps qs
  | _, _ => false
  end.
Definition methods_overlap (p q : string) : bool :=
  String.eqb p q || (String.eqb p "GET" && String.eqb q "HEAD") || (String.eqb p "HEAD" && String.eqb q "GET").
Definition overlap (p q : string) : bool :=
  methods_overlap (pattern_method p) (pattern_method q) && segments_overlap (pattern_segments p) (pattern_segments q).

Lemma segments_overlap_match ps qs segs : match_segments ps segs = true → match_segments qs segs = true → segments_overlap ps qs = true.
Proof.
  revert qs segs. induction ps as [|p ps IH]; intros [|q qs] [|x segs]; try done. cbn [match_segments segments_overlap].
  rewrite !andb_true_iff. intros [Hp Hps] [Hq Hqs]. split; [|by eapply IH].
  unfold match_segment in *. destruct (is_wild p), (is_wild q); try done. cbn [orb].
  apply String.eqb_eq in Hp, Hq. subst. apply String.eqb_refl.
Qed.

Lemma overlap_match p q r : match_route p r = true → match_route q r = true → overlap p q = true.
Proof.
  unfold match_route, overlap. rewrite !andb_true_iff. intros [Hp Hps] [Hq Hqs]. split; [|by eapply segments_overlap_match].
  unfold match_method, methods_overlap in *. rewrite !orb_true_iff, !andb_true_iff, !String.eqb_eq in *.
  destruct Hp as [Hp|[Hp Hr]], Hq as [Hq|[Hq Hr']]; rewrite Hp, ?Hq; auto.
Qed.

Lemma patterns_apart : forallb (λ p, forallb (λ q, implb (overlap p q) (String.eqb p q)) (pattern <$> api)) (pattern <$> api) = true.
Proof. vm_compute. reflexivity. Qed.
Lemma patterns_NoDup : NoDup (pattern <$> api).
Proof. apply (bool_decide_eq_true_1 _). vm_compute. reflexivity. Qed.

Lemma one_route r e : e ∈ api → match_route (pattern e) r = true → find_entry r = Some e.
Proof.
  intros He Hm. destruct (find_entry r) as [e'|] eqn:Ef.
  - apply find_entry_elem in Ef as [He' Hm']. f_equal.
    apply (NoDup_fmap_elem_inj pattern api); [apply patterns_NoDup|done..|].
    pose proof patterns_apart as HA. rewrite forallb_forall in HA.
    specialize (HA (pattern e')). rewrite forallb_forall in HA.
    specialize (HA ltac:(apply list_elem_of_In, list_elem_of_fmap_2; done) (pattern e) ltac:(apply list_elem_of_In, list_elem_of_fmap_2; done)).
    rewrite (overlap_match _ _ _ Hm' Hm) in HA. by apply String.eqb_eq.
  - unfold server.find_entry in Ef. eapply List.find_none in Ef; [|by apply list_elem_of_In]. congruence.
Qed.

Definition public : list string := ["GET /healthz"; "POST /api/login"].
Lemma public_routes e : e ∈ api → String.eqb (role e) "" = bool_decide (pattern e ∈ public).
Proof.
  assert (Forall (λ e, String.eqb (role e) "" = bool_decide (pattern e ∈ public)) api) as Ha; [|rewrite Forall_forall in Ha; apply Ha].
  repeat (apply Forall_cons; split; [vm_compute; reflexivity|]). apply Forall_nil_2.
Qed.

(** The response, of the API. *)
Definition answered (p : Host S H * result (response output)) : Host S H * result (option (response output)) := (p.1, Some <$> p.2).

(** C2: dispatch. No request matches two routes, so the order they are
    registered in does not matter: a request that matches a route is served by
    it alone. Only the health check and the login are open to everyone; on
    every other route the handler runs exactly for a cookie that stands for a
    user, with the CSRF header equal to its cookie unless the method is GET,
    and a role that includes the route's. Anyone else is answered 401 or 403,
    and nothing happened. *)
Theorem Handler_correct r e h (He : e ∈ api) (Hm : match_route (pattern e) r = true) :
  if bool_decide (pattern e ∈ public) then Handler r h = answered (run_route e r nobody h)
  else ∃ h1, looked h h1 ∧
    Handler r h = answered (match admission (role e) r h with
                            | Stranger => (h1, Ok (Failure 401 "not authenticated"))
                            | Forged => (h1, Ok (Failure 403 "csrf check failed"))
                            | Refused => (h1, Ok (Failure 403 "insufficient role"))
                            | Allowed u => run_route e r u h1
                            end).
Proof.
  unfold server.Handler. rewrite (one_route r e He Hm), (public_routes e He). unfold answered.
  case_bool_decide.
  - unfold mbind, Act_bind. by destruct (run_route e r nobody h) as [h' [p|err]].
  - destruct (wrap_verdict (role e) (run_route e r) r h) as (h1&Hl&Hw). exists h1. split; [done|].
    unfold mbind, Act_bind. rewrite Hw. destruct (admission _ _ _) as [| | |u]; try done.
    by destruct (run_route e r u h1) as [h' [p|err]].
Qed.

(** ** The store behind the API *)

Lemma life_ind (P : Tables → Prop) t t' : (∀ tok t t', effect tok t t' → P t → P t') → life t t' → P t → P t'.
Proof. intros Hp. induction 1 as [|t1 t2 t3 [tok He] _ IH]; eauto. Qed.

Notation serve_all := (serve_all getenv unmarshal_config marshal_config qr_data_uri srv DefaultRemote facts rt getMe offset probe).

Lemma serve_all_life rs h : life (tables (hdb h)) (tables (hdb (serve_all rs h))).
Proof.
  revert h. induction rs as [|[m r] rs IH]; intros h; [apply rtc_refl|]. etrans; [|apply IH].
  cbn [fst snd]. destruct (Handler r (at_moment m h)) as [h' resp] eqn:E.
  apply Handler_within in E as [[[[HL _ _] _ _] _] _]. exact HL.
Qed.

(** C3: no sequence of requests can break the store. Whoever sends them, with
    whatever bodies, at whatever times and however the database, the disk and
    the entropy fail under them, the schema's invariant holds after them if it
    held before (unique serials, names and tokens, at most one active
    certificate per client and one for the server, roles and kinds of the known
    ones, sessions of existing users only); every certificate revoked before is
    still there, revoked at the same time; and the audit log has only grown. *)
Theorem requests_keep_store rs h (Hwf : wf (tables (hdb h))) :
  let t := tables (hdb h) in let t' := tables (hdb (serve_all rs h)) in
  wf t' ∧ (∀ x, x ∈ certs t → k_revoked x ≠ None → holds_row x t') ∧ audit_log t `prefix_of` audit_log t'.
Proof.
  pose proof (serve_all_life rs h) as HL. split_and!.
  - eapply (life_ind wf); [|exact HL|done]. intros ???. by apply effect_wf.
  - intros x Hx Hr. eapply (life_ind (holds_row x)); [|exact HL|by exists x]. intros ???. by apply effect_keeps_revoked.
  - eapply (life_ind (λ t', _ `prefix_of` audit_log t')); [|exact HL|done].
    intros tok t1 t2 He Hp. etrans; [exact Hp|]. by eapply effect_audit_prefix.
Qed.
End Handlers.

(** ** A concrete server *)

Module demo_api.

(** Bodies of the form [field=value;field=value]. *)
Definition field (body f : string) : string :=
  match List.find (λ kv, String.eqb (cut "="%char kv).1.1 f) (split ";"%char body) with Some kv => (cut "="%char kv).1.2 | None => "" end.
#[export] Instance toy_requests : RequestJson := {|
  json_value b := Some (if String.eqb b "" then None else Some b);
  json_str b f := Some (field b f); json_int b f := Some (default 0 (atoi (field b f)));
  json_bool b f := Some (String.eqb (field b f) "true"); json_upstream _ := None;
  json_names k f := String.eqb k f; patch_config _ c := Ok c |}.

#[export] Existing Instances logrotate.plain_gzip backup.demo_backup.toy_tar backup.demo_backup.toy_snapshot.
#[export] Instance toy_zip : Zip := {| zip_write l := concat_s (l.*1) |}.
#[export] Instance toy_export : ExportJson := {| export_json _ := Ok "{}" |}.

#[export] Instance json_any {B} : JsonInto B := sampler.demo_sampler.plain_json.

#[export] Existing Instances totp.toy_hmac_class mgmt.demo_server tracker.demo_host.host pki.demo_pki.toy_x509 certapi.toy_ecpem
  pki.demo_pki.toy_envelope pki.demo_pki.toy_calendar.

(** Workers that do nothing. *)
Definition idle_host : Type := Host unit tracker.demo_host.World.
Definition none_yet : control.P idle_host (option goerr) := λ h, (h, Some None).
Definition idle : control.Lifecycle idle_host :=
  control.mkLifecycle _ none_yet none_yet none_yet none_yet (λ h, (h, Some 0)) (λ h, (h, Some 0)).
Definition idle_bot : control.TelegramController idle_host :=
  control.mkTelegramController _ none_yet none_yet none_yet (λ h, (h, Some (control.mkTelegramStatus false false "" false false))).
Definition idle_rt : Runtime unit tracker.demo_host.World := mkRuntime _ _ idle None idle_bot None 0.

Definition d_srv : certapi.Server := sampler.demo_sampler.a_srv.
Lemma idle_lawful : lawful d_srv idle_rt.
Proof.
  assert (∀ lv {B} (b : B), bnd (h_within (S:=unit) (H:=tracker.demo_host.World) d_srv lv) (λ h, (h, Some b))) as Hb
    by (intros lv B b h; reflexivity).
  split; [intros t [->|[=]]; split; apply Hb|intros t [->|[=]]; split_and!; apply Hb|split_and!; apply Hb|done].
Qed.

Definition no_facts : Facts := mkFacts "1" "host" "linux/amd64" "" "" "" "" "" "" true.
Definition demo_Handler : Request → Act unit tracker.demo_host.World (option (response output)) :=
  Handler (λ _, "") (λ _ c, c) (λ _, "{}") (λ _, Ok "") d_srv (λ _, "vpn.example.org") no_facts idle_rt (λ _, None) (λ _, 0)
    (mkProbe (Ok "1") None).

Definition demo_routes : list (entry unit tracker.demo_host.World) :=
  api (λ _, "") (λ _ c, c) (λ _, "{}") (λ _, Ok "") d_srv (λ _, "vpn.example.org") no_facts idle_rt (λ _, None) (λ _, 0)
    (mkProbe (Ok "1") None).
Definition demo_all : list (moment * Request) → idle_host → idle_host :=
  serve_all (λ _, "") (λ _ c, c) (λ _, "{}") (λ _, Ok "") d_srv (λ _, "vpn.example.org") no_facts idle_rt (λ _, None) (λ _, 0)
    (mkProbe (Ok "1") None).

(** An operator with a session, and a client's certificate. *)
Definition staff : list op :=
  [OAddUser "olga" "hash" "operator"; OAddSession (hashToken "tok") 1 (12 * hour);
   OAddCert (mkCert "1a" "alice" "client" "" (500 * second) (5000 * second) None true)].
Definition demo_h : Host unit tracker.demo_host.World :=
  mkHost (mkServe (mkWorld (NewService (run_ops staff (empty_store (1000 * second)))) (mkFs ∅ []) (mgmt.mkClient tt false [] []))
            tracker.demo_host.start) 0 [].
Definition by_olga (meth : string) (path : list string) (body : string) : Request :=
  mkRequest meth path [] body (Some "tok") (Some "c") "c" "10.0.0.1:1".
Definition exclude : Request := by_olga "PATCH" ["api"; "certs"; "1a"; "dns"] "IncludeDNS=false".
Definition promote : Request := by_olga "POST" ["api"; "users"] "Username=eve;Password=hunter22;Role=admin".
End demo_api.
Import demo_api.

(** The operator's request changed the certificate and nothing else. *)
Lemma least_privilege_witness :
  let h' := (demo_Handler exclude demo_h).1 in
  k_dns <$> certs (tables (hdb demo_h)) = [1] ∧ k_dns <$> certs (tables (hdb h')) = [0] ∧
  store.users (tables (hdb h')) = store.users (tables (hdb demo_h)).
Proof.
  intros h'. split; [reflexivity|]. split; [reflexivity|].
  pose proof (least_privilege (λ _, "") (λ _ c, c) (λ _, "{}") (λ _, Ok "") d_srv (λ _, "vpn.example.org") no_facts idle_rt
    (λ _, None) (λ _, 0) (mkProbe (Ok "1") None) idle_lawful exclude demo_h _ _ (surjective_pairing _)) as H.
  destruct H as [[[[_ H _] _ _] _] _]. exact (proj1 (H eq_refl)).
Defined.

(** The operator cannot make an administrator. *)
Lemma Handler_correct_witness :
  ∃ h1, looked demo_h h1 ∧ demo_Handler promote demo_h = (h1, Ok (Some (Failure 403 "insufficient role"))).
Proof.
  assert (∃ e, demo_routes !! 44%nat = Some e ∧ pattern e = "POST /api/users" ∧ role e = RoleAdmin) as (e&He&Hp&Hr)
    by (eexists; split_and!; reflexivity).
  pose proof (Handler_correct (λ _, "") (λ _ c, c) (λ _, "{}") (λ _, Ok "") d_srv (λ _, "vpn.example.org") no_facts idle_rt
    (λ _, None) (λ _, 0) (mkProbe (Ok "1") None) promote e demo_h (list_elem_of_lookup_2 _ _ _ He)) as H.
  rewrite Hp, Hr in H. destruct (H eq_refl) as (h1&Hl&HE). exists h1. split; [exact Hl|]. exact HE.
Defined.

(** After both requests, and one by nobody. *)
Lemma requests_keep_store_witness :
  let rs := [(mkMoment (2000 * second) [] noise [], exclude); (mkMoment (2001 * second) [None; Some (Sentinel ErrBusy)] "" [], promote)] in
  wf (tables (hdb (demo_all rs demo_h))) ∧ (length (audit_log (tables (hdb (demo_all rs demo_h)))) = 1)%nat.
Proof.
  intros rs. split; [|reflexivity].
  apply (requests_keep_store (λ _, "") (λ _ c, c) (λ _, "{}") (λ _, Ok "") d_srv (λ _, "vpn.example.org") no_facts idle_rt
    (λ _, None) (λ _, 0) (mkProbe (Ok "1") None) idle_lawful rs demo_h).
  change (wf (tables (run_ops staff (empty_store (1000 * second))))). apply run_ops_invariant; [intros o t t' _; apply effect_wf|exact wf_empty].
Defined.
End privilege.
