(* ===== verification/Boot.v ===== *)
(** * Boot: the data directory (cmd/ovcp/main.go, internal/api/tls.go, internal/store/store.go)

    The paths of an installation and what every command makes sure of before
    it works: the directory tree, the database and its key, the keys generated
    on first use, the admin interface's certificate, and the values the
    environment sets. *)

From Stdlib Require Import Ascii.
From S2P Require Import Prelude GoStr GoErr GoFs NetIP Names Store StoreUsers StoreStats Totp.
From S2P Require Import Auth Mgmt OvpnConf Pki LogRotate World CertApi UserApi ConfigApi Backup.

Module boot.
Import store world backup.
#[local] Existing Instances pki.K_ret pki.K_bind.

(** ** Paths *)

Record paths := mkPaths {
  PKIDir : string; CACert : string; ServerCert : string; ServerKey : string; CRL : string; TLSCrypt : string;
  ServerConf : string; LogsDir : string; OpenVPNLog : string; OvcpLog : string; DnsmasqLog : string;
  DNSDir : string; CertsHosts : string; CustomHosts : string }.

Definition dataPaths (dataDir : string) : paths :=
  let pd := Join dataDir "pki" in
  let ld := Join dataDir "logs" in
  let dd := Join dataDir "dns" in
  mkPaths pd (Join pd "ca.crt") (Join pd "server.crt") (Join pd "server.key") (Join pd "crl.pem") (Join pd "tls-crypt.key")
    (Join dataDir "server.conf") ld (Join ld "openvpn.log") (Join ld "ovcp.log") (Join ld "dnsmasq.log")
    dd (Join dd "certs.hosts") (Join dd "custom.hosts").

(** ** The tree *)

(** [os.Chmod]. *)
Definition Chmod (path : string) : F unit := λ s,
  match next_fault s with
  | Some (e, _) => (after s (files s), Err e)
  | None => (after s (files s), if decide (is_Some (files s !! path)) then Ok tt else Err not_exist)
  end.

(** Each directory is created and made private; directories are not files of
    the model. *)
Fixpoint make_dirs (dirs : list string) : F unit :=
  match dirs with
  | [] => mret tt
  | _ :: dirs => MkdirAll ;; Sync ;; make_dirs dirs
  end.

(** A file that is not there is created empty; one that cannot be looked at
    is left alone. *)
Definition create_missing (f : string) : F unit := λ s,
  match Exists f s with
  | (s, Ok true) => (s, Ok tt)
  | (s, Ok false) => WriteFile f "" s
  | (s, Err e) => if is_not_exist e then WriteFile f "" s else (s, Ok tt)
  end.

Definition ensureSkeleton (dataDir : string) : F unit :=
  let pp := dataPaths dataDir in
  make_dirs [dataDir; PKIDir pp; LogsDir pp; DNSDir pp] ;;
  create_missing (CertsHosts pp) ;;
  create_missing (CustomHosts pp).

(** ** The store *)

Section Open.
  Context {S : Type}.

(** Any error of the read, not only a missing file, makes a new key. *)
Definition loadOrCreateTOTPKey (path : string) : W S string :=
  old ← w_try (on_disk (ReadFile path));
  match old with
  | Ok data => if (slen data =? 32)%nat then mret data
               else w_fail (Errorf "store: bad totp key length in %s" [path])
  | Err _ =>
      key ← on_db (rand_read 32);
      on_disk (WriteFile path key) ;;
      mret key
  end.

Fixpoint chmod_all (fs : list string) : F unit :=
  match fs with
  | [] => mret tt
  | f :: fs => λ s, match Chmod f s with
                    | (s, Err e) => if is_not_exist e then chmod_all fs s else (s, Err e)
                    | (s, Ok _) => chmod_all fs s
                    end
  end.

(** The store's handle: its key, and whether audits are passed on. *)
Definition handle (key : string) (hook : bool) : W S unit := λ w, let s := db w in
  (set_db w (mkStore (tables s) key hook (hooked s) (clock s) (faults s) (entropy s)), Ok tt).

(** [store.Open]: the schema is in place once its script has run. *)
Definition Open (path : string) : W S unit :=
  w_err (Wrapf "store: migrate: %w" []) (on_db (exec (λ t, Ok (t, tt)))) ;;
  on_disk (chmod_all [path; path +:+ "-wal"; path +:+ "-shm"]) ;;
  key ← loadOrCreateTOTPKey (Join (dir_of path) "totp.key");
  handle key false.

(** [s.OnAudit]. *)
Definition OnAudit : W S unit := λ w, handle (totpKey (db w)) true w.

(** [ctx.openStore]: the gateway of every command that reads or writes
    state. *)
Definition openStore (dataDir : string) : W S unit :=
  on_disk (ensureSkeleton dataDir) ;;
  Open (Join dataDir "ovcp.db") ;;
  OnAudit.

End Open.

(** ** Keys and certificates made on first use *)

Section Keys.
  Context {S : Type} `{pki.X509}.

(** Here too any error of the read makes a new key. *)
Definition loadOrCreateTLSCrypt (path : string) : W S string :=
  old ← w_try (on_disk (ReadFile path));
  match old with
  | Ok data => mret data
  | Err _ =>
      k ← on_pki pki.GenTLSCryptKey;
      on_disk (WriteFile path k) ;;
      mret k
  end.

(** The subject of the certificate a PEM text holds. *)
Definition subject_of (data : string) : option (string * Z) :=
  match pki.parseCertPEM data with
  | Ok c => Some (pki.Subject (pki.body c), pki.NotAfter (pki.body c))
  | Err _ => None
  end.

(** The name clients connect to: the environment's, else the server
    certificate's. *)
Definition adminCertCN (getenv : string → string) (dataDir : string) (w : World S) : string :=
  let v := getenv "OVCP_SERVER_CN" in
  if negb (String.eqb v "") then v
  else match (ReadFile (ServerCert (dataPaths dataDir)) (disk w)).2 with
       | Ok data => default "" (fst <$> subject_of data)
       | Err _ => ""
       end.

Context `{pki.Calendar}.

Definition loopback : list IP := omap ParseIP ["127.0.0.1"; "::1"].

Definition admin_template (cn : string) (serial t : Z) : pki.Template :=
  pki.mkTemplate serial cn (t - pki.five_minutes) (pki.AddDate t 5 0) false [pki.DigitalSignature; pki.ServerAuth]
    [cn; "localhost"] loopback.

(** A self-signed certificate and its key. *)
Definition admin_pair (cn : string) : pki.K (string * string) :=
  key ← pki.draw pki.generate_key;
  serial ← pki.randSerial;
  t ← pki.k_now;
  let tpl := admin_template cn serial t in
  der ← pki.draw (pki.create_cert tpl tpl key key);
  kder ← pki.of_result (pki.marshal_key key);
  mret (der, kder).

(** [EnsureAdminTLS]: the certificate's and key's paths. *)
Definition EnsureAdminTLS (dir cn : string) : W S (string * string) :=
  let cn := if String.eqb cn "" then "ovcp-admin" else cn in
  let cp := Join dir "admin.crt" in
  let kp := Join dir "admin.key" in
  cur ← w_try (on_disk (ReadFile cp));
  t ← w_now;
  if match cur with
     | Ok data => match subject_of data with
                  | Some (s, notAfter) => String.eqb s cn && (t <? notAfter)
                  | None => false
                  end
     | Err _ => false
     end
  then mret (cp, kp)
  else
    on_disk MkdirAll ;;
    '(der, kder) ← on_pki (admin_pair cn);
    on_disk (WriteFile kp (pki.pem_encode "PRIVATE KEY" kder)) ;;
    on_disk (WriteFile cp (pki.pem_encode "CERTIFICATE" der)) ;;
    mret (cp, kp).

End Keys.

(** ** The environment *)

Section Environment.
  Context (getenv : string → string).

Definition sockPath (env def : string) : string := ovpnconf.str_or (getenv env) def.
Definition ctrlSock : string := sockPath "OVCP_CTRL_SOCK" "/run/ovcp/control.sock".
Definition mgmtSock : string := sockPath "OVCP_MGMT_SOCK" "/run/ovcp/mgmt.sock".

Definition statusPath (sock : string) : string := Join (dir_of sock) "status".

Definition statusInterval : Z :=
  let v := getenv "OVCP_STATUS_INTERVAL" in
  if String.eqb v "" then 3
  else match atoi v with
       | Some n => if (n <? 1) || (60 <? n) then 3 else n
       | None => 3
       end.

(** [fillPaths]: the fields of a configuration the server owns. *)
Definition fillPaths (dataDir sock serverCN : string) (c : ovpnconf.Config) : ovpnconf.Config :=
  let pp := dataPaths dataDir in
  ovpnconf.mkConfig (ovpnconf.Proto c) (ovpnconf.Port c) (ovpnconf.Subnet c) (ovpnconf.Cipher c) (ovpnconf.DNS c)
    (ovpnconf.PushInternalDNS c) (ovpnconf.Routes c) (ovpnconf.RedirectGW c) (ovpnconf.Extra c)
    (CACert pp) (ServerCert pp) (ServerKey pp) (CRL pp) (TLSCrypt pp) sock (statusPath sock) serverCN
    statusInterval (ovpnconf.ManagementClientAuth c).

End Environment.

(** [preflight]: what an initialised directory holds. *)
Fixpoint missing_files (fs : list string) : F (list string) :=
  match fs with
  | [] => mret []
  | f :: fs => λ s, match Exists f s with
                    | (s, Ok true) => missing_files fs s
                    | (s, _) => (rest ← missing_files fs; mret (f :: rest)) s
                    end
  end.

Definition preflight (dataDir : string) : F unit :=
  let pp := dataPaths dataDir in
  missing ← missing_files [CACert pp; ServerCert pp; ServerKey pp; TLSCrypt pp];
  match missing with
  | [] => mret tt
  | _ => f_fail (Errorf ("not initialized, missing:" +:+ nl +:+ "  %s" +:+ nl +:+ "run: ovcp init -server-cn <public-hostname>")
                   [join (nl +:+ "  ") missing])
  end.

(** ** Workers *)

Definition openvpn_args (dataDir : string) : list string := ["--config"; ServerConf (dataPaths dataDir)].

Definition buildDnsmasqArgs (serverIP : IP) (dnsDir : string) (blockInternet : bool) : list string :=
  ["-k"; "--user=root"; "--bind-dynamic"; "--listen-address=" +:+ IP_String serverIP; "--hostsdir=" +:+ dnsDir;
   "--log-queries"; "--log-facility=-"] ++
  (if blockInternet then ["--no-resolv"; "--server=/#/"] else []).

(** [PreStart] of the dnsmasq worker. *)
Definition dnsmasq_args `{!JsonInto configapi.DNSConfig} (getenv : string → string)
    (unmarshal_config : string → ovpnconf.Config → ovpnconf.Config) (dataDir : string) : M (list string) :=
  cfg ← configapi.LoadConfig getenv unmarshal_config;
  dns ← configapi.LoadDNSConfig getenv;
  let ip := match ovpnconf.ServerTunIP cfg with Ok ip => ip | Err _ => [0; 0; 0; 0] end in
  mret (buildDnsmasqArgs ip (DNSDir (dataPaths dataDir)) (configapi.BlockInternet dns)).

End boot.
