(* ===== verification/Identity.v ===== *)
(** * Identity: whose process ovcp is (cmd/ovcp/main.go, [dropRoot], [mkdirOwned])

    A root invocation re-runs itself in place as the service account, with two
    capabilities at most, after making the directories it needs for that
    account. The kernel is an interface: what a process may observe of itself
    and of the directory tree, and the documented effect of each call. Other
    processes run between the calls that make a directory. *)

From S2P Require Import Prelude GoStr GoErr GoFs OvpnConf Boot.

Module identity.
Import boot.

(** ** What the kernel keeps of a process and of a directory *)

(** User and group ids: real, effective, saved. Capability sets are bit
    masks. *)
Record Creds := mkCreds {
  ruid : Z; euid : Z; suid : Z; rgid : Z; egid : Z; sgid : Z; groups : list Z;
  permitted : Z; effective : Z; inheritable : Z; ambient : Z; keepcaps : bool }.

Definition set_uids (r e s : Z) (c : Creds) : Creds :=
  mkCreds r e s (rgid c) (egid c) (sgid c) (groups c) (permitted c) (effective c) (inheritable c) (ambient c) (keepcaps c).
Definition set_gids (r e s : Z) (c : Creds) : Creds :=
  mkCreds (ruid c) (euid c) (suid c) r e s (groups c) (permitted c) (effective c) (inheritable c) (ambient c) (keepcaps c).
Definition set_groups (l : list Z) (c : Creds) : Creds :=
  mkCreds (ruid c) (euid c) (suid c) (rgid c) (egid c) (sgid c) l (permitted c) (effective c) (inheritable c) (ambient c) (keepcaps c).
Definition set_caps (p e i a : Z) (c : Creds) : Creds :=
  mkCreds (ruid c) (euid c) (suid c) (rgid c) (egid c) (sgid c) (groups c) p e i a (keepcaps c).
Definition set_keep (b : bool) (c : Creds) : Creds :=
  mkCreds (ruid c) (euid c) (suid c) (rgid c) (egid c) (sgid c) (groups c) (permitted c) (effective c) (inheritable c) (ambient c) b.

Definition CAP_SETGID : Z := 6.
Definition CAP_SETUID : Z := 7.
Definition CAP_NET_BIND_SERVICE : Z := 10.
Definition CAP_NET_ADMIN : Z := 12.

(** Some user id is root's: what the kernel looks at when ids change. *)
Definition some_root (c : Creds) : bool := (ruid c =? 0) || (euid c =? 0) || (suid c =? 0).

(** The last root id going away clears the capabilities, the permitted ones
    unless they are to be kept; an effective id that stops being root's
    clears the effective ones. *)
Definition uids_changed (old new : Creds) : Creds :=
  let gone := some_root old && negb (some_root new) in
  let p := if gone && negb (keepcaps old) then 0 else permitted new in
  let a := if gone then 0 else ambient new in
  let e := if gone || ((euid old =? 0) && negb (euid new =? 0)) then 0 else effective new in
  set_caps p e (inheritable new) a new.

(** [setuid]: with CAP_SETUID all three ids. *)
Definition after_setuid (u : Z) (c : Creds) : Creds :=
  uids_changed c (if Z.testbit (effective c) CAP_SETUID then set_uids u u u c else set_uids (ruid c) u (suid c) c).
Definition after_setgid (g : Z) (c : Creds) : Creds :=
  if Z.testbit (effective c) CAP_SETGID then set_gids g g g c else set_gids (rgid c) g (sgid c) c.
Definition after_capset (e p i : Z) (c : Creds) : Creds := set_caps p e i (Z.land (ambient c) (Z.land p i)) c.
Definition after_raise (cap : Z) (c : Creds) : Creds :=
  set_caps (permitted c) (effective c) (inheritable c) (Z.lor (ambient c) (Z.shiftl 1 cap)) c.

(** A directory, or anything else a name may stand for: its owner, its mode
    and, of a directory, what its names stand for. *)
Record Node := mkNode { is_dir : bool; uid_of : Z; gid_of : Z; mode_of : Z; entries : gmap string nat }.

Definition with_entries (m : gmap string nat) (n : Node) : Node := mkNode (is_dir n) (uid_of n) (gid_of n) (mode_of n) m.
Definition with_owner (u g : Z) (n : Node) : Node := mkNode (is_dir n) u g (mode_of n) (entries n).

(** [EEXIST]. *)
Definition exists_err : goerr := ExternalErr "file exists".
Definition is_exists (e : goerr) : bool := match e with ExternalErr w => String.eqb w "file exists" | _ => false end.

(** The calls, on the kernel's state. [Exec] answers whether the process is
    now the image. *)
Definition Sys (K A : Type) : Type := K → K * result A.

Class Kernel (K : Type) := {
  creds : K → Creds;
  node : K → nat → option Node;
  Capget : Sys K Z;
  PrctlKeepCaps : Sys K unit;
  Setgroups : list Z → Sys K unit;
  Setgid : Z → Sys K unit;
  Setuid : Z → Sys K unit;
  Capset : Z → Z → Z → Sys K unit;
  AmbientRaise : Z → Sys K unit;
  Exec : string → Sys K unit;
  MkdirAll : string → Z → Sys K unit;
  OpenDir : string → Sys K nat;
  Mkdirat : nat → string → Z → Sys K unit;
  Openat : nat → string → Sys K nat;
  Fchown : nat → Z → Z → Sys K unit }.

#[export] Instance Sys_ret {K} : MRet (Sys K) := λ _ a k, (k, Ok a).
#[export] Instance Sys_bind {K} : MBind (Sys K) := λ _ _ f m k,
  match m k with (k', Ok a) => f a k' | (k', Err e) => (k', Err e) end.
Definition s_fail {K A} (e : goerr) : Sys K A := λ k, (k, Err e).
Definition s_of {K A} (r : result A) : Sys K A := λ k, (k, r).

(** ** The code *)

(** How a call of [dropRoot] ends: it returns, the process exits on an error,
    or it has become a new image. *)
Inductive outcome := Returned | Exited (e : goerr) | Replaced.

Section Drop.
  Context {K : Type} `{Kernel K}.
  Context (getenv : string → string) (Lookup : string → result (string * string)) (Executable : result string).
  Context (others : K → K).

Definition pause : Sys K unit := λ k, (others k, Ok tt).

Definition dropCaps : list Z := [CAP_NET_ADMIN; CAP_NET_BIND_SERVICE].

(** The new directory, by its own descriptor. *)
Definition own_entry (parent : nat) (base : string) (uid gid : Z) : Sys K unit :=
  pause ;; fd ← Openat parent base; pause ;; Fchown fd uid gid.

(** In the open parent: 0o700, and what is there already is left. *)
Definition make_entry (parent : nat) (base : string) (uid gid : Z) : Sys K unit := λ k,
  match Mkdirat parent base 448 k with
  | (k, Ok _) => own_entry parent base uid gid k
  | (k, Err e) => if is_exists e then (k, Ok tt) else (k, Err e)
  end.

Definition open_parent (dir : string) : Sys K nat :=
  MkdirAll (dir_of dir) 493 ;; OpenDir (dir_of dir).

Definition mkdirOwned (dir : string) (uid gid : Z) : Sys K unit :=
  parent ← open_parent dir;
  pause ;;
  make_entry parent (base_name dir) uid gid.

Fixpoint mkdirs_owned (dirs : list string) (uid gid : Z) : Sys K unit :=
  match dirs with
  | [] => mret tt
  | d :: dirs => mkdirOwned d uid gid ;; mkdirs_owned dirs uid gid
  end.

(** [strconv.Atoi]'s error ends the process whatever it says. *)
Definition id_of (s : string) : Sys K Z :=
  match atoi s with
  | Some n => mret n
  | None => s_fail (Errorf "strconv.Atoi: parsing %q: invalid syntax" [s])
  end.

(** The capabilities of [dropCaps] the process was given: 32-bit words. *)
Definition keep_of (granted : Z) : Z :=
  foldl (λ keep cp, Z.lor keep (Z.land (wrap_u32 granted) (wrap_u32 (Z.shiftl 1 cp)))) 0 dropCaps.

Fixpoint raise_all (keep : Z) (caps : list Z) : Sys K unit :=
  match caps with
  | [] => mret tt
  | cp :: caps =>
      (if negb (Z.land keep (Z.shiftl 1 cp) =? 0) then AmbientRaise cp else mret tt) ;; raise_all keep caps
  end.

Definition exec_as (exe name : string) : Sys K unit := λ k,
  match Exec exe k with
  | (k, Ok _) => (k, Ok tt)
  | (k, Err e) => (k, Err (Wrapf "exec %s as %s: %w" [exe; name] e))
  end.

(** The process's own identity, from root's to the account's. *)
Definition drop_to (uid gid keep : Z) : Sys K unit :=
  PrctlKeepCaps ;;
  Setgroups [] ;;
  Setgid gid ;;
  Setuid uid ;;
  Capset keep keep keep ;;
  raise_all keep dropCaps.

(** From the account on, up to the exec; only an error comes back. *)
Definition become (name dataDir : string) : Sys K unit :=
  u ← s_of (match Lookup name with
            | Ok u => Ok u
            | Err e => Err (Wrapf "%w: create that system account, or set OVCP_USER=root" [] e)
            end);
  uid ← id_of u.1;
  gid ← id_of u.2;
  mkdirs_owned [dataDir; dir_of (ctrlSock getenv); dir_of (mgmtSock getenv)] uid gid ;;
  exe ← s_of Executable;
  granted ← Capget;
  drop_to uid gid (keep_of granted) ;;
  exec_as exe name.

Definition user_name : string := ovpnconf.str_or (getenv "OVCP_USER") "ovcp".

Definition dropRoot (dataDir : string) (k : K) : K * outcome :=
  if negb (euid (creds k) =? 0) || String.eqb user_name "root" then (k, Returned)
  else match become user_name dataDir k with
       | (k', Ok _) => (k', Replaced)
       | (k', Err e) => (k', Exited e)
       end.
End Drop.

(** ** What the kernel promises

    capabilities(7), credentials(7), setuid(2), prctl(2), execve(2), mkdir(2):
    what a call that succeeds has done, and that one that fails has done
    nothing. [plain] files carry no set-id bit and no capabilities. Other
    processes are not root: what only root may write stays as it is. *)

Definition protected (n : Node) : Prop := is_dir n = true ∧ uid_of n = 0 ∧ Z.land (mode_of n) 18 = 0.
#[export] Instance protected_dec n : Decision (protected n).
Proof. unfold protected. apply _. Defined.

Definition same_tree {K} `{Kernel K} (k k' : K) : Prop := ∀ i, node k' i = node k i.

(** The credentials of the image a process has become. *)
Definition image_of (old new : Creds) : Prop :=
  ruid new = ruid old ∧ euid new = euid old ∧ suid new = euid old ∧
  rgid new = rgid old ∧ egid new = egid old ∧ sgid new = egid old ∧ groups new = groups old ∧
  (ruid old ≠ 0 → euid old ≠ 0 →
    permitted new = ambient old ∧ effective new = ambient old ∧ ambient new = ambient old ∧
    inheritable new = inheritable old).

Class KernelLaws (K : Type) `{Kernel K} (plain : string → Prop) (others : K → K) : Prop := {
  capget_ok k k' g : Capget k = (k', Ok g) → k' = k ∧ g = wrap_u32 (permitted (creds k));
  keepcaps_ok k k' u : PrctlKeepCaps k = (k', Ok u) → creds k' = set_keep true (creds k);
  setgroups_ok l k k' u : Setgroups l k = (k', Ok u) →
    Z.testbit (effective (creds k)) CAP_SETGID = true ∧ creds k' = set_groups l (creds k);
  setgid_ok g k k' u : Setgid g k = (k', Ok u) → creds k' = after_setgid g (creds k);
  setuid_ok v k k' u : Setuid v k = (k', Ok u) →
    (Z.testbit (effective (creds k)) CAP_SETUID = true ∨ v = ruid (creds k) ∨ v = suid (creds k)) ∧
    creds k' = after_setuid v (creds k);
  capset_ok e p i k k' u : Capset e p i k = (k', Ok u) → creds k' = after_capset e p i (creds k);
  raise_ok cap k k' u : AmbientRaise cap k = (k', Ok u) → creds k' = after_raise cap (creds k);
  exec_ok exe k k' u : plain exe → Exec exe k = (k', Ok u) → image_of (creds k) (creds k');
  mkdirall_creds d m k : creds (MkdirAll d m k).1 = creds k;
  opendir_creds d k : creds (OpenDir d k).1 = creds k;
  mkdirat_creds p b m k : creds (Mkdirat p b m k).1 = creds k;
  openat_creds p b k : creds (Openat p b k).1 = creds k;
  fchown_creds i u g k : creds (Fchown i u g k).1 = creds k;
  others_creds k : creds (others k) = creds k;
  mkdirat_ok p b m k k' u : Mkdirat p b m k = (k', Ok u) → ∃ np i n,
    node k p = Some np ∧ entries np !! b = None ∧ node k i = None ∧
    is_dir n = true ∧ uid_of n = euid (creds k) ∧ Z.land (mode_of n) m = mode_of n ∧ entries n = ∅ ∧
    node k' i = Some n ∧ node k' p = Some (with_entries (<[b := i]> (entries np)) np) ∧
    ∀ j, j ≠ i → j ≠ p → node k' j = node k j;
  mkdirat_err p b m k k' e : Mkdirat p b m k = (k', Err e) → same_tree k k' ∧
    (is_exists e = true → ∃ np, node k p = Some np ∧ is_Some (entries np !! b));
  openat_tree p b k : same_tree k (Openat p b k).1;
  openat_ok p b k k' fd : Openat p b k = (k', Ok fd) → ∃ np, node k p = Some np ∧ entries np !! b = Some fd;
  fchown_ok i u g k k' r : Fchown i u g k = (k', Ok r) → ∃ n, node k i = Some n ∧
    node k' i = Some (with_owner u g n) ∧ ∀ j, j ≠ i → node k' j = node k j;
  fchown_err i u g k k' e : Fchown i u g k = (k', Err e) → same_tree k k';
  others_tree k i n : node k i = Some n → protected n → node (others k) i = Some n }.

Section Laws.
  Context {K : Type} `{Kernel K} (plain : string → Prop) (others : K → K) `{!KernelLaws K plain others}.

Lemma s_bind_inv {A B} (m : Sys K A) (f : A → Sys K B) k k' r : mbind f m k = (k', r) →
  (∃ e, m k = (k', Err e) ∧ r = Err e) ∨ ∃ k1 a, m k = (k1, Ok a) ∧ f a k1 = (k', r).
Proof. unfold mbind, Sys_bind. destruct (m k) as [k1 [a|e]]; [eauto|]. intros [= <- <-]. eauto. Qed.

Lemma s_bind_ok {A B} (m : Sys K A) (f : A → Sys K B) k k' b : mbind f m k = (k', Ok b) →
  ∃ k1 a, m k = (k1, Ok a) ∧ f a k1 = (k', Ok b).
Proof. intros [(e&_&?)|?]%s_bind_inv; [done|done]. Qed.

(** ** The directories *)

(** Of what only root may write, all but one directory is as it was. *)
Definition safe_but (p : nat) (k k' : K) : Prop :=
  ∀ j n, j ≠ p → node k j = Some n → protected n → node k' j = Some n.

Lemma safe_trans p k k1 k2 : safe_but p k k1 → safe_but p k1 k2 → safe_but p k k2.
Proof. intros H1 H2 j n Hj Hn Hp. by apply H2; [|apply H1|]. Qed.
Lemma safe_others p k : safe_but p k (others k).
Proof. intros j n _. by apply others_tree. Qed.
Lemma safe_same p k k' : same_tree k k' → safe_but p k k'.
Proof. intros E j n _ Hn _. by rewrite E. Qed.

(** A directory just made is root's alone. *)
Lemma new_protected n : is_dir n = true → uid_of n = 0 → Z.land (mode_of n) 448 = mode_of n → protected n.
Proof. intros Hd Hu Hm. split_and!; [done..|]. rewrite <-Hm, <-Z.land_assoc. apply Z.land_0_r. Qed.

(** The last part: the entry is there, and it and its parent are root's. *)
Lemma own_entry_spec p b i np n uid gid k k' r : node k p = Some np → protected np → entries np !! b = Some i →
  node k i = Some n → protected n → i ≠ p →
  own_entry others p b uid gid k = (k', r) →
  node k' p = Some np ∧ (∀ j m, j ≠ i → node k j = Some m → protected m → node k' j = Some m) ∧
  (r = Ok tt → node k' i = Some (with_owner uid gid n)).
Proof.
  intros Hp Pp Hb Hi Pi Hne E. unfold own_entry, pause in E.
  apply s_bind_inv in E as [(e&?&->)|(k1&[]&[= <-]&E)]; [done|].
  pose proof (openat_tree p b (others k)) as T. destruct (Openat p b (others k)) as [k2 r2] eqn:Eo.
  assert (∀ j m, node k j = Some m → protected m → node k2 j = Some m) as K2.
  { intros j m Hj Pj. cbn in T. rewrite T. by apply others_tree. }
  apply s_bind_inv in E as [(e&Eo'&->)|(k3&fd&Eo'&E)]; rewrite Eo in Eo'; simplify_eq.
  - split_and!; [by apply K2| |done]. intros j m _. apply K2.
  - apply s_bind_inv in E as [(e&?&->)|(k4&[]&[= <-]&E)]; [done|].
    assert (∀ j m, node k j = Some m → protected m → node (others k3) j = Some m) as K4.
    { intros j m Hj Pj. apply others_tree; [by apply K2|done]. }
    apply openat_ok in Eo as (np'&Hp'&Hb'). rewrite (others_tree _ _ _ Hp Pp) in Hp'. simplify_eq.
    destruct r as [[]|e].
    + apply fchown_ok in E as (n'&Hn'&Hi'&Hj'). rewrite (K4 _ _ Hi Pi) in Hn'. simplify_eq.
      split_and!; [rewrite Hj' by done; by apply K4| |done].
      intros j m Hj Hm Pm. rewrite Hj' by done. by apply K4.
    + apply fchown_err in E. split_and!; [rewrite E; by apply K4| |done].
      intros j m _ Hm Pm. rewrite E. by apply K4.
Qed.

(** What is made of one entry of a directory only root may write. *)
Definition made_for (uid gid : Z) (p : nat) (np : Node) (b : string) (k1 k' : K) : Prop := ∃ i n,
  is_dir n = true ∧ Z.land (mode_of n) 448 = mode_of n ∧ entries n = ∅ ∧
  (∀ m, node k1 i = Some m → ¬ protected m) ∧
  node k' p = Some (with_entries (<[b := i]> (entries np)) np) ∧
  node k' i = Some (with_owner uid gid n).

(** The directory [mkdirOwned] leaves, when its parent is root's: one that
    is there is left as it is; a new one belongs to the account, is closed to
    everyone else, and is the very one just made, whatever other processes do
    between the calls. Nothing else only root may write is touched, also when
    a call fails. *)
Theorem mkdirOwned_correct dir uid gid k k1 p np k' r
  (Hroot : euid (creds k) = 0) (Hparent : open_parent dir k = (k1, Ok p))
  (Hp : node k1 p = Some np) (Hpp : protected np) (E : mkdirOwned others dir uid gid k = (k', r)) :
  (∀ j n, j ≠ p → node k1 j = Some n → protected n → node k' j = Some n) ∧
  (is_Some (entries np !! base_name dir) → node k' p = Some np) ∧
  (entries np !! base_name dir = None → r = Ok tt → made_for uid gid p np (base_name dir) k1 k').
Proof.
  assert (euid (creds (others k1)) = 0) as Hr1.
  { rewrite others_creds. unfold open_parent in Hparent. apply s_bind_ok in Hparent as (k0&[]&E0&E1).
    pose proof (opendir_creds (dir_of dir) k0) as C1. pose proof (mkdirall_creds (dir_of dir) 493 k) as C0.
    rewrite E1 in C1. rewrite E0 in C0. cbn in C0, C1. by rewrite C1, C0. }
  unfold mkdirOwned in E. apply s_bind_inv in E as [(e&E0&_)|(k2&p'&E0&E)]; rewrite Hparent in E0; [done|].
  injection E0 as <- <-. apply s_bind_inv in E as [(e&?&_)|(k3&[]&[= <-]&E)]; [done|].
  pose proof (others_tree _ _ _ Hp Hpp) as Hp1. unfold make_entry in E.
  destruct (Mkdirat p (base_name dir) 448 (others k1)) as [k2 [u|e]] eqn:Em.
  - pose proof (mkdirat_creds p (base_name dir) 448 (others k1)) as Cm. rewrite Em in Cm. cbn in Cm.
    apply mkdirat_ok in Em as (np'&i&n&Hp'&Hb&Hfresh&Hd&Hu&Hm&He&Hi&Hp2&Hj).
    rewrite Hp1 in Hp'. simplify_eq.
    assert (protected n) as Pn by (apply new_protected; congruence).
    assert (∀ j m, j ≠ p → node k1 j = Some m → protected m → j ≠ i ∧ node k2 j = Some m) as K2.
    { intros j m Hjp Hm' Pm. pose proof (others_tree _ _ _ Hm' Pm) as Ho.
      assert (j ≠ i) as Hji by congruence. split; [done|]. by rewrite Hj. }
    eapply (own_entry_spec p (base_name dir) i _ n) in E as (Ep&Ej&Ei); [|done| |by apply lookup_insert_eq|done|done|congruence].
    2:{ exact Hpp. }
    split_and!; [intros j m Hjp Hm' Pm; destruct (K2 j m Hjp Hm' Pm); by apply Ej|by intros [? ?]; congruence|].
    intros _ Hr. exists i, n. split_and!; try done; [|by apply Ei].
    intros m Hm' Pm. rewrite (others_tree _ _ _ Hm' Pm) in Hfresh. done.
  - apply mkdirat_err in Em as [Et Hex].
    assert (k' = k2 ∧ (r = Ok tt → is_exists e = true)) as [-> Hr].
    { destruct (is_exists e); injection E as <- <-; done. }
    split_and!.
    + eapply safe_trans; [apply safe_others|by apply safe_same].
    + intros _. by rewrite Et.
    + intros Hn Hok%Hr%Hex. destruct Hok as (np'&Hp'&[? ?]). congruence.
Qed.

(** ** The identity *)

Definition keeps_creds {A} (m : Sys K A) : Prop := ∀ k, creds (m k).1 = creds k.

Lemma bind_creds {A B} (m : Sys K A) (f : A → Sys K B) : keeps_creds m → (∀ a, keeps_creds (f a)) → keeps_creds (m ≫= f).
Proof.
  intros Hm Hf k. specialize (Hm k). unfold mbind, Sys_bind. destruct (m k) as [k1 [a|e]]; [|done].
  cbn in Hm. by rewrite Hf.
Qed.

Lemma mkdirOwned_creds dir uid gid : keeps_creds (mkdirOwned others dir uid gid).
Proof.
  assert (keeps_creds (pause others)) as Hpause by (intros k; cbn; apply others_creds).
  assert (∀ p b, keeps_creds (own_entry others p b uid gid)) as Hown.
  { intros p b. unfold own_entry. repeat (apply bind_creds; [|intros ?]); try done; intros k;
      [apply openat_creds|apply fchown_creds]. }
  unfold mkdirOwned, open_parent. repeat (apply bind_creds; [|intros ?]); try done.
  - intros k. apply mkdirall_creds.
  - intros k. apply opendir_creds.
  - intros k. unfold make_entry. pose proof (mkdirat_creds a (base_name dir) 448 k) as C.
    destruct (Mkdirat _ _ _ k) as [k1 [u|e]]; [rewrite Hown; exact C|]. by destruct (is_exists e).
Qed.

Lemma mkdirs_creds dirs uid gid : keeps_creds (mkdirs_owned others dirs uid gid).
Proof.
  induction dirs as [|d dirs IH]; [done|]. cbn [mkdirs_owned]. apply bind_creds; [apply mkdirOwned_creds|done].
Qed.

Lemma in_dropCaps n : bool_decide (n ∈ dropCaps) = (12 =? n) || (10 =? n).
Proof.
  apply eq_true_iff_eq. rewrite bool_decide_eq_true, orb_true_iff, !Z.eqb_eq. unfold dropCaps, CAP_NET_ADMIN, CAP_NET_BIND_SERVICE.
  rewrite !elem_of_cons, elem_of_nil. lia.
Qed.

(** The capabilities handed on: those of [dropCaps] the process had. *)
Lemma keep_of_bits granted cap : 0 ≤ cap →
  Z.testbit (keep_of granted) cap = Z.testbit granted cap && bool_decide (cap ∈ dropCaps).
Proof.
  intros Hc. rewrite in_dropCaps. unfold keep_of, dropCaps. cbn [foldl]. rewrite Z.lor_0_l, Z.lor_spec, !Z.land_spec.
  change (wrap_u32 (Z.shiftl 1 CAP_NET_ADMIN)) with (2 ^ 12).
  change (wrap_u32 (Z.shiftl 1 CAP_NET_BIND_SERVICE)) with (2 ^ 10).
  rewrite !Z.pow2_bits_eqb, <-andb_orb_distrib_r by done. unfold wrap_u32. destruct (decide (cap < 32)) as [Hlt|Hge].
  - by rewrite Z.mod_pow2_bits_low by lia.
  - rewrite Z.mod_pow2_bits_high by lia. cbn [andb]. symmetry. apply andb_false_iff. right.
    apply orb_false_iff. rewrite !Z.eqb_neq. lia.
Qed.

Lemma keep_of_nonneg granted : 0 ≤ keep_of granted.
Proof.
  unfold keep_of, dropCaps. cbn [foldl]. rewrite Z.lor_0_l. apply Z.lor_nonneg.
  split; apply Z.land_nonneg; left; unfold wrap_u32; by apply Z.mod_pos_bound.
Qed.

(** What raising leaves: the ambient set gains the kept capabilities. *)
Lemma raise_all_spec keep caps k k' : raise_all keep caps k = (k', Ok tt) →
  creds k' = set_caps (permitted (creds k)) (effective (creds k)) (inheritable (creds k))
    (foldl (λ a cp, if negb (Z.land keep (Z.shiftl 1 cp) =? 0) then Z.lor a (Z.shiftl 1 cp) else a) (ambient (creds k)) caps)
    (creds k).
Proof.
  revert k. induction caps as [|cp caps IH]; intros k; cbn [raise_all foldl].
  - intros [= <-]. by destruct (creds k).
  - intros (k1&[]&E1&E2)%s_bind_ok. apply IH in E2. rewrite E2. destruct (negb _).
    + apply raise_ok in E1. by rewrite E1.
    + by injection E1 as <-.
Qed.

Lemma land_single a cp : 0 ≤ cp → negb (Z.land a (Z.shiftl 1 cp) =? 0) = Z.testbit a cp.
Proof.
  intros Hc. rewrite Z.shiftl_1_l. apply eq_true_iff_eq. rewrite negb_true_iff, Z.eqb_neq. split.
  - intros Hne. apply not_false_iff_true. intros Hf. apply Hne. apply Z.bits_inj'. intros n Hn.
    rewrite Z.land_spec, Z.pow2_bits_eqb, Z.bits_0 by done.
    destruct (cp =? n) eqn:En; [|apply andb_false_r]. apply Z.eqb_eq in En as <-. by rewrite Hf.
  - intros Ht E0. assert (Z.testbit (Z.land a (2 ^ cp)) cp = false) as Hf by (rewrite E0; apply Z.bits_0).
    by rewrite Z.land_spec, Z.pow2_bits_true, Ht in Hf by done.
Qed.

Lemma raised granted :
  foldl (λ a cp, if negb (Z.land (keep_of granted) (Z.shiftl 1 cp) =? 0) then Z.lor a (Z.shiftl 1 cp) else a) 0 dropCaps
  = keep_of granted.
Proof.
  apply Z.bits_inj'. intros n Hn. rewrite keep_of_bits by done. unfold dropCaps at 1. cbn [foldl].
  rewrite !land_single, !keep_of_bits by done. rewrite !bool_decide_true by (unfold dropCaps; set_solver).
  rewrite !andb_true_r, in_dropCaps, !Z.shiftl_1_l. unfold CAP_NET_ADMIN, CAP_NET_BIND_SERVICE.
  assert (∀ x c, 0 ≤ c → Z.testbit (Z.lor x (2 ^ c)) n = Z.testbit x n || (c =? n)) as Hl.
  { intros x c Hc. by rewrite Z.lor_spec, Z.pow2_bits_eqb by done. }
  destruct (decide (n = 12)) as [->|N1]; [|destruct (decide (n = 10)) as [->|N2]].
  1,2: destruct (Z.testbit granted 12), (Z.testbit granted 10); rewrite ?Hl, ?Z.bits_0 by done; done.
  rewrite (proj2 (Z.eqb_neq 12 n)), (proj2 (Z.eqb_neq 10 n)), andb_false_r by done.
  destruct (Z.testbit granted 12), (Z.testbit granted 10); rewrite ?Hl, ?Z.bits_0 by done;
    rewrite ?(proj2 (Z.eqb_neq 12 n)), ?(proj2 (Z.eqb_neq 10 n)) by done; done.
Qed.

#[local] Arguments Z.testbit : simpl never.

(** The ids and capability sets after the drop, on a process that is root
    throughout. *)
Lemma drop_to_spec uid gid granted k k' : ruid (creds k) = 0 → euid (creds k) = 0 → suid (creds k) = 0 →
  drop_to uid gid (keep_of granted) k = (k', Ok tt) →
  let c := creds k' in
  ruid c = uid ∧ euid c = uid ∧ suid c = uid ∧ rgid c = gid ∧ egid c = gid ∧ sgid c = gid ∧ groups c = [] ∧
  (uid ≠ 0 → permitted c = keep_of granted ∧ inheritable c = keep_of granted ∧ ambient c = keep_of granted).
Proof.
  intros Hr He Hs E. unfold drop_to in E.
  apply s_bind_ok in E as (k1&[]&E1&E). apply s_bind_ok in E as (k2&[]&E2&E).
  apply s_bind_ok in E as (k3&[]&E3&E). apply s_bind_ok in E as (k4&[]&E4&E).
  apply s_bind_ok in E as (k5&[]&E5&E). apply raise_all_spec in E.
  apply keepcaps_ok in E1. apply setgroups_ok in E2 as [Hcap E2]. apply setgid_ok in E3.
  apply setuid_ok in E4 as [Hid E4]. apply capset_ok in E5. rewrite E1 in Hcap, E2. rewrite E2 in E3.
  unfold after_setgid in E3. cbn in Hcap, E3. rewrite Hcap in E3. rewrite E3 in Hid, E4.
  unfold after_setuid, uids_changed, some_root in E4. cbn in Hid, E4. rewrite Hr, Hs in Hid. rewrite He, Hr, Hs in E4. cbn in E4.
  assert (uid ≠ 0 → Z.testbit (effective (creds k)) CAP_SETUID = true) as Hsu by (intros ?; naive_solver).
  rewrite E, E5, E4. unfold after_capset. cbn.
  destruct (decide (uid = 0)) as [->|Hu].
  - destruct (Z.testbit (effective (creds k)) CAP_SETUID); cbn; split_and!; done.
  - rewrite (Hsu Hu). cbn. rewrite (proj2 (Z.eqb_neq uid 0) Hu). cbn. split_and!; try done. intros _.
    split_and!; try done. exact (raised granted).
Qed.

Context (getenv : string → string) (Lookup : string → result (string * string)) (Executable : result string).
Context (dataDir : string).

Notation drop := (dropRoot getenv Lookup Executable others dataDir).
Notation name := (user_name getenv).

(** A process whose effective id is root's is root throughout, and the
    program's file is an ordinary one. *)
Definition root_throughout (c : Creds) : Prop := euid c = 0 → ruid c = 0 ∧ suid c = 0.
Definition plain_self : Prop := ∀ exe, Executable = Ok exe → plain exe.

(** The account looked up. *)
Definition account (uid gid : Z) : Prop := ∃ us gs, Lookup name = Ok (us, gs) ∧ atoi us = Some uid ∧ atoi gs = Some gid.

Lemma become_spec k k' : euid (creds k) = 0 → root_throughout (creds k) → plain_self →
  become getenv Lookup Executable others name dataDir k = (k', Ok tt) →
  ∃ uid gid, account uid gid ∧
    let c := creds k' in
    ruid c = uid ∧ euid c = uid ∧ suid c = uid ∧ rgid c = gid ∧ egid c = gid ∧ sgid c = gid ∧ groups c = [] ∧
    (uid ≠ 0 → let keep := keep_of (permitted (creds k)) in
      permitted c = keep ∧ effective c = keep ∧ inheritable c = keep ∧ ambient c = keep).
Proof.
  intros He Hroot Hplain E. destruct (Hroot He) as [Hr Hs]. unfold become in E.
  apply s_bind_ok in E as (k0&[us gs]&E0&E). injection E0 as <- EL.
  destruct (Lookup name) as [[us' gs']|] eqn:EL'; [|done]. injection EL as -> ->. cbn [fst snd] in E.
  apply s_bind_ok in E as (k1&uid&E1&E). unfold id_of in E1. destruct (atoi us) as [u|] eqn:Eu; [|done]. injection E1 as <- ->.
  apply s_bind_ok in E as (k2&gid&E2&E). unfold id_of in E2. destruct (atoi gs) as [g|] eqn:Eg; [|done]. injection E2 as <- ->.
  apply s_bind_ok in E as (k3&[]&E3&E). pose proof (mkdirs_creds [dataDir; dir_of (ctrlSock getenv); dir_of (mgmtSock getenv)] uid gid k) as C.
  rewrite E3 in C. cbn in C. apply s_bind_ok in E as (k4&exe&E4&E). injection E4 as <- Eexe.
  apply s_bind_ok in E as (k5&granted&E5&E). apply capget_ok in E5 as [-> ->].
  apply s_bind_ok in E as (k6&[]&E6&E). rewrite C in E6.
  assert (keep_of (wrap_u32 (permitted (creds k))) = keep_of (permitted (creds k))) as Hk.
  { unfold keep_of, dropCaps. cbn [foldl]. unfold wrap_u32. by rewrite Zmod_mod. }
  rewrite Hk in E6. apply drop_to_spec in E6 as (Ru&Eu'&Su&Rg&Eg'&Sg&G&Hcaps); [|by rewrite C..].
  unfold exec_as in E. destruct (Exec exe k6) as [k7 [[]|e]] eqn:Ee; [|done]. injection E as <-.
  apply exec_ok in Ee as (X1&X2&X3&X4&X5&X6&X7&X8); [|by apply Hplain].
  exists uid, gid. split; [by exists us, gs|]. cbn. rewrite X1, X2, X3, X4, X5, X6, X7. split_and!; try done.
  intros Hu. destruct (Hcaps Hu) as (_&Hi&Ha). destruct X8 as (->&->&->&->); [congruence..|]. by split_and!.
Qed.

(** C13: a root invocation goes on as the account it is given or not at all. It
    either exits on an error or is replaced by an image that is the account
    throughout, in no group but the account's; and when that account is not of
    uid 0 (which one not named root still may be), with those of the two
    capabilities it was given and no other, and dropping no more. Asked to stay
    root, or without root, nothing happens. *)
Theorem dropRoot_drops k k' o (Hroot : root_throughout (creds k)) (Hplain : plain_self) (E : drop k = (k', o)) :
  (euid (creds k) ≠ 0 ∨ name = "root" → k' = k ∧ o = Returned) ∧
  (euid (creds k) = 0 → name ≠ "root" → o ≠ Returned ∧ (o = Replaced → ∃ uid gid, account uid gid ∧
    let c := creds k' in
    ruid c = uid ∧ euid c = uid ∧ suid c = uid ∧ rgid c = gid ∧ egid c = gid ∧ sgid c = gid ∧ groups c = [] ∧
    (uid ≠ 0 →
      effective c = permitted c ∧ ambient c = permitted c ∧ inheritable c = permitted c ∧
      (∀ cap, 0 ≤ cap → Z.testbit (permitted c) cap = Z.testbit (permitted (creds k)) cap && bool_decide (cap ∈ dropCaps)) ∧
      drop k' = (k', Returned)))).
Proof.
  unfold dropRoot in E. split.
  - intros Hno. destruct (negb _ || _) eqn:Eg; [by injection E as <- <-|].
    apply orb_false_iff in Eg as [E1 E2]. bprop. by destruct Hno.
  - intros He Hn. rewrite He in E. cbn [negb orb] in E. rewrite Z.eqb_refl, (proj2 (String.eqb_neq name "root")) in E by done.
    cbn [negb orb] in E. destruct (become _ _ _ _ _ _ k) as [k1 [[]|e]] eqn:Eb; injection E as <- <-; [|by split].
    split; [done|]. intros _. apply become_spec in Eb as (uid&gid&Hacc&Ru&Eu&Su&Rg&Eg&Sg&G&Hcaps); [|done..].
    exists uid, gid. split; [done|]. cbn. split_and!; try done. intros Hu. destruct (Hcaps Hu) as (Cp&Ce&Ci&Ca).
    rewrite Ce, Ca, Ci, Cp. split_and!; try done.
    + intros cap Hc. by apply keep_of_bits.
    + unfold dropRoot. by rewrite Eu, (proj2 (Z.eqb_neq uid 0) Hu).
Qed.

(** An account that is root under another name: the image is root again, and
    drops again, for ever. *)
Lemma root_by_another_name k k' : euid (creds k) = 0 → root_throughout (creds k) → plain_self → name ≠ "root" →
  (∀ uid gid, account uid gid → uid = 0) → drop k = (k', Replaced) →
  euid (creds k') = 0 ∧ root_throughout (creds k') ∧ (drop k').2 ≠ Returned.
Proof.
  intros He Hroot Hplain Hn Hz E. pose proof E as E'. unfold dropRoot in E.
  rewrite He, Z.eqb_refl, (proj2 (String.eqb_neq name "root")) in E by done. cbn [negb orb] in E.
  destruct (become _ _ _ _ _ _ k) as [k1 [[]|e]] eqn:Eb; injection E as <-; [|done].
  apply become_spec in Eb as (uid&gid&Hacc&Ru&Eu&Su&_); [|done..]. rewrite (Hz _ _ Hacc) in Ru, Eu, Su.
  split_and!; [done|by intros _|]. unfold dropRoot. rewrite Eu, Z.eqb_refl, (proj2 (String.eqb_neq name "root")) by done.
  cbn [negb orb]. by destruct (become _ _ _ _ _ _ k1) as [k2 [[]|e]].
Qed.

End Laws.

(** ** A kernel that keeps the promises *)

Record linux := mkLinux { l_creds : Creds; l_tree : gmap nat Node; l_named : gmap string nat; l_next : nat }.

Definition with_creds (c : Creds) (k : linux) : linux := mkLinux c (l_tree k) (l_named k) (l_next k).
Definition with_tree (m : gmap nat Node) (n : nat) (k : linux) : linux := mkLinux (l_creds k) m (l_named k) n.

Definition EPERM : goerr := ExternalErr "operation not permitted".

(** A call that succeeds if [b], leaving [c]. *)
Definition when (b : bool) (c : Creds) : Sys linux unit := λ k,
  if b then (with_creds c k, Ok tt) else (k, Err EPERM).
#[local] Arguments when : simpl never.
Definition has (c : Creds) (cap : Z) : bool := Z.testbit (effective c) cap.

Definition all_caps : Z := 2 ^ 41 - 1.
Definition image (c : Creds) : Creds :=
  let p := if (ruid c =? 0) || (euid c =? 0) then all_caps else ambient c in
  mkCreds (ruid c) (euid c) (euid c) (rgid c) (egid c) (egid c) (groups c) p
    (if (ruid c =? 0) || (euid c =? 0) then (if euid c =? 0 then p else ambient c) else p) (inheritable c) (ambient c) false.

Definition l_mkdirat (p : nat) (b : string) (m : Z) : Sys linux unit := λ k,
  match l_tree k !! p with
  | Some np =>
      if is_dir np then
        match entries np !! b, l_tree k !! l_next k with
        | Some _, _ => (k, Err exists_err)
        | None, Some _ => (k, Err (ExternalErr "no space left on device"))
        | None, None =>
            (with_tree (<[l_next k := mkNode true (euid (l_creds k)) (egid (l_creds k)) m ∅]>
                         (<[p := with_entries (<[b := l_next k]> (entries np)) np]> (l_tree k))) (S (l_next k)) k, Ok tt)
        end
      else (k, Err (ExternalErr "not a directory"))
  | None => (k, Err not_exist)
  end.

Definition l_openat (p : nat) (b : string) : Sys linux nat := λ k,
  (k, match l_tree k !! p with
      | Some np => match entries np !! b with Some fd => Ok fd | None => Err not_exist end
      | None => Err not_exist
      end).

Definition l_fchown (i : nat) (u g : Z) : Sys linux unit := λ k,
  match l_tree k !! i with
  | Some n => (with_tree (<[i := with_owner u g n]> (l_tree k)) (l_next k) k, Ok tt)
  | None => (k, Err not_exist)
  end.

#[export] Instance linux_kernel : Kernel linux := {
  creds := l_creds;
  node := λ k i, l_tree k !! i;
  Capget := λ k, (k, Ok (wrap_u32 (permitted (l_creds k))));
  PrctlKeepCaps := λ k, when true (set_keep true (l_creds k)) k;
  Setgroups := λ l k, when (has (l_creds k) CAP_SETGID) (set_groups l (l_creds k)) k;
  Setgid := λ g k, let c := l_creds k in
    when (has c CAP_SETGID || (g =? rgid c) || (g =? sgid c)) (after_setgid g c) k;
  Setuid := λ u k, let c := l_creds k in
    when (has c CAP_SETUID || (u =? ruid c) || (u =? suid c)) (after_setuid u c) k;
  Capset := λ e p i k, let c := l_creds k in
    when ((Z.land p (permitted c) =? p) && (Z.land e p =? e)) (after_capset e p i c) k;
  AmbientRaise := λ cap k, let c := l_creds k in
    when (Z.testbit (permitted c) cap && Z.testbit (inheritable c) cap) (after_raise cap c) k;
  Exec := λ _ k, when true (image (l_creds k)) k;
  MkdirAll := λ _ _ k, (k, Ok tt);
  OpenDir := λ d k, (k, match l_named k !! d with Some i => Ok i | None => Err not_exist end);
  Mkdirat := l_mkdirat; Openat := l_openat; Fchown := l_fchown }.

(** Another user: where inode 1 is not root's alone, its name "data" is made
    to stand for inode 2. *)
Definition meddle (k : linux) : linux :=
  match l_tree k !! 1%nat with
  | Some n => if decide (protected n) then k
              else match entries n !! "data" with
                   | Some _ => with_tree (<[1%nat := with_entries (<["data" := 2%nat]> (entries n)) n]> (l_tree k)) (l_next k) k
                   | None => k
                   end
  | None => k
  end.

Lemma when_inv b c k k' u : when b c k = (k', Ok u) → b = true ∧ l_creds k' = c.
Proof. unfold when. destruct b; [|done]. by intros [= <-]. Qed.

#[export] Instance linux_laws : KernelLaws linux (λ _, True) meddle.
Proof.
  split.
  - by intros k k' g [= <- <-].
  - cbn -[Z.testbit]. by intros k k' u [_ ?]%when_inv.
  - cbn -[Z.testbit]. by intros l k k' u [? ?]%when_inv.
  - cbn -[Z.testbit]. by intros g k k' u [_ ?]%when_inv.
  - cbn -[Z.testbit]. intros v k k' u [Hb ?]%when_inv. split; [|done]. rewrite !orb_true_iff, !Z.eqb_eq in Hb. destruct Hb as [[?|?]|?]; auto.
  - cbn -[Z.testbit]. by intros e p i k k' u [_ ?]%when_inv.
  - cbn -[Z.testbit]. by intros cap k k' u [_ ?]%when_inv.
  - cbn -[Z.testbit]. intros exe k k' u _ [_ ->]%when_inv. unfold image, image_of. cbn. split_and!; try done. intros Hr He.
    by rewrite (proj2 (Z.eqb_neq _ 0) Hr), (proj2 (Z.eqb_neq _ 0) He).
  - done.
  - done.
  - intros p b m k. cbn. unfold l_mkdirat. by repeat case_match.
  - done.
  - intros i u g k. cbn. unfold l_fchown. by case_match.
  - intros k. unfold meddle. by repeat case_match.
  - intros p b m k k' u. cbn. unfold l_mkdirat. destruct (l_tree k !! p) as [np|] eqn:Ep; [|done].
    destruct (is_dir np); [|done]. destruct (entries np !! b) eqn:Eb; [done|]. destruct (l_tree k !! l_next k) eqn:En; [done|].
    intros [= <- _]. exists np, (l_next k), (mkNode true (euid (l_creds k)) (egid (l_creds k)) m ∅). cbn. assert (l_next k ≠ p) as Hne by congruence.
    split_and!; [done|done|done|done|done|apply Z.land_diag|done| | |].
    + by rewrite lookup_insert_eq.
    + by rewrite lookup_insert_ne, lookup_insert_eq.
    + intros j Hi Hp. by rewrite !lookup_insert_ne.
  - intros p b m k k' e. cbn. unfold l_mkdirat. destruct (l_tree k !! p) as [np|] eqn:Ep; [|by intros [= <- <-]].
    destruct (is_dir np); [|by intros [= <- <-]]. destruct (entries np !! b) eqn:Eb; [|destruct (l_tree k !! l_next k)]; [|by intros [= <- <-]|done].
    intros [= <- <-]. split; [done|]. intros _. exists np. by rewrite Eb.
  - done.
  - intros p b k k' fd. cbn. unfold l_openat. destruct (l_tree k !! p) as [np|]; [|done].
    destruct (entries np !! b) eqn:Eb; [|done]. intros [= <- <-]. by exists np.
  - intros i u g k k' r. cbn. unfold l_fchown. destruct (l_tree k !! i) as [n|]; [|done]. intros [= <- _].
    exists n. cbn. split_and!; [done|by rewrite lookup_insert_eq|]. intros j Hj. by rewrite lookup_insert_ne.
  - intros i u g k k' e. cbn. unfold l_fchown. destruct (l_tree k !! i) as [n|]; [done|]. by intros [= <- _].
  - intros k i n. cbn. unfold meddle. intros Hn Hp. destruct (l_tree k !! 1%nat) as [n1|] eqn:E1; [|done].
    destruct (decide (protected n1)); [done|]. destruct (entries n1 !! "data"); [|done]. cbn.
    rewrite lookup_insert_ne; [done|]. intros <-. congruence.
Qed.

(** ** Concrete runs *)

Definition root_creds : Creds := mkCreds 0 0 0 0 0 0 [0; 4; 24] all_caps all_caps 0 0 false.

(** /var/lib with the given mode, holding a directory of root's; /run. *)
Definition machine (mode : Z) : linux := mkLinux root_creds
  {[1%nat := mkNode true 0 0 mode {["precious" := 2%nat]}; 2%nat := mkNode true 0 0 448 ∅; 3%nat := mkNode true 0 0 493 ∅]}
  {["/var/lib" := 1%nat; "/run" := 3%nat]} 10.

Definition service (name : string) : result (string * string) :=
  if String.eqb name "ovcp" then Ok ("999", "998")
  else if String.eqb name "toor" then Ok ("0", "0") else Err (ExternalErr "user: unknown user").

Lemma mkdirOwned_correct_witness :
  let k' := (mkdirOwned meddle "/var/lib/data" 999 998 (machine 493)).1 in
  made_for 999 998 1 (mkNode true 0 0 493 {["precious" := 2%nat]}) "data" (machine 493) k' ∧
  l_tree k' !! 10%nat = Some (mkNode true 999 998 448 ∅).
Proof.
  split; [|by vm_compute].
  apply (mkdirOwned_correct (λ _, True) meddle "/var/lib/data" 999 998 (machine 493) (machine 493) 1 _ _ (Ok tt)); try done.
Defined.

(** In a directory anyone may write, a rename between the calls hands another
    directory of root's to the account. *)
Example redirected :
  l_tree (mkdirOwned meddle "/var/lib/data" 999 998 (machine 511)).1 !! 2%nat = Some (mkNode true 999 998 448 ∅).
Proof. by vm_compute. Qed.

(** A directory left root's by an interrupted run stays root's. *)
Example left_behind : let k := (l_mkdirat 1 "data" 448 (machine 493)).1 in
  mkdirOwned meddle "/var/lib/data" 999 998 k = (k, Ok tt) ∧
  l_tree k !! 10%nat = Some (mkNode true 0 0 448 ∅).
Proof. by vm_compute. Qed.

Definition run_as (user : string) : linux * outcome :=
  dropRoot (λ v, if String.eqb v "OVCP_USER" then user else "") service (Ok "/usr/bin/ovcp") meddle "/var/lib/data" (machine 493).

Lemma dropRoot_drops_witness :
  (run_as "").2 = Replaced ∧ ruid (l_creds (run_as "").1) = 999 ∧ groups (l_creds (run_as "").1) = [] ∧
  permitted (l_creds (run_as "").1) = 5120 ∧ (run_as "root") = (machine 493, Returned).
Proof.
  pose proof (dropRoot_drops (λ _, True) meddle (λ _, "") service (Ok "/usr/bin/ovcp") "/var/lib/data"
    (machine 493) (run_as "").1 Replaced ltac:(done) ltac:(done) ltac:(vm_compute; reflexivity)) as [_ H].
  destruct (H eq_refl ltac:(discriminate)) as [_ H']. destruct (H' eq_refl) as (uid&gid&Ha&Hr&_&_&_&_&_&Hg&_).
  destruct Ha as (us&gs&E1&E2&E3). injection E1 as <- <-. vm_compute in E2. injection E2 as <-.
  split; [vm_compute; reflexivity|]. split; [exact Hr|]. split; [exact Hg|]. split; vm_compute; reflexivity.
Defined.

(** The account toor is root: every image replaces itself once more. *)
Example for_ever : let again := dropRoot (λ v, if String.eqb v "OVCP_USER" then "toor" else "") service (Ok "/usr/bin/ovcp")
    meddle "/var/lib/data" in
  (run_as "toor").2 = Replaced ∧ (again (run_as "toor").1).2 = Replaced ∧
  again (again (run_as "toor").1).1 = again (run_as "toor").1.
Proof. by vm_compute. Qed.
End identity.
