(* ===== verification/Flags.v ===== *)
(** * Flags: Go's [flag] package

    Flag sets of strings, booleans, integers and repeatable lines; [Parse] as
    the standard library defines it, which stops at the first word that is not
    a flag, and the base-0 integers of [strconv.ParseInt]. A command line
    written from settings reads back as those settings. *)

From Stdlib Require Import Ascii.
From S2P Require Import Prelude GoStr.

Module flags.

(** ** Data *)

(** [fs.String], [fs.Bool], [fs.Int], and [fs.Func] as [linesFlag] uses it. *)
Inductive kind := KString (def : string) | KBool (def : bool) | KInt (def : Z) | KLines.
Record flag := mkFlag { f_name : string; f_kind : kind }.
Inductive value := VString (s : string) | VBool (b : bool) | VInt (z : Z) | VLines (l : list string).
Definition FlagSet : Type := list flag.
Definition Values : Type := gmap string value.

Definition default_of (k : kind) : value :=
  match k with KString s => VString s | KBool b => VBool b | KInt z => VInt z | KLines => VLines [] end.
Definition defaults (fs : FlagSet) : Values := list_to_map ((λ f, (f_name f, default_of (f_kind f))) <$> fs).
Definition formal (fs : FlagSet) (name : string) : option kind :=
  (λ p, f_kind p.2) <$> list_find (λ f, f_name f = name) fs.

(** Reading a registered flag after parsing. *)
Definition str (name : string) (v : Values) : string := match v !! name with Some (VString s) => s | _ => "" end.
Definition flag_bool (name : string) (v : Values) : bool := match v !! name with Some (VBool b) => b | _ => false end.
Definition int (name : string) (v : Values) : Z := match v !! name with Some (VInt z) => z | _ => 0 end.
Definition lines (name : string) (v : Values) : list string := match v !! name with Some (VLines l) => l | _ => [] end.

(** ** Numbers *)

Inductive num := NSyntax | NRange | Num (z : Z).

Definition lower (c : ascii) : Z := Z.lor (byte_of c) 32.
Definition digit_val (c : ascii) : option Z :=
  if is_digit c then Some (byte_of c - 48)
  else if (97 <=? lower c) && (lower c <=? 122) then Some (lower c - 87) else None.

(** [strconv.ParseUint]'s loop, underscores let through. *)
Fixpoint uint_loop (base n : Z) (s : string) : num :=
  match s with
  | "" => Num n
  | String c r =>
      if Ascii.eqb c "_" then uint_loop base n r
      else match digit_val c with
           | None => NSyntax
           | Some d => if base <=? d then NSyntax
                       else if 2 ^ 64 <=? n * base + d then NRange else uint_loop base (n * base + d) r
           end
  end.

(** The base a prefix gives, and what is left of the numeral. *)
Definition base_prefix (s : string) : Z * string :=
  match s with
  | String "0" (String c (String _ _ as r)) =>
      if lower c =? 98 then (2, r) else if lower c =? 111 then (8, r) else if lower c =? 120 then (16, r)
      else (8, String c r)
  | String "0" r => (8, r)
  | _ => (10, s)
  end.

(** [underscoreOK]: what was seen last is a digit, an underscore, or neither. *)
Inductive seen := SDigit | SUnderscore | SOther.

Fixpoint underscore_loop (hex : bool) (last : seen) (s : string) : bool :=
  match s with
  | "" => match last with SUnderscore => false | _ => true end
  | String c r =>
      if is_digit c || (hex && ((97 <=? lower c) && (lower c <=? 102))) then underscore_loop hex SDigit r
      else if Ascii.eqb c "_" then match last with SDigit => underscore_loop hex SUnderscore r | _ => false end
      else match last with SUnderscore => false | _ => underscore_loop hex SOther r end
  end.

Definition underscore_ok (s : string) : bool :=
  match s with
  | String "0" (String c r) =>
      if (lower c =? 98) || (lower c =? 111) || (lower c =? 120) then underscore_loop (lower c =? 120) SDigit r
      else underscore_loop false SOther s
  | _ => underscore_loop false SOther s
  end.

(** [strconv.ParseUint(s, 0, 64)]. *)
Definition parse_uint0 (s : string) : num :=
  if String.eqb s "" then NSyntax
  else let '(base, r) := base_prefix s in
       match uint_loop base 0 r with
       | Num n => if no_char "_" s || underscore_ok s then Num n else NSyntax
       | e => e
       end.

(** [strconv.ParseInt(s, 0, strconv.IntSize)]. *)
Definition parse_int0 (s : string) : num :=
  let '(neg, r) := match s with
                   | String "+" r => (false, r)
                   | String "-" r => (true, r)
                   | _ => (false, s)
                   end in
  match parse_uint0 r with
  | Num n => if neg then (if n <=? 2 ^ 63 then Num (- n) else NRange)
             else (if n <? 2 ^ 63 then Num n else NRange)
  | e => e
  end.

(** [strconv.ParseBool]. *)
Definition parse_bool (s : string) : option bool :=
  if bool_decide (s ∈ ["1"; "t"; "T"; "true"; "TRUE"; "True"]) then Some true
  else if bool_decide (s ∈ ["0"; "f"; "F"; "false"; "FALSE"; "False"]) then Some false else None.

(** ** Parsing a command line *)

(** What a word is: an operand, ["--"], [-=...] and the like, or a flag with
    the value after its [=]. *)
Inductive token := TWord | TEnd | TBad | TFlag (name : string) (val : option string).

Definition named (name : string) : token :=
  match name with
  | "" | String "-" _ | String "=" _ => TBad
  | _ => let '(n, v, found) := cut "=" name in TFlag n (if found : bool then Some v else None)
  end.

Definition classify (s : string) : token :=
  match s with
  | String "-" "" => TWord
  | String "-" (String "-" "") => TEnd
  | String "-" (String "-" r) => named r
  | String "-" r => named r
  | _ => TWord
  end.

(** [Value.Set]. *)
Definition set_value (name : string) (k : kind) (v : string) (vals : Values) : result Values :=
  let invalid why := Errorf "invalid value %q for flag -%s: %s" [v; name; why] in
  match k with
  | KString _ => Ok (<[name := VString v]> vals)
  | KBool _ => match parse_bool v with
               | Some b => Ok (<[name := VBool b]> vals)
               | None => Err (Errorf "invalid boolean value %q for -%s: parse error" [v; name])
               end
  | KInt _ => match parse_int0 v with
              | Num z => Ok (<[name := VInt z]> vals)
              | NSyntax => Err (invalid "parse error")
              | NRange => Err (invalid "value out of range")
              end
  | KLines => Ok (<[name := VLines (lines name vals ++ [v])]> vals)
  end.

Inductive parsed := Parsed (vals : Values) (rest : list string) | HelpWanted | Rejected (e : goerr).

(** [fs.Parse]: [HelpWanted] is [ErrHelp]. *)
Fixpoint parse (fs : FlagSet) (vals : Values) (args : list string) : parsed :=
  match args with
  | [] => Parsed vals []
  | s :: rest =>
      match classify s with
      | TWord => Parsed vals args
      | TEnd => Parsed vals rest
      | TBad => Rejected (Errorf "bad flag syntax: %s" [s])
      | TFlag name val =>
          match formal fs name with
          | None => if String.eqb name "help" || String.eqb name "h" then HelpWanted
                    else Rejected (Errorf "flag provided but not defined: -%s" [name])
          | Some k =>
              let go v rest := match set_value name k v vals with
                               | Ok vals => parse fs vals rest
                               | Err e => Rejected e
                               end in
              match k, val, rest with
              | KBool _, _, _ => go (default "true" val) rest
              | _, Some v, _ => go v rest
              | _, None, v :: rest' => go v rest'
              | _, None, [] => Rejected (Errorf "flag needs an argument: -%s" [name])
              end
          end
      end
  end.

Definition Parse (fs : FlagSet) (args : list string) : parsed := parse fs (defaults fs) args.

(** ** What a command line says *)

(** A setting as it is typed: its dashes, and whether the value follows in a
    word of its own. *)
Record setting := mkSetting { s_name : string; s_value : string; s_double : bool; s_apart : bool }.

Definition good_name (n : string) : bool :=
  match n with "" => false | String c _ => negb (Ascii.eqb c "-") && no_char "=" n end.

Definition spell (x : setting) : list string :=
  let w := (if s_double x then "--" else "-") +:+ s_name x in
  if s_apart x then [w; s_value x] else [w +:+ "=" +:+ s_value x].

(** A setting of a declared flag; a boolean's value is never a word of its
    own. *)
Definition spellable (fs : FlagSet) (x : setting) : bool :=
  good_name (s_name x) &&
  match formal fs (s_name x) with
  | None => false
  | Some (KBool _) => negb (s_apart x)
  | Some _ => true
  end.

(** The values the settings give, the first error ending it. *)
Fixpoint settle (fs : FlagSet) (l : list setting) (vals : Values) : result Values :=
  match l with
  | [] => Ok vals
  | x :: l => match formal fs (s_name x) with
              | Some k => vals ← set_value (s_name x) k (s_value x) vals; settle fs l vals
              | None => Ok vals
              end
  end.

(** Operands: what parsing leaves alone. *)
Definition operands (args : list string) : bool :=
  match args with [] => true | s :: _ => match classify s with TWord => true | _ => false end end.

Lemma named_plain n : good_name n = true → named n = TFlag n None.
Proof.
  destruct n as [|c n]; [done|]. intros [Hc Hn]%andb_true_iff. unfold named.
  rewrite (cut_not_found "=" (String c n)) by done.
  destruct (Ascii.eqb_spec c "-") as [->|H1]; [done|]. destruct (Ascii.eqb_spec c "=") as [->|H2]; [done|].
  destruct c as [[] [] [] [] [] [] [] []]; done.
Qed.

Lemma named_assign n v : good_name n = true → named (n +:+ "=" +:+ v) = TFlag n (Some v).
Proof.
  destruct n as [|c n]; [done|]. intros [Hc Hn]%andb_true_iff. unfold named.
  assert (E : cut "=" (String c n +:+ "=" +:+ v) = (String c n, v, true)) by by apply cut_found.
  rewrite E. destruct (Ascii.eqb_spec c "-") as [->|H1]; [done|]. destruct (Ascii.eqb_spec c "=") as [->|H2]; [done|].
  destruct c as [[] [] [] [] [] [] [] []]; done.
Qed.

Lemma classify_dashes (b : bool) n : good_name n = true ∨ (∃ m v, n = m +:+ "=" +:+ v ∧ good_name m = true) →
  classify ((if b then "--" else "-") +:+ n) = named n.
Proof.
  intros Hn. assert (∃ c r, n = String c r ∧ c ≠ "-"%char) as (c&r&->&Hc).
  { destruct Hn as [Hn|(m&v&->&Hn)]; [destruct n as [|c r]|destruct m as [|c r]]; try done;
      apply andb_true_iff in Hn as [Hc _]; (eexists c, _; split; [done|]); by intros ->. }
  destruct b; [done|]. simpl. destruct c as [[] [] [] [] [] [] [] []]; done.
Qed.

(** One setting spelled out is read as it was meant. *)
Lemma parse_spell fs x vals k rest : spellable fs x = true → formal fs (s_name x) = Some k →
  parse fs vals (spell x ++ rest) =
    match set_value (s_name x) k (s_value x) vals with Ok vals => parse fs vals rest | Err e => Rejected e end.
Proof.
  destruct x as [n v dbl apart]. unfold spellable, spell. cbn [s_name s_value s_double s_apart].
  intros [Hn Hk]%andb_true_iff Hf. rewrite Hf in Hk.
  destruct apart; cbn [app parse].
  - rewrite (classify_dashes dbl n), named_plain by auto. rewrite Hf. by destruct k.
  - rewrite <-s_app_assoc, (classify_dashes dbl), named_assign by eauto. rewrite Hf. by destruct k.
Qed.

Lemma parse_settings fs l vals vals' rest : forallb (spellable fs) l = true → settle fs l vals = Ok vals' →
  parse fs vals ((l ≫= spell) ++ rest) = parse fs vals' rest.
Proof.
  revert vals. induction l as [|x l IH]; intros vals Hl E; cbn in *; [by injection E as ->|].
  apply andb_true_iff in Hl as [Hx Hl]. pose proof Hx as Hx'. apply andb_true_iff in Hx' as [_ Hk].
  destruct (formal fs (s_name x)) as [k|] eqn:Hf; [|done].
  rewrite <-app_assoc, (parse_spell _ _ _ k) by done.
  destruct (set_value (s_name x) k (s_value x) vals) as [vals1|e]; [by apply IH|done].
Qed.

Lemma parse_operands fs vals rest : operands rest = true → parse fs vals rest = Parsed vals rest.
Proof. destruct rest as [|s rest]; [done|]. simpl. by destruct (classify s). Qed.

(** The first setting that does not read ends it. *)
Lemma parse_rejected fs l vals e rest : forallb (spellable fs) l = true → settle fs l vals = Err e →
  parse fs vals ((l ≫= spell) ++ rest) = Rejected e.
Proof.
  revert vals. induction l as [|x l IH]; intros vals Hl E; cbn in *; [done|].
  apply andb_true_iff in Hl as [Hx Hl]. pose proof Hx as Hx'. apply andb_true_iff in Hx' as [_ Hk].
  destruct (formal fs (s_name x)) as [k|] eqn:Hf; [|done].
  rewrite <-app_assoc, (parse_spell _ _ _ k) by done.
  destruct (set_value (s_name x) k (s_value x) vals) as [vals1|e1]; [by apply IH|by injection E as ->].
Qed.

Lemma settle_app fs l l' vals : forallb (spellable fs) l = true →
  settle fs (l ++ l') vals = match settle fs l vals with Ok v => settle fs l' v | Err e => Err e end.
Proof.
  revert vals. induction l as [|x l IH]; intros vals Hl; cbn in *; [done|].
  apply andb_true_iff in Hl as [[_ Hk]%andb_true_iff Hl].
  destruct (formal fs (s_name x)) as [k|]; [|done]. destruct (set_value (s_name x) k (s_value x) vals); [by apply IH|done].
Qed.

(** Texts and repeatable lines: the last text given, every line in order. *)
Definition said (n : string) (l : list setting) : list string := s_value <$> List.filter (λ x, String.eqb (s_name x) n) l.

Lemma said_snoc n l x : said n (l ++ [x]) = said n l ++ (if String.eqb (s_name x) n then [s_value x] else []).
Proof. unfold said. rewrite List.filter_app, fmap_app. cbn. by destruct (String.eqb (s_name x) n). Qed.

Lemma formal_other fs x n k v vals vals' : formal fs (s_name x) = Some k → s_name x ≠ n →
  set_value (s_name x) k v vals = Ok vals' → vals' !! n = vals !! n.
Proof.
  intros _ Hne. unfold set_value, Values in *. destruct k; repeat case_match; intros [= <-]; by rewrite lookup_insert_ne.
Qed.

Lemma settle_str fs l vals vals' n d : forallb (spellable fs) l = true → settle fs l vals = Ok vals' →
  formal fs n = Some (KString d) → str n vals = d →
  str n vals' = default d (last (said n l)).
Proof.
  intros Hl E Hf Hd. revert vals' E. induction l as [|x l IH] using rev_ind; intros vals' E; [by injection E as <-|].
  rewrite forallb_app in Hl. apply andb_true_iff in Hl as [Hl Hx]. rewrite settle_app in E by done.
  destruct (settle fs l vals) as [v1|] eqn:E1; [|done]. specialize (IH Hl v1 eq_refl). rewrite said_snoc.
  cbn in E. destruct (formal fs (s_name x)) as [k|] eqn:Hfx.
  2:{ cbn in Hx. unfold spellable in Hx. rewrite Hfx, andb_false_r in Hx. done. }
  destruct (set_value (s_name x) k (s_value x) v1) as [v2|] eqn:Ev; [|done]. injection E as <-.
  destruct (String.eqb_spec (s_name x) n) as [<-|Hne].
  - rewrite last_snoc. rewrite Hf in Hfx. injection Hfx as <-. injection Ev as <-. unfold str, Values in *. by rewrite lookup_insert_eq.
  - rewrite app_nil_r, <- IH. unfold str. by rewrite (formal_other fs x n k (s_value x) v1 v2).
Qed.

Lemma lines_insert n ls (vals : gmap string value) : lines n (<[n := VLines ls]> vals) = ls.
Proof. unfold lines, Values. by rewrite lookup_insert_eq. Qed.

Lemma settle_lines fs l vals vals' n : forallb (spellable fs) l = true → settle fs l vals = Ok vals' →
  formal fs n = Some KLines → lines n vals' = lines n vals ++ said n l.
Proof.
  intros Hl E Hf. revert vals' E. induction l as [|x l IH] using rev_ind; intros vals' E; [injection E as <-; by rewrite app_nil_r|].
  rewrite forallb_app in Hl. apply andb_true_iff in Hl as [Hl Hx]. rewrite settle_app in E by done.
  destruct (settle fs l vals) as [v1|] eqn:E1; [|done]. specialize (IH Hl v1 eq_refl). rewrite said_snoc.
  cbn in E. destruct (formal fs (s_name x)) as [k|] eqn:Hfx.
  2:{ cbn in Hx. unfold spellable in Hx. rewrite Hfx, andb_false_r in Hx. done. }
  destruct (set_value (s_name x) k (s_value x) v1) as [v2|] eqn:Ev; [|done]. injection E as <-.
  destruct (String.eqb_spec (s_name x) n) as [<-|Hne].
  - rewrite Hf in Hfx. injection Hfx as <-. injection Ev as <-. by rewrite lines_insert, IH, <- app_assoc.
  - rewrite app_nil_r, <- IH. unfold lines. by rewrite (formal_other fs x n k (s_value x) v1 v2).
Qed.

(** The default a flag set starts from. *)
Lemma formal_default fs n k : formal fs n = Some k → defaults fs !! n = Some (default_of k).
Proof.
  unfold formal, defaults, Values. intros E. destruct (list_find _ fs) as [[i f]|] eqn:El; [|done]. injection E as <-.
  revert i El. induction fs as [|g fs IH]; intros i El; [done|]. cbn in El |- *.
  destruct (decide (f_name g = n)) as [Hg|Hg].
  - injection El as _ <-. by rewrite Hg, lookup_insert_eq.
  - rewrite lookup_insert_ne by done. destruct (list_find _ fs) as [[j h]|] eqn:Ej; [|done]. injection El as _ <-. by eapply IH.
Qed.

(** However the settings of declared flags are spelled, in any order, parsing
    reads every one of them and leaves the operands alone; a value that does not
    read is refused whatever follows. *)
Lemma Parse_spelled fs (l : list setting) rest (Hl : forallb (spellable fs) l = true) (Hrest : operands rest = true) :
  match Parse fs ((l ≫= spell) ++ rest) with
  | Parsed vals rest' => settle fs l (defaults fs) = Ok vals ∧ rest' = rest ∧
      (∀ n d, formal fs n = Some (KString d) → str n vals = default d (last (said n l))) ∧
      (∀ n, formal fs n = Some KLines → lines n vals = said n l)
  | HelpWanted => False
  | Rejected e => settle fs l (defaults fs) = Err e
  end.
Proof.
  unfold Parse. destruct (settle fs l (defaults fs)) as [vals|e] eqn:E; [|by rewrite (parse_rejected _ _ _ e)].
  rewrite (parse_settings _ _ _ vals), parse_operands by done. split_and!; [done|done| |].
  - intros n d Hf. eapply settle_str; [exact Hl|exact E|exact Hf|]. unfold str. by rewrite (formal_default _ _ _ Hf).
  - intros n Hf. rewrite (settle_lines fs l (defaults fs) vals n Hl E Hf). unfold lines at 1. by rewrite (formal_default _ _ _ Hf).
Qed.

End flags.
