(* ===== verification/CliText.v ===== *)
(** * CliText: what the command line prints (cmd/ovcp/commands.go, stats.go)

    Colours, aligned tables, sorting and filtering of lists, and the human
    units of the traffic views. Ties of an unstable sort may come in any
    order, so sorting is the interface of package slices. *)

From Stdlib Require Import Ascii Floats.SpecFloat.
From stdpp Require Import sorting.
From S2P Require Import Prelude GoStr GoErr GoFs GoTime NetIP Names Upstream UpstreamApply Store StoreUsers StoreStats Totp.
From S2P Require Import Auth Mgmt Control OvpnConf Pki LogRotate World CertApi UserApi ConfigApi UpstreamApi Records Sampler Backup Telegram ServerApi.

Module clitext.
Import store.

(** ** Colours *)

Definition ESC : ascii := "027".
Definition ansi (code s : string) : string := String ESC ("[" +:+ code +:+ "m" +:+ s +:+ String ESC "[0m").
Definition ansiCyan : string := "36".
Definition ansiGreen : string := "32".
Definition ansiYellow : string := "33".
Definition ansiRed : string := "31".

(** The rest of an SGR sequence after [ESC [], once its [m] is reached. *)
Fixpoint sgr_tail (s : string) : option string :=
  match s with
  | "" => None
  | String c r => if Ascii.eqb c "m" then Some r
                  else if is_digit c || Ascii.eqb c ";" then sgr_tail r else None
  end.

(** [ansiSGR.ReplaceAllString(s, ..)] with the empty string. *)
Fixpoint strip_sgr (fuel : nat) (s : string) : string :=
  match fuel, s with
  | S fuel, String c r =>
      match (if Ascii.eqb c ESC then t ← cut_prefix "[" r; sgr_tail t else None) with
      | Some t => strip_sgr fuel t
      | None => String c (strip_sgr fuel r)
      end
  | _, _ => ""
  end.

Definition rune_count (s : string) : nat := length (runes s).
Definition visibleWidth (s : string) : nat := rune_count (strip_sgr (slen s) s).

Definition boolText (b : bool) : string := if b then "on" else "off".

Definition parseBoolArg (s : string) : result bool :=
  let l := to_lower s in
  if bool_decide (l ∈ ["on"; "true"; "1"]) then Ok true
  else if bool_decide (l ∈ ["off"; "false"; "0"]) then Ok false
  else Err (Errorf "want on|off (or true|false, 1|0), got %q" [s]).

Definition upStatus (up : bool) : string := if up then "up" else "down".

(** ** Formats *)

Fixpoint spaces (n : nat) : string := match n with O => "" | S n => String " " (spaces n) end.

(** [%-Ns] and [%Nd]. *)
Definition pad_right (n : nat) (s : string) : string := s +:+ spaces (n - rune_count s).
Definition pad_left (n : nat) (s : string) : string := spaces (n - rune_count s) +:+ s.

(** The quotient rounded to the nearest integer, ties to even. *)
Definition div_even (a b : Z) : Z :=
  let q := a / b in
  let r := a mod b in
  if (2 * r <? b) || ((2 * r =? b) && Z.even q) then q else q + 1.

(** [%.1f] of a fraction that is not negative. *)
Definition tenths (num den : Z) : string :=
  let t := div_even (10 * num) den in itoa (t / 10) +:+ "." +:+ itoa (t mod 10).

(** [%.1f] of a finite binary64. *)
Definition fixed1 (x : spec_float) : string :=
  match x with
  | S754_finite neg m e =>
      (if neg then "-" else "") +:+ (if 0 <=? e then tenths (Zpos m * 2 ^ e) 1 else tenths (Zpos m) (2 ^ (- e)))
  | S754_zero neg => (if neg then "-" else "") +:+ "0.0"
  | S754_infinity neg => if neg then "-Inf" else "+Inf"
  | S754_nan => "NaN"
  end.

(** [int(x)] of a finite binary64 within range. *)
Definition int_of_float (x : spec_float) : Z :=
  match x with
  | S754_finite neg m e =>
      let v := if 0 <=? e then Zpos m * 2 ^ e else Zpos m / 2 ^ (- e) in if neg then - v else v
  | _ => 0
  end.

(** [d.Minutes()] and [d.Hours()], like [Seconds]: the whole units plus the
    rest divided. *)
Definition in_units (unit_ d : Z) : spec_float :=
  SFadd 53 1024 (stats.float64_of_Z (Z.quot d unit_))
    (SFdiv 53 1024 (stats.float64_of_Z (Z.rem d unit_)) (stats.float64_of_Z unit_)).

Definition fmtDur (d : Z) : string :=
  if d <? minute then itoa (int_of_float (in_units second d)) +:+ "s"
  else if d <? hour then itoa (int_of_float (in_units minute d)) +:+ "m"
  else fixed1 (in_units hour d) +:+ "h".

(** [float64(n)] of a uint64: 53 significant bits. *)
Definition float_u64 (n : Z) : Z :=
  if n <? 2 ^ 53 then n else let k := Z.log2 n - 52 in div_even n (2 ^ k) * 2 ^ k.

(** [fmtBytes]: the value is [num / 1024 ^ i], which binary64 holds exactly. *)
Fixpoint byte_units (num den : Z) (us : list string) : string :=
  match us with
  | [] => ""
  | [u] => tenths num den +:+ " " +:+ u
  | u :: us => if 1024 * den <=? num then byte_units num (1024 * den) us else tenths num den +:+ " " +:+ u
  end.
Definition fmtBytes (n : Z) : string :=
  if n <? 1024 then itoa n +:+ " B" else byte_units (float_u64 n) 1024 ["KiB"; "MiB"; "GiB"; "TiB"].
Definition fmtRate (bytesPerSec : Z) : string := fmtBytes bytesPerSec +:+ "/s".

Example fmt_ex : fmtBytes 1023 = "1023 B" ∧ fmtBytes 1536 = "1.5 KiB" ∧ fmtBytes (2 ^ 64 - 1) = "16777216.0 TiB" ∧
  fmtBytes 1280 = "1.2 KiB" ∧ fmtRate (5 * 1024 * 1024) = "5.0 MiB/s" ∧
  fmtDur (59 * second + 999999999) = "59s" ∧ fmtDur (90 * second) = "1m" ∧ fmtDur (5400 * second) = "1.5h".
Proof. by vm_compute. Qed.

(** [time.Duration.Round(time.Second)], halves away from zero, saturating. *)
Definition round_second (d : Z) : Z :=
  let r := Z.abs (Z.rem d second) in
  if 2 * r <? second then d - Z.rem d second
  else let up := Z.sgn d * (Z.abs d - r + second) in
       if max_int64 <? up then max_int64 else if up <? min_int64 then min_int64 else up.

Fixpoint frac_tail (digits : nat) (v : Z) (acc : string) : string :=
  match digits with
  | O => acc
  | S k => let dgt := v mod 10 in
           frac_tail k (v / 10) (if (dgt =? 0) && String.eqb acc "" then "" else itoa dgt +:+ acc)
  end.

(** [Duration.String] of a duration that is zero or at least a second. *)
Definition duration_string (d : Z) : string :=
  if d =? 0 then "0s" else
  let u := Z.abs d in
  let frac := frac_tail 9 (u mod second) "" in
  let s := u / second in
  (if d <? 0 then "-" else "") +:+
  (if 3600 <=? s then itoa (s / 3600) +:+ "h" else "") +:+
  (if 60 <=? s then itoa (s / 60 mod 60) +:+ "m" else "") +:+
  itoa (s mod 60) +:+ (if String.eqb frac "" then "" else "." +:+ frac) +:+ "s".

Definition fmtUptime (now t : Z) : string :=
  if t =? zero_time then "" else duration_string (round_second (time_sub now t)).

Example uptime_ex : fmtUptime (10921 * second + 400000000) 0 = "3h2m1s" ∧ fmtUptime 0 zero_time = "" ∧
  fmtUptime 499999999 0 = "0s" ∧ fmtUptime max_int64 (-5) = "2562047h47m16.854775807s".
Proof. by vm_compute. Qed.

(** ** Sorting and filtering *)

(** [slices.SortFunc] and [sort.Slice]: what is promised of a strict weak
    order; equal elements may end up in any order. *)
Record WeakOrder {A} (lt : A → A → bool) : Prop := {
  wo_asym : ∀ a b, lt a b = true → lt b a = false;
  wo_trans : ∀ a b c, lt b a = false → lt c b = false → lt c a = false }.

Class Sorting := {
  sort_by : ∀ {A}, (A → A → bool) → list A → list A;
  sort_by_perm : ∀ A (lt : A → A → bool) l, sort_by lt l ≡ₚ l;
  sort_by_sorted : ∀ A (lt : A → A → bool) l, WeakOrder lt → StronglySorted (λ a b, lt b a = false) (sort_by lt l) }.

Definition s_ltb (a b : string) : bool := negb (s_leb b a).

Section Rows.
  Context `{Sorting} (now : Z) (offset : Z → Z).

Definition sort_key {A} (get : A → string) (desc : bool) (a b : A) : bool :=
  if desc then s_ltb (get b) (get a) else s_ltb (get a) (get b).

Definition sortByFlag {A} (getters : list (string * (A → string))) (key : string) (desc : bool) (rows : list A) :
    result (list A) :=
  if String.eqb key "" then Ok rows
  else match list_find (λ g, g.1 = key) getters with
       | Some (_, (_, get)) => Ok (sort_by (sort_key get desc) rows)
       | None => Err (Errorf "-sort must be one of: %s" [join "|" (merge_sort s_le getters.*1)])
       end.

Definition certSortGetters : list (string * (Cert → string)) :=
  [("cn", store.CN); ("kind", Kind); ("expiry", λ c, rfc3339 offset (NotAfter c)); ("serial", Serial);
   ("status", Status now)].
Definition userSortGetters : list (string * (users.User → string)) :=
  [("username", users.Username); ("role", users.Role); ("created", λ u, rfc3339 offset (users.CreatedAt u));
   ("status", λ u, boolText (negb (users.Disabled u)));
   ("2fa", λ u, boolText (negb (String.eqb (users.TOTPSecret u) "")))].
Definition auditSortGetters : list (string * (AuditEntry → string)) :=
  [("ts", λ e, rfc3339 offset (store.TS e)); ("actor", Actor); ("action", Action)].

Definition cert_kept (status kind : string) (c : Cert) : bool :=
  negb (String.eqb status "active" && serverapi.bool_of (RevokedAt c)) &&
  negb (String.eqb status "revoked" && negb (serverapi.bool_of (RevokedAt c))) &&
  negb (negb (String.eqb kind "all") && negb (String.eqb (Kind c) kind)).

Definition filterSortCerts (certs : list Cert) (status kind sortBy : string) (desc : bool) : result (list Cert) :=
  sortByFlag certSortGetters sortBy desc (List.filter (cert_kept status kind) certs).

Definition user_kept (status role : string) (u : users.User) : bool :=
  negb (String.eqb status "enabled" && users.Disabled u) &&
  negb (String.eqb status "disabled" && negb (users.Disabled u)) &&
  negb (negb (String.eqb role "all") && negb (String.eqb (users.Role u) role)).

Definition activeCertByCN (certs : list Cert) (cn : string) : option Cert :=
  List.find (λ c, String.eqb (store.CN c) cn && negb (serverapi.bool_of (RevokedAt c)) && String.eqb (Kind c) "client") certs.

End Rows.

(** [prevC] of the live view: a client's last reading. *)
Notation Prev := (gmap string (Z * Z * Z)).

(** ** Tables *)

Section Colours.
  Context (color : bool).

Definition paint (code s : string) : string := if color then ansi code s else s.
Definition red : string → string := paint ansiRed.
Definition green : string → string := paint ansiGreen.
Definition yellow : string → string := paint ansiYellow.

Definition coloredStatus (status : string) : string :=
  if String.eqb status "revoked" then red "REVOKED"
  else if bool_decide (status ∈ ["expired"; "down"; "disabled"]) then red status
  else if String.eqb status "expiring" then yellow status
  else if bool_decide (status ∈ ["valid"; "up"; "enabled"]) then green status
  else status.

(** The widths a row asks for; a row with more cells than there are headers
    is an index out of range. *)
Definition widen (widths : list nat) (row : list string) : list nat :=
  zip_with Nat.max widths (visibleWidth <$> row ++ replicate (length widths) "").

Definition widths (headers : list string) (rows : list (list string)) : list nat :=
  foldl widen (replicate (length headers) O) (headers :: rows).

Fixpoint table_line (ws : list nat) (row : list string) : string :=
  match row, ws with
  | [cell], _ => cell
  | cell :: row, w :: ws => cell +:+ spaces (w - visibleWidth cell + 1) +:+ table_line ws row
  | _, _ => ""
  end.

Definition printTable (headers : list string) (rows : list (list string)) : list string :=
  table_line (widths headers rows) <$> headers :: rows.

(** ** Live traffic: one frame of [stats -follow] *)

Record frow := mkFrow { fr_cn : string; fr_rx : Z; fr_tx : Z; fr_recv : Z; fr_sent : Z }.

(** The loop over the connected clients: what is remembered, the rows, the
    summed deltas and the last interval seen. *)
Record frame := mkFrame { fm_prev : Prev; fm_rows : list frow; fm_recv : Z; fm_sent : Z; fm_dt : Z }.

Definition frame_step (now : Z) (f : frame) (c : mgmt.VPNClient) : frame :=
  let cn := mgmt.CN c in
  let prev := <[cn := (now, mgmt.BytesRecv c, mgmt.BytesSent c)]> (fm_prev f) in
  match fm_prev f !! cn with
  | Some (ts, recv, sent) =>
      let dt := time_sub now ts in
      mkFrame prev
        (fm_rows f ++ [mkFrow cn (stats.Rate recv (mgmt.BytesRecv c) dt) (stats.Rate sent (mgmt.BytesSent c) dt)
                              (mgmt.BytesRecv c) (mgmt.BytesSent c)])
        (wrap_u64 (fm_recv f + stats.ClampedDelta recv (mgmt.BytesRecv c)))
        (wrap_u64 (fm_sent f + stats.ClampedDelta sent (mgmt.BytesSent c))) dt
  | None => mkFrame prev (fm_rows f ++ [mkFrow cn 0 0 (mgmt.BytesRecv c) (mgmt.BytesSent c)]) (fm_recv f) (fm_sent f) (fm_dt f)
  end.

(** Last tick's clients that are still connected. *)
Definition still_here (clients : list mgmt.VPNClient) (prev : Prev) : Prev :=
  filter (λ p, p.1 ∈ mgmt.CN <$> clients) prev.

Definition busier (a b : frow) : bool := wrap_u64 (fr_rx b + fr_tx b) <? wrap_u64 (fr_rx a + fr_tx a).

Definition frow_line (cn rx tx recv sent : string) : string :=
  pad_right 20 cn +:+ " " +:+ pad_right 11 rx +:+ " " +:+ pad_right 11 tx +:+ " " +:+ pad_right 12 recv +:+ " " +:+ pad_right 12 sent.

Definition frame_lines `{Sorting} (clients : list mgmt.VPNClient) (f : frame) : list string :=
  let head := green "vpn up" +:+ " · " +:+ itoa (Z.of_nat (length clients)) +:+ " client(s)   rx " +:+
    fmtRate (stats.Rate 0 (fm_recv f) (fm_dt f)) +:+ "   tx " +:+ fmtRate (stats.Rate 0 (fm_sent f) (fm_dt f)) in
  if (length clients =? 0)%nat then [head] else
  let rows := sort_by busier (fm_rows f) in
  let more := (length rows - 20)%nat in
  head :: frow_line "CN" "RECV/s" "SENT/s" "TOTAL RECV" "TOTAL SENT" ::
  ((λ r, frow_line (fr_cn r) (fmtRate (fr_rx r)) (fmtRate (fr_tx r)) (fmtBytes (fr_recv r)) (fmtBytes (fr_sent r))) <$> take 20 rows) ++
  (if (0 <? more)%nat then ["… " +:+ itoa (Z.of_nat more) +:+ " more"] else []).

Definition followLines `{Sorting} (offset : Z → Z) (clients : result (list mgmt.VPNClient)) (cn : string) (now : Z) (prev : Prev) :
    list string * Prev :=
  match clients with
  | Err e => ([red ("VPN unreachable — " +:+ Error e)], prev)
  | Ok clients =>
      let prev := still_here clients prev in
      if String.eqb cn "" then
        let f := foldl (frame_step now) (mkFrame prev [] 0 0 0) clients in (frame_lines clients f, fm_prev f)
      else match list_find (λ c, mgmt.CN c = cn) (reverse clients) with
           | None => ([yellow (cn +:+ ": not connected")], prev)
           | Some (_, c) =>
               let '(rx, tx) := match prev !! cn with
                 | Some (ts, recv, sent) => let dt := time_sub now ts in
                     (stats.Rate recv (mgmt.BytesRecv c) dt, stats.Rate sent (mgmt.BytesSent c) dt)
                 | None => (0, 0)
                 end in
               ([green cn +:+ " · connected since " +:+
                   clock_string ":" ((unix (mgmt.ConnectedSince c) + offset (mgmt.ConnectedSince c)) mod day_seconds);
                 "rx " +:+ fmtRate rx +:+ "   tx " +:+ fmtRate tx +:+ "   total recv " +:+ fmtBytes (mgmt.BytesRecv c) +:+
                   "   total sent " +:+ fmtBytes (mgmt.BytesSent c)],
                <[cn := (now, mgmt.BytesRecv c, mgmt.BytesSent c)]> prev)
           end
  end.

(** [redraw]: what one frame writes over a frame of [printed] lines. *)
Definition CUU (n : nat) : string := String ESC ("[" +:+ itoa (Z.of_nat n) +:+ "A").
Definition CLR : string := String ESC "[K".
Definition redraw (lines : list string) (printed : nat) (tty : bool) : string * nat :=
  let extra := (printed - length lines)%nat in
  ((if tty && (0 <? printed)%nat then CUU printed else "") +:+
   concat_s ((λ l, l +:+ (if tty then CLR else "") +:+ nl) <$> lines) +:+
   (if tty && (0 <? extra)%nat then concat_s (replicate extra (CLR +:+ nl)) +:+ CUU extra else ""), length lines).

(** [followStats]: what the view writes for the answers it gets, one a tick. *)
Fixpoint followStats `{Sorting} (offset : Z → Z) (cn : string) (tty : bool) (polls : list (result (list mgmt.VPNClient) * Z))
    (prev : Prev) (printed : nat) : string :=
  match polls with
  | [] => ""
  | (clients, now) :: polls =>
      let '(lines, prev) := followLines offset clients cn now prev in
      let '(out, printed) := redraw lines printed tty in
      out +:+ followStats offset cn tty polls prev printed
  end.

End Colours.

(** ** What sorting and filtering give *)

(** Sorted by a text, one way or the other. *)
Definition by_key {A} (get : A → string) (desc : bool) (a b : A) : Prop :=
  if desc then s_le (get b) (get a) else s_le (get a) (get b).

Section RowsCorrect.
  Context `{Sorting} (now : Z) (offset : Z → Z).

Lemma sort_key_weak {A} (get : A → string) desc : WeakOrder (sort_key get desc).
Proof.
  unfold sort_key, s_ltb. split; destruct desc; intros *; rewrite ?negb_true_iff, ?negb_false_iff.
  1-2: apply s_leb_total. all: intros; by eapply s_leb_trans.
Qed.

Lemma sort_key_sorted {A} (get : A → string) desc l : StronglySorted (by_key get desc) (sort_by (sort_key get desc) l).
Proof.
  pose proof (sort_by_sorted A _ l (sort_key_weak get desc)) as Hs.
  induction Hs as [|x l' _ IH Hx]; constructor; [done|]. eapply Forall_impl; [exact Hx|].
  intros y Hy. unfold by_key, s_le, sort_key, s_ltb in *. destruct desc; by apply negb_false_iff in Hy.
Qed.

Lemma sortByFlag_correct {A} (getters : list (string * (A → string))) key desc rows :
  match sortByFlag getters key desc rows with
  | Ok l => l ≡ₚ rows ∧ (if String.eqb key "" then l = rows
                         else ∃ get, (key, get) ∈ getters ∧ StronglySorted (by_key get desc) l)
  | Err _ => key ≠ "" ∧ key ∉ getters.*1
  end.
Proof.
  unfold sortByFlag. destruct (String.eqb_spec key "") as [->|Hk]; [done|].
  destruct (list_find (λ g, g.1 = key) getters) as [[i [k get]]|] eqn:E.
  - apply list_find_Some in E as (Hl&Hk'&_). cbn in Hk'. subst k. split; [apply sort_by_perm|].
    exists get. split; [by eapply list_elem_of_lookup_2|apply sort_key_sorted].
  - split; [done|]. apply list_find_None in E. rewrite Forall_forall in E. rewrite list_elem_of_fmap. intros ([k get]&->&Hin).
    by apply (E _ Hin).
Qed.

Lemma cert_kept_spec status kind c : cert_kept status kind c = true ↔
  (status = "active" → RevokedAt c = None) ∧ (status = "revoked" → is_Some (RevokedAt c)) ∧ (kind ≠ "all" → Kind c = kind).
Proof.
  unfold cert_kept. rewrite !andb_true_iff, !negb_true_iff, !andb_false_iff, !negb_false_iff, !String.eqb_neq, !String.eqb_eq.
  destruct (RevokedAt c); cbn; destruct (decide (status = "active")), (decide (status = "revoked")), (decide (kind = "all")); naive_solver.
Qed.

(** Listing certificates, on the command line, shows exactly the asked-for
    ones, each as often as the store has it: with -status active those not
    revoked, with -status revoked those revoked, any other status all of them;
    with -kind other than all those of that kind. Without -sort they keep the
    store's order; with it they are in the order of that column's text, downwards
    with -desc; a column there is not is an error, and the only one. *)
Theorem filterSortCerts_correct certs status kind key desc :
  let wanted c := (status = "active" → RevokedAt c = None) ∧ (status = "revoked" → is_Some (RevokedAt c)) ∧
                  (kind ≠ "all" → Kind c = kind) in
  match filterSortCerts now offset certs status kind key desc with
  | Ok l =>
      (∀ c, c ∈ l ↔ c ∈ certs ∧ wanted c) ∧ (∃ others, l ++ others ≡ₚ certs ∧ ∀ c, c ∈ others → ¬ wanted c) ∧
      (if String.eqb key "" then l `sublist_of` certs
       else ∃ get, (key, get) ∈ certSortGetters now offset ∧ StronglySorted (by_key get desc) l)
  | Err _ => key ∉ "" :: (certSortGetters now offset).*1
  end.
Proof.
  intros wanted. unfold filterSortCerts.
  pose proof (sortByFlag_correct (certSortGetters now offset) key desc (List.filter (cert_kept status kind) certs)) as Hs.
  destruct (sortByFlag _ _ _ _) as [l|e]; [|by rewrite not_elem_of_cons]. destruct Hs as [Hp Hs].
  assert (∀ c, c ∈ List.filter (cert_kept status kind) certs ↔ c ∈ certs ∧ wanted c) as Hf.
  { intros c. rewrite list_elem_of_In, List.filter_In, <- list_elem_of_In, cert_kept_spec. done. }
  split_and!.
  - intros c. by rewrite Hp.
  - exists (List.filter (λ c, negb (cert_kept status kind c)) certs). split.
    + rewrite Hp. clear. induction certs as [|c certs IH]; [done|]. cbn. destruct (cert_kept status kind c); cbn; [by rewrite IH|].
      by rewrite <- Permutation_middle, IH.
    + intros c Hin Hw. apply list_elem_of_In, List.filter_In in Hin as [_ Hin]. apply negb_true_iff in Hin.
      apply cert_kept_spec in Hw. congruence.
  - destruct (String.eqb key ""); [|done]. subst l. clear. induction certs as [|c certs IH]; [done|]. cbn.
    destruct (cert_kept status kind c); [by apply sublist_skip|by apply sublist_cons].
Qed.

End RowsCorrect.

(** ** What a frame of the live view shows *)

Section Follow.
  Context `{Sorting} (color : bool) (offset : Z → Z).

Definition seen_last (prev : Prev) (c : mgmt.VPNClient) : bool := bool_decide (is_Some (prev !! mgmt.CN c)).

(** A client's row: the rates since its last reading, none without one. *)
Definition row_of (now : Z) (prev : Prev) (c : mgmt.VPNClient) : frow :=
  match prev !! mgmt.CN c with
  | Some (ts, recv, sent) =>
      mkFrow (mgmt.CN c) (stats.Rate recv (mgmt.BytesRecv c) (time_sub now ts)) (stats.Rate sent (mgmt.BytesSent c) (time_sub now ts))
             (mgmt.BytesRecv c) (mgmt.BytesSent c)
  | None => mkFrow (mgmt.CN c) 0 0 (mgmt.BytesRecv c) (mgmt.BytesSent c)
  end.
Definition delta_of (prev : Prev) (get : mgmt.VPNClient → Z) (old : Z * Z * Z → Z) (c : mgmt.VPNClient) : Z :=
  match prev !! mgmt.CN c with Some v => stats.ClampedDelta (old v) (get c) | None => 0 end.
Fixpoint sum_of (f : mgmt.VPNClient → Z) (l : list mgmt.VPNClient) : Z :=
  match l with [] => 0 | c :: l => f c + sum_of f l end.
Definition reading_of (now : Z) (c : mgmt.VPNClient) : Z * Z * Z := (now, mgmt.BytesRecv c, mgmt.BytesSent c).

Lemma frame_step_fields now f c : frame_step now f c = mkFrame (<[mgmt.CN c := reading_of now c]> (fm_prev f))
  (fm_rows f ++ [row_of now (fm_prev f) c])
  (if seen_last (fm_prev f) c then wrap_u64 (fm_recv f + delta_of (fm_prev f) mgmt.BytesRecv (λ v, v.1.2) c) else fm_recv f)
  (if seen_last (fm_prev f) c then wrap_u64 (fm_sent f + delta_of (fm_prev f) mgmt.BytesSent (λ v, v.2) c) else fm_sent f)
  (match fm_prev f !! mgmt.CN c with Some v => time_sub now v.1.1 | None => fm_dt f end).
Proof. unfold frame_step, row_of, delta_of, seen_last. by destruct (fm_prev f !! mgmt.CN c) as [[[ts r] s]|]. Qed.

(** A client's row depends on its own last reading alone. *)
Lemma row_of_other now (prev : Prev) c v l : mgmt.CN c ∉ mgmt.CN <$> l →
  (row_of now (<[mgmt.CN c := v]> prev) <$> l) = (row_of now prev <$> l) ∧
  (∀ get old, sum_of (delta_of (<[mgmt.CN c := v]> prev) get old) l = sum_of (delta_of prev get old) l) ∧
  existsb (seen_last (<[mgmt.CN c := v]> prev)) l = existsb (seen_last prev) l.
Proof.
  intros Hc. assert (Hl : ∀ d, d ∈ l → <[mgmt.CN c := v]> prev !! mgmt.CN d = prev !! mgmt.CN d).
  { intros d Hd. apply (lookup_insert_ne (M := gmap string)). intros E. apply Hc. rewrite E. by apply list_elem_of_fmap_2. }
  clear Hc. induction l as [|d l IH]; [done|]. cbn.
  destruct IH as (-> & IHs & ->); [intros e He; apply Hl; by right|]. pose proof (Hl d ltac:(left)) as E.
  split_and!.
  - f_equal. unfold row_of. by rewrite E.
  - intros get old. cbn [sum_of]. rewrite IHs. f_equal. unfold delta_of. by rewrite E.
  - f_equal. unfold seen_last. by rewrite E.
Qed.

Lemma frame_fold now l f : NoDup (mgmt.CN <$> l) → fm_recv f = wrap_u64 (fm_recv f) → fm_sent f = wrap_u64 (fm_sent f) →
  let f' := foldl (frame_step now) f l in
  fm_rows f' = fm_rows f ++ (row_of now (fm_prev f) <$> l) ∧
  fm_recv f' = wrap_u64 (fm_recv f + sum_of (delta_of (fm_prev f) mgmt.BytesRecv (λ v, v.1.2)) l) ∧
  fm_sent f' = wrap_u64 (fm_sent f + sum_of (delta_of (fm_prev f) mgmt.BytesSent (λ v, v.2)) l) ∧
  (∀ k, fm_prev f' !! k = match List.find (λ c, String.eqb (mgmt.CN c) k) l with Some c => Some (reading_of now c) | None => fm_prev f !! k end) ∧
  (∀ t0, (∀ c v, c ∈ l → fm_prev f !! mgmt.CN c = Some v → v.1.1 = t0) →
     fm_dt f' = if existsb (seen_last (fm_prev f)) l then time_sub now t0 else fm_dt f).
Proof.
  revert f. induction l as [|c l IH]; intros f Hn Hr Hs; cbn [foldl].
  { cbn. rewrite app_nil_r, !Z.add_0_r. by split_and!. }
  apply NoDup_cons in Hn as [Hc Hn]. cbn in Hc. rewrite (frame_step_fields now f c).
  set (f1 := mkFrame _ _ _ _ _).
  destruct (row_of_other now (fm_prev f) c (reading_of now c) l Hc) as (Hrow&Hsum&Hseen).
  destruct (IH f1 Hn) as (R&V&S&P&D).
  { cbn. destruct (seen_last _ _); [|done]. unfold wrap_u64. by rewrite Zmod_mod. }
  { cbn. destruct (seen_last _ _); [|done]. unfold wrap_u64. by rewrite Zmod_mod. }
  cbn [f1 fm_prev fm_rows fm_recv fm_sent fm_dt] in R, V, S, P, D. rewrite Hsum in V, S. rewrite Hrow in R. rewrite Hseen in D.
  assert (Hd : ∀ get old, seen_last (fm_prev f) c = false → delta_of (fm_prev f) get old c = 0).
  { unfold seen_last, delta_of. intros get old Hx. apply bool_decide_eq_false in Hx. destruct (fm_prev f !! mgmt.CN c); [|done]. by destruct Hx. }
  cbn zeta. split_and!.
  - rewrite R. by rewrite <- app_assoc.
  - rewrite V. cbn [sum_of].
    destruct (seen_last (fm_prev f) c) eqn:E; [|by rewrite Hd].
    unfold wrap_u64. rewrite Zplus_mod_idemp_l. f_equal. lia.
  - rewrite S. cbn [sum_of].
    destruct (seen_last (fm_prev f) c) eqn:E; [|by rewrite Hd].
    unfold wrap_u64. rewrite Zplus_mod_idemp_l. f_equal. lia.
  - intros k. rewrite P. cbn [List.find]. destruct (String.eqb_spec (mgmt.CN c) k) as [<-|Hk].
    + destruct (List.find _ l) as [d|] eqn:E; [|by rewrite lookup_insert_eq].
      apply find_some in E as [Hin Hd']. apply String.eqb_eq in Hd'. destruct Hc. rewrite <- Hd'. apply list_elem_of_fmap_2.
      by apply list_elem_of_In.
    + destruct (List.find _ l); [done|]. by rewrite lookup_insert_ne.
  - intros t0 Ht. rewrite (D t0).
    + cbn [existsb]. unfold seen_last at 2. destruct (fm_prev f !! mgmt.CN c) as [v|] eqn:E.
      * rewrite bool_decide_true by by eexists. cbn [orb]. assert (v.1.1 = t0) as -> by (apply (Ht c v); [left|exact E]). by case_match.
      * rewrite bool_decide_false by by intros []. done.
    + intros d v Hin Hv. rewrite lookup_insert_ne in Hv; [by apply (Ht d v); [right|]|].
      intros E. destruct Hc. rewrite E. by apply list_elem_of_fmap_2.
Qed.

Lemma busier_weak : WeakOrder busier.
Proof. unfold busier. split; intros *; rewrite ?Z.ltb_lt, ?Z.ltb_ge; lia. Qed.

(** The rows shown, and those there was no room for. *)
Definition shown (rows : list frow) : list frow := take 20 (sort_by busier rows).
Definition hidden (rows : list frow) : list frow := drop 20 (sort_by busier rows).

Lemma shown_busiest rows : shown rows ++ hidden rows ≡ₚ rows ∧ length (shown rows) = Nat.min 20 (length rows) ∧
  ∀ a b, a ∈ shown rows → b ∈ hidden rows → busier b a = false.
Proof.
  unfold shown, hidden. split_and!.
  - rewrite take_drop. apply sort_by_perm.
  - by rewrite length_take, sort_by_perm.
  - pose proof (sort_by_sorted _ busier rows busier_weak) as Hs. rewrite <- (take_drop 20 (sort_by busier rows)) in Hs.
    intros a b Ha Hb. by apply (StronglySorted_app_1_elem_of _ _ _ _ _ Hs).
Qed.

(** A frame of the live view, for clients with distinct names: it remembers
    the readings of exactly the clients connected now; every client has one row,
    its rates taken over the time since its own last reading, none for one that
    was not there; the global rates are the sum of the clients' own increases
    (each clamped at a counter that went back) over the time since the last
    frame; and at most twenty rows are shown, none less busy than one left out,
    the number of which is given. *)
Theorem followLines_frame clients now prev (Hn : NoDup (mgmt.CN <$> clients)) :
  let kept := still_here clients prev in
  let rows := row_of now prev <$> clients in
  let recv := wrap_u64 (sum_of (delta_of prev mgmt.BytesRecv (λ v, v.1.2)) clients) in
  let sent := wrap_u64 (sum_of (delta_of prev mgmt.BytesSent (λ v, v.2)) clients) in
  ∃ dt, let '(ls, prev') := followLines color offset (Ok clients) "" now prev in
  (∀ cn v, prev' !! cn = Some v ↔ ∃ c, c ∈ clients ∧ mgmt.CN c = cn ∧ v = reading_of now c) ∧
  (∀ t0, (∀ c v, c ∈ clients → prev !! mgmt.CN c = Some v → v.1.1 = t0) →
     dt = if existsb (seen_last prev) clients then time_sub now t0 else 0) ∧
  ls = (green color "vpn up" +:+ " · " +:+ itoa (Z.of_nat (length clients)) +:+ " client(s)   rx " +:+
          fmtRate (stats.Rate 0 recv dt) +:+ "   tx " +:+ fmtRate (stats.Rate 0 sent dt)) ::
       (if (length clients =? 0)%nat then [] else
          frow_line "CN" "RECV/s" "SENT/s" "TOTAL RECV" "TOTAL SENT" ::
          ((λ r, frow_line (fr_cn r) (fmtRate (fr_rx r)) (fmtRate (fr_tx r)) (fmtBytes (fr_recv r)) (fmtBytes (fr_sent r))) <$> shown rows) ++
          (if (20 <? length clients)%nat then ["… " +:+ itoa (Z.of_nat (length clients) - 20) +:+ " more"] else [])) ∧
  shown rows ++ hidden rows ≡ₚ rows ∧ length (shown rows) = Nat.min 20 (length clients) ∧
  (∀ a b, a ∈ shown rows → b ∈ hidden rows → busier b a = false).
Proof.
  intros kept rows recv sent.
  assert (Hkept : ∀ c, c ∈ clients → kept !! mgmt.CN c = prev !! mgmt.CN c).
  { intros c Hc. unfold kept, still_here. apply option_eq. intros v. rewrite map_lookup_filter_Some. cbn.
    split; [by intros [? _]|]. intros Hv. split; [done|]. by apply list_elem_of_fmap_2. }
  destruct (frame_fold now clients (mkFrame kept [] 0 0 0) Hn eq_refl eq_refl) as (R&V&S&P&D).
  cbn [fm_prev fm_rows fm_recv fm_sent fm_dt] in R, V, S, P, D. rewrite Z.add_0_l in V, S. cbn [app] in R.
  assert (row_of now kept <$> clients = rows) as Er.
  { apply list_fmap_ext. intros i c Hc%list_elem_of_lookup_2. unfold row_of. by rewrite Hkept. }
  assert (∀ get old, sum_of (delta_of kept get old) clients = sum_of (delta_of prev get old) clients) as Es.
  { intros get old. clearbody kept. clear -Hkept. induction clients as [|c l IH]; [done|]. cbn [sum_of].
    rewrite IH by (intros; apply Hkept; by right). unfold delta_of at 1 3. by rewrite Hkept by left. }
  assert (existsb (seen_last kept) clients = existsb (seen_last prev) clients) as Ex.
  { clearbody kept. clear -Hkept. induction clients as [|c l IH]; [done|]. cbn [existsb].
    rewrite IH by (intros; apply Hkept; by right). unfold seen_last at 1 3. by rewrite Hkept by left. }
  set (f := foldl (frame_step now) (mkFrame kept [] 0 0 0) clients) in *. rewrite Er in R. rewrite Es in V, S.
  exists (fm_dt f). cbn [followLines]. fold kept. cbn [String.eqb]. fold f.
  destruct (shown_busiest rows) as (Hp&Hl&Hb). assert (Hlen : length rows = length clients) by apply length_fmap. rewrite Hlen in Hl.
  split_and!; [| | |done|done|done].
  - intros cn v. rewrite P. split.
    + destruct (List.find _ clients) as [c|] eqn:E.
      * intros [= <-]. apply find_some in E as [Hin Hc%String.eqb_eq]. exists c. by rewrite list_elem_of_In.
      * intros Hv. exfalso. unfold kept, still_here in Hv. apply map_lookup_filter_Some in Hv as [_ Hin]. cbn in Hin.
        apply list_elem_of_fmap in Hin as (c&->&Hin). apply list_elem_of_In in Hin. pose proof (find_none _ _ E _ Hin) as Hx. cbn in Hx.
        by rewrite String.eqb_refl in Hx.
    + intros (c&Hc&<-&->). destruct (List.find _ clients) as [d|] eqn:E.
      * apply find_some in E as [Hin Hd%String.eqb_eq]. apply list_elem_of_In in Hin.
        apply list_elem_of_lookup in Hin as [i Hi], Hc as [j Hj].
        assert (i = j) as -> by (eapply NoDup_lookup; [exact Hn|by rewrite list_lookup_fmap, Hi|by rewrite list_lookup_fmap, Hj; cbn; rewrite Hd]).
        congruence.
      * apply list_elem_of_In in Hc. pose proof (find_none _ _ E _ Hc) as Hx. cbn in Hx. by rewrite String.eqb_refl in Hx.
  - intros t0 Ht. rewrite (D t0); [by rewrite Ex|]. intros c v Hc. rewrite Hkept by done. by apply Ht.
  - unfold frame_lines. rewrite V, S, R. fold recv sent. destruct (length clients =? 0)%nat eqn:E0; [done|].
    f_equal. f_equal. unfold shown. f_equal.
    assert (length (sort_by busier rows) = length clients) as -> by by rewrite sort_by_perm.
    destruct (Nat.ltb_spec 20 (length clients)), (Nat.ltb_spec 0 (length clients - 20)); try lia; [|done].
    repeat f_equal. lia.
Qed.

End Follow.

(** ** Sorting, concretely *)

Module demo_sorting.
Definition not_after {A} (lt : A → A → bool) (a b : A) : Prop := lt b a = false.
#[export] Instance not_after_dec {A} (lt : A → A → bool) : RelDecision (not_after lt) := λ a b, decide (lt b a = false).
Definition merge_by {A} (lt : A → A → bool) (l : list A) : list A := merge_sort (not_after lt) l.

Lemma merge_by_sorted A (lt : A → A → bool) l : WeakOrder lt → StronglySorted (λ a b, lt b a = false) (merge_by lt l).
Proof.
  intros [Ha Ht]. apply Sorted_StronglySorted; [intros a b c Hab Hbc; by apply (Ht a b c)|].
  assert (Total (not_after lt)).
  { intros a b. unfold not_after. destruct (lt b a) eqn:E; [right; by apply Ha|by left]. }
  apply (Sorted_merge_sort (not_after lt)).
Qed.

#[export] Instance merge_sorting : Sorting :=
  {| sort_by A := @merge_by A; sort_by_perm A lt l := merge_sort_Permutation _ l; sort_by_sorted := merge_by_sorted |}.
End demo_sorting.
Import demo_sorting.

(** Bob has just connected; carol has left. *)
Example followLines_frame_witness :
  let now := 1700000000 * second in
  let prev := {[ "alice" := (now - 2 * second, 1000, 0); "carol" := (now - 2 * second, 7, 7) ]} in
  let prev' := (followLines false (λ _, 0) (Ok [mgmt.alice; mgmt.bob]) "" now prev).2 in
  prev' !! "bob" = Some (reading_of now mgmt.bob) ∧ prev' !! "carol" = None.
Proof.
  intros now prev prev'.
  destruct (followLines_frame false (λ _, 0) [mgmt.alice; mgmt.bob] now prev ltac:(apply (bool_decide_unpack _); reflexivity)) as (dt&Hf).
  unfold prev'. destruct (followLines false (λ _, 0) (Ok [mgmt.alice; mgmt.bob]) "" now prev) as [ls p]. destruct Hf as (Hp&_). cbn [snd]. split.
  - apply Hp. exists mgmt.bob. split; [right; left|]. split; reflexivity.
  - apply eq_None_not_Some. intros [v (c&Hc&Hn&_)%Hp].
    apply elem_of_cons in Hc as [->|[->|[]%not_elem_of_nil]%elem_of_cons]; discriminate Hn.
Defined.

End clitext.
