(* ===== verification/Terminal.v ===== *)
(** * Terminal: what reaches the terminal (cmd/ovcp/main.go, commands.go)

    The log's wire format and its colours, the editor a value is edited in,
    and the QR code of a second factor. *)

From Stdlib Require Import Ascii.
From S2P Require Import Prelude GoStr GoErr GoFs GoEnc CliText.

Module terminal.
Import clitext.

(** ** The log *)

(** [bytes.Index], as what is before and after the first occurrence. *)
Fixpoint cut_str (sub s : string) : option (string * string) :=
  match cut_prefix sub s with
  | Some rest => Some ("", rest)
  | None => match s with
            | "" => None
            | String c r => match cut_str sub r with Some (a, b) => Some (String c a, b) | None => None end
            end
  end.

Definition logLevelColor : list (string * string) := [
  ("level=DEBUG", ansi ansiCyan "level=DEBUG"); ("level=INFO", ansi ansiGreen "level=INFO");
  ("level=WARN", ansi ansiYellow "level=WARN"); ("level=ERROR", ansi ansiRed "level=ERROR")].

(** [colorStderr.Write], the map visited in the given order: what stderr gets. *)
Fixpoint recolor (order : list (string * string)) (p : string) : string :=
  match order with
  | [] => p
  | (tag, colored) :: order =>
      match cut_str tag p with
      | Some (before, rest) => before +:+ colored +:+ rest
      | None => recolor order p
      end
  end.

(** With the count answered, whatever came of writing the colours. *)
Definition Write (order : list (string * string)) (write : string → option goerr) (p : string) : nat * option goerr :=
  (slen p, write (recolor order p)).

Record Switches := mkSwitches { noColor : bool; jsonOut : bool }.

Definition colorOK (sw : Switches) (is_terminal : bool) : bool := negb (noColor sw) && is_terminal.

Inductive log_writer := Stderr | ColorStderr.
Definition logWriter (sw : Switches) (is_terminal : bool) : log_writer :=
  if jsonOut sw || negb (colorOK sw is_terminal) then Stderr else ColorStderr.

Inductive handler := JSONHandler (w : log_writer) | TextHandler (w : log_writer).
Definition newLogHandler (sw : Switches) (w : log_writer) : handler :=
  if jsonOut sw then JSONHandler w else TextHandler w.

(** Escapes reach neither a pipe nor the JSON format. *)
Lemma plain_elsewhere sw tty : newLogHandler sw (logWriter sw tty) = TextHandler ColorStderr ↔
  tty = true ∧ noColor sw = false ∧ jsonOut sw = false.
Proof. unfold newLogHandler, logWriter, colorOK. destruct sw as [[] []], tty; cbn; naive_solver. Qed.

Lemma cut_str_Some sub s a b : cut_str sub s = Some (a, b) → s = a +:+ sub +:+ b.
Proof.
  revert a b. induction s as [|c s IH]; intros a b; cbn [cut_str]; destruct (cut_prefix sub _) as [r|] eqn:Ec.
  - intros [= <- <-]. by apply cut_prefix_Some in Ec.
  - done.
  - intros [= <- <-]. by apply cut_prefix_Some in Ec.
  - destruct (cut_str sub s) as [[a' b']|]; [|done]. intros [= <- <-]. by rewrite (IH a' b').
Qed.

(** Nothing but escapes is added, around one word. *)
Lemma recolor_text order p : (∀ x, x ∈ order → x ∈ logLevelColor) →
  recolor order p = p ∨ ∃ before tag code rest, p = before +:+ tag +:+ rest ∧ recolor order p = before +:+ ansi code tag +:+ rest.
Proof.
  induction order as [|[tag col] order IH]; intros Ho; cbn [recolor]; [by left|].
  destruct (cut_str tag p) as [[a b]|] eqn:Ec; [right|apply IH; intros x Hx; apply Ho; by right].
  apply cut_str_Some in Ec. specialize (Ho (tag, col) ltac:(by left)). unfold logLevelColor in Ho.
  rewrite !elem_of_cons, elem_of_nil in Ho.
  destruct Ho as [[= -> ->]|[[= -> ->]|[[= -> ->]|[[= -> ->]|[]]]]];
    [exists a, "level=DEBUG", ansiCyan, b|exists a, "level=INFO", ansiGreen, b|exists a, "level=WARN", ansiYellow, b|
     exists a, "level=ERROR", ansiRed, b]; by subst p.
Qed.

Lemma recolor_none order p : (∀ t c, (t, c) ∈ order → cut_str t p = None) → recolor order p = p.
Proof.
  induction order as [|[t c] order IH]; intros Hno; [done|]. cbn [recolor]. rewrite (Hno t c) by by left.
  apply IH. intros t' c' Hx. apply (Hno t' c'). by right.
Qed.

Lemma recolor_one order p tag col : NoDup order.*1 → (tag, col) ∈ order →
  (∀ t c, (t, c) ∈ order → t ≠ tag → cut_str t p = None) →
  recolor order p = match cut_str tag p with Some (a, b) => a +:+ col +:+ b | None => p end.
Proof.
  induction order as [|[t c] order IH]; intros Hn Hin Hno; [by apply elem_of_nil in Hin|]. cbn [recolor].
  cbn in Hn. apply NoDup_cons in Hn as [Ht Hn].
  assert (∀ c', (t, c') ∉ order) as Ht' by (intros c' Hx; apply Ht, list_elem_of_fmap; by exists (t, c')).
  destruct (decide (t = tag)) as [->|Hne].
  - assert (c = col) as -> by (apply elem_of_cons in Hin as [[= ->]|Hin]; [done|by destruct (Ht' col)]).
    destruct (cut_str tag p) as [[a b]|]; [done|]. apply recolor_none. intros t' c' Hx.
    apply (Hno t' c'); [by right|]. intros ->. by destruct (Ht' c').
  - rewrite (Hno t c) by (done || by left). apply IH; [done| |].
    + apply elem_of_cons in Hin as [[= -> _]|Hin]; done.
    + intros t' c' Hx. apply (Hno t' c'). by right.
Qed.

(** A record that has one of the words is coloured alike in every order of the
    map; one whose message has another is not. *)
Lemma recolor_order p tag col o1 o2 : Permutation o1 o2 → NoDup o1.*1 → (tag, col) ∈ o1 →
  (∀ t c, (t, c) ∈ o1 → t ≠ tag → cut_str t p = None) → recolor o1 p = recolor o2 p.
Proof.
  intros Hp Hn Hin Hno. rewrite (recolor_one o1 p tag col), (recolor_one o2 p tag col); try done.
  - by rewrite <-Hp.
  - by rewrite <-Hp.
  - intros t c Hx. apply (Hno t c). by rewrite Hp.
Qed.

Example wrong_word :
  let p := "level=INFO msg=" +:+ quote "saw level=ERROR" in
  recolor logLevelColor p ≠ recolor (rev logLevelColor) p.
Proof. by vm_compute. Qed.

(** ** [editText] *)

Section Edit.
  Context (tmp : string) (editor : string → string → option goerr * string).

(** The editor runs on the temporary file: what it answers, and what it
    leaves there. *)
Definition run_editor : F unit := λ s,
  match files s !! tmp with
  | Some cur => let '(e, new) := editor tmp cur in
                (mkFs (<[tmp := new]> (files s)) (io s),
                 match e with Some e => Err (Wrapf "editor: %w" [] e) | None => Ok tt end)
  | None => (s, Err not_exist)
  end.

Definition removing {A} (m : F A) : F A := λ s, let '(s, r) := m s in ((f_ignore (Remove tmp) s).1, r).

Definition f_try {A} (m : F A) : F (option goerr) := λ s, let '(s, r) := m s in (s, Ok (match r with Ok _ => None | Err e => Some e end)).

(** Both errors of writing and closing are reported. *)
Definition write_close (initial : string) : F unit :=
  e1 ← f_try (WriteFile tmp initial);
  e2 ← f_try Sync;
  match errors_join (omap id [e1; e2]) with Some e => f_fail e | None => mret tt end.

Definition editText (initial : string) : F string :=
  CreateExcl tmp ;;
  removing (
    write_close initial ;;
    run_editor ;;
    ReadFile tmp).

(** What was saved is returned, no file but the temporary one is touched, and
    that one is gone. *)
Lemma editText_ok initial (s : Fs) : sound s → files s !! tmp = None →
  ∃ s', sound s' ∧ files s' = files s ∧
    editText initial s = (s', match (editor tmp initial).1 with
                              | None => Ok (editor tmp initial).2
                              | Some e => Err (Wrapf "editor: %w" [] e) end).
Proof.
  intros Hs Hn. unfold editText. unfold mbind at 1, F_bind at 1.
  destruct (CreateExcl_sound tmp s Hs Hn) as [-> Hs1]. set (s1 := after s _) in *.
  assert (Hf1 : files s1 = <[tmp := ""]> (files s)) by done. clearbody s1.
  destruct (WriteFile_sound tmp initial s1 Hs1) as [E2 Hs2]. set (s2 := after s1 _) in *.
  assert (Hf2 : files s2 = <[tmp := initial]> (files s)) by (unfold s2; cbn; by rewrite Hf1, insert_insert_eq). clearbody s2.
  destruct (Sync_sound s2 Hs2) as [E3 Hs3]. set (s3 := after s2 _) in *. assert (Hf3 : files s3 = files s2) by done. clearbody s3.
  assert (write_close initial s1 = (s3, Ok tt)) as Ew.
  { unfold write_close, f_try, mbind, F_bind. by rewrite E2, E3. }
  assert (∀ s4 : Fs, sound s4 → files s4 = <[tmp := (editor tmp initial).2]> (files s) →
    ∃ s', sound s' ∧ files s' = files s ∧ (f_ignore (Remove tmp) s4).1 = s') as Hrem.
  { intros s4 Hs4 Hf4. destruct (Remove_sound tmp s4 Hs4) as (s5&r5&E5&Hs5&Hf5). exists s5. unfold f_ignore. rewrite E5.
    split_and!; [done| |done]. rewrite Hf5, Hf4. by apply delete_insert_id. }
  unfold removing, mbind, F_bind. rewrite Ew. unfold run_editor. rewrite Hf3, Hf2, lookup_insert_eq.
  destruct (editor tmp initial) as [e new] eqn:Ee. cbn [fst snd] in *. set (s4 := mkFs _ (io s3)).
  assert (sound s4) as Hs4 by exact Hs3. assert (files s4 = <[tmp := new]> (files s)) as Hf4 by (unfold s4; cbn; by rewrite insert_insert_eq).
  clearbody s4. destruct e as [e|].
  - destruct (Hrem s4 Hs4 Hf4) as (s'&H1&H2&H3). exists s'. by rewrite H3.
  - destruct (ReadFile_sound tmp s4 new Hs4) as [E5 Hs5]; [by rewrite Hf4, lookup_insert_eq|]. rewrite E5. set (s5 := after s4 _) in *.
    destruct (Hrem s5 Hs5 ltac:(exact Hf4)) as (s'&H1&H2&H3). exists s'. by rewrite H3.
Qed.
End Edit.

(** ** QR codes: [printQR], [qrDataURI] *)

Section QR.
  Context (Size : nat) (Black : nat → nat → bool).

Definition black : string := "██".
Definition white : string := "  ".

Definition qr_row (y : nat) : string :=
  white +:+ concat_s ((λ x, if Black x y then black else white) <$> seq 0 (S Size)).
Definition printQR : list string :=
  concat_s (repeat white (Size + 2)) :: (qr_row <$> seq 0 (S Size)).

(** The code in a light border one module wide, when nothing beyond its size
    is black. *)
Lemma printQR_frame : (∀ x y, (Size ≤ x ∨ Size ≤ y)%nat → Black x y = false) →
  printQR = concat_s (repeat white (Size + 2)) ::
    ((λ y, white +:+ concat_s ((λ x, if Black x y then black else white) <$> seq 0 Size) +:+ white) <$> seq 0 Size) ++
    [concat_s (repeat white (Size + 2))].
Proof.
  intros Hb. unfold printQR. f_equal. rewrite seq_S, fmap_app. cbn [fmap list_fmap Nat.add]. f_equal.
  - apply list_fmap_ext. intros _ y _. unfold qr_row. f_equal. rewrite seq_S, fmap_app, concat_s_app. f_equal. cbn.
    rewrite Hb by (left; lia). done.
  - f_equal. unfold qr_row. rewrite Nat.add_comm. cbn [repeat concat_s Nat.add]. f_equal.
    assert (∀ n k, concat_s ((λ x, if Black x Size then black else white) <$> seq k n) = concat_s (repeat white n)) as Hw.
    { induction n as [|n IH]; intros k; [done|]. cbn. rewrite Hb by (right; lia). f_equal. apply IH. }
    rewrite Hw. done.
Qed.

(** The same code as an SVG image, four units to a module. *)
Definition scale : nat := 4.
Definition num (n : nat) : string := itoa (Z.of_nat n).
Definition dim : nat := (Size + 2) * scale.

Definition rect (x y : nat) : string :=
  sprintf ("<rect x=" +:+ quote "%d" +:+ " y=" +:+ quote "%d" +:+ " width=" +:+ quote "%d" +:+ " height=" +:+ quote "%d" +:+ "/>")
    [num ((x + 1) * scale); num ((y + 1) * scale); num scale; num scale].
Definition svg_head : string :=
  sprintf ("<svg xmlns=" +:+ quote "http://www.w3.org/2000/svg" +:+ " viewBox=" +:+ quote "0 0 %d %d" +:+ " width=" +:+ quote "%d" +:+
           " height=" +:+ quote "%d" +:+ ">") [num dim; num dim; num dim; num dim] +:+
  "<rect width=" +:+ quote "100%" +:+ " height=" +:+ quote "100%" +:+ " fill=" +:+ quote "#fff" +:+ "/>".

Definition svg_row (y : nat) : string := concat_s ((λ x, if Black x y then rect x y else "") <$> seq 0 Size).
Definition svg : string := svg_head +:+ concat_s (svg_row <$> seq 0 Size) +:+ "</svg>".
End QR.

Definition qrDataURI (Encode : string → result (nat * (nat → nat → bool))) (text : string) : result string :=
  '(size, black) ← Encode text;
  Ok ("data:image/svg+xml;base64," +:+ encode_padded base64_std (svg size black)).

(** The image is the code's black modules, row by row, and nothing else. *)
Lemma concat_filter {A} (f : A → bool) (g : A → string) l :
  concat_s ((λ x, if f x then g x else "") <$> l) = concat_s (g <$> filter (λ x, f x = true) l).
Proof.
  induction l as [|x l IH]; [done|]. rewrite filter_cons. cbn. rewrite IH. destruct (f x); [by rewrite decide_True|by rewrite decide_False].
Qed.

Lemma svg_modules size black y : svg_row size black y = concat_s ((λ x, rect x y) <$> filter (λ x, black x y = true) (seq 0 size)).
Proof. apply (concat_filter (λ x, black x y)). Qed.

Example qr_ex :
  printQR 2 (λ x y, (x + y =? 1)%nat) = ["        "; "    ██  "; "  ██    "; "        "] ∧
  svg_row 2 (λ x y, (x + y =? 1)%nat) 0 =
    "<rect x=" +:+ quote "8" +:+ " y=" +:+ quote "4" +:+ " width=" +:+ quote "4" +:+ " height=" +:+ quote "4" +:+ "/>".
Proof. by vm_compute. Qed.
End terminal.
