(* ===== verification/CliPrint.v ===== *)
(** * CliPrint: the result of every command and its text (cmd/ovcp)

    A command ends with a report: the value its JSON form encodes. [text] is
    what it prints instead, line by line, and [notes] what goes to standard
    error beside it. *)

From Stdlib Require Import Ascii.
From stdpp Require Import sorting.
From S2P Require Import Prelude GoStr GoErr GoFs GoTime NetIP Names Upstream UpstreamApply Store StoreUsers StoreStats Totp.
From S2P Require Import Auth Mgmt Control OvpnConf Pki LogRotate World CertApi UserApi ConfigApi UpstreamApi Records Sampler Backup Telegram ServerApi CliText.

Module cliprint.
Import store world certapi userapi configapi upstreamapi control clitext.

Record InitOut := mkInitOut {
  io_CACert : string; io_ServerCert : string; io_TLSCrypt : string; io_ServerConf : string; io_Admin : string; io_URL : string }.

Record UpstreamStatusOut := mkUpstreamStatus { us_Enabled : bool; us_NftVersion : string; us_NftPath : string; us_Default : string }.
Record CAStatusOut := mkCAStatus { ca_CN : string; ca_NotAfter : Z; ca_Status : string }.

(** [versionOut]: what is not on PATH is empty. *)
Record VersionOut := mkVersion {
  v_Version : string; v_Platform : string; v_BuildTarget : string; v_OpenVPN : option (string * string);
  v_Dnsmasq : option (string * string); v_Nft : option (string * string) }.

Inductive report :=
  | RMsg (m : Msg)
  | RVersion (v : VersionOut)
  | RIssue (r : IssueResult) | RExport (r : ExportResult) | RRevoke (r : RevokeResult)
  | RRenew (r : RenewResult) (renamed : bool)
  | RCerts (rows : list records.CertRow) | RStatus (st : serverapi.Status) | RRecords (o : records.RecordList)
  | RUpstreamStatus (o : UpstreamStatusOut) | RUpstreams (v : UpstreamView) | RUpstream (v : UpstreamView) | RReconcile (v : UpstreamView)
  | RProc (name op : string) (r : ControlResult)
  | RDNS (v : DNSView) (saved : bool)
  | RConfig (c : ovpnconf.Config) | RDiff (c : ovpnconf.Config) (diff : list string) (saved : bool) | RPreview (p : Preview)
  | RCA (o : CAStatusOut) | RRenewCA (notAfter : Z)
  | RBackup (archive : string) | RRestored (dataDir : string)
  | RDebug (op : string)
  | RTelegramConfig (st : TelegramStatus) (saved : bool) | RTelegram (op : string) (st : TelegramStatus)
  | RUsers (rows : list UserSummary) | RTOTP (e : TOTPEnrollment)
  | RAudit (tail : list AuditEntry)
  | RLogConfig (c : logrotate.LogConfig) (saved : bool) | RLogs (rows : list logrotate.LogSourceStatus) (cfg : logrotate.LogConfig)
  | RStats (o : sampler.StatsSnapshot) (cn : string) | RStatsConfig (c : StatsConfig) (saved : bool)
  | RInit (o : InitOut) (steps : list string)
  | RScript (s : string).

Section Text.
  Context (color : bool) (now : Z) (offset : Z → Z) (qr : string → list string).

Let red := red color.
Let green := green color.
Let coloredStatus := coloredStatus color.
Let printTable := clitext.printTable.

(** ** Status *)

Definition client_row (c : mgmt.VPNClient) : string :=
  "  " +:+ pad_right 20 (mgmt.CN c) +:+ " " +:+ pad_right 22 (mgmt.RealAddress c) +:+ " " +:+ pad_right 12 (mgmt.VirtualAddress c) +:+
  " rx " +:+ itoa (mgmt.BytesRecv c) +:+ " tx " +:+ itoa (mgmt.BytesSent c) +:+ " since " +:+ rfc3339 offset (mgmt.ConnectedSince c).

Definition up_since (what : string) (pid t : Z) : string :=
  what +:+ ": running (pid " +:+ itoa pid +:+ ", up " +:+ fmtUptime now t +:+ ")".

Definition printStatusText (st : serverapi.Status) : list string :=
  let unknown := negb (String.eqb (serverapi.sError st) "") && negb (serverapi.sRunning st) in
  (if unknown then ["OpenVPN: unknown — " +:+ serverapi.sError st]
   else if negb (serverapi.sRunning st) then [red "OpenVPN: stopped"]
   else if negb (String.eqb (serverapi.sError st) "") then
     [up_since "OpenVPN" (serverapi.sPid st) (serverapi.sStartedAt st); "Clients: unavailable — " +:+ serverapi.sError st]
   else green (up_since "OpenVPN" (serverapi.sPid st) (serverapi.sStartedAt st)) ::
        ("Clients: " +:+ itoa (Z.of_nat (length (serverapi.sClients st))) +:+ " connected") ::
        (client_row <$> serverapi.sClients st)) ++
  [if unknown then "DNS: unknown"
   else if serverapi.sDNSRunning st then green (up_since "DNS" (serverapi.sDNSPid st) (serverapi.sDNSStartedAt st))
   else red "DNS: stopped"] ++
  (let u := fmtUptime now (serverapi.sServeStartedAt st) in if String.eqb u "" then [] else ["ovcp: up " +:+ u]) ++
  [if serverapi.sCertsExpiring st =? 0 then "Certs: " +:+ itoa (serverapi.sCertsTotal st)
   else "Certs: " +:+ itoa (serverapi.sCertsTotal st) +:+ ", " +:+ itoa (serverapi.sCertsExpiring st) +:+ " expiring"] ++
  (if unknown then ["Telegram: unknown"]
   else match serverapi.sTelegram st with
        | None => []
        | Some t => if negb (tg_TokenSet t) then ["Telegram: not configured"]
                    else if tg_Running t then [green "Telegram: running"] else [red "Telegram: stopped"]
        end) ++
  (if String.eqb (serverapi.sRoutingWarning st) "" then [] else ["warning: " +:+ serverapi.sRoutingWarning st]).

Definition printProcText (name op : string) (r : ControlResult) : list string :=
  let name := to_upper name in
  let pid := " (pid " +:+ itoa (cr_Pid r) +:+ ")" in
  (if String.eqb op "status" then
     if cr_Pid r =? 0 then [red (name +:+ " stopped")]
     else [green (name +:+ " running (pid " +:+ itoa (cr_Pid r) +:+ ", up " +:+ fmtUptime now (cr_StartedAt r) +:+ ")")]
   else if String.eqb op "start" then [name +:+ (if cr_Changed r then " started" else " already started") +:+ pid]
   else if String.eqb op "stop" then [name +:+ (if cr_Changed r then " stopped" else " already stopped")]
   else if String.eqb op "restart" then [name +:+ " restarted" +:+ pid]
   else if String.eqb op "reconnect" then [name +:+ " reconnect sent" +:+ pid] else []) ++
  (let u := fmtUptime now (cr_ServeStartedAt r) in
   if String.eqb op "status" && negb (String.eqb u "") then ["ovcp: up " +:+ u] else []).

Definition telegram_text (op : string) (st : TelegramStatus) : list string :=
  if negb (tg_TokenSet st) then ["Telegram: not configured (run 'ovcp telegram config set -token -admin ...')"] else
  let state := if tg_Running st then "running" else "stopped" in
  let state := if (String.eqb op "start" || String.eqb op "stop") && negb (tg_Changed st) then "already " +:+ state else state in
  [(if tg_Running st then green else red) ("Telegram: " +:+ state +:+ ", admin " +:+ tg_Admin st)].

(** ** Settings *)

Definition printConfigText (c : ovpnconf.Config) : list string :=
  ["proto:       " +:+ ovpnconf.Proto c; "port:        " +:+ itoa (ovpnconf.Port c);
   "subnet:      " +:+ ovpnconf.Subnet c; "cipher:      " +:+ ovpnconf.Cipher c;
   "dns:         " +:+ join ", " (ovpnconf.DNS c);
   "push-internal-dns: " +:+ boolText (ovpnconf.PushInternalDNS c);
   "routes:      " +:+ join ", " (ovpnconf.Routes c);
   "redirect-gw: " +:+ boolText (ovpnconf.RedirectGW c)] ++
  (if String.eqb (ovpnconf.Extra c) "" then [] else ["extra:"; ovpnconf.Extra c]).

Definition printDiff (diff : list string) : list string :=
  match diff with
  | [] => ["no changes vs. the saved server.conf"]
  | _ => (λ l, if has_prefix "+" l then green l else red l) <$> diff
  end.

Definition printLogConfigText (c : logrotate.LogConfig) : list string :=
  ["enabled:           " +:+ boolText (logrotate.Enabled c); "retention-days:    " +:+ itoa (logrotate.RetentionDays c);
   "keep-uncompressed: " +:+ itoa (logrotate.KeepUncompressed c)].

Definition printStatsConfigText (c : StatsConfig) : list string :=
  ["sample-interval-sec: " +:+ itoa (SampleIntervalSec c); "retention-hours:     " +:+ itoa (RetentionHours c)].

Definition log_line (r : logrotate.LogSourceStatus) : string :=
  pad_right 8 (logrotate.lsName r) +:+ " " +:+ pad_left 8 (itoa (logrotate.CurrentSize r)) +:+ " bytes  " +:+
  itoa (logrotate.Generations r) +:+ " generations  " +:+
  (if logrotate.Oldest r =? zero_time then "no rotations yet"
   else "oldest " +:+ rfc3339 offset (logrotate.Oldest r) +:+ ", newest " +:+ rfc3339 offset (logrotate.Newest r)).

Definition printLogStatusText (rows : list logrotate.LogSourceStatus) (cfg : logrotate.LogConfig) : list string :=
  (log_line <$> rows) ++
  ["rotation: " +:+ boolText (logrotate.Enabled cfg) +:+ " (retention " +:+ itoa (logrotate.RetentionDays cfg) +:+ "d, keep " +:+
   itoa (logrotate.KeepUncompressed cfg) +:+ " uncompressed)"].

(** ** Traffic history *)

Definition session_line (s : stats.ClientSession) : string :=
  "  " +:+ pad_right 20 (stats.CN s) +:+ " " +:+ pad_right 16 (stats.RealAddress s) +:+ " " +:+
  pad_right 6 (fmtDur (time_sub (stats.DisconnectedAt s) (stats.ConnectedAt s))) +:+ " disconnected " +:+
  rfc3339 offset (stats.DisconnectedAt s) +:+ "  recv " +:+ fmtBytes (stats.sRecv s) +:+ "  sent " +:+ fmtBytes (stats.sSent s).

Definition printStatsText (o : sampler.StatsSnapshot) (cn : string) : list string :=
  let n := length (sampler.snSamples o) in
  match head (sampler.snSamples o), last (sampler.snSamples o) with
  | Some first, Some last =>
      let io := "   recv " +:+ fmtBytes (stats.BytesRecv last) +:+ "   sent " +:+ fmtBytes (stats.BytesSent last) in
      [(if String.eqb cn "" then "global · " +:+ itoa (stats.Clients last) +:+ " client(s)" else cn) +:+ io] ++
      (if (2 <=? n)%nat then ["rate: rx " +:+ fmtRate (stats.BytesRecvRate last) +:+ "   tx " +:+ fmtRate (stats.BytesSentRate last)] else []) ++
      [itoa (Z.of_nat n) +:+ " sample(s), oldest " +:+ rfc3339 offset (stats.TS first)]
  | _, _ => ["no samples yet — the sampler writes one per connected client per minute"]
  end ++ [""] ++
  match sampler.snSessions o with
  | [] => [if String.eqb cn "" then "no finished sessions" else "no finished sessions for " +:+ cn]
  | ss => "recent sessions:" :: (session_line <$> take 20 ss)
  end.

(** ** Lists *)

Definition cert_cells (c : records.CertRow) : list string :=
  [coloredStatus (records.rwStatus c); records.rwKind c; records.rwCN c; date_string offset (records.rwExpires c); records.rwSerial c].

Definition record_cells (c : records.CertRow) : list string :=
  let text := if records.rwIncludeDNS c then (if String.eqb (records.rwIP c) "" then "included" else records.rwIP c) else "excluded" in
  [coloredStatus (records.rwStatus c); records.rwKind c; records.rwCN c; date_string offset (records.rwExpires c);
   (if records.rwIncludeDNS c then green text else text); records.rwSerial c].

Definition user_cells (u : UserSummary) : list string :=
  [sUsername u; sRole u; coloredStatus (if sDisabled u then "disabled" else "enabled"); (if sTOTP u then "2fa" else "-");
   date_string offset (sCreatedAt u)].

Definition audit_cells (e : AuditEntry) : list string := [rfc3339 offset (store.TS e); Actor e; Action e; Detail e].

Definition upstream_cells (def : string) (u : UpstreamRow) : list string :=
  let socks := negb (String.eqb (rSOCKS u) "") in
  [rID u +:+ (if String.eqb (rID u) def then green " (default)" else ""); coloredStatus (upStatus (rUp u));
   (if socks then "(socks)" else rIface u);
   (if socks then rSOCKS u else if String.eqb (rGateway u) "" then "onlink" else rGateway u);
   itoa (rTable u); rDescription u].

Definition perCN_table (perCN : gmap string string) : list string :=
  if (size perCN =? 0)%nat then [] else
  "Per-CN overrides:" :: printTable ["CN"; "UPSTREAM"]
    ((λ cn, [cn; default "" (perCN !! cn)]) <$> merge_sort s_le (map_to_list perCN).*1).

Definition upstreams_text (v : UpstreamView) : list string :=
  "Upstreams:" :: printTable ["ID"; "STATUS"; "IFACE"; "GATEWAY/SOCKS"; "TABLE"; "DESCRIPTION"]
                    (upstream_cells (vDefault v) <$> vUpstreams v) ++ perCN_table (vPerCN v).

(** The upstreams clients are routed through; an empty default is none. *)
Definition in_use (v : UpstreamView) (id : string) : bool :=
  (negb (String.eqb (vDefault v) "") && String.eqb (vDefault v) id) || bool_decide (id ∈ (map_to_list (vPerCN v)).*2).

Definition reconcile_text (v : UpstreamView) : list string :=
  printTable ["ID"; "STATUS"; "NOTE"]
    ((λ u, [rID u; coloredStatus (upStatus (rUp u));
            if negb (rUp u) && in_use v (rID u) then "actively routed, traffic is being kill-switched" else ""]) <$> vUpstreams v).

Definition tool_line (name : string) (found : option (string * string)) : string :=
  match found with
  | None => name +:+ ": not found on PATH"
  | Some (ver, path) => name +:+ " " +:+ ver +:+ " (" +:+ path +:+ ")"
  end.

(** ** The report as text *)

Definition saved_line (saved : bool) (l : string) : list string := if saved then [l] else [].

(** The lines [fmt.Println] prints, or a text printed as it is. *)
Definition text (r : report) : string :=
  match r with
  | RMsg m => unlines [Message m]
  | RVersion v =>
      unlines ["ovcp " +:+ v_Version v +:+ " " +:+ paint color ansiCyan ("(" +:+ v_Platform v +:+ ", " +:+ v_BuildTarget v +:+ ")");
               tool_line "openvpn" (v_OpenVPN v); tool_line "dnsmasq" (v_Dnsmasq v); tool_line "nftables" (v_Nft v)]
  | RIssue r => isCert r +:+ isKey r
  | RExport r => exBundle r
  | RRevoke r => unlines ["revoked; CRL regenerated: " +:+ vCRLPath r]
  | RRenew r renamed =>
      unlines (["server cert renewed: " +:+ nSerial r +:+ " (cn " +:+ nCN r +:+ ", expires " +:+ date_string offset (nNotAfter r) +:+ ")";
                "run `ovcp vpn restart` to apply"] ++
               saved_line renamed "the admin UI's own TLS cert keeps the old CN until `ovcp serve` is restarted")
  | RCerts rows => unlines (printTable ["STATUS"; "KIND"; "CN"; "EXPIRES"; "SERIAL"] (cert_cells <$> rows))
  | RStatus st => unlines (printStatusText st)
  | RRecords o =>
      unlines ("Certificate records:" ::
               printTable ["STATUS"; "KIND"; "CN"; "EXPIRES"; "DNS"; "SERIAL"] (record_cells <$> records.recCerts o) ++
               ["Custom records:"]) +:+ records.recCustom o
  | RUpstreamStatus o =>
      unlines (if us_Enabled o
               then ["upstreams: enabled, " +:+ us_NftVersion o;
                     if String.eqb (us_Default o) "" then "default: off (host's own default route)" else "default: " +:+ us_Default o]
               else ["upstreams: disabled (nftables not found, or OVCP_UPSTREAMS_ENABLED=false)"])
  | RUpstreams v => unlines (upstreams_text v)
  | RUpstream v => unlines [vMessage v]
  | RReconcile v => unlines (reconcile_text v)
  | RProc name op r => unlines (printProcText name op r)
  | RDNS v saved =>
      let l := "block-internet: " +:+ boolText (BlockInternet (view_dns v)) in
      unlines (if saved then [l +:+ " (restart dns to apply)"; "saved"] else [l])
  | RConfig c => unlines (printConfigText c)
  | RDiff _ diff saved => unlines (printDiff diff ++ saved_line saved "saved; run `ovcp vpn restart` to apply")
  | RPreview p => unlines (printDiff (pDiff p))
  | RCA o => unlines [ca_CN o +:+ "  " +:+ coloredStatus (ca_Status o) +:+ " expires " +:+ date_string offset (ca_NotAfter o)]
  | RRenewCA t => unlines ["CA cert renewed; valid until " +:+ date_string offset t; "run `ovcp vpn restart` to apply"]
  | RBackup archive => archive
  | RRestored dir =>
      unlines ["[1/2] restored CA, CRL, tls-crypt key, config, and database into " +:+ dir;
               "[2/2] next: OVCP_SERVER_CN=<host> ovcp certificate renew   (issues the openvpn server cert)";
               "      then: ovcp vpn start"]
  | RDebug op => unlines ["debug logging " +:+ op]
  | RTelegramConfig st saved =>
      unlines (["token-set: " +:+ boolText (tg_TokenSet st); "admin:     " +:+ tg_Admin st] ++
               saved_line saved "saved; run 'ovcp telegram start' (or restart serve) to bring the bot up")
  | RTelegram op st => unlines (telegram_text op st)
  | RUsers rows => unlines (printTable ["USERNAME"; "ROLE"; "STATUS"; "2FA"; "CREATED"] (user_cells <$> rows))
  | RTOTP e => unlines (qr (ProvisioningURL e) ++
                        ["scan with your authenticator, or enter manually:"; "  secret: " +:+ Secret e; "  url:    " +:+ ProvisioningURL e])
  | RAudit tail => unlines (printTable ["TIME"; "ACTOR"; "ACTION"; "DETAIL"] (audit_cells <$> tail))
  | RLogConfig c saved => unlines (printLogConfigText c ++ saved_line saved "saved")
  | RLogs rows cfg => unlines (printLogStatusText rows cfg)
  | RStats o cn => unlines (printStatsText o cn)
  | RStatsConfig c saved => unlines (printStatsConfigText c ++ saved_line saved "saved")
  | RInit o steps => unlines (steps ++ [""; "done. start the server:  ovcp serve"; "admin UI:                " +:+ io_URL o])
  | RScript s => s
  end.

(** What is printed on standard error beside the text form. *)
Definition notes (r : report) : list string :=
  match r with
  | RIssue r => ["serial: " +:+ isSerial r]
  | RExport r => ["serial: " +:+ exSerial r]
  | RBackup _ => ["backup written; keep the passphrase safe: it cannot be recovered, and the archive is unreadable without it"]
  | _ => []
  end.

End Text.
End cliprint.
