(* ===== verification/Cli.v ===== *)
(** * Cli: the commands of the command line (cmd/ovcp/commands.go, logs.go, stats.go)

    Each op is its flags and what it does once they are parsed: the actions of
    internal/api on the shared store and files, a running serve asked through
    the control socket, and the caches refreshed afterwards. An error ends the
    command ([die]). What serve keeps to itself is part of the state behind the
    management connection. *)

From Stdlib Require Import Ascii.
From stdpp Require Import sorting.
From S2P Require Import Prelude GoStr GoErr GoFs GoTime NetIP Names Upstream UpstreamApply Store StoreUsers StoreStats Totp.
From S2P Require Import Auth Mgmt Control OvpnConf Pki LogRotate World CertApi UserApi ConfigApi UpstreamApi Records Sampler Backup Telegram ServerApi.
From S2P Require Import Boot Flags CliText CliPrint.

Module cli.
Import store world certapi userapi configapi upstreamapi serverapi control boot flags clitext cliprint.

(** One invocation: its output form, its standard streams ([None]: a
    terminal) and the programs found on PATH. *)
Record Shell := mkShell {
  jsonOut : bool; stdout_tty : bool; stdin : option string;
  nft : option (string * string); openvpn : option (string * string); dnsmasq : option (string * string);
  version : string; buildTarget : string; platform : string }.

Record outcome := mkOutcome { rep : report; warnings : list string }.

(** [opBody]: the flags an op registers and its closure. *)
Record body (S H : Type) := mkBody { b_flags : FlagSet; b_run : Values → list string → Act S H outcome }.
Arguments mkBody {S H}. Arguments b_flags {S H}. Arguments b_run {S H}.

Definition done {S H} (r : report) : Act S H outcome := mret (mkOutcome r []).
Definition done_warning {S H} (w : string) (r : report) : Act S H outcome :=
  mret (mkOutcome r (if String.eqb w "" then [] else ["warning: " +:+ w])).

Definition sf (name def : string) : flag := mkFlag name (KString def).
Definition bf (name : string) : flag := mkFlag name (KBool false).
Definition nf (name : string) (def : Z) : flag := mkFlag name (KInt def).

Section Cli.
  Context {S H : Type} `{mgmt.Server S} `{tracker.HostOps H}.
  Context `{pki.X509} `{!pki.EcPem} `{pki.EnvelopeJson} `{pki.Calendar} `{Argon2 : auth.Argon2} `{Aead : users.Aead}.
  Context `{auth.UnicodeTables} `{backup.Tar} `{backup.Snapshot} `{Sorting}.
  Context `{!JsonInto upstream.Config} `{!JsonInto logrotate.LogConfig} `{!JsonInto StatsConfig} `{!JsonInto DNSConfig}.
  Context `{Json ControlResult} `{Json TelegramStatus} `{Json (list mgmt.VPNClient)}.
  Context (getenv : string → string) (unmarshal_config : string → ovpnconf.Config → ovpnconf.Config).
  Context (marshal_config : ovpnconf.Config → string) (qr_data_uri : string → result string).
  Context (getMe : string → option goerr) (offset : Z → Z) (probe : Probe).
  Context (ask : string → bool → result string) (edit : string → result string).
  Context (deps : ControlDeps (Serve S H)) (up : bool) (sh : Shell) (dataDir : string).

Notation Act := (Act S H).
Notation Body := (body S H).

(** ** The invocation *)

Definition pp : paths := dataPaths dataDir.

(** The directory as the actions know it. *)
Definition here : Server :=
  mkServer (PKIDir pp) (TLSCrypt pp) (ServerCert pp) (ServerKey pp) (ServerConf pp) (CertsHosts pp) (CustomHosts pp) "" dataDir.

Definition serverCN : World S → string := adminCertCN getenv dataDir.
Definition a_cn : Act string := w_ (records.w_remote serverCN).

Definition openStore : Act unit := w_ (boot.openStore dataDir).
Definition upstreamsEnabled : bool := upstream.Enabled getenv (from_option snd "" (nft sh)).

(** A request to serve on its control socket. *)
Definition ctrl_x {A} (f : option (Serve S H) → option (Serve S H) * result A) : X S H A := λ x,
  match f (if up then Some x else None) with
  | (Some x', r) => (x', r)
  | (None, r) => (x, r)
  end.
Definition ctrl {A} (f : option (Serve S H) → option (Serve S H) * result A) : Act A := on_x (ctrl_x f).

(** [readSecret]: the secret, and the warning an accepted weak one gets. *)
Definition prompt (label : string) (confirm : bool) : Act string :=
  v ← a_of (ask label false);
  if confirm then c ← a_of (ask label true);
                  if String.eqb v c then mret v else a_fail (Errorf "mismatch" [])
  else mret v.

Definition readSecret (label env : string) (confirm : bool) : Act (string * list string) :=
  v ← (if String.eqb (getenv env) "" then prompt label confirm else mret (getenv env));
  if auth.SecretOK v then mret (v, [])
  else if negb (SecretYOLO getenv) then a_fail (Errorf "%s" [SecretErr label])
  else mret (v, ["warning: " +:+ SecretErr label +:+ " ignored — " +:+ SecretYOLOEnv +:+
                 " is set, so the lock is now purely decorative"]).

(** [linesValue]: the text a repeatable flag gives, if it was given. *)
Definition linesValue (v : list string) (initial : string) : result (string * bool) :=
  match v with
  | ["-"] => s ← edit initial; Ok (s, true)
  | _ => Ok (join nl v, (0 <? length v)%nat)
  end.

Definition restartSessionsCLI (cn : string) : Act unit := a_try (ctrl (ClientKill deps (ctrlSock getenv) cn "RESTART")) ;; mret tt.

Definition live_clients : Act (list mgmt.VPNClient) :=
  r ← a_try (ctrl (Clients deps (ctrlSock getenv)));
  mret (match r with Ok l => l | Err _ => [] end).

Definition refreshCertsHostsCLI : Act unit :=
  live ← live_clients;
  w_ (w_ignore (records.RefreshCertsHosts getenv unmarshal_config here serverCN live)).

Definition required (name v : string) : Act unit := a_of (guard_ok (negb (String.eqb v "")) (Errorf ("-" +:+ name +:+ " required") [])).
Definition requirePositive (n : Z) (name : string) : Act unit := a_of (guard_ok (0 <? n) (Errorf "-%s must be positive" [name])).

Definition passphrase : Act (string * list string) := readSecret "CA passphrase" "OVCP_CA_PASSPHRASE" false.
Definition ctrl_flag : flag := sf "ctrl" (ctrlSock getenv).

(** ** certificate *)

Definition issue_flags : FlagSet :=
  [sf "cn" ""; bf "renew"; nf "days" 365; sf "key-pass" ""; bf "export"; sf "remote" ""; nf "port" 0; sf "proto" "";
   sf "server-cn" ""; bf "split-tunnel"; mkFlag "custom-opts" KLines].

Definition issue_hint (e : goerr) : goerr :=
  if errors_is e ErrDuplicateCN then Wrapf "%w — add -renew to replace it" [] e
  else if errors_is e ErrNoActiveCert then Wrapf "%w — omit -renew to issue a new one" [] e else e.

Definition or_cn (v cn : string) : string := if String.eqb v "" then cn else v.

Definition issue_client (v : Values) (req : ClientRequest) : Act (pki.IssuedCert * string) :=
  if flag_bool "export" v then
    cn ← a_cn;
    extra ← a_of (linesValue (lines "custom-opts" v) "");
    w_ (w_err issue_hint (ExportClient getenv unmarshal_config here (TLSCrypt pp) req
      (mkExport (or_cn (str "remote" v) cn) (or_cn (str "server-cn" v) cn) (str "proto" v) extra.1
                (int "port" v) (flag_bool "split-tunnel" v))))
  else ic ← w_ (w_err issue_hint (IssueClient here req)); mret (ic, "").

Definition cmdIssue : Body := mkBody issue_flags (λ v _,
  required "cn" (str "cn" v) ;;
  openStore ;;
  '(pass, warn) ← passphrase;
  let req := mkRequest (str "cn" v) (int "days" v) pass (str "key-pass" v) (flag_bool "renew" v) in
  '(ic, bundle) ← issue_client v req;
  (if flag_bool "renew" v then restartSessionsCLI (str "cn" v) else mret tt) ;;
  refreshCertsHostsCLI ;;
  w_ (AuditClient "cli" req ic) ;;
  mret (mkOutcome (if flag_bool "export" v then RExport (mkExportResult (pki.SerialHex ic) bundle)
                   else RIssue (mkIssueResult (pki.SerialHex ic) (pki.iCertPEM ic) (pki.KeyPEM ic))) warn)).

Definition cmdRevoke : Body := mkBody [sf "serial" ""] (λ v _,
  required "serial" (str "serial" v) ;;
  '(pass, warn) ← passphrase;
  openStore ;;
  res ← w_ (RevokeCert here "cli" (str "serial" v) pass);
  refreshCertsHostsCLI ;;
  restartSessionsCLI (vCN res) ;;
  mret (mkOutcome (RRevoke res) warn)).

Definition list_flags : FlagSet := [sf "status" "all"; sf "kind" "all"; sf "sort" ""; bf "desc"].

Definition sorted_certs (certs : list Cert) (v : Values) : Act (list Cert) :=
  t ← w_ w_now;
  a_of (filterSortCerts t offset certs (str "status" v) (str "kind" v) (str "sort" v) (flag_bool "desc" v)).

Definition cmdList : Body := mkBody list_flags (λ v _,
  openStore ;;
  certs ← m_ ListCerts;
  out ← sorted_certs certs v;
  t ← w_ w_now;
  done (RCerts (records.NewCertRow t <$> out))).

Definition renew_hint (e : goerr) : goerr :=
  if errors_is e ErrNoActiveCert then Wrapf "%w — run `ovcp init` first" [] e else e.

Definition cmdRenew : Body := mkBody [sf "cn" ""; nf "days" 825] (λ v _,
  openStore ;;
  '(pass, warn) ← passphrase;
  cn ← a_cn;
  res ← w_ (w_err renew_hint (RenewServer here (ServerCert pp) (ServerKey pp) "cli" (or_cn (str "cn" v) cn) (int "days" v) pass));
  mret (mkOutcome (RRenew res (negb (String.eqb (str "cn" v) ""))) warn)).

(** ** ca *)

Definition cmdCAStatus : Body := mkBody [] (λ _ _,
  c ← w_ (on_pki (pki.CACert (PKIDir pp)));
  t ← w_ w_now;
  let na := pki.NotAfter (pki.body c) in
  done (RCA (mkCAStatus (pki.Subject (pki.body c)) na (store.Status t (mkCert "" "" "" "" zero_time na None false))))).

Definition cmdRotateCA : Body := mkBody [] (λ _ _,
  '(old, w1) ← readSecret "Current CA passphrase" "OVCP_CA_PASSPHRASE" false;
  '(new, w2) ← readSecret "New CA passphrase" "OVCP_CA_NEW_PASSPHRASE" true;
  w_ (on_pki (pki.Rotate (PKIDir pp) old new)) ;;
  openStore ;;
  serverapi.audit "cli" "ca_rotate" "" ;;
  mret (mkOutcome (RMsg (mkMsg "CA passphrase rotated" true)) (w1 ++ w2))).

Definition cmdRenewCA : Body := mkBody [nf "years" 10] (λ v _,
  requirePositive (int "years" v) "years" ;;
  '(pass, warn) ← passphrase;
  c ← w_ (on_pki (pki.RenewCA (PKIDir pp) (int "years" v) pass));
  openStore ;;
  serverapi.audit "cli" "renew_ca" "" ;;
  mret (mkOutcome (RRenewCA (pki.NotAfter (pki.body c))) warn)).

(** ** backup *)

Definition cmdBackupCreate : Body := mkBody [] (λ _ _,
  if jsonOut sh then a_fail (Errorf "-json is not supported for backup create (the archive is the output)" []) else
  if stdout_tty sh then a_fail (Errorf "refusing to write the archive to a terminal; redirect stdout to a file" []) else
  '(pass, warn) ← readSecret "Backup passphrase" "OVCP_BACKUP_PASSPHRASE" true;
  openStore ;;
  data ← w_ (backup.Create dataDir pass);
  serverapi.audit "cli" "backup_create" "" ;;
  mret (mkOutcome (RBackup data) warn)).

Definition cmdBackupRestore : Body := mkBody [bf "force"] (λ v args,
  match args, stdin sh with
  | [], Some data =>
      '(pass, warn) ← readSecret "Backup passphrase" "OVCP_BACKUP_PASSPHRASE" false;
      w_ (on_disk (backup.Restore dataDir data pass (flag_bool "force" v))) ;;
      mret (mkOutcome (RRestored dataDir) warn)
  | _, _ => a_fail (Errorf "usage: ovcp backup restore [-force] < ARCHIVE" [])
  end).

(** ** status, stats, version, completion *)

(** [ctrlSource]. *)
Definition ctrlSource (sock : string) : StatusSource S H := mkSource
  (ctrl (Control deps sock "status")) (ctrl (Control deps sock "dns-status"))
  (ctrl (Clients deps sock)) (ctrl (TelegramOp deps sock "status")).

Definition cmdStatus : Body := mkBody [ctrl_flag] (λ v _,
  openStore ;;
  st ← BuildStatus getenv here probe (ctrlSource (str "ctrl" v)) upstreamsEnabled;
  done (RStatus st)).

Definition stats_flags : FlagSet := [sf "cn" ""; bf "follow"; nf "interval" 2; ctrl_flag].

(** Without [-follow]; [config] as the first argument is an op of its own. *)
Definition cmdStatsShow (v : Values) : Act outcome :=
  openStore ;;
  o ← m_ (sampler.Stats getenv (str "cn" v));
  done (RStats o (str "cn" v)).

Definition cmdStatsConfigGet : Body := mkBody [] (λ _ _,
  openStore ;; cfg ← m_ (LoadStatsConfig getenv); done (RStatsConfig cfg false)).

Definition changed (v : Z) (old : Z) : Z := if v =? -1 then old else v.

Definition cmdStatsConfigSet : Body := mkBody [nf "sample-interval-sec" (-1); nf "retention-hours" (-1)] (λ v _,
  openStore ;;
  cfg ← m_ (LoadStatsConfig getenv);
  cfg ← m_ (SaveStatsConfig "cli" (mkStatsConfig (changed (int "sample-interval-sec" v) (SampleIntervalSec cfg))
                                                 (changed (int "retention-hours" v) (RetentionHours cfg))));
  done (RStatsConfig cfg true)).

Definition cmdVersion : Body := mkBody [] (λ _ _,
  done (RVersion (mkVersion (version sh) (platform sh) (buildTarget sh) (openvpn sh) (dnsmasq sh) (nft sh)))).

(** ** vpn, dns *)

Definition procOpBody (name op wirePrefix : string) : Body := mkBody [ctrl_flag] (λ v _,
  r ← ctrl (Control deps (str "ctrl" v) (wirePrefix +:+ op));
  (if String.eqb op "status" then mret tt
   else openStore ;; serverapi.audit "cli" (name +:+ "_" +:+ op) ("pid=" +:+ itoa (cr_Pid r))) ;;
  done (RProc name op r)).

(** What [vpn start] adds. *)
Definition with_routing_warning (m : Act outcome) : Act outcome :=
  o ← m;
  let w := RoutingPrereqsWarning probe upstreamsEnabled in
  mret (mkOutcome (rep o) (warnings o ++ if String.eqb w "" then [] else ["warning: " +:+ w])).

Definition cmdKill : Body := mkBody [ctrl_flag; sf "cn" ""] (λ v _,
  required "cn" (str "cn" v) ;;
  openStore ;;
  m ← on_x (Kill "cli" (str "cn" v) (λ cn verb, ctrl_x (ClientKill deps (str "ctrl" v) cn verb)));
  done (RMsg m)).

Definition dns_view : Act DNSView := m_ (ViewDNS getenv unmarshal_config).

Definition cmdDNSConfigGet : Body := mkBody [] (λ _ _,
  openStore ;; v ← dns_view; done_warning (view_warning v) (RDNS v false)).

Definition cmdDNSConfigSet : Body := mkBody [sf "block-internet" ""] (λ v _,
  openStore ;;
  cfg ← m_ (LoadDNSConfig getenv);
  let block := str "block-internet" v in
  cfg ← (if String.eqb block "" then mret cfg else on ← a_of (parseBoolArg block); mret (mkDNSConfig on));
  v ← m_ (SetDNSConfig getenv unmarshal_config "cli" cfg);
  done_warning (view_warning v) (RDNS v true)).

Definition cmdVPNConfigGet : Body := mkBody [] (λ _ _,
  openStore ;;
  cfg ← m_ (configapi.LoadConfig getenv unmarshal_config);
  v ← dns_view;
  done_warning (view_warning v) (RConfig cfg)).

Definition config_flags : FlagSet :=
  [sf "proto" ""; nf "port" 0; sf "subnet" ""; sf "cipher" ""; sf "dns" ""; sf "push-internal-dns" ""; sf "routes" "";
   sf "redirect-gw" ""; mkFlag "extra" KLines].

Definition set_str (v old : string) : string := if String.eqb v "" then old else v.
Definition set_csv (v : string) (old : list string) : list string := if String.eqb v "" then old else ovpnconf.SplitCSV v.
Definition set_bool (name v : string) (old : bool) : result bool :=
  if String.eqb v "" then Ok old
  else match parseBoolArg v with Ok b => Ok b | Err e => Err (Wrapf ("-" +:+ name +:+ ": %w") [] e) end.

(** [configFlags]' closure: what was given, over the current settings. *)
Definition configFlags (v : Values) (c : ovpnconf.Config) : result ovpnconf.Config :=
  push ← set_bool "push-internal-dns" (str "push-internal-dns" v) (ovpnconf.PushInternalDNS c);
  redirect ← set_bool "redirect-gw" (str "redirect-gw" v) (ovpnconf.RedirectGW c);
  '(extra, given) ← linesValue (lines "extra" v) (ovpnconf.Extra c);
  Ok (ovpnconf.mkConfig (set_str (str "proto" v) (ovpnconf.Proto c)) (if int "port" v =? 0 then ovpnconf.Port c else int "port" v)
        (set_str (str "subnet" v) (ovpnconf.Subnet c)) (set_str (str "cipher" v) (ovpnconf.Cipher c))
        (set_csv (str "dns" v) (ovpnconf.DNS c)) push (set_csv (str "routes" v) (ovpnconf.Routes c)) redirect
        (if given : bool then extra else ovpnconf.Extra c)
        (ovpnconf.CACert c) (ovpnconf.ServerCert c) (ovpnconf.ServerKey c) (ovpnconf.CRL c) (ovpnconf.TLSCrypt c)
        (ovpnconf.MgmtSocket c) (ovpnconf.StatusLog c) (ovpnconf.ServerCN c) (ovpnconf.StatusInterval c)
        (ovpnconf.ManagementClientAuth c)).

Definition wanted_config (v : Values) : Act ovpnconf.Config :=
  openStore ;;
  cur ← m_ (configapi.LoadConfig getenv unmarshal_config);
  a_of (configFlags v cur).

Definition cmdVPNConfigSet : Body := mkBody config_flags (λ v _,
  cfg ← wanted_config v;
  diff ← w_ (SetVPNConfig getenv unmarshal_config marshal_config "cli" (ServerConf pp) cfg);
  if (length diff =? 0)%nat then done (RDiff cfg diff false)
  else view ← dns_view; done_warning (view_warning view) (RDiff cfg diff true)).

Definition cmdVPNConfigPreview : Body := mkBody config_flags (λ v _,
  cfg ← wanted_config v;
  pv ← m_ (PreviewVPNConfig getenv unmarshal_config cfg);
  done_warning (pWarning pv) (RPreview pv)).

(** ** record *)

Definition cmdRecordList : Body := mkBody list_flags (λ v _,
  openStore ;;
  certs ← m_ ListCerts;
  cfg ← m_ (configapi.LoadConfig getenv unmarshal_config);
  out ← sorted_certs certs v;
  custom ← w_ (w_try (on_disk (ReadFile (CustomHosts pp))));
  live ← live_clients;
  cn ← a_cn;
  t ← w_ w_now;
  done (RRecords (records.Records t out live cn (records.ok_or_none (ovpnconf.ServerTunIP cfg))
                    (default "" (records.ok_or_none custom))))).

Definition cmdRecordEdit : Body := mkBody [] (λ _ _,
  openStore ;;
  cur ← w_ (w_try (on_disk (ReadFile (CustomHosts pp))));
  out ← a_of (edit (default "" (records.ok_or_none cur)));
  m ← w_ (records.SetCustomHosts "cli" (CustomHosts pp) out);
  done (RMsg m)).

Definition cmdRecordIncludeExclude (op : string) : Body := mkBody [sf "cn" ""] (λ v _,
  required "cn" (str "cn" v) ;;
  openStore ;;
  certs ← m_ ListCerts;
  match activeCertByCN certs (str "cn" v) with
  | None => a_fail (Errorf "no active certificate for CN %q" [str "cn" v])
  | Some c =>
      m ← m_ (records.SetCertDNS "cli" (Serial c) (String.eqb op "include"));
      (if Changed m then refreshCertsHostsCLI else mret tt) ;;
      done (RMsg m)
  end).

(** ** upstream *)

(** [upstream.Apply] in a process of its own: no client is tracked there, and
    its relays end with it. *)
Definition apply_alone (cfg : upstream.Config) : X S H unit := λ x,
  let t := trk x in
  let t' := (tracker.Apply getenv cfg (tracker.mkSt (tracker.world t) ∅ ∅ (tracker.trace t))).2 in
  (mkServe (wd x) (tracker.mkSt (tracker.world t') (tracker.tracked t) (tracker.socksRelays t) (tracker.trace t')), Ok tt).

Definition applyUpstreamsCLI (sock : string) (cfg : upstream.Config) : X S H string := λ x,
  let '(x1, r) := ctrl_x (ClientReapply deps sock) x in
  let x2 := match r with Ok _ => x1 | Err _ => (apply_alone cfg x1).1 end in
  down_warning (upstream.Upstreams cfg) x2.

Definition cliApplier : upstream.Config → X S H string := applyUpstreamsCLI (ctrlSock getenv).

Definition showUpstreams (f : UpstreamView → report) (m : X S H UpstreamView) : Act outcome :=
  openStore ;; v ← on_x m; done_warning (vWarning v) (f v).

Definition cmdUpstreamStatus : Body := mkBody [] (λ _ _,
  openStore ;;
  cfg ← m_ (LoadUpstreamConfig getenv);
  done (RUpstreamStatus (mkUpstreamStatus upstreamsEnabled (from_option fst "" (nft sh)) (from_option snd "" (nft sh)) (upstream.Default cfg)))).

Definition cmdUpstreamList : Body := mkBody [] (λ _ _,
  openStore ;;
  cfg ← m_ (LoadUpstreamConfig getenv);
  v ← on_x (ViewUpstreams cfg "" "");
  done (RUpstreams v)).

Definition cmdUpstreamAdd : Body := mkBody
  [sf "id" ""; sf "iface" ""; sf "gateway" ""; sf "socks" ""; nf "dial-timeout" 0; nf "handshake-timeout" 0; sf "desc" ""] (λ v _,
  showUpstreams RUpstream (AddUpstream getenv "cli" upstreamsEnabled
    (upstream.mkUpstream (str "id" v) (str "iface" v) (str "gateway" v) (str "socks" v) (int "dial-timeout" v)
       (int "handshake-timeout" v) 0 (str "desc" v)) cliApplier)).

Definition cmdUpstreamDel : Body := mkBody [sf "id" ""] (λ v _,
  showUpstreams RUpstream (DeleteUpstream getenv "cli" upstreamsEnabled (str "id" v) cliApplier)).

Definition cmdUpstreamSetDefault : Body := mkBody [sf "id" ""; bf "clear"] (λ v _,
  let id := if flag_bool "clear" v then "" else str "id" v in
  showUpstreams RUpstream (SetDefaultUpstream getenv "cli" upstreamsEnabled id cliApplier)).

(** Without serve there is no live rule to rewrite. *)
Definition rewrite_live (sock cn : string) : X S H unit := λ x,
  let '(x', r) := ctrl_x (UpstreamAssign deps sock cn) x in
  (x', match r with Err e => if errors_is e ErrServeDown then Ok tt else Err e | Ok _ => Ok tt end).

Definition cmdUpstreamAssign : Body := mkBody [sf "cn" ""; sf "id" ""; bf "clear"; ctrl_flag] (λ v _,
  showUpstreams RUpstream (AssignUpstream getenv unmarshal_config marshal_config "cli" upstreamsEnabled (ServerConf pp)
    (str "cn" v) (str "id" v) (flag_bool "clear" v) (rewrite_live (str "ctrl" v)))).

Definition cmdUpstreamReconcile : Body := mkBody [ctrl_flag] (λ v _,
  showUpstreams RReconcile (ReconcileUpstreams getenv "cli" upstreamsEnabled (applyUpstreamsCLI (str "ctrl" v)))).

(** ** logs, debug *)

Definition cmdLogsConfigGet : Body := mkBody [] (λ _ _, openStore ;; cfg ← m_ (LoadLogConfig getenv); done (RLogConfig cfg false)).

Definition cmdLogsConfigSet : Body := mkBody [sf "enabled" ""; nf "retention-days" (-1); nf "keep-uncompressed" (-1)] (λ v _,
  openStore ;;
  cfg ← m_ (LoadLogConfig getenv);
  let e := str "enabled" v in
  on ← (if String.eqb e "" then mret (logrotate.Enabled cfg) else a_of (parseBoolArg e));
  cfg ← m_ (SaveLogConfig "cli" (logrotate.mkLogConfig on (changed (int "retention-days" v) (logrotate.RetentionDays cfg))
                                  (changed (int "keep-uncompressed" v) (logrotate.KeepUncompressed cfg))));
  done (RLogConfig cfg true)).

Definition cmdLogsRotate : Body := mkBody [] (λ _ _, openStore ;; m ← w_ (RotateLogs getenv "cli" dataDir); done (RMsg m)).

Definition logSources : list (string * string) := (λ name, (name, backup.Join (LogsDir pp) (name +:+ ".log"))) <$> logrotate.LogNames.

Fixpoint log_rows (srcs : list (string * string)) : F (list logrotate.LogSourceStatus) :=
  match srcs with
  | [] => mret []
  | (name, path) :: srcs => st ← logrotate.LogStatusFor name path; rest ← log_rows srcs; mret (st :: rest)
  end.

Definition cmdLogsStatus : Body := mkBody [] (λ _ _,
  openStore ;;
  cfg ← m_ (LoadLogConfig getenv);
  rows ← w_ (on_disk (log_rows logSources));
  done (RLogs rows cfg)).

Definition cmdDebugOp (op : string) : Body := mkBody [ctrl_flag] (λ v _,
  ctrl (Debug deps (str "ctrl" v) (String.eqb op "on")) ;;
  openStore ;;
  serverapi.audit "cli" ("debug_" +:+ op) "" ;;
  done (RDebug op)).

(** ** telegram *)

Definition bot_status : Act TelegramStatus := on_bot (st ← telegram.ConfigStatus; mret (Ok st)).

Definition cmdTelegramConfigGet : Body := mkBody [] (λ _ _, openStore ;; st ← bot_status; done (RTelegramConfig st false)).

Definition cmdTelegramConfigSet : Body := mkBody [bf "token"; sf "admin" (getenv "OVCP_TELEGRAM_ADMIN")] (λ v _,
  '(token, warn) ← (if flag_bool "token" v then readSecret "Telegram bot token" "OVCP_TELEGRAM_TOKEN" false else mret ("", []));
  openStore ;;
  on_bot (telegram.SetTelegram getMe "cli" (str "admin" v) token) ;;
  st ← bot_status;
  mret (mkOutcome (RTelegramConfig st true) warn)).

Definition telegramLifecycleBody (op : string) : Body := mkBody [ctrl_flag] (λ v _,
  st ← ctrl (TelegramOp deps (str "ctrl" v) op);
  (if String.eqb op "status" then mret tt
   else openStore ;; serverapi.audit "cli" ("telegram_" +:+ op) ("running=" +:+ (if tg_Running st then "true" else "false"))) ;;
  done (RTelegram op st)).

(** ** user, audit *)

Definition user_password : Act (string * list string) := readSecret "Password" "OVCP_USER_PASSWORD" true.

Definition cmdUserAdd : Body := mkBody [sf "name" ""; sf "role" "operator"] (λ v _,
  '(pw, warn) ← user_password;
  openStore ;;
  m ← m_ (AddUser getenv "cli" (str "name" v) pw (str "role" v));
  mret (mkOutcome (RMsg m) warn)).

Definition cmdUserList : Body := mkBody [sf "status" "all"; sf "role" "all"; sf "sort" ""; bf "desc"] (λ v _,
  openStore ;;
  us ← m_ users.ListUsers;
  us ← a_of (sortByFlag (userSortGetters offset) (str "sort" v) (flag_bool "desc" v)
              (List.filter (user_kept (str "status" v) (str "role" v)) us));
  done (RUsers (NewUserSummary <$> us))).

Definition cmdUserDel : Body := mkBody [sf "name" ""] (λ v _, openStore ;; m ← m_ (DeleteUser "cli" (str "name" v)); done (RMsg m)).

Definition cmdUserEnableDisable (op : string) : Body := mkBody [sf "name" ""] (λ v _,
  openStore ;; m ← m_ (SetUserDisabled "cli" (str "name" v) (String.eqb op "disable")); done (RMsg m)).

Definition cmdUserPasswd : Body := mkBody [sf "name" ""] (λ v _,
  '(pw, warn) ← user_password;
  openStore ;;
  m ← m_ (SetUserPassword getenv "cli" (str "name" v) pw);
  mret (mkOutcome (RMsg m) warn)).

Definition cmdUserTOTP : Body := mkBody [sf "name" ""; bf "off"] (λ v _,
  openStore ;;
  if flag_bool "off" v then m ← m_ (DisableTOTP "cli" (str "name" v)); done (RMsg m)
  else cn ← a_cn; e ← m_ (EnrollTOTP qr_data_uri "cli" (str "name" v) cn); done (RTOTP e)).

(** [AuditTail] is newest first; the list is turned round. *)
Definition cmdAudit : Body := mkBody [sf "sort" ""; bf "desc"] (λ v _,
  openStore ;;
  tail ← m_ (AuditTail 50);
  tail ← a_of (sortByFlag (auditSortGetters offset) (str "sort" v) (flag_bool "desc" v) (reverse tail));
  done (RAudit tail)).

(** ** init *)

Definition set_push (b : bool) (c : ovpnconf.Config) : ovpnconf.Config :=
  ovpnconf.mkConfig (ovpnconf.Proto c) (ovpnconf.Port c) (ovpnconf.Subnet c) (ovpnconf.Cipher c) (ovpnconf.DNS c)
    b (ovpnconf.Routes c) (ovpnconf.RedirectGW c) (ovpnconf.Extra c)
    (ovpnconf.CACert c) (ovpnconf.ServerCert c) (ovpnconf.ServerKey c) (ovpnconf.CRL c) (ovpnconf.TLSCrypt c)
    (ovpnconf.MgmtSocket c) (ovpnconf.StatusLog c) (ovpnconf.ServerCN c) (ovpnconf.StatusInterval c) (ovpnconf.ManagementClientAuth c).

Definition init_ca (caCN : string) (years : Z) (pass : string) : Act string :=
  r ← a_try (w_ (on_pki (pki.InitCA (PKIDir pp) caCN years pass)));
  match r with
  | Ok _ => serverapi.audit "system" "ca_init" ("cn=" +:+ caCN) ;; mret ("[1/5] CA initialized: " +:+ CACert pp)
  | Err (Sentinel ErrCAExists) =>
      a_err (Wrapf "existing CA: %w" []) (w_ (on_pki (pki.CheckPassphrase (PKIDir pp) pass))) ;;
      mret "[1/5] CA exists, passphrase ok"
  | Err e => a_fail e
  end.

Definition init_server (cn : string) (days : Z) (pass : string) : Act string :=
  there ← w_ (w_try (on_disk (Exists (ServerCert pp))));
  match there with
  | Ok true => mret ("[2/5] server cert exists: " +:+ ServerCert pp)
  | _ =>
      ic ← w_ (on_pki (pki.Issue (PKIDir pp) pki.KindServer cn days pass));
      w_ (WriteServerCert (ServerCert pp) (ServerKey pp) ic) ;;
      serverapi.audit "system" "issue" ("cn=" +:+ cn +:+ " kind=server (init)") ;;
      mret ("[2/5] server cert issued: " +:+ ServerCert pp)
  end.

Definition init_config (sock : string) : Act string :=
  cn ← a_cn;
  let cfg := fillPaths getenv dataDir sock cn (set_push (bool_of (dnsmasq sh)) (ovpnconf.Default getenv)) in
  m_ (configapi.SaveConfig marshal_config cfg) ;;
  w_ (on_disk (ovpnconf.WriteAtomic cfg (ServerConf pp))) ;;
  mret ("[4/5] server config: " +:+ ServerConf pp).

(** The account is made unless the store has it. *)
Definition init_admin (admin : string) : Act (string * list string) :=
  if String.eqb admin "" then mret ("[5/5] admin user skipped", []) else
  u ← a_try (m_ (users.GetUser admin));
  match u with
  | Ok _ => mret ("[5/5] admin user exists: " +:+ admin, [])
  | Err _ =>
      '(pw, warn) ← user_password;
      m_ (AddUser getenv "system" admin pw "admin") ;;
      mret ("[5/5] admin user created: " +:+ admin,
            (if String.eqb (getenv "OVCP_USER_PASSWORD") "" then ["create admin user " +:+ quote admin] else []) ++ warn)
  end.

Definition init_flags : FlagSet :=
  [bf "skeleton"; sf "ca-cn" "OVCP CA"; sf "server-cn" ""; nf "ca-years" 10; nf "server-days" 825; sf "admin" "admin";
   sf "mgmt" (mgmtSock getenv)].

Definition cmdInit : Body := mkBody init_flags (λ v _,
  if flag_bool "skeleton" v then
    w_ (on_disk (ensureSkeleton dataDir)) ;; done (RMsg (mkMsg ("data directory ready: " +:+ dataDir) true))
  else
  a_of (guard_ok (negb (String.eqb (str "server-cn" v) "")) (Errorf "-server-cn required (public hostname clients connect to)" [])) ;;
  requirePositive (int "ca-years" v) "ca-years" ;;
  requirePositive (int "server-days" v) "server-days" ;;
  openStore ;;
  '(pass, w1) ← readSecret "CA passphrase" "OVCP_CA_PASSPHRASE" true;
  s1 ← init_ca (str "ca-cn" v) (int "ca-years" v) pass;
  s2 ← init_server (str "server-cn" v) (int "server-days" v) pass;
  w_ (loadOrCreateTLSCrypt (TLSCrypt pp)) ;;
  s4 ← init_config (str "mgmt" v);
  '(s5, w2) ← init_admin (str "admin" v);
  mret (mkOutcome
    (RInit (mkInitOut (CACert pp) (ServerCert pp) (TLSCrypt pp) (ServerConf pp) (str "admin" v)
              ("https://" +:+ set_str (getenv "OVCP_LISTEN") "127.0.0.1:8443"))
           [s1; s2; "[3/5] tls-crypt key: " +:+ TLSCrypt pp; s4; s5]) (w1 ++ w2))).

End Cli.
End cli.
