(* ===== verification/CliMain.v ===== *)
(** * CliMain: the command table, dispatch and completion (cmd/ovcp/commands.go, main.go, completion.go)

    Which command, op and flags a command line means, the usage texts, and the
    words shell completion offers, which it reads from the same table. *)

From Stdlib Require Import Ascii.
From stdpp Require Import sorting.
From S2P Require Import Prelude GoStr GoErr GoFs GoTime NetIP Names Upstream UpstreamApply Store StoreUsers StoreStats Totp.
From S2P Require Import Auth Mgmt Control OvpnConf Pki LogRotate World CertApi UserApi ConfigApi UpstreamApi Records Sampler Backup Telegram ServerApi.
From S2P Require Import Boot Flags CliText CliPrint Cli.

Module climain.
Import store serverapi control boot flags clitext cliprint cli.

(** ** Ops *)

Definition vpnOps : list string := ["start"; "stop"; "restart"; "reconnect"; "status"; "kill"; "config"].
Definition vpnOpDesc : list (string * string) :=
  [("start", "bring the tunnel up"); ("stop", "bring it down"); ("restart", "full stop + fresh start");
   ("reconnect", "SIGUSR1, no restart"); ("status", "pid, uptime"); ("kill", "disconnect one client (-cn NAME)");
   ("config", "get|set|preview server settings")].
Definition vpnConfigOps : list string := ["get"; "set"; "preview"].
Definition configOpDesc : list (string * string) :=
  [("get", "print the persisted config"); ("set", "change and persist settings"); ("preview", "show a set's diff, unsaved")].
Definition dnsOps : list string := ["start"; "stop"; "restart"; "status"; "config"].
Definition dnsOpDesc : list (string * string) :=
  [("start", "bring dnsmasq up"); ("stop", "bring it down"); ("restart", "full stop + fresh start");
   ("status", "pid, uptime"); ("config", "get|set dnsmasq settings")].
Definition getSet : list string := ["get"; "set"].
Definition certOps : list string := ["issue"; "list"; "revoke"; "renew"].
Definition certOpDesc : list (string * string) :=
  [("issue", "issue or renew a client cert (-export for a .ovpn)"); ("list", "list certs, filter/sort");
   ("revoke", "revoke a client cert, regen CRL"); ("renew", "renew or rename the server cert")].
Definition caOps : list string := ["rotate"; "renew"; "status"].
Definition caOpDesc : list (string * string) :=
  [("status", "CN, expiry, status — read-only"); ("rotate", "re-encrypt the CA key under a new passphrase");
   ("renew", "reissue the CA cert, same key, extended validity")].
Definition recordOps : list string := ["list"; "edit"; "include"; "exclude"].
Definition recordOpDesc : list (string * string) :=
  [("list", "list internal DNS records"); ("edit", "$EDITOR for custom.hosts");
   ("include", "resolve this CN while connected — client certs only (-cn NAME)");
   ("exclude", "stop resolving this CN — client certs only (-cn NAME)")].
Definition userOps : list string := ["add"; "list"; "del"; "disable"; "enable"; "passwd"; "totp"].
Definition userOpDesc : list (string * string) :=
  [("add", "create an account"); ("list", "list accounts"); ("del", "delete an account"); ("disable", "lock an account out");
   ("enable", "unlock an account"); ("passwd", "change a password"); ("totp", "enable/disable 2FA")].
Definition backupOps : list string := ["create"; "restore"].
Definition backupOpDesc : list (string * string) :=
  [("create", "encrypted archive of CA, config, database, to stdout"); ("restore", "extract the archive on stdin into -data")].
Definition debugOps : list string := ["on"; "off"].
Definition debugOpDesc : list (string * string) := [("on", "verbose logging, no restart"); ("off", "back to normal logging")].
Definition telegramOps : list string := ["config"; "start"; "stop"; "restart"; "status"].
Definition telegramOpDesc : list (string * string) :=
  [("config", "get|set token/admin"); ("start", "start the poller"); ("stop", "stop the poller");
   ("restart", "restart the poller"); ("status", "token/admin/chat-linked state")].
Definition logsOps : list string := ["config"; "rotate"; "status"].
Definition logsOpDesc : list (string * string) :=
  [("config", "get|set rotation policy"); ("rotate", "copytruncate all logs now"); ("status", "sizes + rotation state")].
Definition upstreamOps : list string := ["list"; "add"; "del"; "set-default"; "assign"; "reconcile"; "status"].
Definition upstreamOpDesc : list (string * string) :=
  [("list", "configured upstreams and the active default"); ("add", "define one (-id, -iface [-gateway] | -socks URL, [-desc])");
   ("del", "remove one (-id)"); ("set-default", "switch the active exit (-id | -clear)");
   ("assign", "per-client override (-cn, -id | -clear)"); ("reconcile", "re-apply and report which upstreams are up/down");
   ("status", "nftables detection + enabled state")].
Definition shells : list string := ["bash"; "zsh"; "fish"].

Definition assoc {A} (name : string) (l : list (string * A)) : option A := (λ p, p.2.2) <$> list_find (λ p, p.1 = name) l.

(** ** Usage texts *)

(** [text/tabwriter] on two columns: the first as wide as its widest cell and
    three spaces. *)
Definition two_columns (rows : list (string * string)) : list string :=
  let w := (foldl Nat.max O (rune_count <$> rows.*1) + 3)%nat in (λ r, pad_right w r.1 +:+ r.2) <$> rows.

Definition opsUsage (name : string) (ops : list string) (desc : list (string * string)) : string :=
  trim_right is_lf (unlines (("usage: ovcp " +:+ name +:+ " <op>") ::
                             two_columns ((λ o, ("  " +:+ o, default "" (assoc o desc))) <$> ops))).

(** ** Dispatch *)

(** How a command ends: with an outcome, an exit status, or as a loop: the
    live view, or serve. *)
Inductive exit := Finished (o : outcome) | Quit (code : Z) (msg : string)
  | Following (sock cn : string) (interval : Z) | Serving (listen mgmt ctrl : string).

(** What parsing the words so far leads to: a body with its arguments still to
    be parsed, something to run, an error, or a nil function called. *)
Inductive plan (S H : Type) :=
  | PUsage (text : string) | PBody (path : string) (b : body S H) (args : list string) (after : Act S H outcome → Act S H outcome)
  | PRun (m : Act S H exit) | PNil.
Arguments PUsage {S H}. Arguments PBody {S H}. Arguments PRun {S H}. Arguments PNil {S H}.

Definition same {S H} (m : Act S H outcome) : Act S H outcome := m.

Definition opArgList (ops args : list string) : option (string * list string) :=
  match args with
  | op :: rest => if decide (op ∈ ops) then Some (op, rest) else None
  | [] => None
  end.

Definition opDispatch {S H} (name : string) (ops : list string) (desc : list (string * string)) (bodies : list (string * body S H))
    (rest : list string) : plan S H :=
  match opArgList ops rest with
  | None => PUsage (opsUsage name ops desc)
  | Some (op, crest) => match assoc op bodies with
                        | Some b => PBody (name +:+ " " +:+ op) b crest same
                        | None => PNil
                        end
  end.

Definition finish {S H} (m : Act S H outcome) : Act S H exit := o ← m; mret (Finished o).

(** A FlagSet that exits on error: 0 for help, 2 for anything else. *)
Definition parse_or_exit {S H} (fs : FlagSet) (args : list string) (k : Values → list string → Act S H exit) : Act S H exit :=
  match Parse fs args with
  | Parsed v rest => k v rest
  | HelpWanted => mret (Quit 0 "")
  | Rejected e => mret (Quit 2 (Error e))
  end.

Definition follow_plan {S H} (p : plan S H) : Act S H exit :=
  match p with
  | PUsage text => a_fail (Errorf "%s" [text])
  | PBody _ b args after => parse_or_exit (b_flags b) args (λ v rest, finish (after (b_run b v rest)))
  | PRun m => m
  | PNil => a_fail (pki.go_panic "nil function")
  end.

Record nestedDispatch (S H : Type) := mkNested { n_ops : list string; n_bodies : list (string * body S H) }.
Arguments mkNested {S H}. Arguments n_ops {S H}. Arguments n_bodies {S H}.

(** [c_sub] is [None] for a command without ops. *)
Record command (S H : Type) := mkCommand {
  c_name : string; c_alias : string; c_desc : string; c_sub : option (list string); c_subDesc : list (string * string);
  c_flags : FlagSet; c_run : Values → list string → plan S H;
  c_opBodies : list (string * body S H); c_nested : list (string * nestedDispatch S H) }.
Arguments mkCommand {S H}. Arguments c_name {S H}. Arguments c_alias {S H}. Arguments c_desc {S H}. Arguments c_sub {S H}.
Arguments c_subDesc {S H}. Arguments c_flags {S H}. Arguments c_run {S H}. Arguments c_opBodies {S H}. Arguments c_nested {S H}.

(** ** Completion *)

Section Complete.
  Context {S H : Type} (commands : list (command S H)) (global : FlagSet).

(** [c.name == w || c.alias == w]; a command without an alias has "". *)
Definition called (w : string) (c : command S H) : bool := String.eqb (c_name c) w || String.eqb (c_alias c) w.
Definition find_command (w : string) : option (command S H) := List.find (called w) commands.

(** [VisitAll], in the order of the names. *)
Definition flag_words (fs : FlagSet) : list string := (λ n, "-" +:+ n) <$> merge_sort s_le (f_name <$> fs).
Definition opBodiesFlagNames (bodies : list (string * body S H)) (op : string) : list string :=
  match assoc op bodies with Some b => flag_words (b_flags b) | None => [] end.

Definition complete_rest (rest : list string) : list string :=
  match rest with
  | [] => (c_name <$> commands) ++ flag_words global
  | [w] => match find_command w with
           | None => []
           | Some c => match c_sub c with Some ops => ops | None => flag_words (c_flags c) end
           end
  | w :: op :: more =>
      match find_command w with
      | None => []
      | Some c => match assoc op (c_nested c) with
                  | Some nd => match more with [] => n_ops nd | x :: _ => opBodiesFlagNames (n_bodies nd) x end
                  | None => opBodiesFlagNames (c_opBodies c) op
                  end
      end
  end.

(** [completeArgs]; [None]: [words[1:]] of no words. *)
Definition completeArgs (words : list string) : option (list string) :=
  match words with
  | [] => None
  | _ :: words => Some (match Parse global words with Parsed _ rest => complete_rest rest | _ => [] end)
  end.

End Complete.

Definition bashCompletion : string := unlines [
  "# ovcp bash completion";
  "_ovcp_complete() {";
  tab +:+ "local words";
  tab +:+ "words=$(ovcp __complete " +:+ String DQ "${COMP_WORDS[@]:0:COMP_CWORD}" +:+ String DQ ")";
  tab +:+ "COMPREPLY=($(compgen -W " +:+ String DQ "$words" +:+ String DQ " -- " +:+ String DQ "${COMP_WORDS[COMP_CWORD]}" +:+ String DQ "))";
  "}";
  "complete -F _ovcp_complete ovcp"].
Definition zshCompletion : string := unlines [
  "#compdef ovcp";
  "_ovcp() {";
  tab +:+ "local -a candidates";
  tab +:+ "candidates=(${(f)" +:+ String DQ "$(ovcp __complete ${words[1,CURRENT-1]})" +:+ String DQ ")";
  tab +:+ "compadd -a candidates";
  "}";
  "_ovcp"].
Definition fishCompletion : string := unlines [
  "function __ovcp_complete";
  tab +:+ "ovcp __complete (commandline -opc)";
  "end";
  "complete -c ovcp -f -a '(__ovcp_complete)'"].

Definition completionScript (shell : string) : result string :=
  if String.eqb shell "bash" then Ok bashCompletion
  else if String.eqb shell "zsh" then Ok zshCompletion
  else if String.eqb shell "fish" then Ok fishCompletion
  else Err (Errorf "usage: ovcp completion bash|zsh|fish" []).

(** ** The command table *)

Section Table.
  Context {S H : Type} `{mgmt.Server S} `{tracker.HostOps H}.
  Context `{pki.X509} `{!pki.EcPem} `{pki.EnvelopeJson} `{pki.Calendar} `{Argon2 : auth.Argon2} `{Aead : users.Aead}.
  Context `{auth.UnicodeTables} `{backup.Tar} `{backup.Snapshot} `{Sorting}.
  Context `{!JsonInto upstream.Config} `{!JsonInto logrotate.LogConfig} `{!JsonInto configapi.StatsConfig} `{!JsonInto configapi.DNSConfig}.
  Context `{Json ControlResult} `{Json TelegramStatus} `{Json (list mgmt.VPNClient)}.
  Context (getenv : string → string) (unmarshal_config : string → ovpnconf.Config → ovpnconf.Config).
  Context (marshal_config : ovpnconf.Config → string) (qr_data_uri : string → result string).
  Context (getMe : string → option goerr) (offset : Z → Z) (probe : Probe).
  Context (ask : string → bool → result string) (edit : string → result string).
  Context (deps : ControlDeps (upstreamapi.Serve S H)) (up : bool).

Section Commands.
  Context (sh : Shell) (dataDir : string).

Notation Body := (body S H).

Definition certBodies : list (string * Body) :=
  [("issue", cmdIssue getenv unmarshal_config ask edit deps up dataDir);
   ("list", cmdList offset dataDir);
   ("revoke", cmdRevoke getenv unmarshal_config ask deps up dataDir);
   ("renew", cmdRenew getenv ask dataDir)].
Definition caBodies : list (string * Body) :=
  [("rotate", cmdRotateCA getenv ask dataDir); ("renew", cmdRenewCA getenv ask dataDir); ("status", cmdCAStatus dataDir)].
Definition backupBodies : list (string * Body) :=
  [("create", cmdBackupCreate getenv ask sh dataDir); ("restore", cmdBackupRestore getenv ask sh dataDir)].
Definition proc (name wirePrefix op : string) : string * Body := (op, procOpBody getenv deps up dataDir name op wirePrefix).
Definition vpnBodies : list (string * Body) :=
  (proc "vpn" "" <$> ["start"; "stop"; "restart"; "reconnect"; "status"]) ++ [("kill", cmdKill getenv deps up dataDir)].
Definition vpnConfigBodies : list (string * Body) :=
  [("get", cmdVPNConfigGet getenv unmarshal_config dataDir);
   ("set", cmdVPNConfigSet getenv unmarshal_config marshal_config edit dataDir);
   ("preview", cmdVPNConfigPreview getenv unmarshal_config edit dataDir)].
Definition dnsBodies : list (string * Body) := proc "dns" "dns-" <$> ["start"; "stop"; "restart"; "status"].
Definition dnsConfigBodies : list (string * Body) :=
  [("get", cmdDNSConfigGet getenv unmarshal_config dataDir); ("set", cmdDNSConfigSet getenv unmarshal_config dataDir)].
Definition recordBodies : list (string * Body) :=
  [("list", cmdRecordList getenv unmarshal_config offset deps up dataDir);
   ("edit", cmdRecordEdit edit dataDir);
   ("include", cmdRecordIncludeExclude getenv unmarshal_config deps up dataDir "include");
   ("exclude", cmdRecordIncludeExclude getenv unmarshal_config deps up dataDir "exclude")].
Definition upstreamBodies : list (string * Body) :=
  [("status", cmdUpstreamStatus getenv sh dataDir); ("list", cmdUpstreamList getenv dataDir);
   ("add", cmdUpstreamAdd getenv deps up sh dataDir); ("del", cmdUpstreamDel getenv deps up sh dataDir);
   ("set-default", cmdUpstreamSetDefault getenv deps up sh dataDir);
   ("assign", cmdUpstreamAssign getenv unmarshal_config marshal_config deps up sh dataDir);
   ("reconcile", cmdUpstreamReconcile getenv deps up sh dataDir)].
Definition logConfigBodies : list (string * Body) :=
  [("get", cmdLogsConfigGet getenv dataDir); ("set", cmdLogsConfigSet getenv dataDir)].
Definition debugBodies : list (string * Body) :=
  [("on", cmdDebugOp getenv deps up dataDir "on"); ("off", cmdDebugOp getenv deps up dataDir "off")].
Definition telegramConfigBodies : list (string * Body) :=
  [("get", cmdTelegramConfigGet dataDir); ("set", cmdTelegramConfigSet getenv getMe ask dataDir)].
Definition telegramBodies : list (string * Body) :=
  (λ op, (op, telegramLifecycleBody getenv deps up dataDir op)) <$> ["start"; "stop"; "restart"; "status"].
Definition userBodies : list (string * Body) :=
  [("add", cmdUserAdd getenv ask dataDir); ("list", cmdUserList offset dataDir); ("del", cmdUserDel dataDir);
   ("disable", cmdUserEnableDisable dataDir "disable"); ("enable", cmdUserEnableDisable dataDir "enable");
   ("passwd", cmdUserPasswd getenv ask dataDir); ("totp", cmdUserTOTP getenv qr_data_uri dataDir)].
Definition statsConfigBodies : list (string * Body) :=
  [("get", cmdStatsConfigGet getenv dataDir); ("set", cmdStatsConfigSet getenv dataDir)].

(** [opArg] and the special cases before [runProcOp]. *)
Definition cmdVPN (args : list string) : plan S H :=
  match opArgList vpnOps args with
  | None => PUsage (opsUsage "vpn" vpnOps vpnOpDesc)
  | Some (op, rest) =>
      if String.eqb op "kill" then PBody "vpn kill" (cmdKill getenv deps up dataDir) rest same
      else if String.eqb op "config" then opDispatch "vpn config" vpnConfigOps configOpDesc vpnConfigBodies rest
      else PBody ("vpn " +:+ op) (proc "vpn" "" op).2 rest
             (if String.eqb op "start" then with_routing_warning getenv probe sh else same)
  end.

Definition cmdDNS (args : list string) : plan S H :=
  match opArgList dnsOps args with
  | None => PUsage (opsUsage "dns" dnsOps dnsOpDesc)
  | Some (op, rest) =>
      if String.eqb op "config" then opDispatch "dns config" getSet configOpDesc dnsConfigBodies rest
      else PBody ("dns " +:+ op) (proc "dns" "dns-" op).2 rest same
  end.

Definition cmdTelegram (args : list string) : plan S H :=
  match opArgList telegramOps args with
  | None => PUsage (opsUsage "telegram" telegramOps telegramOpDesc)
  | Some (op, rest) =>
      if String.eqb op "config" then opDispatch "telegram config" getSet configOpDesc telegramConfigBodies rest
      else match assoc op telegramBodies with
           | Some b => PBody ("telegram " +:+ op) b rest same
           | None => PNil
           end
  end.

Definition cmdLogs (args : list string) : plan S H :=
  match opArgList logsOps args with
  | None => PUsage (opsUsage "logs" logsOps logsOpDesc)
  | Some (op, rest) =>
      if String.eqb op "config" then opDispatch "logs config" getSet configOpDesc logConfigBodies rest
      else if String.eqb op "rotate" then PBody "logs rotate" (cmdLogsRotate getenv dataDir) rest same
      else PBody "logs status" (cmdLogsStatus getenv dataDir) rest same
  end.

Definition cmdStats (v : Values) (args : list string) : plan S H :=
  match args with
  | "config" :: args => opDispatch "stats config" getSet configOpDesc statsConfigBodies args
  | _ =>
      if flag_bool "follow" v then
        PRun (if jsonOut sh then a_fail (Errorf "-json is not supported with -follow" [])
              else mret (Following (str "ctrl" v) (str "cn" v) (if int "interval" v <=? 0 then 2 else int "interval" v)))
      else PRun (finish (cmdStatsShow getenv dataDir v))
  end.

Definition cmdCompletion (args : list string) : Act S H exit :=
  if jsonOut sh then a_fail (Errorf "-json is not supported for completion (already a script, not data)" [])
  else s ← a_of (completionScript (default "" (head args))); mret (Finished (mkOutcome (RScript s) [])).

Definition serve_flags : FlagSet :=
  [sf "listen" (set_str (getenv "OVCP_LISTEN") "127.0.0.1:8443"); sf "mgmt" (mgmtSock getenv); ctrl_flag getenv].

(** A command whose flags are all its own. *)
Definition plain_cmd (name desc : string) (b : Body) : command S H :=
  mkCommand name "" desc None [] (b_flags b) (λ v args, PRun (finish (b_run b v args))) [] [].
(** A command that only dispatches on an op. *)
Definition op_cmd (name alias desc : string) (ops : list string) (opDesc : list (string * string)) (bodies : list (string * Body)) : command S H :=
  mkCommand name alias desc (Some ops) opDesc [] (λ _ args, opDispatch name ops opDesc bodies args) bodies [].
Definition config_nested (ops : list string) (bodies : list (string * Body)) : list (string * nestedDispatch S H) :=
  [("config", mkNested ops bodies)].

Definition commands : list (command S H) := [
  plain_cmd "init" "one-shot setup: CA, server cert, admin user" (cmdInit getenv marshal_config ask sh dataDir);
  op_cmd "certificate" "cert" "issue, list, revoke, renew certs" certOps certOpDesc certBodies;
  op_cmd "ca" "" "CA passphrase rotation or cert renewal, CLI-only" caOps caOpDesc caBodies;
  op_cmd "backup" "" "encrypted export/import: CA, config, database" backupOps backupOpDesc backupBodies;
  plain_cmd "status" "full-system overview: vpn, dns, certs, telegram" (cmdStatus getenv probe deps up sh dataDir);
  mkCommand "stats" "" "traffic history, live follow, sampling config" None [] (stats_flags getenv) cmdStats
    [] (config_nested getSet statsConfigBodies);
  mkCommand "vpn" "" "manage the openvpn worker" (Some vpnOps) vpnOpDesc [] (λ _, cmdVPN)
    vpnBodies (config_nested vpnConfigOps vpnConfigBodies);
  mkCommand "dns" "" "manage the dnsmasq worker" (Some dnsOps) dnsOpDesc [] (λ _, cmdDNS)
    dnsBodies (config_nested getSet dnsConfigBodies);
  op_cmd "record" "" "manage internal DNS records" recordOps recordOpDesc recordBodies;
  op_cmd "upstream" "" "route VPN egress through a chosen interface or SOCKS proxy" upstreamOps upstreamOpDesc upstreamBodies;
  mkCommand "logs" "" "log rotation for openvpn/ovcp/dnsmasq logs" (Some logsOps) logsOpDesc [] (λ _, cmdLogs)
    [] (config_nested getSet logConfigBodies);
  op_cmd "debug" "" "toggle verbose logging on a running serve" debugOps debugOpDesc debugBodies;
  mkCommand "telegram" "" "notify + control bot" (Some telegramOps) telegramOpDesc [] (λ _, cmdTelegram)
    telegramBodies (config_nested getSet telegramConfigBodies);
  op_cmd "user" "" "manage admin UI accounts" userOps userOpDesc userBodies;
  plain_cmd "audit" "last 50 audit entries" (cmdAudit offset dataDir);
  mkCommand "serve" "" "run admin UI + API" None [] serve_flags
    (λ v _, PRun (openStore dataDir ;; mret (Serving (str "listen" v) (str "mgmt" v) (str "ctrl" v)))) [] [];
  plain_cmd "version" "print version" (cmdVersion sh);
  mkCommand "completion" "" "shell completion script" (Some shells) [] [] (λ _ args, PRun (cmdCompletion args)) [] []].

End Commands.

(** ** A whole command line *)

Definition globalFlags : FlagSet :=
  [sf "data" (set_str (getenv "OVCP_DATA") "/var/lib/ovcp"); bf "no-color"; bf "json"; bf "debug"].

Definition helpText (cmds : list (command S H)) : string :=
  "ovcp <command>" +:+ nl +:+
  unlines (two_columns ((λ c, ("  " +:+ c_name c +:+ (if String.eqb (c_alias c) "" then "" else " (" +:+ c_alias c +:+ ")"), c_desc c)) <$> cmds)) +:+
  nl +:+ "ovcp <command> -h lists that command's own ops; ovcp <command> <op> -h its flags." +:+ nl +:+
  "-data DIR overrides $OVCP_DATA (default /var/lib/ovcp); must come before" +:+ nl +:+
  "the command, e.g. ovcp -data /tmp/ovcp init ..." +:+ nl +:+
  "-no-color disables ANSI colors; -debug turns on debug-level logging." +:+ nl +:+
  "-json switches every command to JSON output (JSON log lines for serve);" +:+ nl +:+
  "all three go before the command, e.g. ovcp -json certificate list." +:+ nl +:+
  "Full guide: ovcp(8).".

(** The shell with the global flags taken into account. *)
Definition with_json (sh : Shell) (j : bool) : Shell :=
  mkShell (jsonOut sh || j) (stdout_tty sh) (stdin sh) (nft sh) (openvpn sh) (dnsmasq sh) (version sh) (buildTarget sh) (platform sh).

(** [filepath.Abs]. *)
Definition abs_path (cwd path : string) : string := if backup.IsAbs path then backup.Clean path else backup.Join cwd path.

(** [main], up to the identity it runs under ([dropRoot]) and the level it
    logs at (-debug). *)
Definition main (sh : Shell) (cwd : string) (argv : list string) : Act S H exit :=
  parse_or_exit globalFlags argv (λ g args,
    let dataDir := abs_path cwd (str "data" g) in
    let sh := with_json sh (flag_bool "json" g) in
    let cmds := commands sh dataDir in
    match args with
    | [] => mret (Quit 2 (helpText cmds))
    | w :: args =>
        if String.eqb w "__complete" then
          match completeArgs cmds globalFlags args with
          | None => a_fail (pki.go_panic "slice bounds out of range")
          | Some l => mret (Finished (mkOutcome (RScript (join nl l +:+ nl)) []))
          end
        else match find_command cmds w with
             | None => mret (Quit 2 (helpText cmds))
             | Some c => parse_or_exit (c_flags c) args (λ v rest, follow_plan (c_run c v rest))
             end
    end).

(** ** What completion offers *)

Definition accepted (p : plan S H) : bool := match p with PUsage _ | PNil => false | _ => true end.
Definition flags_of (p : plan S H) : option FlagSet := match p with PBody _ b _ _ => Some (b_flags b) | _ => None end.
Definition a_flag (fs : FlagSet) (w : string) : Prop := ∃ f, f ∈ fs ∧ w = "-" +:+ f_name f.

(** A word in place after some others: a command, an op or a flag of what they
    lead to. *)
Definition fits_after (cmds : list (command S H)) (rest : list string) (w : string) : Prop :=
  match rest with
  | [] => (∃ c, find_command cmds w = Some c ∧ c_name c = w) ∨ a_flag globalFlags w
  | [x] => ∃ c, find_command cmds x = Some c ∧
             ((∀ v, ∃ more, accepted (c_run c v (w :: more)) = true) ∨ a_flag (c_flags c) w)
  | x :: op :: more => ∃ c, find_command cmds x = Some c ∧ ∀ v,
      (more = [] ∧ ∀ more', accepted (c_run c v (op :: w :: more')) = true) ∨
      ∃ fs, flags_of (c_run c v (op :: more)) = Some fs ∧ a_flag fs w
  end.

(** A body to be run on words still to be parsed. *)
Definition leads_to (p : plan S H) (b : body S H) (more : list string) : Prop := ∃ path after, p = PBody path b more after.

(** A command's completion data agree with what its closure dispatches on. *)
Record coherent (c : command S H) : Prop := {
  co_sub : ∀ ops op v, c_sub c = Some ops → op ∈ ops → ∃ more, accepted (c_run c v (op :: more)) = true;
  co_other : ∀ ops op v more, c_sub c = Some ops → op ∉ ops → c_name c ≠ "completion" → accepted (c_run c v (op :: more)) = false;
  co_nested : ∀ op nd, (op, nd) ∈ c_nested c →
    (∀ x, x ∈ n_ops nd ↔ x ∈ (n_bodies nd).*1) ∧
    ∀ x b v more, assoc x (n_bodies nd) = Some b → flags_of (c_run c v (op :: x :: more)) = Some (b_flags b);
  co_bodies : ∀ op b v more, (op, b) ∈ c_opBodies c → leads_to (c_run c v (op :: more)) b more }.

Lemma assoc_in {A} name (l : list (string * A)) a : assoc name l = Some a → (name, a) ∈ l.
Proof.
  unfold assoc. destruct (list_find _ l) as [[i [n x]]|] eqn:E; [|done]. intros [= <-].
  apply list_find_Some in E as (E&<-&_). by eapply list_elem_of_lookup_2.
Qed.

Lemma assoc_first {A} name (l : list (string * A)) : name ∈ l.*1 → ∃ a, assoc name l = Some a.
Proof.
  intros Hin. unfold assoc. destruct (list_find _ l) as [[i [n x]]|] eqn:E; [by eexists|].
  apply list_find_None in E. apply list_elem_of_fmap in Hin as ([n x]&->&Hin).
  rewrite Forall_forall in E. by destruct (E _ Hin).
Qed.

Lemma flag_words_in fs w : w ∈ flag_words fs → a_flag fs w.
Proof.
  unfold flag_words. intros (n&->&Hn)%list_elem_of_fmap. rewrite merge_sort_Permutation in Hn.
  apply list_elem_of_fmap in Hn as (f&->&Hf). by exists f.
Qed.

Lemma body_accepted (p : plan S H) fs : flags_of p = Some fs → accepted p = true.
Proof. by destruct p. Qed.

Lemma opDispatch_flags name ops desc (bodies : list (string * body S H)) op b more :
  op ∈ ops → assoc op bodies = Some b → flags_of (opDispatch name ops desc bodies (op :: more)) = Some (b_flags b).
Proof. intros Ho Hb. unfold opDispatch, opArgList. rewrite decide_True by done. by rewrite Hb. Qed.

Lemma opDispatch_unknown name ops desc (bodies : list (string * body S H)) op more :
  op ∉ ops → accepted (opDispatch name ops desc bodies (op :: more)) = false.
Proof. intros Ho. unfold opDispatch, opArgList. by rewrite decide_False. Qed.

Lemma assoc_NoDup {A} name (l : list (string * A)) a : NoDup l.*1 → (name, a) ∈ l → assoc name l = Some a.
Proof.
  intros Hn Hin. destruct (assoc_first name l) as [a' E]; [by apply (list_elem_of_fmap_2 fst) in Hin|].
  rewrite E. f_equal. apply assoc_in in E.
  apply list_elem_of_lookup in Hin as [i Hi], E as [j Hj].
  assert (i = j) as -> by (eapply NoDup_lookup; [done|by rewrite list_lookup_fmap, Hi|by rewrite list_lookup_fmap, Hj]).
  congruence.
Qed.

Lemma op_cmd_coherent name alias desc ops opDesc (bodies : list (string * body S H)) :
  bodies.*1 ≡ₚ ops → NoDup ops → coherent (op_cmd name alias desc ops opDesc bodies).
Proof.
  intros Hp Hn. split; cbn.
  - intros ops' op v [= <-] Hop. exists []. destruct (assoc_first op bodies) as [b Hb]; [by rewrite Hp|].
    eapply body_accepted. by apply opDispatch_flags.
  - intros ops' op v more [= <-] Hop _. by apply opDispatch_unknown.
  - intros op nd []%not_elem_of_nil.
  - intros op b v more Hb. assert (op ∈ ops) as Ho by (rewrite <-Hp; by apply (list_elem_of_fmap_2 fst) in Hb).
    unfold opDispatch, opArgList. rewrite decide_True by done.
    rewrite (assoc_NoDup op bodies b) by (by rewrite ?Hp). by do 2 eexists.
Qed.

Lemma plain_cmd_coherent name desc (b : body S H) : coherent (plain_cmd name desc b).
Proof. split; cbn; try done; first [by intros ?? ?%not_elem_of_nil | by intros ???? ?%not_elem_of_nil]. Qed.

Lemma nested_coherent name ops desc (bodies : list (string * body S H)) (run : list string → plan S H) :
  (∀ args, run ("config" :: args) = opDispatch name ops desc bodies args) → bodies.*1 ≡ₚ ops → NoDup ops →
  ∀ op nd, (op, nd) ∈ config_nested ops bodies →
    (∀ x, x ∈ n_ops nd ↔ x ∈ (n_bodies nd).*1) ∧
    ∀ x b more, assoc x (n_bodies nd) = Some b → flags_of (run (op :: x :: more)) = Some (b_flags b).
Proof.
  intros Hr Hp Hn op nd [[= -> ->]|[]%not_elem_of_nil]%elem_of_cons. cbn. split; [by intros; rewrite Hp|].
  intros x b more Hb. rewrite Hr. apply opDispatch_flags; [|done]. rewrite <-Hp.
  apply assoc_in in Hb. by apply (list_elem_of_fmap_2 fst) in Hb.
Qed.

Ltac each_elem Hin tac :=
  match type of Hin with
  | _ ∈ [] => by apply not_elem_of_nil in Hin
  | _ => apply elem_of_cons in Hin as [Hin|Hin]; [tac Hin|each_elem Hin tac]
  end.
Ltac distinct := apply (bool_decide_unpack _); by vm_compute.

(** A command with ops of its own and [config] one level deeper. *)
Lemma worker_coherent name desc ops opDesc (run : list string → plan S H) bodies nname nops (nbodies : list (string * body S H)) :
  (∀ args, run ("config" :: args) = opDispatch nname nops configOpDesc nbodies args) → nbodies.*1 ≡ₚ nops → NoDup nops → "get" ∈ nops →
  (∀ op more, op ∈ ops → op ≠ "config" → accepted (run (op :: more)) = true) →
  (∀ op more, op ∉ ops → accepted (run (op :: more)) = false) →
  (∀ op b more, (op, b) ∈ bodies → leads_to (run (op :: more)) b more) →
  coherent (mkCommand name "" desc (Some ops) opDesc [] (λ _, run) bodies (config_nested nops nbodies)).
Proof.
  intros Hc Hp Hn Hg Ha Hu Hb. split; cbn.
  - intros ops' op v [= <-] Hop. destruct (decide (op = "config")) as [->|Hne]; [|exists []; by apply Ha].
    exists ["get"]. rewrite Hc. destruct (assoc_first "get" nbodies) as [b E]; [by rewrite Hp|].
    eapply body_accepted. by apply opDispatch_flags.
  - intros ops' op v more [= <-] Hop _. by apply Hu.
  - intros op nd Hin. destruct (nested_coherent nname nops configOpDesc nbodies run Hc Hp Hn op nd Hin) as [H1' H2']. auto.
  - intros op b v more Hin. by apply Hb.
Qed.

Ltac worker cmd :=
  eapply worker_coherent; [reflexivity|reflexivity|distinct|by left| | | ];
  [ intros op more Hop Hne; each_elem Hop ltac:(fun E => subst op; first [reflexivity|done])
  | intros op more Hop; unfold cmd, opArgList; by rewrite decide_False
  | intros op b more Hin; each_elem Hin ltac:(fun E => injection E as -> ->; do 2 eexists; reflexivity) ].

Lemma commands_coherent sh dataDir : Forall coherent (commands sh dataDir).
Proof.
  unfold commands.
  repeat (apply Forall_cons; split); [..|by apply Forall_nil_2].
  all: try apply plain_cmd_coherent.
  all: try (apply op_cmd_coherent; [first [reflexivity | symmetry; apply Permutation_cons_append | apply Permutation_cons_append]|distinct]).
  - split; cbn; try done; [|by intros ???? ?%not_elem_of_nil].
    intros op nd Hin.
    destruct (nested_coherent "stats config" getSet configOpDesc (statsConfigBodies dataDir) (cmdStats sh dataDir ∅)
                (λ _, eq_refl) ltac:(reflexivity) ltac:(distinct) op nd Hin) as [H1' _]. split; [done|].
    intros x b v more. by apply (nested_coherent "stats config" getSet configOpDesc (statsConfigBodies dataDir) (cmdStats sh dataDir v)
                (λ _, eq_refl) ltac:(reflexivity) ltac:(distinct) op nd Hin).
  - worker cmdVPN.
  - worker cmdDNS.
  - worker cmdLogs.
  - worker cmdTelegram.
  - split; cbn; try done; first [by intros ?? ?%not_elem_of_nil | by intros ???? ?%not_elem_of_nil].
  - split; cbn; [|by intros ???????|by intros ?? ?%not_elem_of_nil|by intros ???? ?%not_elem_of_nil].
    intros ? op v [= <-] Hop. by exists [].
Qed.

Lemma find_command_Some cmds w (c : command S H) : find_command cmds w = Some c → c ∈ cmds ∧ called w c = true.
Proof. intros E. apply find_some in E as [Hin Hc]. split; [by apply list_elem_of_In|done]. Qed.

(** Every command is the first one called by its name. *)
Lemma commands_named sh dataDir c : c ∈ commands sh dataDir → find_command (commands sh dataDir) (c_name c) = Some c.
Proof. intros Hin. unfold commands in *. each_elem Hin ltac:(fun E => subst c; reflexivity). Qed.

Lemma opBodies_flag (bodies : list (string * body S H)) op w :
  w ∈ opBodiesFlagNames bodies op → ∃ b, assoc op bodies = Some b ∧ a_flag (b_flags b) w.
Proof.
  unfold opBodiesFlagNames. destruct (assoc op bodies) as [b|]; [|by intros ?%not_elem_of_nil].
  intros Hw. exists b. split; [done|by apply flag_words_in].
Qed.

(** Shell completion never offers a word the program would refuse: after
    any words, what it offers is a command, an op the command's dispatch takes,
    or a flag of exactly the flag set that dispatch will parse; it offers every
    command, and an op it does not offer is refused. *)
Theorem completion_sound sh dataDir self words g rest l w
    (Hc : completeArgs (commands sh dataDir) globalFlags (self :: words) = Some l)
    (Hp : Parse globalFlags words = Parsed g rest) :
  (w ∈ l → fits_after (commands sh dataDir) rest w) ∧
  (rest = [] → ∀ c, c ∈ commands sh dataDir → c_name c ∈ l) ∧
  (∀ c v more, rest = [c_name c] → c ∈ commands sh dataDir → c_sub c ≠ None → c_name c ≠ "completion" →
     w ∉ l → accepted (c_run c v (w :: more)) = false).
Proof.
  unfold completeArgs in Hc. rewrite Hp in Hc. injection Hc as <-. split_and!.
  - pose proof (commands_coherent sh dataDir) as Hco. rewrite Forall_forall in Hco.
    unfold complete_rest, fits_after. destruct rest as [|x [|op more]].
    + intros [Hw|Hw]%elem_of_app; [left|right; by apply flag_words_in].
      apply list_elem_of_fmap in Hw as (c&->&Hin). exists c. split; [by apply commands_named|done].
    + destruct (find_command (commands sh dataDir) x) as [c|] eqn:E; [|by intros ?%not_elem_of_nil].
      intros Hw. exists c. split; [done|]. apply find_command_Some in E as [Hin _]. destruct (Hco c Hin) as [Hs _ _ _].
      destruct (c_sub c) as [ops|] eqn:Es; [left|right; by apply flag_words_in]. intros v. by eapply Hs.
    + destruct (find_command (commands sh dataDir) x) as [c|] eqn:E; [|by intros ?%not_elem_of_nil].
      intros Hw. exists c. split; [done|]. intros v. apply find_command_Some in E as [Hin _].
      destruct (Hco c Hin) as [_ _ Hn Hb]. destruct (assoc op (c_nested c)) as [nd|] eqn:En.
      * apply assoc_in in En. destruct (Hn op nd En) as [Hops Hflags]. destruct more as [|y more].
        -- left. split; [done|]. intros more'. apply Hops in Hw. destruct (assoc_first w (n_bodies nd) Hw) as [b Eb].
           eapply body_accepted. by apply Hflags.
        -- right. apply opBodies_flag in Hw as (b&Eb&Hw). exists (b_flags b). split; [by apply Hflags|done].
      * right. apply opBodies_flag in Hw as (b&Eb&Hw). exists (b_flags b). split; [|done].
        by destruct (Hb op b v more (assoc_in _ _ _ Eb)) as (path&after&->).
  - intros -> c Hin. apply elem_of_app. left. by apply list_elem_of_fmap_2.
  - intros c v more -> Hin Hsub Hne Hw. pose proof (commands_coherent sh dataDir) as Hco. rewrite Forall_forall in Hco.
    destruct (Hco c Hin) as [_ Ho _ _]. cbn [complete_rest] in Hw. rewrite commands_named in Hw by done.
    destruct (c_sub c) as [ops|] eqn:Es; [|done]. by eapply Ho.
Qed.

(** ** What a command line runs *)

(** A row of the command line: the words that name an operation, its flags,
    and what it does with their values and the operands. *)
Record row := mkRow { r_path : list string; r_flags : FlagSet; r_run : Values → list string → Act S H exit }.
Definition run_body (b : body S H) (v : Values) (rest : list string) : Act S H exit := finish (b_run b v rest).
Definition row_of (path : list string) (b : body S H) : row := mkRow path (b_flags b) (run_body b).
Definition under (path : list string) (bodies : list (string * body S H)) : list row :=
  (λ '(op, b), row_of (path ++ [op]) b) <$> bodies.

Section Operations.
  Context (sh : Shell) (dataDir : string).
Notation proc := (proc dataDir).

(** Every operation there is, by the words that name it: the commands without
    ops; each op of the others, [certificate] under its alias too; and the ops
    of their [config]. Only [vpn start] does more than its body. *)
Definition operations : list row :=
  [row_of ["init"] (cmdInit getenv marshal_config ask sh dataDir);
   row_of ["status"] (cmdStatus getenv probe deps up sh dataDir);
   row_of ["audit"] (cmdAudit offset dataDir);
   row_of ["version"] (cmdVersion sh);
   mkRow ["serve"] serve_flags (λ v _, openStore dataDir ;; mret (Serving (str "listen" v) (str "mgmt" v) (str "ctrl" v)));
   mkRow ["completion"] [] (λ _ args, cmdCompletion sh args);
   mkRow ["vpn"; "start"] (b_flags (proc "vpn" "" "start").2)
     (λ v rest, finish (with_routing_warning getenv probe sh (b_run (proc "vpn" "" "start").2 v rest)))] ++
  under ["vpn"] ((proc "vpn" "" <$> ["stop"; "restart"; "reconnect"; "status"]) ++ [("kill", cmdKill getenv deps up dataDir)]) ++
  under ["vpn"; "config"] (vpnConfigBodies dataDir) ++
  under ["dns"] (proc "dns" "dns-" <$> ["start"; "stop"; "restart"; "status"]) ++
  under ["dns"; "config"] (dnsConfigBodies dataDir) ++
  under ["telegram"] (telegramBodies dataDir) ++ under ["telegram"; "config"] (telegramConfigBodies dataDir) ++
  under ["logs"] [("rotate", cmdLogsRotate getenv dataDir); ("status", cmdLogsStatus getenv dataDir)] ++
  under ["logs"; "config"] (logConfigBodies dataDir) ++ under ["stats"; "config"] (statsConfigBodies dataDir) ++
  under ["certificate"] (certBodies dataDir) ++ under ["cert"] (certBodies dataDir) ++
  under ["ca"] (caBodies dataDir) ++ under ["backup"] (backupBodies sh dataDir) ++
  under ["record"] (recordBodies dataDir) ++ under ["upstream"] (upstreamBodies sh dataDir) ++
  under ["debug"] (debugBodies dataDir) ++ under ["user"] (userBodies dataDir).

(** How [main] gets there: the command's own flags are the operation's, or it
    takes none and dispatches on the next words. *)
Definition reached (o : row) : Prop := ∃ w ws c,
  r_path o = w :: ws ∧ classify w = TWord ∧ w ≠ "__complete" ∧ find_command (commands sh dataDir) w = Some c ∧
  match ws with
  | [] => c_flags c = r_flags o ∧ ∀ v rest, follow_plan (c_run c v rest) = r_run o v rest
  | op :: _ => classify op = TWord ∧
      ∀ v more, follow_plan (c_run c v (ws ++ more)) = parse_or_exit (r_flags o) more (r_run o)
  end.

Lemma operations_reached : Forall reached operations.
Proof.
  unfold operations, under, vpnConfigBodies, dnsConfigBodies, telegramBodies, telegramConfigBodies, logConfigBodies,
    statsConfigBodies, certBodies, caBodies, backupBodies, recordBodies, upstreamBodies, debugBodies, userBodies.
  cbn [fmap list_fmap app].
  repeat (apply Forall_cons; split); [..|by apply Forall_nil_2].
  all: do 3 eexists; (split; [reflexivity|]); (split; [reflexivity|]); (split; [discriminate|]); (split; [reflexivity|]);
    (split; [reflexivity|]); intros; reflexivity.
Qed.
End Operations.

Lemma main_reaches sh cwd gl g o more :
  forallb (spellable globalFlags) gl = true → settle globalFlags gl (defaults globalFlags) = Ok g →
  o ∈ operations (with_json sh (flag_bool "json" g)) (abs_path cwd (str "data" g)) →
  main sh cwd ((gl ≫= spell) ++ r_path o ++ more) = parse_or_exit (r_flags o) more (r_run o).
Proof.
  intros Hgl Hg Ho. pose proof (operations_reached (with_json sh (flag_bool "json" g)) (abs_path cwd (str "data" g))) as Hr.
  rewrite Forall_forall in Hr. destruct (Hr o Ho) as (w&ws&c&->&Hw&Hne&Hc&Hrow). cbn [app].
  unfold main, parse_or_exit at 1, Parse. rewrite (parse_settings _ _ _ g) by done.
  rewrite parse_operands by (cbn; by rewrite Hw). cbv zeta beta iota.
  rewrite (proj2 (String.eqb_neq _ _) Hne), Hc. destruct ws as [|op ws].
  - destruct Hrow as [-> Hrow]. cbn [app]. unfold parse_or_exit. destruct (Parse _ _) as [v rest| |e]; [apply Hrow|done..].
  - destruct Hrow as [Hop Hrow]. unfold parse_or_exit at 1, Parse. rewrite parse_operands by (cbn; by rewrite Hop). apply Hrow.
Qed.

(** C15: A command line says what its words say. Whatever the global settings
    before the words that name an operation and the settings of its flags after
    them, however they are spelled (one dash or two, the value after an equals
    sign or, but for booleans, in a word of its own, even one that looks like a
    flag) and in whatever order, [main] does exactly what that operation does,
    in the directory the global settings name, on the operands and on values
    in which a text flag is the last text given for it (its default when there
    is none) and a repeatable flag every line given, in order; a value that
    does not read exits with status 2 and runs nothing. The operations are all
    the program has but the display of [stats]. *)
Theorem main_runs_op sh cwd g gl o l rest h :
  forallb (spellable globalFlags) gl = true → settle globalFlags gl (defaults globalFlags) = Ok g →
  o ∈ operations (with_json sh (flag_bool "json" g)) (abs_path cwd (str "data" g)) →
  forallb (spellable (r_flags o)) l = true → operands rest = true →
  let run := main sh cwd ((gl ≫= spell) ++ r_path o ++ (l ≫= spell) ++ rest) h in
  (∃ d, str "data" g = default d (last (said "data" gl)) ∧ formal globalFlags "data" = Some (KString d)) ∧
  match settle (r_flags o) l (defaults (r_flags o)) with
  | Err e => run = (h, Ok (Quit 2 (Error e)))
  | Ok v =>
      run = r_run o v rest h ∧
      (∀ n d, formal (r_flags o) n = Some (KString d) → str n v = default d (last (said n l))) ∧
      (∀ n, formal (r_flags o) n = Some KLines → lines n v = said n l)
  end.
Proof.
  intros Hgl Hg Ho Hl Hrest run. split.
  { pose proof (Parse_spelled globalFlags gl [] Hgl eq_refl) as Hp. unfold Parse in Hp.
    rewrite (parse_settings _ _ _ g) in Hp by done. cbn in Hp. destruct Hp as (_&_&Hstr&_). eexists. by split; [apply Hstr|]. }
  subst run. rewrite (main_reaches sh cwd gl g o _ Hgl Hg Ho). unfold parse_or_exit.
  pose proof (Parse_spelled (r_flags o) l rest Hl Hrest) as Hp.
  destruct (Parse (r_flags o) _) as [v w| |e]; [|done|by rewrite Hp].
  destruct Hp as (Es&->&Hstr&Hlines). by rewrite Es.
Qed.

End Table.

(** ** Witness *)

Module demo_cli.
Import pki.demo_pki demo_control demo_sorting.

#[export] Existing Instances logrotate.plain_gzip backup.demo_backup.toy_tar backup.demo_backup.toy_snapshot
  mgmt.demo_server tracker.demo_host.host certapi.toy_ecpem auth.toy_argon2 auth.toy_tables users.toy_aead merge_sorting json_result json_telegram json_clients.
#[export] Instance json_any {B} : JsonInto B := sampler.demo_sampler.plain_json.

Notation D := (upstreamapi.Serve unit tracker.demo_host.World).
Definition none_yet : P D (option goerr) := λ d, (d, Some None).
Definition idle : Lifecycle D := mkLifecycle _ none_yet none_yet none_yet none_yet (λ d, (d, Some 0)) (λ d, (d, Some 0)).
Definition idle_deps : ControlDeps D := mkDeps _ idle idle (λ _ _ d, (d, Some (0, None))) (λ d, (d, Some (Ok []))) (λ _ d, (d, Some tt))
  (mkTelegramController _ none_yet none_yet none_yet (λ d, (d, Some (mkTelegramStatus false false "" false false))))
  (λ _, none_yet) none_yet 0.
Definition no_shell : Shell := mkShell false false (Some "") None None None "1" "host" "linux/amd64".
Definition demo_commands : list (command unit tracker.demo_host.World) :=
  commands (λ _, "") (λ _ c, c) (λ _, "{}") (λ _, Ok "") (λ _, None) (λ _, 0) (serverapi.mkProbe (Ok "1") None)
    (λ _ _, Ok "") (λ s, Ok s) idle_deps true no_shell "/d".
(** A host with nothing on it. *)
Definition bare : Host unit tracker.demo_host.World :=
  serverapi.mkHost (upstreamapi.mkServe (world.mkWorld (auth.NewService (store.mkStore store.empty_tables "" false [] 0 [] "")) (mkFs ∅ []) (mgmt.mkClient tt false [] []))
    tracker.demo_host.start) 0 [].
End demo_cli.
Import pki.demo_pki demo_cli.

(** After [ovcp user], the ops of [user]; the dispatch takes each, and refuses
    [rename]. *)
Example completion_sound_witness : ∃ l c,
  completeArgs demo_commands (globalFlags (λ _, "")) ["ovcp"; "user"] = Some l ∧ "passwd" ∈ l ∧
  fits_after (λ _, "") demo_commands ["user"] "passwd" ∧
  c ∈ demo_commands ∧ c_name c = "user" ∧ accepted (c_run c ∅ ["rename"]) = false.
Proof.
  pose proof (completion_sound (λ _, "") (λ _ c, c) (λ _, "{}") (λ _, Ok "") (λ _, None) (λ _, 0) (serverapi.mkProbe (Ok "1") None)
    (λ _ _, Ok "") (λ s, Ok s) idle_deps true no_shell "/d" "ovcp" ["user"] (defaults (globalFlags (λ _, ""))) ["user"]) as Hs.
  exists userOps. destruct (find_command demo_commands "user") as [c|] eqn:Ef;
    [|by assert (is_Some (find_command demo_commands "user")) as [? ?] by (by eexists); congruence].
  assert (c_name <$> find_command demo_commands "user" = Some "user") as Hn by reflexivity.
  assert (c_sub <$> find_command demo_commands "user" = Some (Some userOps)) as Hsub by reflexivity.
  rewrite Ef in Hn, Hsub. injection Hn as Hn. injection Hsub as Hsub. apply find_command_Some in Ef as [Hin _].
  assert (completeArgs demo_commands (globalFlags (λ _, "")) ["ovcp"; "user"] = Some userOps) as Hc by reflexivity.
  exists c. split; [exact Hc|]. split; [by apply (bool_decide_unpack _)|].
  split; [|split; [exact Hin|split; [exact Hn|]]].
  - apply (Hs userOps "passwd" Hc eq_refl). by apply (bool_decide_unpack _).
  - apply (Hs userOps "rename" Hc eq_refl); [by rewrite Hn|exact Hin|by rewrite Hsub|by rewrite Hn|by apply (bool_decide_unpack _)].
Defined.

(** [ovcp -data=/x cert issue -cn alice --custom-opts=a -custom-opts -b]. *)
Example main_runs_op_witness : ∃ b v,
  assoc "issue" (certBodies (λ _, "") (λ _ c, c) (λ _, 0) (λ _ _, Ok "") (λ s, Ok s) idle_deps true "/x") = Some b ∧
  main (λ _, "") (λ _ c, c) (λ _, "{}") (λ _, Ok "") (λ _, None) (λ _, 0) (serverapi.mkProbe (Ok "1") None)
    (λ _ _, Ok "") (λ s, Ok s) idle_deps true no_shell "/" ["-data=/x"; "cert"; "issue"; "-cn"; "alice"; "--custom-opts=a"; "-custom-opts"; "-b"] bare =
  finish (b_run b v []) bare ∧ str "cn" v = "alice" ∧ lines "custom-opts" v = ["a"; "-b"].
Proof.
  set (bodies := certBodies (λ _, "") (λ _ c, c) (λ _, 0) (λ _ _, Ok "") (λ s, Ok s) idle_deps true "/x").
  destruct (assoc "issue" bodies) as [b|] eqn:Ea; [|by assert (is_Some (assoc "issue" bodies)) as [? ?] by (by eexists); congruence].
  assert (b_flags <$> assoc "issue" bodies = Some issue_flags) as Hb by reflexivity. rewrite Ea in Hb. injection Hb as Hb.
  set (gl := [mkSetting "data" "/x" false false]).
  set (l := [mkSetting "cn" "alice" false true; mkSetting "custom-opts" "a" true false; mkSetting "custom-opts" "-b" false true]).
  assert (row_of ["cert"; "issue"] b ∈ operations (λ _, "") (λ _ c, c) (λ _, "{}") (λ _, Ok "") (λ _, None) (λ _, 0) (serverapi.mkProbe (Ok "1") None)
    (λ _ _, Ok "") (λ s, Ok s) idle_deps true (with_json no_shell false) "/x") as Hin.
  { unfold operations. do 11 (apply elem_of_app; right). apply elem_of_app; left.
    apply (list_elem_of_fmap_2 (λ '(op, b), row_of (["cert"] ++ [op]) b) bodies ("issue", b)). by apply assoc_in. }
  pose proof (main_runs_op (λ _, "") (λ _ c, c) (λ _, "{}") (λ _, Ok "") (λ _, None) (λ _, 0) (serverapi.mkProbe (Ok "1") None)
    (λ _ _, Ok "") (λ s, Ok s) idle_deps true no_shell "/" _ gl (row_of ["cert"; "issue"] b) l [] bare eq_refl eq_refl Hin) as Hm.
  cbn [r_flags row_of] in Hm. rewrite Hb in Hm. destruct (Hm eq_refl eq_refl) as [_ Hrun].
  assert (∃ v, settle issue_flags l (defaults issue_flags) = Ok v) as [v Es] by (eexists; reflexivity).
  rewrite Es in Hrun. destruct Hrun as (Hrun&Hstr&Hlines).
  exists b, v. split; [reflexivity|]. split; [exact Hrun|]. split; [exact (Hstr "cn" "" eq_refl)|exact (Hlines "custom-opts" eq_refl)].
Defined.

(** An empty word is the name of the first command without an alias: [ovcp ""]
    runs it. *)
Example empty_word_is_init : c_name <$> find_command demo_commands "" = Some "init".
Proof. reflexivity. Qed.

(** [ovcp __complete] with no words to complete slices past their end. *)
Example complete_nothing_panics : completeArgs demo_commands (globalFlags (λ _, "")) [] = None.
Proof. reflexivity. Qed.
End climain.
