(* ===== verification/Expiry.v ===== *)
(** * Expiry: the daily certificate sweep (cmd/ovcp/expiry.go)

    Which certificates have entered the warning period since the last sweep,
    the messages about them, and the serials remembered so that none is told
    twice. *)

From stdpp Require Import sorting.
From S2P Require Import Prelude GoStr GoRunes GoErr GoFs GoTime Names Upstream UpstreamApply Store StoreUsers StoreStats Totp.
From S2P Require Import Auth Mgmt Control OvpnConf Pki World CertApi UpstreamApi Telegram TelegramBot ServerApi CliText.

Module expiry.
Import store world certapi upstreamapi serverapi control clitext.

Definition certExpiryWarnedKey : string := "cert_expiry_warned_serials".

(** [%.0f] of a finite binary64 that is not negative. *)
Definition fixed0 (x : SpecFloat.spec_float) : string :=
  match x with
  | SpecFloat.S754_finite _ m e => itoa (if 0 <=? e then Zpos m * 2 ^ e else div_even (Zpos m) (2 ^ (- e)))
  | _ => "0"
  end.

Definition expiry_text (now : Z) (c : Cert) : string :=
  "⏳ " +:+ CN c +:+ " (" +:+ Kind c +:+ ") expires in " +:+
  fixed0 (SpecFloat.SFdiv 53 1024 (in_units hour (time_sub (NotAfter c) now)) (stats.float64_of_Z 24)) +:+ "d".

Example expiry_text_ex :
  expiry_text 0 (mkCert "1" "alice" "client" "" 0 (25 * 24 * hour + 12 * hour) None false) = "⏳ alice (client) expires in 26d" ∧
  expiry_text 0 (mkCert "1" "alice" "client" "" 0 (24 * 24 * hour + 12 * hour) None false) = "⏳ alice (client) expires in 24d".
Proof. by vm_compute. Qed.

(** In the period, and not told of. *)
Definition is_due (now : Z) (warned : gmap string bool) (c : Cert) : bool :=
  String.eqb (store.Status now c) "expiring" && negb (default false (warned !! Serial c)).

Section Sweep.
  Context {S H : Type} `{pki.X509} `{!JsonInto (gmap string bool)}.
  Context (srv : Server).

Notation Act := (Act S H).

(** What is remembered after the certificates, and whether that is news. *)
Fixpoint announce_due (now : Z) (certs : list Cert) (warned : gmap string bool) (changed : bool) : Act (gmap string bool * bool) :=
  match certs with
  | [] => mret (warned, changed)
  | c :: certs =>
      if is_due now warned c then
        on_bot (telegrambot.Notify (expiry_text now c) ;; mret (Ok tt)) ;;
        announce_due now certs (<[Serial c := true]> warned) true
      else announce_due now certs warned changed
  end.

Definition listed (certs : list Cert) (serial : string) : bool := existsb (λ c, String.eqb (Serial c) serial) certs.
Definition forget (certs : list Cert) (warned : gmap string bool) : gmap string bool :=
  filter (λ p : string * bool, listed certs p.1 = true) warned.

Definition sweep (certs : list Cert) : Act unit :=
  warned ← m_ (LoadJSON certExpiryWarnedKey ∅);
  t ← a_now;
  '(warned, told) ← announce_due t certs warned false;
  let kept := forget certs warned in
  if told || negb (bool_decide (kept = warned))
  then a_try (m_ (SaveJSON certExpiryWarnedKey kept)) ;; mret tt else mret tt.

Definition sweepExpiring : Act unit :=
  certs ← a_try (all_certs srv);
  match certs with Err _ => mret tt | Ok certs => sweep certs end.

(** ** What a sweep announces *)

(** The certificates told of, in order, and what is remembered then. *)
Fixpoint due (now : Z) (certs : list Cert) (warned : gmap string bool) : list Cert * gmap string bool :=
  match certs with
  | [] => ([], warned)
  | c :: certs =>
      if is_due now warned c
      then let '(l, w) := due now certs (<[Serial c := true]> warned) in (c :: l, w)
      else due now certs warned
  end.

Definition setting_of (key : string) (t : Tables) : string := default "" (settings t !! key).
Definition warned_of (t : Tables) : gmap string bool := read_json certExpiryWarnedKey ∅ t.

(** The calls a notification makes, as the bot is set up. *)
Definition chat_of (t : Tables) : option Z :=
  let admin := setting_of telegram.keyAdmin t in
  match atoi admin with
  | Some id => Some id
  | None => atoi (setting_of telegram.keyChat t)
  end.
Definition posts (t : Tables) (text : string) : list (string * telegram.apicall) :=
  let token := setting_of telegram.keyToken t in
  if String.eqb (setting_of telegram.keyAdmin t) "" || String.eqb token "" then []
  else match chat_of t, telegram.chunks (slen text) text with
       | Some id, Some cs => (λ c, (token, telegram.SendMessage id c telegram.NoMarkup)) <$> cs
       | _, _ => []
       end.

Lemma setting_run {E} key (b : telegram.Bot E) : healthy (telegram.bst b) →
  ∃ s', telegram.setting key b = (telegram.mkBot s' (telegram.calls b) (telegram.ext b), Some (setting_of key (tables (telegram.bst b)))) ∧
    tables s' = tables (telegram.bst b) ∧ same_env (telegram.bst b) s' ∧ healthy s'.
Proof.
  intros Hh. unfold telegram.setting, telegram.on_store, GetSetting, mbind, P_bind.
  destruct (query_healthy (λ t, default "" (settings t !! key)) _ Hh) as (s'&->&?). by exists s'.
Qed.

(** Sending a text that can be cut. *)
Lemma post_run {E} token chat text (b : telegram.Bot E) : valid_utf8 text = true →
  ∃ cs, telegram.chunks (slen text) text = Some cs ∧
    telegram.sendMessage token chat text telegram.NoMarkup b =
    (telegram.mkBot (telegram.bst b)
       (telegram.calls b ++ ((λ c, (token, telegram.SendMessage chat c telegram.NoMarkup)) <$> cs)) (telegram.ext b), Some tt).
Proof.
  intros Hv. destruct (telegram.chunks_pieces (slen text) text) as (cs&Hc&Hp&_); [done..|].
  destruct (telegram.pieces_sizes _ _ Hp) as [_ (i&z&->)]. exists (i ++ [z]). split; [done|].
  unfold telegram.sendMessage. rewrite Hc, telegram.send_all_run, fmap_app. done.
Qed.

Lemma Notify_run {E} text (b : telegram.Bot E) : healthy (telegram.bst b) → valid_utf8 text = true →
  ∃ s', telegrambot.Notify text b =
      (telegram.mkBot s' (telegram.calls b ++ posts (tables (telegram.bst b)) text) (telegram.ext b), Some tt) ∧
    tables s' = tables (telegram.bst b) ∧ same_env (telegram.bst b) s' ∧ healthy s'.
Proof.
  intros Hh Hv. unfold telegrambot.Notify, posts, chat_of.
  destruct (setting_run telegram.keyAdmin b Hh) as (s1&E1&T1&Q1&H1).
  destruct (setting_run telegram.keyToken (telegram.mkBot s1 (telegram.calls b) (telegram.ext b)) H1) as (s2&E2&T2&Q2&H2).
  cbn in E2, T2, Q2. rewrite T1 in E2, T2. unfold mbind, P_bind. rewrite E1, E2.
  set (t := tables (telegram.bst b)) in *.
  destruct (_ || _); [exists s2; rewrite app_nil_r; split_and!; [done|done|by etrans|done]|].
  unfold telegram.chatIDFor. destruct (atoi (setting_of telegram.keyAdmin t)) as [id|].
  - destruct (post_run (setting_of telegram.keyToken t) id text (telegram.mkBot s2 (telegram.calls b) (telegram.ext b)) Hv)
      as (cs&->&E3). exists s2. split_and!; [exact E3|done|by etrans|done].
  - destruct (setting_run telegram.keyChat (telegram.mkBot s2 (telegram.calls b) (telegram.ext b)) H2) as (s3&E3&T3&Q3&H3).
    cbn in E3, T3, Q3. rewrite T2 in E3, T3. unfold mbind, P_bind. rewrite E3.
    assert (Q : same_env (telegram.bst b) s3) by (etrans; [exact Q1|by etrans]).
    unfold telegram.parse_id. destruct (String.eqb_spec (setting_of telegram.keyChat t) "") as [->|].
    { exists s3. rewrite app_nil_r. done. }
    destruct (atoi (setting_of telegram.keyChat t)) as [id|]; [|exists s3; by rewrite app_nil_r].
    destruct (post_run (setting_of telegram.keyToken t) id text (telegram.mkBot s3 (telegram.calls b) (telegram.ext b)) Hv)
      as (cs&->&E4). by exists s3.
Qed.

(** A step that leaves the database as it was, in order. *)
Record quiet (h h' : Host S H) : Prop := {
  qt_tables : tables (hdb h') = tables (hdb h); qt_clock : clock (hdb h') = clock (hdb h); qt_healthy : healthy (hdb h') }.

Lemma quiet_trans h1 h2 h3 : quiet h1 h2 → quiet h2 h3 → quiet h1 h3.
Proof. intros [T1 C1 _] [T2 C2 Q2]. split; [by rewrite T2|by rewrite C2|done]. Qed.

Lemma on_bot_note text (h : Host S H) : healthy (hdb h) → valid_utf8 text = true →
  ∃ h', on_bot (telegrambot.Notify text ;; mret (Ok tt)) h = (h', Ok tt) ∧ quiet h h' ∧
    sent h' = sent h ++ posts (tables (hdb h)) text.
Proof.
  intros Hh Hv. destruct (Notify_run text (telegram.mkBot (hdb h) [] tt) Hh Hv) as (s'&E&T&Q&Hh').
  unfold on_bot, mbind, P_bind. rewrite E. eexists. split; [done|]. split; [|done].
  split; cbn; [exact T|exact (se_clock _ _ Q)|exact Hh'].
Qed.

Lemma announce_run now certs warned changed (h : Host S H) : healthy (hdb h) →
  Forall (λ c, valid_utf8 (expiry_text now c) = true) certs →
  ∃ h', announce_due now certs warned changed h =
      (h', Ok ((due now certs warned).2, changed || (0 <? length (due now certs warned).1)%nat)) ∧
    quiet h h' ∧ sent h' = sent h ++ concat ((λ c, posts (tables (hdb h)) (expiry_text now c)) <$> (due now certs warned).1).
Proof.
  revert warned changed h. induction certs as [|c certs IH]; intros warned changed h Hh Hv; cbn [announce_due due].
  { exists h. rewrite orb_false_r, app_nil_r. by split_and!. }
  apply Forall_cons in Hv as [Hc Hv]. destruct (is_due now warned c); [|by apply IH].
  destruct (on_bot_note (expiry_text now c) h Hh Hc) as (h1&E1&Q1&S1). unfold mbind at 1, Act_bind at 1. rewrite E1.
  destruct (IH (<[Serial c := true]> warned) true h1 (qt_healthy _ _ Q1) Hv) as (h2&E2&Q2&S2). exists h2. rewrite E2.
  destruct (due now certs (<[Serial c:=true]> warned)) as [l w]. cbn in *. rewrite orb_true_r. split_and!; [done|by eapply quiet_trans|].
  rewrite S2, S1, (qt_tables _ _ Q1). by rewrite <- app_assoc.
Qed.

(** ** The memory *)

Definition times (serial : string) (l : list Cert) : nat := length (filter (λ c, Serial c = serial) l).

(** A serial remembered is not told of again; one told of is remembered. *)
Lemma due_remembers now certs warned serial :
  (times serial (due now certs warned).1 ≤ 1)%nat ∧
  (warned !! serial = Some true → times serial (due now certs warned).1 = 0%nat) ∧
  ((due now certs warned).2 !! serial = if decide (0 < times serial (due now certs warned).1)%nat then Some true else warned !! serial).
Proof.
  revert warned. induction certs as [|c certs IH]; intros warned; cbn [due]; [split_and!; [apply Nat.le_0_l|done|done]|].
  destruct (is_due now warned c) eqn:Ed; [|apply IH].
  destruct (IH (<[Serial c := true]> warned)) as (I1&I2&I3). destruct (due now certs (<[Serial c:=true]> warned)) as [l w]. cbn [fst snd] in *.
  unfold times in *. rewrite filter_cons. destruct (decide (Serial c = serial)) as [Hs|Hs].
  - subst serial. rewrite lookup_insert_eq in I2, I3. specialize (I2 eq_refl). cbn [length]. rewrite I2 in *. split_and!; [lia| |].
    + intros Hw. unfold is_due in Ed. rewrite Hw, andb_false_r in Ed. done.
    + rewrite I3. by rewrite !decide_False, decide_True by lia.
  - rewrite lookup_insert_ne in I2, I3 by done. done.
Qed.

Lemma due_listed now certs warned c : c ∈ (due now certs warned).1 → c ∈ certs ∧ store.Status now c = "expiring".
Proof.
  revert warned. induction certs as [|d certs IH]; intros warned; cbn [due]; [by intros ?%not_elem_of_nil|].
  destruct (is_due now warned d) eqn:Ed.
  - specialize (IH (<[Serial d := true]> warned)). destruct (due _ _ _) as [l w]. cbn [fst] in *.
    intros [->|Hin]%elem_of_cons; [|destruct (IH Hin); split; [by right|done]].
    split; [by left|]. apply andb_true_iff in Ed as [Ed _]. by apply String.eqb_eq.
  - intros Hin. destruct (IH warned Hin). split; [by right|done].
Qed.

(** Whatever is in the period is remembered once the list has been gone through. *)
Lemma due_covers now certs warned c : c ∈ certs → store.Status now c = "expiring" →
  (due now certs warned).2 !! Serial c = Some true.
Proof.
  assert (Hkeep : ∀ certs warned s, warned !! s = Some true → (due now certs warned).2 !! s = Some true).
  { intros cs w s Hw. destruct (due_remembers now cs w s) as (_&_&->). by case_decide. }
  revert warned. induction certs as [|d certs IH]; intros warned Hin Hst; [by apply not_elem_of_nil in Hin|]. cbn [due].
  destruct (is_due now warned d) eqn:Ed.
  - specialize (Hkeep certs (<[Serial d := true]> warned) (Serial d) (lookup_insert_eq _ _ _)).
    specialize (IH (<[Serial d := true]> warned)).
    destruct (due now certs (<[Serial d:=true]> warned)) as [l w]. cbn [snd] in *.
    apply elem_of_cons in Hin as [->|Hin]; [done|by apply IH].
  - apply elem_of_cons in Hin as [->|Hin]; [|by apply IH]. unfold is_due in Ed. rewrite Hst in Ed. cbn in Ed.
    apply Hkeep. destruct (warned !! Serial d) as [[]|]; done.
Qed.

Lemma listed_spec certs serial : listed certs serial = true ↔ serial ∈ Serial <$> certs.
Proof.
  unfold listed. rewrite existsb_exists, list_elem_of_fmap. split.
  - intros (c&Hin&<-%String.eqb_eq). exists c. split; [done|by apply list_elem_of_In].
  - intros (c&->&Hin). exists c. split; [by apply list_elem_of_In|apply String.eqb_refl].
Qed.

(** [json.Marshal] then [json.Unmarshal] of a map keyed by text. *)
Definition MapKeeps : Prop := ∀ m : gmap string bool, map_Forall (λ k _, valid_utf8 k = true) m →
  ∃ enc, json_marshal m = Ok enc ∧ enc ≠ "" ∧ json_unmarshal enc ∅ = Ok m.

(** Every text of a list can be sent and stored. *)
Definition texts_ok (now : Z) (certs : list Cert) : Prop :=
  Forall (λ c, valid_utf8 (expiry_text now c) = true ∧ valid_utf8 (Serial c) = true) certs.

Lemma forget_lookup certs warned s : forget certs warned !! s = if listed certs s then warned !! s else None.
Proof.
  unfold forget. apply option_eq. intros b. rewrite map_lookup_filter_Some. cbn. destruct (listed certs s); naive_solver.
Qed.

Lemma forget_utf8 now certs warned : texts_ok now certs → map_Forall (λ k _, valid_utf8 k = true) (forget certs warned).
Proof.
  intros Ht k b. rewrite forget_lookup. destruct (listed certs k) eqn:E; [|done]. intros _.
  apply listed_spec in E. apply list_elem_of_fmap in E as (c&->&Hin). unfold texts_ok in Ht. rewrite Forall_forall in Ht.
  by destruct (Ht c Hin).
Qed.

(** No other setting, and nothing else in the store, changes. *)
Definition only_warned (t t' : Tables) : Prop :=
  t' = with_settings t (settings t') ∧ ∀ k, k ≠ certExpiryWarnedKey → settings t' !! k = settings t !! k.

Lemma save_warned_run kept (h : Host S H) : MapKeeps → healthy (hdb h) → map_Forall (λ k _, valid_utf8 k = true) kept →
  ∃ h', (a_try (m_ (SaveJSON certExpiryWarnedKey kept)) ;; mret tt) h = (h', Ok tt) ∧ sent h' = sent h ∧
    clock (hdb h') = clock (hdb h) ∧ healthy (hdb h') ∧
    only_warned (tables (hdb h)) (tables (hdb h')) ∧ warned_of (tables (hdb h')) = kept.
Proof.
  intros HJ Hh Hk. destruct (HJ kept Hk) as (enc&He&Hne&Hd).
  destruct (SetSetting_healthy certExpiryWarnedKey enc (hdb h) Hh) as (s'&E&T&Q&Hh').
  unfold a_try, m_, w_, on_x, on_w, on_db, SaveJSON, mbind, Act_bind. rewrite He.
  change (db (wd (sv h))) with (hdb h). rewrite E. eexists. split; [done|]. cbn.
  split_and!; [done|exact (se_clock _ _ Q)|exact Hh'| |].
  - rewrite T. split; [done|]. intros k Hne'. cbn. by rewrite lookup_insert_ne.
  - rewrite T. unfold warned_of, read_json. cbn. rewrite lookup_insert_eq. cbn.
    destruct (String.eqb_spec enc ""); [done|]. by rewrite Hd.
Qed.

Lemma only_warned_refl t : only_warned t t.
Proof. split; [by destruct t|done]. Qed.

(** A sweep over a list of certificates. *)
Lemma sweep_run certs (h : Host S H) : MapKeeps → healthy (hdb h) → texts_ok (clock (hdb h)) certs →
  let t := tables (hdb h) in let d := due (clock (hdb h)) certs (warned_of t) in
  ∃ h', sweep certs h = (h', Ok tt) ∧ healthy (hdb h') ∧ only_warned t (tables (hdb h')) ∧
    warned_of (tables (hdb h')) = forget certs d.2 ∧
    sent h' = sent h ++ concat ((λ c, posts t (expiry_text (clock (hdb h)) c)) <$> d.1).
Proof.
  intros HJ Hh Ht t d.
  destruct (LoadJSON_healthy certExpiryWarnedKey (∅ : gmap string bool) (hdb h) Hh) as (s1&E1&T1&Q1&H1).
  set (h1 := mkHost (mkServe (set_db (wd (sv h)) s1) (trk (sv h))) (DebugLevel h) (sent h)).
  destruct (announce_run (clock (hdb h)) certs (warned_of t) false h1 H1) as (h2&E2&[T2 C2 H2]&S2).
  { eapply Forall_impl; [exact Ht|]. by intros c [? _]. }
  fold d in E2, S2. cbn [h1 sent] in S2. change (tables (hdb h1)) with (tables s1) in *. rewrite T1 in T2, S2.
  assert (Hrun : sweep certs h = (if false || (0 <? length d.1)%nat || negb (bool_decide (forget certs d.2 = d.2))
      then a_try (m_ (SaveJSON certExpiryWarnedKey (forget certs d.2))) ;; mret tt else mret tt) h2).
  { unfold sweep. unfold mbind at 1, Act_bind at 1. unfold m_ at 1, w_ at 1, on_x at 1, on_w at 1, on_db at 1.
    change (db (wd (sv h))) with (hdb h). rewrite E1. fold h1.
    unfold mbind at 1, Act_bind at 1. unfold a_now, w_, on_x, on_w, w_now. cbn [wd sv h1].
    change (clock (db (set_db (wd (sv h)) s1))) with (clock s1). rewrite (se_clock _ _ Q1).
    change (mkHost (mkServe (set_db (wd (sv h)) s1) (trk (mkServe (set_db (wd (sv h)) s1) (trk (sv h))))) (DebugLevel h1) (sent h1)) with h1.
    fold t. change (read_json certExpiryWarnedKey ∅ t) with (warned_of t).
    unfold mbind at 1, Act_bind at 1. rewrite E2. reflexivity. }
  rewrite Hrun. destruct (_ || negb _) eqn:Eb.
  - destruct (save_warned_run (forget certs d.2) h2 HJ H2 (forget_utf8 _ _ _ Ht)) as (h3&E3&S3&C3&H3&O3&W3).
    exists h3. rewrite T2 in O3. fold t in O3. rewrite S3. by split_and!.
  - apply orb_false_iff in Eb as [El Ef]. apply negb_false_iff, bool_decide_eq_true in Ef.
    exists h2. rewrite T2. fold t. split_and!; [done|done|apply only_warned_refl| |done].
    rewrite Ef. destruct d as [l w] eqn:Ed. cbn in *. destruct l; [|done].
    apply map_eq. intros s. destruct (due_remembers (clock (hdb h)) certs (warned_of t) s) as (_&_&R).
    subst d. rewrite Ed in R. by cbn in R.
Qed.

(** ** The list *)

Lemma ca_cert_quiet (h h' : Host S H) r : healthy (hdb h) → ca_cert srv h = (h', r) → quiet h h' ∧ sent h' = sent h.
Proof.
  intros Hh. unfold ca_cert, mbind, Act_bind, w_, on_x, on_w.
  destruct (on_pki (pki.CACert (Dir srv)) (wd (sv h))) as [w' [c|e]] eqn:E; intros [= <- <-];
    apply on_pki_run in E as (e0&_&_&T&C&F&_);
    (split; [|done]; split; [exact T|exact C|unfold healthy, hdb; cbn; rewrite F; exact Hh]).
Qed.

Lemma all_certs_quiet (h h' : Host S H) r : healthy (hdb h) → a_try (all_certs srv) h = (h', r) → quiet h h' ∧ sent h' = sent h.
Proof.
  intros Hh Hrun.
  assert (∃ r0, all_certs srv h = (h', r0)) as [r0 E].
  { unfold a_try in Hrun. destruct (all_certs srv h) as [h0 [cs|e]]; injection Hrun as <- <-; by eexists. }
  clear Hrun. unfold all_certs, mbind, Act_bind, a_try in E. destruct (ca_cert srv h) as [h1 r1] eqn:E1.
  destruct (ca_cert_quiet _ _ _ Hh E1) as [Q1 S1].
  assert ((∃ ca, m_ (AllCerts ca) h1 = (h', r0)) ∨ h' = h1) as [[ca E2]| ->]; [|clear E|done].
  { destruct r1 as [c|e]; [left; by eexists|]. destruct (panicked e); [right; congruence|left; by eexists]. }
  destruct (query_healthy (λ t, scanCert <$> merge_sort issued_desc (certs t)) (hdb h1) (qt_healthy _ _ Q1)) as (s'&E3&T3&Q3&H3).
  unfold m_, w_, on_x, on_w, on_db, AllCerts, ListCerts, mbind, M_bind in E2.
  change (db (wd (sv h1))) with (hdb h1) in E2. rewrite E3 in E2. cbn in E2. injection E2 as <- _.
  split; [|exact S1]. eapply quiet_trans; [exact Q1|]. split; [exact T3|exact (se_clock _ _ Q3)|exact H3].
Qed.

(** What a sweep finds listed, [None] when the list cannot be had. *)
Definition listing (h : Host S H) : option (list Cert) :=
  match (a_try (all_certs srv) h).2 with Ok (Ok cs) => Some cs | _ => None end.
Definition told (h : Host S H) : list Cert :=
  match listing h with Some cs => (due (clock (hdb h)) cs (warned_of (tables (hdb h)))).1 | None => [] end.

(** A host a sweep can go through. *)
Record fit (h : Host S H) : Prop := {
  fit_healthy : healthy (hdb h);
  fit_texts : ∀ cs, listing h = Some cs → texts_ok (clock (hdb h)) cs }.

(** What one sweep does. *)
Record swept (h h' : Host S H) : Prop := {
  sw_sent : sent h' = sent h ++ concat ((λ c, posts (tables (hdb h)) (expiry_text (clock (hdb h)) c)) <$> told h);
  sw_only : only_warned (tables (hdb h)) (tables (hdb h'));
  sw_warned : warned_of (tables (hdb h')) =
    match listing h with
    | Some cs => forget cs (due (clock (hdb h)) cs (warned_of (tables (hdb h)))).2
    | None => warned_of (tables (hdb h))
    end;
  sw_healthy : healthy (hdb h') }.

Lemma sweepExpiring_run (h h' : Host S H) r : MapKeeps → fit h → sweepExpiring h = (h', r) → swept h h'.
Proof.
  intros HJ [Hh Ht] Hrun. unfold sweepExpiring, mbind, Act_bind in Hrun.
  destruct (a_try (all_certs srv) h) as [h1 r1] eqn:E1. destruct (all_certs_quiet _ _ _ Hh E1) as [[T C H1] S1].
  assert (Hquiet : listing h = None → h' = h1 → swept h h').
  { intros Hl ->. split; unfold told; rewrite ?Hl; [by rewrite app_nil_r|rewrite T; apply only_warned_refl|by rewrite T|done]. }
  destruct r1 as [[cs|e]|e]; [|apply Hquiet; [unfold listing; by rewrite E1|by injection Hrun as <- _]..].
  assert (Hl : listing h = Some cs) by (unfold listing; by rewrite E1).
  destruct (sweep_run cs h1 HJ H1) as (h2&E2&H2&O2&W2&S2); [rewrite C; by apply Ht|].
  rewrite E2 in Hrun. injection Hrun as <- _. rewrite T, C in *.
  split; unfold told; rewrite ?Hl; [by rewrite S2, S1|done|done|done].
Qed.

(** ** Day after day *)

(** Sweeps one after another; in between, anything that leaves what is
    remembered and the database in order. [rounds] are the hosts before and
    after each sweep. *)
Inductive days : list (Host S H * Host S H) → Host S H → Prop :=
  | no_days h : days [] h
  | next_day h h1 h2 r rounds :
      settings (tables (hdb h1)) !! certExpiryWarnedKey = settings (tables (hdb h)) !! certExpiryWarnedKey → fit h1 →
      sweepExpiring h1 = (h2, r) → days rounds h2 → days ((h1, h2) :: rounds) h.

Lemma days_swept rounds h : MapKeeps → days rounds h → Forall (λ d, swept d.1 d.2) rounds.
Proof. intros HJ Hd. induction Hd; constructor; [|done]. by eapply sweepExpiring_run. Qed.

Lemma times_app s l l' : times s (l ++ l') = (times s l + times s l')%nat.
Proof. unfold times. by rewrite filter_app, length_app. Qed.

Lemma days_times rounds h serial : MapKeeps → days rounds h →
  Forall (λ d, ∀ cs, listing d.1 = Some cs → serial ∈ Serial <$> cs) rounds →
  let n := times serial (concat ((λ d, told d.1) <$> rounds)) in
  (n ≤ 1)%nat ∧ (warned_of (tables (hdb h)) !! serial = Some true → n = 0%nat).
Proof.
  intros HJ Hd. induction Hd as [h|h h1 h2 r rounds Hset Hfit Hrun Hd IH]; intros Hall; [split; [apply Nat.le_0_l|done]|].
  apply Forall_cons in Hall as [Hl Hall]. destruct (IH Hall) as [IH1 IH2]. cbn [fmap list_fmap concat fst].
  pose proof (sweepExpiring_run _ _ _ HJ Hfit Hrun) as [_ _ Hw _].
  assert (Hw1 : warned_of (tables (hdb h1)) = warned_of (tables (hdb h))) by (unfold warned_of, read_json; by rewrite Hset).
  cbn zeta. rewrite times_app. unfold told at 1 3. cbn [fst] in Hl. destruct (listing h1) as [cs|]; [|rewrite Hw, Hw1 in IH2; by split].
  destruct (due_remembers (clock (hdb h1)) cs (warned_of (tables (hdb h1))) serial) as (R1&R2&R3).
  assert (Hk : warned_of (tables (hdb h2)) !! serial =
    if decide (0 < times serial (due (clock (hdb h1)) cs (warned_of (tables (hdb h1)))).1)%nat then Some true
    else warned_of (tables (hdb h1)) !! serial).
  { rewrite Hw, forget_lookup, (proj2 (listed_spec cs serial) (Hl cs eq_refl)). exact R3. }
  case_decide as Hpos.
  - specialize (IH2 Hk). split; [lia|]. rewrite <- Hw1. intros Hs. specialize (R2 Hs). lia.
  - split; [lia|]. rewrite <- Hw1. intros Hs. rewrite Hs in Hk. specialize (IH2 Hk). lia.
Qed.

(** C12: The daily sweep tells of a certificate once. Each sweep sends, in the
    list's order and through the bot as it is set up, exactly the messages of
    the certificates it tells of, each of which is listed and in the warning
    period, remembers every listed certificate in the period, and changes
    nothing else in the store; and over any number of sweeps, with anything in
    between that leaves its memory alone, a serial that stays listed is told of
    at most once, and not at all when it was remembered to begin with. *)
Theorem sweeps_tell_once rounds (h : Host S H) : MapKeeps → days rounds h →
  Forall (λ d,
    (sent d.2 = sent d.1 ++ concat ((λ c, posts (tables (hdb d.1)) (expiry_text (clock (hdb d.1)) c)) <$> told d.1)) ∧
    only_warned (tables (hdb d.1)) (tables (hdb d.2)) ∧
    ∀ cs, listing d.1 = Some cs →
      (∀ c, c ∈ told d.1 → c ∈ cs ∧ store.Status (clock (hdb d.1)) c = "expiring") ∧
      (∀ c, c ∈ cs → store.Status (clock (hdb d.1)) c = "expiring" → warned_of (tables (hdb d.2)) !! Serial c = Some true) ∧
      (∀ s, s ∉ Serial <$> cs → warned_of (tables (hdb d.2)) !! s = None)) rounds ∧
  ∀ serial, Forall (λ d, ∀ cs, listing d.1 = Some cs → serial ∈ Serial <$> cs) rounds →
    let n := times serial (concat ((λ d, told d.1) <$> rounds)) in
    (n ≤ 1)%nat ∧ (warned_of (tables (hdb h)) !! serial = Some true → n = 0%nat).
Proof.
  intros HJ Hd. split; [|intros serial Hall; by apply (days_times rounds h)].
  eapply Forall_impl; [by apply (days_swept rounds h)|]. intros [h1 h2] [Hsent Honly Hw _]. cbn [fst snd] in *.
  split_and!; [done|done|]. intros cs Hl. unfold told. rewrite Hl in *. split_and!.
  - intros c. apply due_listed.
  - intros c Hin Hst. rewrite Hw, forget_lookup, (proj2 (listed_spec cs (Serial c))) by (by apply list_elem_of_fmap_2).
    by apply due_covers.
  - intros s Hs. rewrite Hw, forget_lookup. destruct (listed cs s) eqn:E; [|done]. by apply listed_spec in E.
Qed.

End Sweep.

(** ** Witness *)

Module demo_expiry.
Import pki.demo_pki demo_upstreams.

#[export] Instance json_warned : JsonInto (gmap string bool) :=
  {| json_marshal m := Ok (to_text m); json_unmarshal s _ := of_text s |}.
Lemma warned_keeps : MapKeeps.
Proof. intros m _. exists (to_text m). split_and!; [done|apply text_nonempty|apply of_to_text]. Qed.

Definition a_srv : Server := mkServer "/d/pki" "/d/tc.key" "/d/s.crt" "/d/s.key" "/d/server.conf" "/d/certs.hosts" "/d/custom.hosts" "/d/status" "/d".
(** A certificate with ten days left, and an administrator to tell. *)
Definition alice_row : CertRow := mkCertRow "0a" "alice" "client" "" 0 (300 + 10 * 86400) None 0.
Definition told_store : Store :=
  with_setting telegram.keyAdmin "7" (with_setting telegram.keyToken "t0k" (set_tables demo_store (with_certs empty_tables [alice_row]))).
Definition day0 : Host unit tracker.demo_host.World :=
  mkHost (mkServe (set_db host told_store) tracker.demo_host.start) 0 [].
Definition day1 : Host unit tracker.demo_host.World := (sweepExpiring a_srv day0).1.
End demo_expiry.
Import pki.demo_pki demo_expiry.

Lemma alice_texts : texts_ok (300 * second) [scanCert alice_row].
Proof. apply Forall_singleton. split; reflexivity. Qed.

Lemma day0_fit : fit a_srv day0.
Proof.
  split; [apply Forall_nil_2|]. intros cs Hl. assert (listing a_srv day0 = Some [scanCert alice_row]) as E by by vm_compute.
  rewrite E in Hl. injection Hl as <-. exact alice_texts.
Qed.

(** Two days running: alice is told of on the first, and not on the second. *)
Example sweeps_tell_once_witness : ∃ day1 day2,
  days a_srv [(day0, day1); (day1, day2)] day0 ∧
  sent day1 = [("t0k", telegram.SendMessage 7 "⏳ alice (client) expires in 10d" telegram.NoMarkup)] ∧
  (times "0a" (concat [told a_srv day0; told a_srv day1]) ≤ 1)%nat.
Proof.
  destruct (sweepExpiring a_srv day0) as [h1 r1] eqn:E1. destruct (sweepExpiring a_srv h1) as [h2 r2] eqn:E2.
  pose proof (sweepExpiring_run a_srv day0 h1 r1 warned_keeps day0_fit E1) as Hs.
  assert (fit a_srv h1) as Hf1.
  { split; [apply Hs|]. intros cs Hl.
    assert (listing a_srv (sweepExpiring a_srv day0).1 = Some [scanCert alice_row]) as E by by vm_compute.
    rewrite E1 in E. cbn [fst] in E. rewrite E in Hl. injection Hl as <-.
    assert (clock (hdb (sweepExpiring a_srv day0).1) = 300 * second) as C by by vm_compute. rewrite E1 in C. cbn [fst] in C. rewrite C. exact alice_texts. }
  assert (days a_srv [(day0, h1); (h1, h2)] day0) as Hd.
  { eapply next_day; [reflexivity|exact day0_fit|exact E1|]. eapply next_day; [reflexivity|exact Hf1|exact E2|constructor]. }
  exists h1, h2. split; [exact Hd|].
  pose proof (sweeps_tell_once a_srv _ day0 warned_keeps Hd) as [Hall Honce].
  apply Forall_cons in Hall as [[Hsent _] _]. split.
  - cbn [fst snd] in Hsent. rewrite Hsent. by vm_compute.
  - apply (Honce "0a"). apply Forall_cons. split; [|apply Forall_singleton]; intros cs Hl; cbn [fst] in Hl.
    + assert (listing a_srv day0 = Some [scanCert alice_row]) as E by by vm_compute. rewrite E in Hl. injection Hl as <-. left.
    + assert (listing a_srv (sweepExpiring a_srv day0).1 = Some [scanCert alice_row]) as E by by vm_compute.
      rewrite E1 in E. cbn [fst] in E. rewrite E in Hl. injection Hl as <-. left.
Defined.

(** The authority is listed under one serial whatever its certificate: told of
    once, its successor never is. *)
Example renewed_ca_untold :
  let ca na := mkCert "ca" "OVCP CA" "ca" "" zero_time na None false in
  let all na := (AllCerts (Ok ("OVCP CA", na)) demo_store).2 in
  let old := ca (10 * 24 * hour) in let new := ca (3660 * 24 * hour) in let now' := 3650 * 24 * hour in
  all (10 * 24 * hour) = Ok [old] ∧ all (3660 * 24 * hour) = Ok [new] ∧
  store.Status 0 old = "expiring" ∧ store.Status now' new = "expiring" ∧
  Serial <$> (due 0 [old] ∅).1 = ["ca"] ∧ (due now' [new] (due 0 [old] ∅).2).1 = [].
Proof. cbv zeta. split_and!; vm_compute; reflexivity. Qed.

End expiry.
