(* ===== verification/Serve.v ===== *)
(** * Serve: starting and stopping the daemon (cmd/ovcp/main.go, logs.go)

    What [ovcp serve] does before it answers requests, in its order: the
    persisted settings rendered anew, the host's routing restored, the admin
    certificate, the listeners and the control socket, the workers; and what
    it does on the way out. *)

From Stdlib Require Import Ascii.
From S2P Require Import Prelude GoStr GoErr GoFs NetIP Names Upstream UpstreamApply Store StoreUsers StoreStats Totp.
From S2P Require Import Auth Mgmt Control OvpnConf Pki LogRotate World CertApi UserApi ConfigApi UpstreamApi Records Sampler Backup Telegram ServerApi Boot.

Module serve.
Import store world certapi configapi upstreamapi serverapi control boot.

(** [strings.Split] of the -listen flag, blanks trimmed, empty ones skipped. *)
Definition listen_addrs (listen : string) : list string :=
  List.filter (λ a, negb (String.eqb a "")) (trim_space <$> split "," listen).

Section Serve.
  Context {S H : Type} `{mgmt.Server S} `{tracker.HostOps H} `{pki.X509} `{pki.Calendar} `{LogRotate.logrotate.Gzip}.
  Context `{!JsonInto upstream.Config} `{!JsonInto logrotate.LogConfig}.
  Context (getenv : string → string) (unmarshal_config : string → ovpnconf.Config → ovpnconf.Config).
  Context (marshal_config : ovpnconf.Config → string).
  Context (dataDir sock : string) (enabled : bool) (rt : Runtime S H).

Notation Act := (Act S H).

(** ** The settings, rendered anew *)

(** The server with no requests yet: [srv.ReconcileUpstreams]. *)
Definition ReconcileUpstreams : X S H (upstream.Config * string) :=
  cfg ← db_ (LoadUpstreamConfig getenv);
  w ← applyUpstreams getenv enabled cfg;
  mret (cfg, w).

Definition a_cn : Act string := w_ (records.w_remote (adminCertCN getenv dataDir)).

Definition auth_active : Act bool := if enabled then m_ (UpstreamAuthActive getenv) else mret false.

(** From [preflight] to the first [ReconcileUpstreams]: whether clients have
    upstreams of their own. *)
Definition restore : Act bool :=
  w_ (on_disk (preflight dataDir)) ;;
  cfg ← m_ (configapi.LoadConfig getenv unmarshal_config);
  cn ← a_cn;
  active ← auth_active;
  let cfg := set_client_auth active (fillPaths getenv dataDir sock cn cfg) in
  m_ (configapi.SaveConfig marshal_config cfg) ;;
  w_ (on_disk (ovpnconf.WriteAtomic cfg (ServerConf (dataPaths dataDir)))) ;;
  on_x ReconcileUpstreams ;;
  mret active.

(** ** The management connection *)

(** [ConnectRetry]: [tries] more attempts end before the deadline. *)
Fixpoint ConnectRetry (tries : nat) : W S unit :=
  match tries with
  | O => sampler.mgmt_connect
  | Datatypes.S tries => r ← w_try sampler.mgmt_connect; match r with Ok _ => mret tt | Err _ => ConnectRetry tries end
  end.

(** The hook run after the tunnel has been started on request. *)
Definition AfterVPNStart (tries : nat) : Act unit :=
  on_x ReconcileUpstreams ;;
  a ← auth_active;
  if (a : bool) then w_ (ConnectRetry tries) else mret tt.

(** ** Up *)

(** [listen] of an address, and the control socket's; their errors are fatal. *)
Context (listen : string → option goerr) (serve_control : option goerr) (tries : nat).

Fixpoint listen_all (addrs : list string) : Act unit :=
  match addrs with
  | [] => mret tt
  | a :: addrs => a_of (of_error (listen a)) ;; listen_all addrs
  end.

(** A worker's operation whose error only reaches the log. *)
Definition logged (m : P (Host S H) (option goerr)) : Act unit := on_p (_ ← m; mret (Ok tt)).

Definition autostart (var : string) : bool := negb (String.eqb (getenv var) "false").

Definition boot (addrs : string) : Act unit :=
  active ← restore;
  cn ← a_cn;
  w_ (EnsureAdminTLS (backup.Join dataDir "admin-tls") cn) ;;
  listen_all (listen_addrs addrs) ;;
  a_of (of_error serve_control) ;;
  (if autostart "OVCP_OPENVPN_AUTOSTART" then logged (lc_Start (rt_VPN rt)) else mret tt) ;;
  (if (active : bool) then a_try (w_ (ConnectRetry tries)) ;; mret tt else mret tt) ;;
  (match rt_DNS rt with
   | Some d => if autostart "OVCP_DNSMASQ_AUTOSTART" then logged (lc_Start d) else mret tt
   | None => mret tt
   end) ;;
  st ← on_p (st ← tc_Status (rt_Telegram rt); mret (Ok st));
  if tg_TokenSet st then logged (tc_Start (rt_Telegram rt)) else mret tt.

(** ** The daily rotation *)

Definition rotate_round : Act unit :=
  cfg ← m_ (LoadLogConfig getenv);
  if negb (logrotate.Enabled cfg) then mret tt else
  t ← w_ w_now;
  a_try (w_ (on_disk (logrotate.RotateLogs (logrotate.quiet t) (logrotate.LogPaths (LogsDir (dataPaths dataDir))) cfg))) ;; mret tt.

(** ** Down *)

Definition shutdown : Act unit :=
  logged (tc_Stop (rt_Telegram rt)) ;;
  logged (lc_Stop (rt_VPN rt)) ;;
  (match rt_DNS rt with Some d => logged (lc_Stop d) | None => mret tt end) ;;
  if enabled then on_x (on_trk (tracker.Teardown getenv)) ;; mret tt else mret tt.

End Serve.

(** ** What [restore] leaves *)

Section Restored.
  Context {S H : Type} `{tracker.HostOps H} `{pki.X509} `{!JsonInto upstream.Config}.
  Context (getenv : string → string) (unmarshal_config : string → ovpnconf.Config → ovpnconf.Config).
  Context (marshal_config : ovpnconf.Config → string).
  Context (dataDir sock : string) (enabled : bool).

Notation Act := (Act S H).
Notation pp := (dataPaths dataDir).
Notation vpn_of := (vpn_of getenv unmarshal_config).
Notation up_of := (up_of getenv).

Definition needed : list string := [CACert pp; ServerCert pp; ServerKey pp; TLSCrypt pp].
Definition initialised (m : gmap string string) : Prop := Forall (λ f, is_Some (m !! f)) needed.
#[export] Instance initialised_dec m : Decision (initialised m).
Proof. unfold initialised. apply _. Defined.

(** The configuration a start renders. *)
Definition served (cn : string) (t : Tables) : ovpnconf.Config :=
  set_client_auth (enabled && per_cn_active (up_of t)) (fillPaths getenv dataDir sock cn (vpn_of t)).

Lemma missing_run fs (s : Fs) : sound s →
  ∃ s', missing_files fs s = (s', Ok (filter (λ f, files s !! f = None) fs)) ∧ sound s' ∧ files s' = files s.
Proof.
  revert s. induction fs as [|f fs IH]; intros s Hs; [by exists s|]. cbn [missing_files].
  destruct (sound_next s (files s) Hs) as [N Ha]. unfold Exists. rewrite N.
  destruct (IH (after s (files s)) Ha) as (s'&E&Hs'&Hf). rewrite filter_cons. cbn in E, Hf.
  destruct (files s !! f) as [d|] eqn:Ef.
  - rewrite bool_decide_true by by eexists. rewrite decide_False by done. by exists s'.
  - rewrite bool_decide_false by by intros []. rewrite decide_True by done. unfold mbind, F_bind. rewrite E. by exists s'.
Qed.

Lemma preflight_run (s : Fs) : sound s →
  ∃ s', sound s' ∧ files s' = files s ∧
    ∃ r, preflight dataDir s = (s', r) ∧ (is_ok r = true ↔ initialised (files s)).
Proof.
  intros Hs. unfold preflight. destruct (missing_run needed s Hs) as (s'&E&Hs'&Hf).
  exists s'. split_and!; [done|done|]. unfold mbind, F_bind. fold needed. rewrite E.
  assert (Hm : filter (λ f, files s !! f = None) needed = [] ↔ initialised (files s)).
  { unfold initialised. rewrite Forall_forall. split.
    - intros Hn f Hin. destruct (files s !! f) eqn:Ef; [by eexists|].
      assert (f ∈ filter (λ f, files s !! f = None) needed) as Hx by by apply list_elem_of_filter.
      rewrite Hn in Hx. by apply not_elem_of_nil in Hx.
    - intros Hall. destruct (filter _ needed) as [|f l] eqn:E'; [done|].
      assert (f ∈ filter (λ f, files s !! f = None) needed) as [Hx Hin]%list_elem_of_filter by (rewrite E'; left).
      destruct (Hall f Hin) as [? ?]. congruence. }
  destruct (filter _ needed) as [|f l]; eexists; (split; [done|]).
  - split; [intros _; by apply Hm|done].
  - split; [done|]. intros Hall. by apply Hm in Hall.
Qed.

(** A step that leaves everything, in order. *)
Record kept (h h' : Host S H) : Prop := {
  kp_tables : tables (hdb h') = tables (hdb h); kp_healthy : healthy (hdb h');
  kp_sound : sound (hdisk h'); kp_files : files (hdisk h') = files (hdisk h);
  kp_trk : trk (sv h') = trk (sv h); kp_sent : sent h' = sent h }.

Lemma a_bind_ok {A B} (m : Act A) (f : A → Act B) h h1 a : m h = (h1, Ok a) → mbind f m h = f a h1.
Proof. intros E. unfold mbind, Act_bind. by rewrite E. Qed.

Lemma m_kept {A} (m : M A) h s' a : sound (hdisk h) → m (hdb h) = (s', Ok a) → tables s' = tables (hdb h) → healthy s' →
  ∃ h', m_ m h = (h', Ok a) ∧ kept h h'.
Proof.
  intros Hs E T Hh. unfold m_, w_, on_x, on_w, on_db. change (db (wd (sv h))) with (hdb h). rewrite E. eexists. split; [done|]. by split.
Qed.

Lemma disk_kept {A} (m : F A) h s' r : healthy (hdb h) → m (hdisk h) = (s', r) → sound s' → files s' = files (hdisk h) →
  ∃ h', w_ (on_disk m) h = (h', r) ∧ kept h h'.
Proof.
  intros Hh E Hs Hf. unfold w_, on_x, on_w, on_disk. change (disk (wd (sv h))) with (hdisk h). rewrite E. eexists. split; [done|]. by split.
Qed.

Lemma load_vpn h : healthy (hdb h) → sound (hdisk h) →
  ∃ h', m_ (configapi.LoadConfig getenv unmarshal_config) h = (h', Ok (vpn_of (tables (hdb h)))) ∧ kept h h'.
Proof.
  intros Hh Hs. destruct (query_healthy (λ t, default "" (settings t !! "vpn_config")) (hdb h) Hh) as (s'&E&T&_&Hh').
  eapply m_kept; [done| |done|done]. unfold configapi.LoadConfig, GetSetting. by rewrite E.
Qed.

Lemma auth_run h : healthy (hdb h) → sound (hdisk h) →
  ∃ h', auth_active getenv enabled h = (h', Ok (enabled && per_cn_active (up_of (tables (hdb h))))) ∧ kept h h'.
Proof.
  intros Hh Hs. unfold auth_active. destruct enabled; [|by exists h].
  destruct (LoadJSON_healthy upstreamConfigKey (DefaultUpstreamConfig getenv) (hdb h) Hh) as (s'&E&T&_&Hh').
  eapply m_kept; [done| |done|done]. unfold UpstreamAuthActive, LoadUpstreamConfig, mbind, M_bind. by rewrite E.
Qed.

(** The certificate's name depends on the files alone. *)
Lemma cn_files (h h' : Host S H) : sound (hdisk h) → sound (hdisk h') → files (hdisk h') = files (hdisk h) →
  adminCertCN getenv dataDir (wd (sv h')) = adminCertCN getenv dataDir (wd (sv h)).
Proof.
  intros Hs Hs' Hf. unfold adminCertCN. change (disk (wd (sv h))) with (hdisk h). change (disk (wd (sv h'))) with (hdisk h').
  assert (∀ s, sound s → (ReadFile (ServerCert pp) s).2 = match files s !! ServerCert pp with Some d => Ok d | None => Err not_exist end) as HR.
  { intros s Hsd. unfold ReadFile. by destruct (sound_next s (files s) Hsd) as [-> _]. }
  by rewrite !HR, Hf.
Qed.

Lemma save_vpn c (h : Host S H) : healthy (hdb h) → ∃ h' : Host S H, m_ (configapi.SaveConfig marshal_config c) h = (h', Ok tt) ∧
  tables (hdb h') = with_settings (tables (hdb h)) (<["vpn_config" := marshal_config c]> (settings (tables (hdb h)))) ∧
  healthy (hdb h') ∧ hdisk h' = hdisk h ∧ trk (sv h') = trk (sv h).
Proof.
  intros Hh. destruct (SetSetting_healthy "vpn_config" (marshal_config c) (hdb h) Hh) as (s'&E&T&_&Hh').
  unfold m_, w_, on_x, on_w, on_db, configapi.SaveConfig. change (db (wd (sv h))) with (hdb h). rewrite E. eexists. by split_and!.
Qed.

Lemma reconcile_run (h : Host S H) : healthy (hdb h) →
  ∃ h' w, on_x (ReconcileUpstreams getenv enabled) h = (h', Ok (up_of (tables (hdb h)), w)) ∧ tables (hdb h') = tables (hdb h) ∧
    healthy (hdb h') ∧ hdisk h' = hdisk h ∧
    trk (sv h') = (if enabled then (tracker.Apply getenv (up_of (tables (hdb h))) (trk (sv h))).2 else trk (sv h)).
Proof.
  intros Hh. destruct (load_run getenv (sv h) Hh) as (x1&E1&[T1 H1' D1]).
  assert (trk x1 = trk (sv h)) as Ht.
  { clear -E1. unfold db_, on_w in E1. destruct (on_db (LoadUpstreamConfig getenv) (wd (sv h))). by injection E1 as <- _. }
  unfold on_x, ReconcileUpstreams. rewrite (x_bind_ok _ _ _ _ _ E1). unfold applyUpstreams.
  destruct enabled; cbn [negb].
  - unfold on_trk, mbind, X_bind. rewrite Ht. destruct (tracker.Apply _ _ _) as [a k]. eexists _, _. cbn. by split_and!.
  - eexists _, _. cbn. by split_and!.
Qed.

(** The steps that only look: what they find, and how the run goes on. *)
Lemma restore_look (h : Host S H) : healthy (hdb h) → sound (hdisk h) →
  ∃ h1, kept h h1 ∧
    if decide (initialised (files (hdisk h))) then
      let t := tables (hdb h) in let cfg := served (adminCertCN getenv dataDir (wd (sv h))) t in
      restore getenv unmarshal_config marshal_config dataDir sock enabled h = (m_ (configapi.SaveConfig marshal_config cfg) ;;
                   w_ (on_disk (ovpnconf.WriteAtomic cfg (ServerConf pp))) ;;
                   on_x (ReconcileUpstreams getenv enabled) ;; mret (enabled && per_cn_active (up_of t))) h1
    else ∃ e, restore getenv unmarshal_config marshal_config dataDir sock enabled h = (h1, Err e).
Proof.
  intros Hh Hs. destruct (preflight_run (hdisk h) Hs) as (s1&Hs1&Hf1&r1&E1&Hr1).
  destruct (disk_kept (preflight dataDir) h s1 r1 Hh E1 Hs1 Hf1) as (h1&E1'&K1).
  assert (Hrun : ∀ (f : unit → Act bool), (w_ (on_disk (preflight dataDir)) ≫= f) h =
    match r1 with Ok a => f a h1 | Err e => (h1, Err e) end).
  { intros f. unfold mbind at 1, Act_bind at 1. rewrite E1'. by destruct r1. }
  case_decide as Hall.
  - apply Hr1 in Hall. destruct r1 as [[]|]; [|done].
    destruct (load_vpn h1 (kp_healthy _ _ K1) (kp_sound _ _ K1)) as (h2&E2&K2).
    destruct (auth_run h2 (kp_healthy _ _ K2) (kp_sound _ _ K2)) as (h3&E3&K3).
    assert (T2 : tables (hdb h2) = tables (hdb h)) by (by rewrite (kp_tables _ _ K2), (kp_tables _ _ K1)).
    assert (F2 : files (hdisk h2) = files (hdisk h)) by (by rewrite (kp_files _ _ K2), (kp_files _ _ K1)).
    exists h3. split.
    { split; [by rewrite (kp_tables _ _ K3)|apply K3|apply K3|by rewrite (kp_files _ _ K3)| |].
      - by rewrite (kp_trk _ _ K3), (kp_trk _ _ K2), (kp_trk _ _ K1).
      - by rewrite (kp_sent _ _ K3), (kp_sent _ _ K2), (kp_sent _ _ K1). }
    unfold restore. rewrite Hrun, (a_bind_ok _ _ _ _ _ E2), (a_bind_ok (a_cn getenv dataDir) _ h2 h2 _ ltac:(by destruct h2 as [[[] ?] ? ?])).
    rewrite (a_bind_ok _ _ _ _ _ E3), T2, (kp_tables _ _ K1). unfold served.
    by rewrite (cn_files h h2 Hs (kp_sound _ _ K2) F2).
  - destruct r1 as [[]|e]; [by destruct Hall; apply Hr1|]. exists h1. split; [done|]. exists e.
    unfold restore. by rewrite Hrun.
Qed.

(** What a start leaves, for the configuration it renders. *)
Definition restored (cfg : ovpnconf.Config) (h h' : Host S H) (r : result bool) : Prop :=
  let t := tables (hdb h) in let t' := tables (hdb h') in
  if decide (initialised (files (hdisk h))) then
    vpn_of t' = cfg ∧ up_of t' = up_of t ∧ (enabled = true → in_step getenv unmarshal_config t') ∧
    if is_ok (ovpnconf.Validate cfg) then
      r = Ok (enabled && per_cn_active (up_of t)) ∧
      (∃ text, ovpnconf.Render cfg = Some text ∧ files (hdisk h') !! ServerConf pp = Some text) ∧
      (∀ p, p ≠ ServerConf pp → p ≠ ovpnconf.tmp_of (ServerConf pp) → files (hdisk h') !! p = files (hdisk h) !! p) ∧
      trk (sv h') = (if enabled then (tracker.Apply getenv (up_of t) (trk (sv h))).2 else trk (sv h))
    else is_ok r = false ∧ files (hdisk h') = files (hdisk h) ∧ trk (sv h') = trk (sv h)
  else is_ok r = false ∧ t' = t ∧ files (hdisk h') = files (hdisk h) ∧ trk (sv h') = trk (sv h).

Lemma start_run (h h' : Host S H) r : JsonKeeps getenv unmarshal_config marshal_config →
  healthy (hdb h) → sound (hdisk h) → ovpnconf.tmp_of (ServerConf pp) ≠ ServerConf pp →
  let cfg := served (adminCertCN getenv dataDir (wd (sv h))) (tables (hdb h)) in
  vpn_text cfg = true → restore getenv unmarshal_config marshal_config dataDir sock enabled h = (h', r) →
  restored cfg h h' r.
Proof.
  intros HJ Hh Hs Hpath cfg Htext Hrun. unfold restored. set (t := tables (hdb h)) in *. set (t' := tables (hdb h')). destruct (restore_look h Hh Hs) as (h1&[T1 H1' S1 F1 R1 _]&E).
  case_decide as Hall; [|destruct E as [e E]; rewrite E in Hrun; by injection Hrun as <- <-].
  cbv zeta in E. fold t cfg in E. rewrite E in Hrun. clear E. fold t in T1.
  destruct (save_vpn cfg h1 H1') as (h2&E2&T2&H2'&D2&R2). rewrite (a_bind_ok _ _ _ _ _ E2) in Hrun.
  rewrite T1 in T2. rewrite <- D2 in S1, F1.
  assert (Hvpn : vpn_of (tables (hdb h2)) = cfg) by (rewrite T2; by apply (vpn_of_saved getenv unmarshal_config marshal_config)).
  assert (Hup : up_of (tables (hdb h2)) = up_of t).
  { rewrite T2. unfold upstreamapi.up_of, read_json. cbn [settings with_settings]. by rewrite lookup_insert_ne. }
  assert (Hin : enabled = true → in_step getenv unmarshal_config (tables (hdb h2))).
  { intros He. unfold in_step. rewrite Hvpn, Hup. unfold cfg, served. by rewrite He. }
  destruct (ovpnconf.WriteAtomic cfg (ServerConf pp) (hdisk h2)) as [d rw] eqn:E3.
  pose proof (ovpnconf.WriteAtomic_run cfg _ _ d rw Hpath E3) as (Ho&Hr&Hok).
  set (h3 := mkHost (mkServe (mkWorld (svc (wd (sv h2))) d (conn (wd (sv h2)))) (trk (sv h2))) (DebugLevel h2) (sent h2)).
  assert (E3' : w_ (on_disk (ovpnconf.WriteAtomic cfg (ServerConf pp))) h2 = (h3, rw)).
  { unfold w_, on_x, on_w, on_disk. change (disk (wd (sv h2))) with (hdisk h2). by rewrite E3. }
  assert (Hok' : is_ok rw = is_ok (ovpnconf.Validate cfg)).
  { destruct (sound_next (hdisk h2) ∅ S1) as [N1 Ha]. destruct (sound_next _ ∅ Ha) as [N2 _].
    apply eq_true_iff_eq. rewrite Hok. tauto. }
  unfold mbind at 1, Act_bind at 1 in Hrun. rewrite E3' in Hrun. rewrite <- Hok'.
  destruct rw as [[]|e]; cbn [is_ok].
  - destruct (reconcile_run h3 H2') as (h4&w&E4&T4&_&D4&R4). rewrite (a_bind_ok _ _ _ _ _ E4) in Hrun.
    injection Hrun as <- <-. unfold t'. change (tables (hdb h3)) with (tables (hdb h2)) in T4, R4.
    change (trk (sv h3)) with (trk (sv h2)) in R4. rewrite T4. rewrite Hup, R2, R1 in R4.
    split_and!; [done|done|done|done| | |done].
    + rewrite D4. exact Hr.
    + intros p Hp1 Hp2. rewrite D4, <- F1. by apply Ho.
  - injection Hrun as <- <-. unfold t'. change (tables (hdb h3)) with (tables (hdb h2)).
    split_and!; [done|done|done|done| |by rewrite <- R1, <- R2].
    change (files d = files (hdisk h)). rewrite <- F1. by rewrite (proj2 Hr).
Qed.

(** C10: Starting the daemon brings the host back to what was saved, whatever
    became of it meanwhile. Without every file of an initialised directory
    nothing is touched. Otherwise the stored configuration becomes the saved
    one under this installation's paths, with the management-client-auth flag
    on exactly when a client has an upstream of its own (so the two are in step
    even if they were not before); it is what server.conf then holds, no other
    file changes, and the routing of the saved upstreams is applied to the
    host. A configuration that does not validate leaves every file and the host
    as they were. *)
Theorem restore_correct (h h' : Host S H) r : JsonKeeps getenv unmarshal_config marshal_config →
  healthy (hdb h) → sound (hdisk h) → ovpnconf.tmp_of (ServerConf pp) ≠ ServerConf pp →
  let t := tables (hdb h) in let t' := tables (hdb h') in
  let cfg := served (adminCertCN getenv dataDir (wd (sv h))) t in
  vpn_text cfg = true → restore getenv unmarshal_config marshal_config dataDir sock enabled h = (h', r) →
  if decide (initialised (files (hdisk h))) then
    vpn_of t' = cfg ∧ up_of t' = up_of t ∧ (enabled = true → in_step getenv unmarshal_config t') ∧
    if is_ok (ovpnconf.Validate cfg) then
      r = Ok (enabled && per_cn_active (up_of t)) ∧
      (∃ text, ovpnconf.Render cfg = Some text ∧ files (hdisk h') !! ServerConf pp = Some text) ∧
      (∀ p, p ≠ ServerConf pp → p ≠ ovpnconf.tmp_of (ServerConf pp) → files (hdisk h') !! p = files (hdisk h) !! p) ∧
      trk (sv h') = (if enabled then (tracker.Apply getenv (up_of t) (trk (sv h))).2 else trk (sv h))
    else is_ok r = false ∧ files (hdisk h') = files (hdisk h) ∧ trk (sv h') = trk (sv h)
  else is_ok r = false ∧ t' = t ∧ files (hdisk h') = files (hdisk h) ∧ trk (sv h') = trk (sv h).
Proof. intros HJ Hh Hs Hpath t t' cfg. by apply start_run. Qed.

End Restored.

(** ** Witness *)

Module demo_serve.
Import pki.demo_pki demo_upstreams.

(** An initialised directory; alice has the tor upstream, and the flag that
    should go with it was lost. *)
Definition init_files : gmap string string :=
  list_to_map ((λ f, (f, "")) <$> needed "/d").
Definition lost_flag : Host unit tracker.demo_host.World :=
  let x := demo_upstreams.serve up1 (vpn0 false) in
  mkHost (mkServe (mkWorld (svc (wd x)) (mkFs init_files []) (conn (wd x))) (trk x)) 0 [].
Definition demo_restore := restore no_env json_vpn to_text "/d" "/run/ovcp/mgmt.sock" true lost_flag.
End demo_serve.
Import pki.demo_pki demo_upstreams demo_serve.

Example restore_correct_witness :
  demo_restore.2 = Ok true ∧
  in_step no_env json_vpn (tables (hdb demo_restore.1)) ∧
  is_Some (files (hdisk demo_restore.1) !! "/d/server.conf") ∧
  files (hdisk demo_restore.1) !! "/d/pki/ca.crt" = Some "".
Proof.
  destruct demo_restore as [h' r] eqn:E.
  assert (tables (hdb lost_flag) = tables (db (wd (demo_upstreams.serve up1 (vpn0 false))))) as T by reflexivity.
  assert (served no_env json_vpn "/d" "/run/ovcp/mgmt.sock" true (adminCertCN no_env "/d" (wd (sv lost_flag))) (tables (hdb lost_flag)) =
    set_client_auth true (fillPaths no_env "/d" "/run/ovcp/mgmt.sock" "" (vpn0 false))) as Es.
  { unfold served. rewrite T, serve_vpn, serve_up. reflexivity. }
  pose proof (restore_correct no_env json_vpn to_text "/d" "/run/ovcp/mgmt.sock" true lost_flag h' r demo_keeps
    (serve_healthy _ _) (Forall_nil_2 _)) as Hc.
  cbv zeta in Hc. rewrite Es in Hc. cbn [fst snd].
  specialize (Hc ltac:(vm_compute; discriminate) eq_refl E).
  rewrite decide_True in Hc by (apply (bool_decide_unpack _); reflexivity).
  destruct Hc as (_&_&Hin&Hc).
  assert (is_ok (ovpnconf.Validate (set_client_auth true (fillPaths no_env "/d" "/run/ovcp/mgmt.sock" "" (vpn0 false)))) = true) as Hv
    by reflexivity.
  rewrite Hv in Hc. destruct Hc as (Hr&(text&_&Hf)&Hk&_).
  split_and!.
  - rewrite Hr, T, serve_up. reflexivity.
  - by apply Hin.
  - by exists text.
  - rewrite Hk; [reflexivity|discriminate|discriminate].
Defined.

End serve.
