(* ===== verification/Tickers.v ===== *)
(** * Tickers: the daemon's periodic loops (internal/api/stats.go, cmd/ovcp/expiry.go, logs.go)

    Each loop waits for its timer or its stop channel, whichever comes; when
    both are there the choice is free. What a loop does is a function of the
    order in which it took them. *)

From S2P Require Import Prelude GoStr GoErr GoFs NetIP Names Upstream UpstreamApply Store StoreUsers StoreStats Totp.
From S2P Require Import Auth Mgmt Control OvpnConf Pki LogRotate World CertApi UserApi ConfigApi UpstreamApi Records Sampler Backup Telegram ServerApi Boot.
From S2P Require Import Expiry Serve.

Module tickers.
Import store world certapi configapi upstreamapi serverapi sampler.

Inductive event := Tick | Stop.

(** [for { select { case <-t.C: body; case <-stop: return } }] on the events
    the loop takes, a state [L] of its own beside the host's. *)
Fixpoint ticks {Host L : Type} (body : L → Host → Host * L) (es : list event) (l : L) (h : Host) : Host * L :=
  match es with
  | Tick :: es => let '(h, l) := body l h in ticks body es l h
  | Stop :: _ | [] => (h, l)
  end.

(** Nothing of the loop runs once it has taken the stop. *)
Lemma ticks_stop {Host L} (body : L → Host → Host * L) before after l h :
  ticks body (before ++ Stop :: after) l h = ticks body (before ++ [Stop]) l h.
Proof. revert l h. induction before as [|[] es IH]; intros l h; cbn; [done| |done]. destruct (body l h). apply IH. Qed.

(** What every round keeps, the loop keeps. *)
Lemma ticks_keep {Host L} (body : L → Host → Host * L) (I : Host → L → Prop) es l h :
  (∀ h l, I h l → I (body l h).1 (body l h).2) → I h l → I (ticks body es l h).1 (ticks body es l h).2.
Proof.
  intros Hb. revert l h. induction es as [|[] es IH]; intros l h Hi; cbn; [done| |done].
  specialize (Hb h l Hi). destruct (body l h). by apply IH.
Qed.

Section Loops.
  Context {S H : Type} `{mgmt.Server S} `{tracker.HostOps H} `{pki.X509} `{LogRotate.logrotate.Gzip}.
  Context `{!JsonInto upstream.Config} `{!JsonInto LogRotate.logrotate.LogConfig} `{!JsonInto StatsConfig} `{!JsonInto (gmap string bool)}.
  Context (getenv : string → string).

(** [runLogRotateTicker]. *)
Definition runLogRotateTicker (dataDir : string) (es : list event) (h : Host S H) : Host S H :=
  (ticks (λ (_ : unit) h, ((serve.rotate_round getenv dataDir h).1, tt)) es tt h).1.

(** [runExpirySweepTicker]: once at boot, then daily. *)
Definition runExpirySweepTicker (srv : Server) (es : list event) (h : Host S H) : Host S H :=
  (ticks (λ (_ : unit) h, ((expiry.sweepExpiring srv h).1, tt)) es tt (expiry.sweepExpiring srv h).1).1.


(** [RunSampler]: the tick's number and the sessions alive at it are the
    loop's; [pid] is the tunnel's process at each tick. *)
Definition RunSampler (unmarshal_config : string → ovpnconf.Config → ovpnconf.Config) (srv : Server) (DefaultRemote : World S → string)
    (poll : Z) (pid : Z → Z) (upstreams : bool) (es : list event) (w : World S) : World S :=
  (ticks (λ (l : Z * gmap session mgmt.VPNClient) w,
     let tick := l.1 + 1 in
     let '(w, r) := sampler_round getenv unmarshal_config srv DefaultRemote poll (pid tick) tick upstreams l.2 w in
     (w, (tick, match r with Ok prev => prev | Err _ => l.2 end))) es (0, ∅) w).1.

(** A sample is taken at every n-th tick, n the ticks that fit into the
    sample's interval, at least one. *)
Lemma sample_cadence cfg poll tick : samples_now cfg poll tick = true ↔ (ticksPerSample cfg poll | tick).
Proof.
  unfold samples_now. rewrite Z.eqb_eq. apply Z.rem_divide. unfold ticksPerSample. lia.
Qed.

End Loops.

(** Rounds go on, in order, until the stop is taken. *)
Example ticks_ex : (ticks (λ l h, (h ++ [l], l + 1)) [Tick; Tick; Stop; Tick] 0 []).1 = [0; 1].
Proof. done. Qed.
End tickers.
