(* ===== verification/CliInit.v ===== *)
(** * CliInit: what [ovcp init] leaves for [ovcp serve] (cmd/ovcp/commands.go, main.go)

    Files that stay: every step of the setup keeps the files that are there,
    but for temporary ones, so what one step makes is still there at the end,
    and a setup that reports success has made all that serve looks for. *)

From Stdlib Require Import Ascii.
From S2P Require Import Prelude GoStr GoErr GoFs NetIP Names Upstream UpstreamApply Store StoreUsers StoreStats Totp.
From S2P Require Import Auth Mgmt Control OvpnConf Pki LogRotate World CertApi UserApi ConfigApi UpstreamApi Records Sampler Backup Telegram ServerApi.
From S2P Require Import Privilege Boot Flags CliText CliPrint Cli Serve.

Module cliinit.
Import store world certapi userapi configapi upstreamapi serverapi control privilege boot flags cli serve.
#[local] Existing Instances pki.K_ret pki.K_bind.

(** ** Files that stay *)

Definition tmpish (p : string) : Prop := ∃ q, p = q +:+ ".tmp".

Definition stays (m m' : gmap string string) : Prop := ∀ f, ¬ tmpish f → is_Some (m !! f) → is_Some (m' !! f).
#[export] Instance stays_preorder : PreOrder stays.
Proof. split; [by intros m f|]. intros a b c Hab Hbc f Hf Ha. auto. Qed.

(** The contents of one file. *)
Definition same_at (f : string) (m m' : gmap string string) : Prop := m' !! f = m !! f.
#[export] Instance same_at_preorder f : PreOrder (same_at f).
Proof. split; [by intros m|]. intros a b c. unfold same_at. congruence. Qed.

(** A relation on files, lifted. *)
Definition fs_rel (R : relation (gmap string string)) (s s' : Fs) : Prop := R (files s) (files s').
Definition env_rel R (s s' : pki.Env) : Prop := fs_rel R (pki.fs s) (pki.fs s').
#[export] Instance fs_rel_preorder R `{!PreOrder R} : PreOrder (fs_rel R).
Proof. split; [intros s; unfold fs_rel; reflexivity|]. intros a b c Hab Hbc. unfold fs_rel in *. by etrans. Qed.
#[export] Instance env_rel_preorder R `{!PreOrder R} : PreOrder (env_rel R).
Proof. split; [intros s; unfold env_rel; reflexivity|]. intros a b c Hab Hbc. unfold env_rel in *. by etrans. Qed.
Notation fs_stay := (fs_rel stays).

Lemma tmpish_tmp_of path : tmpish (ovpnconf.tmp_of path).
Proof. exists (join_path (dir_of path) ".server.conf"). unfold ovpnconf.tmp_of. by rewrite <- join_path_app. Qed.

Lemma stay_same R `{!PreOrder R} (s s' : Fs) : files s' = files s → fs_rel R s s'.
Proof. unfold fs_rel. by intros ->. Qed.

Lemma stay_WriteFile path data : bnd fs_stay (WriteFile path data).
Proof.
  intros s. destruct (WriteFile path data s) as [s' r] eqn:E. cbn [fst]. intros f _ Hf. unfold WriteFile in E.
  destruct (next_fault s) as [[e [k|]]|]; injection E as <- _; cbn; rewrite ?lookup_insert_is_Some; try done;
    (destruct (decide (path = f)); [by left|by right]).
Qed.
Lemma stay_WriteFileAtomic path data : bnd fs_stay (pki.WriteFileAtomic path data).
Proof.
  intros s. destruct (pki.WriteFileAtomic path data s) as [s' r] eqn:E. apply pki.WriteFileAtomic_run in E as [Ho Hp].
  intros f Hf Hs. cbn [fst]. destruct (decide (f = path)) as [->|Hne].
  - destruct r; rewrite Hp; [by eexists|done].
  - rewrite Ho; [done|done|]. intros ->. apply Hf. by exists path.
Qed.
Lemma stay_WriteAtomic c path : ¬ tmpish path → bnd fs_stay (ovpnconf.WriteAtomic c path).
Proof.
  intros Hpath s. destruct (ovpnconf.WriteAtomic c path s) as [s' r] eqn:E.
  apply ovpnconf.WriteAtomic_run in E as (Ho&Hp&_); [|intros E'; apply Hpath; rewrite <- E'; apply tmpish_tmp_of].
  intros f Hf Hs. cbn [fst]. destruct (decide (f = path)) as [->|Hne].
  - destruct r; [destruct Hp as (text&_&->); by eexists|by destruct Hp as [-> _]].
  - rewrite Ho; [done|done|]. intros ->. apply Hf, tmpish_tmp_of.
Qed.
Lemma at_WriteFile f path data : path ≠ f → bnd (fs_rel (same_at f)) (WriteFile path data).
Proof. intros Hne s. by apply (only_WriteFile (λ q, q = path) path data eq_refl s f); intros ->. Qed.
Lemma at_WriteFileAtomic f path data : path ≠ f → ¬ tmpish f → bnd (fs_rel (same_at f)) (pki.WriteFileAtomic path data).
Proof.
  intros Hne Hf s. destruct (pki.WriteFileAtomic path data s) as [s' r] eqn:E. apply pki.WriteFileAtomic_run in E as [Ho _].
  apply Ho; [congruence|]. intros ->. apply Hf. by exists path.
Qed.
Lemma stay_ReadFile R `{!PreOrder R} path : bnd (fs_rel R) (ReadFile path).
Proof. intros s. apply stay_same; [done|]. apply ReadFile_files. Qed.
Lemma stay_Exists R `{!PreOrder R} path : bnd (fs_rel R) (Exists path).
Proof. intros s. apply stay_same; [done|]. unfold Exists. by destruct (next_fault s) as [[e k]|]. Qed.
Lemma stay_Sync R `{!PreOrder R} : bnd (fs_rel R) Sync.
Proof. intros s. apply stay_same; [done|]. unfold Sync. by destruct (next_fault s) as [[e k]|]. Qed.
Lemma stay_Chmod R `{!PreOrder R} path : bnd (fs_rel R) (Chmod path).
Proof. intros s. apply stay_same; [done|]. unfold Chmod. by destruct (next_fault s) as [[e k]|]. Qed.
Lemma stay_chmod_all R `{!PreOrder R} l : bnd (fs_rel R) (chmod_all l).
Proof.
  induction l as [|f l IH]; [by intros s; apply stay_same|]. intros s. cbn [chmod_all]. pose proof (stay_Chmod R f s) as Hc.
  destruct (Chmod f s) as [s1 [[]|e]]; cbn in Hc; [etrans; [exact Hc|apply IH]|].
  destruct (is_not_exist e); [etrans; [exact Hc|apply IH]|exact Hc].
Qed.
Lemma stay_create_missing R `{!PreOrder R} f : (∀ data, bnd (fs_rel R) (WriteFile f data)) → bnd (fs_rel R) (create_missing f).
Proof.
  intros Hw s. unfold create_missing. pose proof (stay_Exists R f s) as Hc. destruct (Exists f s) as [s1 [[]|e]]; cbn in Hc; [exact Hc| |].
  - etrans; [exact Hc|apply Hw].
  - destruct (is_not_exist e); [etrans; [exact Hc|apply Hw]|exact Hc].
Qed.
Lemma stay_make_dirs R `{!PreOrder R} l : bnd (fs_rel R) (make_dirs l).
Proof.
  induction l as [|d l IH]; [by intros s; apply stay_same|]. cbn [make_dirs].
  apply (bnd_bind (fs_rel R) backup.MkdirAll); [by apply stay_Sync|intros _]. apply (bnd_bind (fs_rel R) Sync); [by apply stay_Sync|intros _; exact IH].
Qed.

Lemma stay_readonly R `{!PreOrder R} `{pki.X509} {A} (m : pki.K A) : pki.readonly m → bnd (env_rel R) m.
Proof. intros Hm s. apply stay_same; [done|]. apply Hm. Qed.
Lemma stay_lift R {A} (m : F A) : bnd (fs_rel R) m → bnd (env_rel R) (pki.lift m).
Proof. intros Hm s. unfold pki.lift. specialize (Hm (pki.fs s)). by destruct (m (pki.fs s)). Qed.

Section Host.
  Context {S H : Type} (R : relation (gmap string string)) `{!PreOrder R}.

Definition h_rel (h h' : Host S H) : Prop := fs_rel R (hdisk h) (hdisk h').
#[export] Instance h_rel_preorder : PreOrder h_rel.
Proof. split; [intros s; unfold h_rel; reflexivity|]. intros a b c Hab Hbc. unfold h_rel in *. by etrans. Qed.
Definition w_rel (w w' : World S) : Prop := fs_rel R (disk w) (disk w').
#[export] Instance w_rel_preorder : PreOrder w_rel.
Proof. split; [intros s; unfold w_rel; reflexivity|]. intros a b c Hab Hbc. unfold w_rel in *. by etrans. Qed.

Lemma stay_on_db {A} (m : M A) : bnd w_rel (on_db m).
Proof. intros w. apply stay_same; [done|]. unfold on_db. by destruct (m (db w)). Qed.
Lemma stay_on_disk {A} (m : F A) : bnd (fs_rel R) m → bnd w_rel (on_disk m).
Proof. intros Hm w. unfold on_disk. specialize (Hm (disk w)). by destruct (m (disk w)). Qed.
Lemma stay_on_pki {A} (m : pki.K A) : bnd (env_rel R) m → bnd w_rel (on_pki m).
Proof. intros Hm w. unfold on_pki. specialize (Hm (pki_env w)). by destruct (m (pki_env w)). Qed.
Lemma stay_try {A} (m : W S A) : bnd w_rel m → bnd w_rel (w_try m).
Proof. intros Hm w. specialize (Hm w). unfold w_try. by destruct (m w). Qed.
Lemma stay_err {A} f (m : W S A) : bnd w_rel m → bnd w_rel (w_err f m).
Proof. intros Hm w. specialize (Hm w). unfold w_err. by destruct (m w) as [w' []]. Qed.
Lemma stay_w {A} (m : W S A) : bnd w_rel m → bnd h_rel (w_ (H:=H) m).
Proof. intros Hm h. unfold w_, on_x, on_w. specialize (Hm (wd (sv h))). by destruct (m (wd (sv h))). Qed.
Lemma stay_m {A} (m : M A) : bnd h_rel (m_ (S:=S) (H:=H) m).
Proof. apply stay_w, stay_on_db. Qed.
Lemma stay_a_try {A} (m : Act S H A) : bnd h_rel m → bnd h_rel (a_try m).
Proof. intros Hm h. specialize (Hm h). unfold a_try. by destruct (m h) as [h' []]. Qed.
Lemma stay_a_err {A} f (m : Act S H A) : bnd h_rel m → bnd h_rel (a_err f m).
Proof. intros Hm h. specialize (Hm h). unfold a_err. by destruct (m h) as [h' []]. Qed.
Lemma stay_audit actor action detail : bnd h_rel (serverapi.audit (S:=S) (H:=H) actor action detail).
Proof. apply stay_w. intros w. apply (stay_on_db (Audit actor action detail) w). Qed.
End Host.

Create HintDb stay discriminated.
#[export] Hint Resolve stay_WriteFile stay_WriteFileAtomic stay_WriteAtomic @stay_ReadFile @stay_Exists @stay_Sync @stay_Chmod @stay_chmod_all
  @stay_create_missing @stay_make_dirs @stay_lift @stay_on_db @stay_m @stay_audit : stay.
#[export] Hint Extern 1 (PreOrder _) => typeclasses eauto : stay.

(** Through a computation, down to the hints. *)
Ltac stay :=
  lazymatch goal with
  | |- bnd ?R (mbind ?f ?m) => refine (bnd_bind R m f _ _); [stay|intros ?; cbn beta; stay]
  | |- bnd _ (w_ _) => apply stay_w; stay
  | |- bnd _ (w_try _) => apply stay_try; stay
  | |- bnd _ (w_err _ _) => apply stay_err; stay
  | |- bnd _ (a_try _) => apply stay_a_try; stay
  | |- bnd _ (a_err _ _) => apply stay_a_err; stay
  | |- bnd _ (on_disk _) => apply stay_on_disk; stay
  | |- bnd _ (on_pki _) => apply stay_on_pki; stay
  | |- bnd _ (if ?b then _ else _) => destruct b; stay
  | |- bnd _ (let '(_, _) := ?x in _) => destruct x; stay
  | |- bnd _ (match ?x with _ => _ end) => destruct x; stay
  | |- _ => first [solve [eauto 8 with stay files]|solve [intros ?; reflexivity]|idtac]
  end.

(** ** The setup *)

(** The files the steps before the server's certificate write. *)
Definition written_first (dataDir : string) : list string :=
  let pp := dataPaths dataDir in
  [CertsHosts pp; CustomHosts pp; backup.Join (dir_of (backup.Join dataDir "ovcp.db")) "totp.key";
   pki.caKeyPath (PKIDir pp); pki.caCertPath (PKIDir pp); pki.CRLPath (PKIDir pp)].

(** Directories whose paths are as they read: the authority's certificate has
    one name, the server's is no other file's, and nothing kept is named like a
    temporary file. *)
Definition plain_dir (dataDir : string) : bool :=
  String.eqb (pki.caCertPath (PKIDir (dataPaths dataDir))) (CACert (dataPaths dataDir)) &&
  forallb (λ f, negb (has_suffix ".tmp" f)) (ServerConf (dataPaths dataDir) :: needed dataDir) &&
  forallb (λ f, negb (String.eqb f (ServerCert (dataPaths dataDir)))) (ServerConf (dataPaths dataDir) :: written_first dataDir).

Lemma plain_dir_spec dataDir : plain_dir dataDir = true →
  pki.caCertPath (PKIDir (dataPaths dataDir)) = CACert (dataPaths dataDir) ∧
  (∀ f, f ∈ ServerConf (dataPaths dataDir) :: needed dataDir → ¬ tmpish f) ∧
  ∀ f, f ∈ ServerConf (dataPaths dataDir) :: written_first dataDir → f ≠ ServerCert (dataPaths dataDir).
Proof.
  intros [[E%String.eqb_eq Hf]%andb_true_iff Hw]%andb_true_iff. split_and!; [done| |].
  2:{ intros f Hin. rewrite forallb_forall in Hw. apply list_elem_of_In, Hw, negb_true_iff in Hin. by apply String.eqb_neq. }
  intros f Hin [q ->]. rewrite forallb_forall in Hf. apply list_elem_of_In, Hf, negb_true_iff in Hin.
  assert (has_suffix ".tmp" (q +:+ ".tmp") = true) by (apply has_suffix_spec; by eexists). congruence.
Qed.

Section Pki.
  Context `{pki.X509} `{pki.EnvelopeJson} `{pki.Calendar} `{Argon2 : auth.Argon2} `{Aead : users.Aead}.
  Context (dir : string).

#[local] Hint Resolve @stay_readonly @pki.readonly_bind @pki.readonly_ret @pki.readonly_of @pki.readonly_now @pki.readonly_draw
  @pki.readonly_loadCA @pki.readonly_Seal @pki.readonly_randSerial @pki.readonly_Issue @pki.readonly_fail : stay.

Context (R : relation (gmap string string)) `{!PreOrder R}.
Hypothesis Hwrite : ∀ p data, p ∈ [pki.caKeyPath dir; pki.caCertPath dir; pki.CRLPath dir] → bnd (fs_rel R) (pki.WriteFileAtomic p data).

Lemma write_key data : bnd (fs_rel R) (pki.WriteFileAtomic (pki.caKeyPath dir) data).
Proof. apply Hwrite. left. Qed.
Lemma write_cert data : bnd (fs_rel R) (pki.WriteFileAtomic (pki.caCertPath dir) data).
Proof. apply Hwrite. right; left. Qed.
Lemma write_crl data : bnd (fs_rel R) (pki.WriteFileAtomic (pki.CRLPath dir) data).
Proof. apply Hwrite. right; right; left. Qed.
#[local] Hint Resolve write_key write_cert write_crl : stay.

Lemma rel_RegenCRL l p : bnd (env_rel R) (pki.RegenCRL dir l p).
Proof using Hwrite PreOrder0. unfold pki.RegenCRL. stay. Qed.

(** The steps of [InitCA] once there is no certificate. *)
Definition new_ca (cn : string) (years : Z) (p : string) : pki.K unit :=
  key ← pki.draw pki.generate_key;
  serial ← pki.randSerial;
  tpl ← pki.caTemplate cn serial years;
  der ← pki.draw (pki.create_cert tpl tpl key key);
  keyDER ← pki.of_result (pki.marshal_key key);
  pki.sealToFile (pki.caKeyPath dir) keyDER p ;;
  pki.lift (pki.WriteFileAtomic (pki.caCertPath dir) (pki.pem_encode "CERTIFICATE" der)) ;;
  pki.RegenCRL dir [] p.

Lemma InitCA_cases cn years p s : ∃ s1, env_rel R s s1 ∧
  (pki.InitCA dir cn years p s = (s1, Err (Sentinel ErrCAExists)) ∨ pki.InitCA dir cn years p s = new_ca cn years p s1).
Proof using PreOrder0.
  unfold pki.InitCA. pose proof (stay_lift R _ (stay_Exists R (pki.caCertPath dir)) s) as Hs.
  destruct (pki.lift (Exists (pki.caCertPath dir)) s) as [s1 [[]|e]]; exists s1; (split; [exact Hs|]); [by left|by right..].
Qed.

Lemma rel_InitCA cn years p : bnd (env_rel R) (pki.InitCA dir cn years p).
Proof using Hwrite PreOrder0.
  intros s. destruct (InitCA_cases cn years p s) as (s1&Hs&[->| ->]); [exact Hs|]. etrans; [exact Hs|].
  assert (bnd (env_rel R) (new_ca cn years p)) as Hn.
  { unfold new_ca, pki.caTemplate, pki.sealToFile. stay. by apply rel_RegenCRL. }
  apply Hn.
Qed.

End Pki.

Section Made.
  Context `{pki.X509} `{pki.EnvelopeJson} `{pki.Calendar} `{Argon2 : auth.Argon2} `{Aead : users.Aead}.
  Context (dir : string).

(** A new authority has its certificate. *)
Lemma InitCA_made cn years p s s' : ¬ tmpish (pki.caCertPath dir) → pki.InitCA dir cn years p s = (s', Ok tt) →
  is_Some (files (pki.fs s') !! pki.caCertPath dir).
Proof.
  intros Ht. destruct (InitCA_cases dir stays cn years p s) as (s1&_&[->| ->]); [done|]. unfold new_ca. intros E.
  do 6 (apply pki.k_bind_run in E as [(?&?&_&E)|(?&_&[=])]).
  apply pki.k_bind_run in E as [(s2&[]&E2&E)|(e&_&[=])].
  pose proof (rel_RegenCRL dir stays (λ p data _, stay_WriteFileAtomic p data) [] p s2 (pki.caCertPath dir) Ht) as Hr.
  rewrite E in Hr. apply Hr.
  unfold pki.lift in E2. destruct (pki.WriteFileAtomic _ _ _) as [f r] eqn:Ew. injection E2 as <- ->.
  apply pki.WriteFileAtomic_run in Ew as [_ Hw]. cbn. rewrite Hw. by eexists.
Qed.

(** The passphrase can only be checked against a certificate that is there. *)
Lemma CheckPassphrase_there p s s' : pki.CheckPassphrase dir p s = (s', Ok tt) → is_Some (files (pki.fs s') !! pki.caCertPath dir).
Proof.
  intros E. assert (pki.readonly (pki.CheckPassphrase dir p)) as Hro.
  { apply pki.readonly_bind; [apply pki.readonly_loadCA|intros; apply pki.readonly_ret]. }
  specialize (Hro s). rewrite E in Hro. cbn in Hro. rewrite Hro.
  unfold pki.CheckPassphrase in E. apply pki.k_bind_run in E as [(s1&ck&E&_)|(e&_&[=])].
  unfold pki.loadCA in E. apply pki.k_bind_run in E as [(s2&pem&E&_)|(e&_&[=])].
  unfold pki.wrap_err, pki.CACertPEM, pki.lift, ReadFile in E.
  destruct (next_fault (pki.fs s)) as [[e k]|]; [done|]. destruct (files (pki.fs s) !! pki.caCertPath dir); [by eexists|done].
Qed.
End Made.

Section Init.
  Context {S H : Type}.
  Context `{pki.X509} `{!pki.EcPem} `{pki.EnvelopeJson} `{pki.Calendar} `{Argon2 : auth.Argon2} `{Aead : users.Aead}.
  Context `{auth.UnicodeTables}.
  Context (getenv : string → string) (marshal_config : ovpnconf.Config → string).
  Context (ask : string → bool → result string) (sh : Shell) (dataDir : string).
  Hypothesis Hplain : plain_dir dataDir = true.

Notation pp := (dataPaths dataDir).
Notation h_stay := (@h_rel S H stays).

#[local] Hint Resolve @stay_readonly @pki.readonly_bind @pki.readonly_ret @pki.readonly_of @pki.readonly_now @pki.readonly_draw
  @pki.readonly_loadCA @pki.readonly_Seal @pki.readonly_randSerial @pki.readonly_Issue @pki.readonly_fail @pki.readonly_read : stay.

Lemma plain_file f : f ∈ ServerConf pp :: needed dataDir → ¬ tmpish f.
Proof. apply plain_dir_spec, Hplain. Qed.
Lemma plain_conf : ¬ tmpish (ServerConf pp).
Proof. apply plain_file. left. Qed.
#[local] Hint Resolve plain_conf : stay.

Lemma stay_InitCA cn years p : bnd (env_rel stays) (pki.InitCA (PKIDir pp) cn years p).
Proof. apply rel_InitCA; [apply _|]. intros. apply stay_WriteFileAtomic. Qed.
#[local] Hint Resolve stay_InitCA : stay.

Lemma rel_openStore R `{!PreOrder R} :
  (∀ p data, p ∈ [CertsHosts pp; CustomHosts pp; backup.Join (dir_of (backup.Join dataDir "ovcp.db")) "totp.key"] → bnd (fs_rel R) (WriteFile p data)) →
  bnd (@h_rel S H R) (cli.openStore dataDir).
Proof.
  intros Hw. unfold cli.openStore. apply stay_w. unfold boot.openStore, ensureSkeleton, Open, loadOrCreateTOTPKey.
  stay; try (intros w; by apply (stay_same R)).
  - apply stay_create_missing; [done|]. intros data. apply Hw. left.
  - apply stay_create_missing; [done|]. intros data. apply Hw. right; left.
  - apply Hw. right; right; left.
Qed.

Lemma stay_openStore : bnd h_stay (cli.openStore dataDir).
Proof. apply rel_openStore; [apply _|]. intros. apply stay_WriteFile. Qed.

Lemma stay_readSecret R `{!PreOrder R} label env confirm : bnd (@h_rel S H R) (readSecret getenv ask label env confirm).
Proof. unfold readSecret, prompt. stay. Qed.

Lemma stay_init_config sock : bnd h_stay (init_config getenv marshal_config sh dataDir sock).
Proof. unfold init_config, cli.a_cn. stay. Qed.

Lemma stay_init_admin admin : bnd h_stay (init_admin getenv ask admin).
Proof. unfold init_admin, user_password. stay. apply stay_readSecret; apply _. Qed.

Lemma stay_tls path : bnd h_stay (w_ (loadOrCreateTLSCrypt path)).
Proof. apply stay_w. unfold loadOrCreateTLSCrypt, pki.GenTLSCryptKey. stay. Qed.

(** ** What each step has made *)

Definition has (f : string) (h : Host S H) : Prop := is_Some (files (hdisk h) !! f).

Lemma a_bind_run {A B} (m : Act S H A) (f : A → Act S H B) h h' b : mbind f m h = (h', Ok b) →
  ∃ h1 a, m h = (h1, Ok a) ∧ f a h1 = (h', Ok b).
Proof. unfold mbind, Act_bind. destruct (m h) as [h1 [a|e]]; [eauto|done]. Qed.

Lemma stay_has {A} (m : Act S H A) f h h' r : bnd h_stay m → m h = (h', r) → ¬ tmpish f → has f h → has f h'.
Proof. intros Hm E Hf Hh. pose proof (Hm h) as Hs. rewrite E in Hs. by apply Hs. Qed.

Lemma init_ca_made cn years p h h' s : init_ca dataDir cn years p h = (h', Ok s) →
  has (CACert pp) h' ∧ ∀ f, ¬ tmpish f → has f h → has f h'.
Proof.
  destruct (plain_dir_spec _ Hplain) as (Epath&Htmp&_). intros E. split.
  2:{ intros f Hf. refine (stay_has (init_ca dataDir cn years p) f h h' (Ok s) _ E Hf). unfold init_ca, pki.CheckPassphrase. stay. }
  assert (Hca : ¬ tmpish (pki.caCertPath (PKIDir pp))) by (rewrite Epath; apply Htmp; right; left).
  unfold init_ca, cli.pp in E. apply a_bind_run in E as (h1&r&E1&E).
  assert (Hpki : ∀ (m : pki.K unit) g g', (∀ e e', m e = (e', Ok tt) → is_Some (files (pki.fs e') !! pki.caCertPath (PKIDir pp))) →
    w_ (on_pki m) g = (g', Ok tt) → has (CACert pp) g').
  { intros m g g' Hm Eg. unfold w_, on_x, on_w in Eg. destruct (on_pki m (wd (sv g))) as [w1 r1] eqn:Ep. injection Eg as <- ->.
    apply on_pki_run in Ep as (e&Ep&Hd&_). apply Hm in Ep. rewrite Epath in Ep. unfold has, hdisk. cbn. by rewrite Hd. }
  destruct r as [[]|e].
  - apply a_bind_run in E as (h2&[]&E2&[= <- _]).
    apply (stay_has _ _ _ _ _ (stay_audit stays _ _ _) E2); [by rewrite <- Epath|].
    unfold a_try in E1. destruct (w_ (on_pki (pki.InitCA (PKIDir pp) cn years p)) h) as [h3 [[]|e]] eqn:E3; [|by destruct (panicked e)].
    injection E1 as <-. refine (Hpki _ _ _ _ E3). intros e e'. by apply InitCA_made.
  - assert (∃ h2, a_err (Wrapf "existing CA: %w" []) (w_ (on_pki (pki.CheckPassphrase (PKIDir pp) p))) h1 = (h2, Ok tt) ∧ h' = h2) as (h2&E2&->).
    { destruct e as [[]| | | | |]; try done. apply a_bind_run in E as (h2&[]&E2&[= <- _]). by exists h2. }
    unfold a_err in E2. destruct (w_ (on_pki (pki.CheckPassphrase (PKIDir pp) p)) h1) as [h3 [[]|e2]] eqn:E3; [|done].
    injection E2 as <-. refine (Hpki _ _ _ _ E3). intros e1 e1'. by apply CheckPassphrase_there.
Qed.

(** Lifted file operations, looked into. *)
Lemma w_disk_run {A} (m : F A) (h h' : Host S H) (r : result A) : w_ (on_disk m) h = (h', r) → m (hdisk h) = (hdisk h', r).
Proof.
  unfold w_, on_x, on_w, on_disk, hdisk. destruct (m (disk (wd (sv h)))) as [f r0] eqn:E. by intros [= <- <-].
Qed.

Lemma written path data (h h' : Host S H) : w_ (on_disk (pki.WriteFileAtomic path data)) h = (h', Ok tt) → has path h'.
Proof. intros E%w_disk_run%pki.WriteFileAtomic_run. destruct E as [_ E]. unfold has. rewrite E. by eexists. Qed.

Lemma stay_init_server cn days p : bnd h_stay (init_server dataDir cn days p).
Proof. unfold init_server, WriteServerCert. stay. Qed.

(** A certificate that is there is taken for the pair. *)
Lemma init_server_made cn days p h h' s : init_server dataDir cn days p h = (h', Ok s) →
  has (ServerCert pp) h' ∧ ((has (ServerCert pp) h → has (ServerKey pp) h) → has (ServerKey pp) h').
Proof.
  assert (Hc : ¬ tmpish (ServerCert pp)) by (apply plain_file; right; right; left).
  assert (Hk : ¬ tmpish (ServerKey pp)) by (apply plain_file; do 3 right; left).
  intros E. unfold init_server, cli.pp in E. apply a_bind_run in E as (h1&r&E1&E).
  assert (Hr : r = Ok true ∨ r ≠ Ok true) by (destruct r as [[]|]; auto; by right). destruct Hr as [->|Hr].
  - injection E as <- _. unfold w_, on_x, on_w, w_try, on_disk, Exists in E1.
    change (disk (wd (sv h))) with (hdisk h) in E1. destruct (next_fault (hdisk h)) as [[e k]|]; [done|].
    injection E1 as <- Hb. apply bool_decide_eq_true in Hb. split; [exact Hb|intros Hpair; by apply Hpair].
  - assert (E' : (ic ← w_ (on_pki (pki.Issue (PKIDir pp) pki.KindServer cn days p));
                  w_ (WriteServerCert (ServerCert pp) (ServerKey pp) ic) ;;
                  serverapi.audit "system" "issue" ("cn=" +:+ cn +:+ " kind=server (init)") ;;
                  mret ("[2/5] server cert issued: " +:+ ServerCert pp)) h1 = (h', Ok s)) by (by destruct r as [[]|e]).
    apply a_bind_run in E' as (h2&ic&_&E'). apply a_bind_run in E' as (h3&[]&E3&E'). apply a_bind_run in E' as (h4&[]&E4&[= <- _]).
    cut (has (ServerCert pp) h3 ∧ has (ServerKey pp) h3).
    { intros [H1' H2']. split; [|intros _]; [by apply (stay_has _ _ _ _ _ (stay_audit stays _ _ _) E4)|by apply (stay_has _ _ _ _ _ (stay_audit stays _ _ _) E4)]. }
    unfold w_, on_x, on_w in E3.
    destruct (WriteServerCert (ServerCert pp) (ServerKey pp) ic (wd (sv h2))) as [w3 r3] eqn:Ew. injection E3 as <- ->.
    unfold WriteServerCert in Ew.
    apply w_bind_run in Ew as [(w4&[]&E5&Ew)|(?&_&[=])]. apply w_bind_run in Ew as [(w5&[]&E6&Ew)|(?&_&[=])].
    apply w_bind_run in Ew as [(w6&t&[= <- <-]&Ew)|(?&_&[=])]. apply on_db_run in Ew as (_&Hd&_).
    apply on_disk_run in E5 as (E5&_), E6 as (E6&_).
    pose proof (pki.WriteFileAtomic_run _ _ _ _ _ E5) as [_ H5]. pose proof (pki.WriteFileAtomic_run _ _ _ _ _ E6) as [_ H6].
    unfold has, hdisk. cbn [wd sv]. rewrite Hd. split; [|rewrite H6; by eexists].
    pose proof (stay_WriteFileAtomic (ServerKey pp) (pki.KeyPEM ic) (disk w4)) as Hs. rewrite E6 in Hs. apply Hs; [done|].
    rewrite H5. by eexists.
Qed.

Lemma tls_made path h h' s : w_ (loadOrCreateTLSCrypt path) h = (h', Ok s) → has path h'.
Proof.
  unfold w_, on_x, on_w. destruct (loadOrCreateTLSCrypt path (wd (sv h))) as [w1 r1] eqn:E. intros [= <- ->].
  unfold loadOrCreateTLSCrypt in E. apply w_bind_run in E as [(w2&r&E2&E)|(?&_&[=])].
  apply w_try_run in E2 as (r0&[= <-]&E2). apply on_disk_run in E2 as (E2&_). unfold has, hdisk. cbn.
  destruct r as [d|e].
  - injection E as <- _. unfold ReadFile in E2. destruct (next_fault _) as [[? ?]|]; [done|].
    destruct (files (disk (wd (sv h))) !! path) eqn:Ef; [|done]. injection E2 as E2 _. rewrite <- E2. cbn. by rewrite Ef.
  - apply w_bind_run in E as [(w3&k&_&E)|(?&_&[=])]. apply w_bind_run in E as [(w4&[]&E4&[= <- _])|(?&_&[=])].
    apply on_disk_run in E4 as (E4&_). apply WriteFile_run in E4 as [_ ->]. rewrite lookup_insert_eq. by eexists.
Qed.

Lemma init_config_made sock h h' s : init_config getenv marshal_config sh dataDir sock h = (h', Ok s) → has (ServerConf pp) h'.
Proof.
  unfold init_config, cli.pp. intros E. apply a_bind_run in E as (h1&cn&_&E). apply a_bind_run in E as (h2&[]&_&E).
  apply a_bind_run in E as (h3&[]&E&[= <- _]). apply w_disk_run in E.
  apply ovpnconf.WriteAtomic_run in E as (_&(text&_&Hf)&_).
  - unfold has. rewrite Hf. by eexists.
  - intros E'. apply plain_conf. rewrite <- E'. apply tmpish_tmp_of.
Qed.

(** The steps before the server's certificate leave it alone. *)
Lemma init_ca_aside cn years p : bnd (@h_rel S H (same_at (ServerCert pp))) (init_ca dataDir cn years p).
Proof.
  destruct (plain_dir_spec _ Hplain) as (_&Htmp&Hne).
  assert (bnd (env_rel (same_at (ServerCert pp))) (pki.InitCA (PKIDir pp) cn years p)) as HI.
  { apply rel_InitCA; [apply _|]. intros q data Hq. apply at_WriteFileAtomic; [|apply Htmp; right; right; left].
    apply Hne. right. unfold written_first. do 3 right. exact Hq. }
  unfold init_ca, pki.CheckPassphrase. stay.
Qed.

Lemma openStore_aside : bnd (@h_rel S H (same_at (ServerCert pp))) (cli.openStore dataDir).
Proof.
  destruct (plain_dir_spec _ Hplain) as (_&_&Hne). apply rel_openStore; [apply _|]. intros q data Hq. apply at_WriteFile, Hne.
  right. unfold written_first. by apply (elem_of_app [_; _; _]); left.
Qed.

(** A setup that reports success has made all there is to make but the key of a
    server certificate it found without one, and kept what was there. *)
Lemma init_makes v args (h h' : Host S H) o :
  flag_bool "skeleton" v = false →
  b_run (cmdInit getenv marshal_config ask sh dataDir) v args h = (h', Ok o) →
  (∀ f, f ∈ needed dataDir → has f h' ∨ f = ServerKey pp ∧ has (ServerCert pp) h ∧ ¬ has (ServerKey pp) h) ∧
  has (ServerConf pp) h' ∧ ∀ f, ¬ tmpish f → has f h → has f h'.
Proof.
  intros Hsk E. cbn [b_run cmdInit] in E. rewrite Hsk in E.
  apply a_bind_run in E as (h1&[]&E1&E). assert (h1 = h) as -> by (unfold a_of in E1; by injection E1).
  apply a_bind_run in E as (h1&[]&E1'&E). assert (h1 = h) as -> by (unfold requirePositive, a_of in E1'; by injection E1').
  apply a_bind_run in E as (h1&[]&E1''&E). assert (h1 = h) as -> by (unfold requirePositive, a_of in E1''; by injection E1'').
  apply a_bind_run in E as (h2&[]&E2&E). apply a_bind_run in E as (h3&[pass w1]&E3&E). cbn beta iota in E.
  apply a_bind_run in E as (h4&s1&E4&E). apply a_bind_run in E as (h5&s2&E5&E). apply a_bind_run in E as (h6&tls&E6&E).
  apply a_bind_run in E as (h7&s4&E7&E). apply a_bind_run in E as (h8&[s5 w2]&E8&[= <- _]).
  unfold cli.pp in E6.
  pose proof (λ f Hf, stay_has _ f _ _ _ stay_openStore E2 Hf) as K2.
  pose proof (λ f Hf, stay_has _ f _ _ _ (stay_readSecret stays _ _ _) E3 Hf) as K3.
  destruct (init_ca_made _ _ _ _ _ _ E4) as [M4 K4].
  pose proof (λ f Hf, stay_has _ f _ _ _ (stay_init_server _ _ _) E5 Hf) as K5.
  pose proof (λ f Hf, stay_has _ f _ _ _ (stay_tls _) E6 Hf) as K6.
  pose proof (λ f Hf, stay_has _ f _ _ _ (stay_init_config _) E7 Hf) as K7.
  pose proof (λ f Hf, stay_has _ f _ _ _ (stay_init_admin _) E8 Hf) as K8.
  assert (Hne : ∀ f, f ∈ ServerConf pp :: needed dataDir → ¬ tmpish f) by apply plain_file.
  assert (Hn : ∀ f, f ∈ needed dataDir → ¬ tmpish f) by (intros; apply Hne; by right).
  assert (Hpair4 : (has (ServerCert pp) h → has (ServerKey pp) h) → has (ServerCert pp) h4 → has (ServerKey pp) h4).
  { intros Hpair. pose proof (openStore_aside h) as A2. pose proof (stay_readSecret (same_at (ServerCert pp)) "CA passphrase" "OVCP_CA_PASSPHRASE" true h2) as A3.
    pose proof (init_ca_aside (str "ca-cn" v) (int "ca-years" v) pass h3) as A4.
    rewrite E2 in A2. rewrite E3 in A3. rewrite E4 in A4. unfold h_rel, fs_rel, same_at in A2, A3, A4. cbn [fst] in A2, A3, A4.
    unfold has at 1. rewrite A4, A3, A2. intros Hc. assert (¬ tmpish (ServerKey pp)) by (apply Hn; do 2 right; left). auto. }
  destruct (init_server_made _ _ _ _ _ _ E5) as [M5c M5k].
  pose proof (tls_made _ _ _ _ E6) as M6. pose proof (init_config_made _ _ _ _ E7) as M7.
  split_and!; [|apply K8; [apply Hne; left|exact M7]|intros f Hf Hin; auto 10].
  unfold needed. change (PKIDir pp) with (PKIDir (dataPaths dataDir)) in *. intros f Hin.
  assert (f = ServerKey pp ∨ f ∈ [CACert pp; ServerCert pp; TLSCrypt pp]) as [->|Hf] by (unfold needed in *; set_solver).
  - destruct (decide (is_Some (files (hdisk h) !! ServerCert pp) → is_Some (files (hdisk h) !! ServerKey pp))) as [Hp|Hp].
    + left. apply K8, K7, K6, M5k, Hpair4, Hp; apply Hn; do 2 right; left.
    + right. split; [done|]. split; [apply dec_stable; intros Hc; by apply Hp|by intros Hk; apply Hp].
  - left. unfold needed in Hn. rewrite !elem_of_cons in Hf. destruct Hf as [->|[->|[->|Hf%not_elem_of_nil]]]; [..|done];
      eauto 20 using list_elem_of_here, list_elem_of_further.
Qed.

(** ** What the setup leaves of the configuration *)

(** Only accounts and the audit log change. *)
Definition m_set (s s' : Store) : Prop := settings (tables s') = settings (tables s).
#[export] Instance m_set_preorder : PreOrder m_set.
Proof. split; [by intros s|]. intros a b c. unfold m_set. congruence. Qed.
Record still (h h' : Host S H) : Prop := { st_set : m_set (hdb h) (hdb h'); st_disk : hdisk h' = hdisk h }.
#[export] Instance still_preorder : PreOrder still.
Proof. split; [by split|]. intros a b c [S1 D1] [S2 D2]. split; [by etrans|congruence]. Qed.

Lemma still_m {A} (m : M A) : bnd m_set m → bnd still (m_ m).
Proof. intros Hm h. specialize (Hm (hdb h)). unfold m_, w_, on_x, on_w, on_db. change (db (wd (sv h))) with (hdb h). by destruct (m (hdb h)). Qed.
Lemma still_of {A} (r : result A) : bnd still (a_of r).
Proof. intros h. cbn. reflexivity. Qed.
Lemma still_try {A} (m : Act S H A) : bnd still m → bnd still (a_try m).
Proof. intros Hm h. specialize (Hm h). unfold a_try. destruct (m h) as [h' [a|e]]; [done|]. by destruct (panicked e). Qed.
Lemma set_exec {A} (f : Tables → result (Tables * A)) : (∀ t t' a, f t = Ok (t', a) → settings t' = settings t) → bnd m_set (exec f).
Proof.
  intros Hf s. unfold exec, m_set. destruct (faults s) as [|[x|] fs]; cbn; [|done|]; destruct (f (tables s)) as [[t a]|] eqn:E; cbn; eauto.
Qed.
Lemma set_audit actor action detail : bnd m_set (userapi.audit actor action detail).
Proof.
  intros s. unfold userapi.audit, ignore. cbn [fst]. revert s. unfold Audit.
  apply (bnd_bind m_set now); [by intros s|intros t0]. apply (bnd_bind m_set (exec _)); [apply set_exec; by intros t t' a [= <- _]|intros _].
  intros s. unfold run_hook. by destruct (hook s).
Qed.
Lemma set_GetUser admin : bnd m_set (users.GetUser admin).
Proof. intros s. apply (set_exec (λ t, a ← _; Ok (t, a))). intros t t' a Hi. unfold mbind, result_bind in Hi. repeat case_match; by simplify_eq. Qed.
Lemma set_AddUser actor name password role : bnd m_set (AddUser getenv actor name password role).
Proof.
  unfold AddUser, checkPassword. destruct (negb (auth.ValidRole role)); [by intros s|].
  apply (bnd_bind m_set (if auth.SecretOK password then _ else _)); [repeat case_match; [by intros s..|apply set_audit]|intros _].
  apply (bnd_bind m_set (auth.HashPassword password)).
  { unfold auth.HashPassword. apply (bnd_bind m_set (rand_read 16)); [|by intros salt s]. intros s. unfold rand_read. by case_match. }
  intros h. apply (bnd_bind m_set (users.AddUser name h role)).
  { unfold users.AddUser. case_match; [|by intros s]. apply (bnd_bind m_set now); [by intros s|intros t0]. apply set_exec.
    intros t t' i. unfold users.insertUser. intros Hi; repeat case_match; by simplify_eq. }
  intros id. apply (bnd_bind m_set (userapi.audit _ _ _)); [apply set_audit|by intros _ s].
Qed.
Ltac keep_still :=
  lazymatch goal with
  | |- bnd ?R (mbind ?f ?m) => refine (bnd_bind R m f _ _); [keep_still|intros ?; cbn beta; keep_still]
  | |- bnd _ (if ?b then _ else _) => destruct b; keep_still
  | |- _ => apply still_of
  end.
Lemma still_init_admin admin : bnd still (init_admin getenv ask admin).
Proof.
  unfold init_admin, user_password. destruct (String.eqb admin ""); [apply still_of|].
  apply (bnd_bind still (a_try _)); [apply still_try, still_m, set_GetUser|]. intros [u|e]; [apply still_of|].
  apply (bnd_bind still (readSecret _ _ _ _ _)); [|intros [pw warn]].
  - unfold readSecret, prompt. keep_still.
  - apply (bnd_bind still (m_ _)); [apply still_m, set_AddUser|intros m; apply still_of].
Qed.

Lemma SetSetting_wrote key v s s' u : SetSetting key v s = (s', Ok u) → settings (tables s') = <[key := v]> (settings (tables s)).
Proof. intros E. apply exec_inv in E as (_&_&[(e&[=]&_)|(t&a&[= <- <-]&->&_)]). done. Qed.

(** The certificate's name, when the disk works. *)
Definition cn_in (m : gmap string string) : string :=
  let v := getenv "OVCP_SERVER_CN" in
  if negb (String.eqb v "") then v
  else match m !! ServerCert pp with Some d => default "" (fst <$> subject_of d) | None => "" end.
Lemma cn_read (h : Host S H) : next_fault (hdisk h) = None → adminCertCN getenv dataDir (wd (sv h)) = cn_in (files (hdisk h)).
Proof.
  intros N. unfold adminCertCN, cn_in. change (disk (wd (sv h))) with (hdisk h). destruct (negb _); [done|].
  unfold ReadFile. rewrite N. destruct (files (hdisk h) !! ServerCert pp); reflexivity.
Qed.

(** The configuration the setup stores. *)
Definition initial (sock : string) (m : gmap string string) : ovpnconf.Config :=
  fillPaths getenv dataDir sock (cn_in m) (set_push (bool_of (dnsmasq sh)) (ovpnconf.Default getenv)).

Lemma init_config_left sock (h h' : Host S H) s : init_config getenv marshal_config sh dataDir sock h = (h', Ok s) →
  let c := initial sock (files (hdisk h')) in
  settings (tables (hdb h')) !! "vpn_config" = Some (marshal_config c) ∧ is_ok (ovpnconf.Validate c) = true ∧
  ∃ text, ovpnconf.Render c = Some text ∧ files (hdisk h') !! ServerConf pp = Some text.
Proof.
  unfold init_config, cli.pp. intros E. apply a_bind_run in E as (h1&cn&E1&E).
  assert (h1 = h ∧ cn = adminCertCN getenv dataDir (wd (sv h))) as [-> ->].
  { unfold cli.a_cn, w_, on_x, on_w, records.w_remote in E1. injection E1 as <- <-. by destruct h as [[[] ?] ? ?]. }
  apply a_bind_run in E as (h2&[]&E2&E). apply a_bind_run in E as (h3&[]&E3&[= <- _]).
  set (c := fillPaths _ _ _ _ _) in *.
  assert (hdisk h2 = hdisk h ∧ settings (tables (hdb h2)) !! "vpn_config" = Some (marshal_config c)) as [D2 T2].
  { unfold m_, w_, on_x, on_w, on_db, configapi.SaveConfig in E2. change (db (wd (sv h))) with (hdb h) in E2.
    destruct (SetSetting _ _ _) as [s' r'] eqn:Es. injection E2 as <- ->. split; [done|]. cbn.
    apply SetSetting_wrote in Es. change (settings (tables s') !! "vpn_config" = Some (marshal_config c)). by rewrite Es, lookup_insert_eq. }
  assert (hdb h3 = hdb h2) as ->.
  { unfold w_, on_x, on_w in E3. destruct (on_disk _ _) as [w r] eqn:Ed. injection E3 as <- ->. apply on_disk_run in Ed as (_&Hsvc&_).
    unfold hdb, db. cbn. by rewrite Hsvc. }
  apply w_disk_run in E3. rewrite D2 in E3.
  apply ovpnconf.WriteAtomic_run in E3 as (Ho&(text&R&Hf)&Hok); [|intros E'; apply plain_conf; rewrite <- E'; apply tmpish_tmp_of].
  destruct (proj1 Hok eq_refl) as (V&N&_).
  assert (c = initial sock (files (hdisk h3))) as <-.
  { unfold c, initial. f_equal. rewrite cn_read by done. unfold cn_in. destruct (plain_dir_spec _ Hplain) as (_&Htmp&Hne).
    rewrite Ho; [done| |].
    - intros E'. by apply (Hne (ServerConf pp)); [left|].
    - intros E'. apply (Htmp (ServerCert pp)); [do 2 right; left|]. rewrite E'. apply tmpish_tmp_of. }
  eauto.
Qed.

(** What is stored and rendered when the setup ends. *)
Lemma init_leaves v args (h h' : Host S H) o : flag_bool "skeleton" v = false →
  b_run (cmdInit getenv marshal_config ask sh dataDir) v args h = (h', Ok o) →
  let c := initial (str "mgmt" v) (files (hdisk h')) in
  settings (tables (hdb h')) !! "vpn_config" = Some (marshal_config c) ∧ is_ok (ovpnconf.Validate c) = true ∧
  ∃ text, ovpnconf.Render c = Some text ∧ files (hdisk h') !! ServerConf pp = Some text.
Proof.
  intros Hsk E. cbn [b_run cmdInit] in E. rewrite Hsk in E.
  do 4 apply a_bind_run in E as (?&[]&_&E). apply a_bind_run in E as (h3&[pass w1]&_&E). cbn beta iota in E.
  apply a_bind_run in E as (h4&s1&_&E). apply a_bind_run in E as (h5&s2&_&E). apply a_bind_run in E as (h6&tls&_&E).
  apply a_bind_run in E as (h7&s4&E7&E). apply a_bind_run in E as (h8&[s5 w2]&E8&[= <- _]).
  pose proof (still_init_admin (str "admin" v) h7) as [T D]. rewrite E8 in T, D. cbn [fst] in T, D. rewrite D, T.
  exact (init_config_left _ _ _ _ E7).
Qed.
End Init.

(** ** Setting up, then starting *)

Section Ready.
  Context {S H : Type} `{tracker.HostOps H}.
  Context `{pki.X509} `{!pki.EcPem} `{pki.EnvelopeJson} `{pki.Calendar} `{Argon2 : auth.Argon2} `{Aead : users.Aead}.
  Context `{auth.UnicodeTables} `{!JsonInto upstream.Config}.
  Context (getenv : string → string) (unmarshal_config : string → ovpnconf.Config → ovpnconf.Config).
  Context (marshal_config : ovpnconf.Config → string).
  Context (ask : string → bool → result string) (sh : Shell) (dataDir : string) (enabled : bool).
  Hypothesis Hplain : plain_dir dataDir = true.

Notation pp := (dataPaths dataDir).
Notation up_of := (up_of getenv).

(** C11: What [ovcp init] sets up, [ovcp serve] starts. A setup that reports
    success has taken no file away and has made all that serve looks for,
    whatever an earlier one had left, but for one file: a server certificate
    found there without its key is taken for a finished pair, and the key is
    not made ([half_done_stays]). With all of it there, and on a database and
    a disk that work, the configuration stored, in place of any stored before, is the defaults
    of the environment under this installation's paths and names; serve renders
    it with its management flag set exactly when clients have upstreams of their
    own; and when they have none, server.conf already is what the setup wrote. *)
Theorem init_ready v args (h h' : Host S H) o :
  flag_bool "skeleton" v = false →
  b_run (cmdInit getenv marshal_config ask sh dataDir) v args h = (h', Ok o) →
  (∀ f, f ∈ needed dataDir → has f h' ∨ f = ServerKey pp ∧ has (ServerCert pp) h ∧ ¬ has (ServerKey pp) h) ∧
  has (ServerConf pp) h' ∧ (∀ f, ¬ tmpish f → has f h → has f h') ∧
  (initialised dataDir (files (hdisk h')) → JsonKeeps getenv unmarshal_config marshal_config → healthy (hdb h') → sound (hdisk h') →
   let c := initial getenv sh dataDir (str "mgmt" v) (files (hdisk h')) in
   let routed := enabled && per_cn_active (up_of (tables (hdb h'))) in
   vpn_text c = true →
   ∃ h'' text, restore getenv unmarshal_config marshal_config dataDir (str "mgmt" v) enabled h' = (h'', Ok routed) ∧
     vpn_of getenv unmarshal_config (tables (hdb h'')) = set_client_auth routed c ∧
     ovpnconf.Render (set_client_auth routed c) = Some text ∧ files (hdisk h'') !! ServerConf pp = Some text ∧
     (routed = false → files (hdisk h') !! ServerConf pp = Some text)).
Proof.
  intros Hsk E. destruct (init_makes _ _ _ _ _ Hplain v args h h' o Hsk E) as (Hi&Hc&Hk).
  destruct (init_leaves _ _ _ _ _ Hplain v args h h' o Hsk E) as (Hv&Hok&text0&R0&F0).
  split_and!; [done..|]. intros Hi' HJ Hh Hs c routed Htext. fold c in Hv, Hok, R0.
  assert (Hvpn : vpn_of getenv unmarshal_config (tables (hdb h')) = c).
  { unfold upstreamapi.vpn_of, ovpnconf.Load. rewrite Hv. destruct (keeps_vpn _ _ _ HJ c Htext) as [Hne Hd].
    cbn [default from_option id]. by destruct (String.eqb_spec (marshal_config c) ""). }
  assert (Hcn : adminCertCN getenv dataDir (wd (sv h')) = cn_in getenv dataDir (files (hdisk h'))).
  { apply cn_read. by destruct (sound_next (hdisk h') ∅ Hs). }
  assert (Es : served getenv unmarshal_config dataDir (str "mgmt" v) enabled (adminCertCN getenv dataDir (wd (sv h'))) (tables (hdb h')) =
    set_client_auth routed c) by (unfold served; rewrite Hvpn, Hcn; reflexivity).
  destruct (restore getenv unmarshal_config marshal_config dataDir (str "mgmt" v) enabled h') as [h'' r] eqn:Er.
  assert (Hpath : ovpnconf.tmp_of (ServerConf pp) ≠ ServerConf pp).
  { intros E'. apply (plain_conf dataDir Hplain). rewrite <- E'. apply tmpish_tmp_of. }
  pose proof (start_run getenv unmarshal_config marshal_config dataDir (str "mgmt" v) enabled h' h'' r HJ Hh Hs Hpath) as Hr.
  cbv zeta in Hr. rewrite Es in Hr. specialize (Hr Htext Er). unfold restored in Hr. rewrite decide_True in Hr by done.
  change (is_ok (ovpnconf.Validate (set_client_auth routed c))) with (is_ok (ovpnconf.Validate c)) in Hr. rewrite Hok in Hr.
  destruct Hr as (Hvpn'&_&_&->&(text&R&F)&_). exists h'', text. split_and!; [done..|].
  intros Hn. rewrite F0, <- R0, <- R, Hn. reflexivity.
Qed.
End Ready.

(** ** Witness *)

Module demo_init.
Import pki.demo_pki demo_upstreams.
#[export] Existing Instances certapi.toy_ecpem auth.toy_argon2 auth.toy_tables users.toy_aead.

Definition secrets (k : string) : string :=
  if String.eqb k "OVCP_CA_PASSPHRASE" then "pa55word" else if String.eqb k "OVCP_USER_PASSWORD" then "hunter22" else "".
Fixpoint twice (n : nat) (s : string) : string := match n with O => s | Datatypes.S n => let t := twice n s in t +:+ t end.
(** A host with nothing on it yet but the database. *)
Definition blank : Host unit tracker.demo_host.World :=
  mkHost (mkServe (mkWorld (auth.NewService (mkStore empty_tables "" false [] (1000 * second) [] (twice 4 auth.noise)))
    (mkFs {[ "/d/ovcp.db" := "" ]} []) (mgmt.mkClient tt false [] [])) tracker.demo_host.start) 0 [].
Definition a_shell : Shell := mkShell false false (Some "") None None None "1" "host" "linux/amd64".
Definition answers : Values := <["server-cn" := VString "vpn.example.org"]> (defaults (init_flags (λ _, ""))).
Definition setup : Host unit tracker.demo_host.World * result outcome :=
  b_run (cmdInit secrets to_text (λ _ _, Ok "") a_shell "/d") answers [] blank.
End demo_init.
Import pki.demo_pki demo_upstreams demo_init.

Example init_ready_witness : ∃ h' o h'' text, setup = (h', Ok o) ∧ (∀ f, f ∈ needed "/d" → has f h') ∧
  is_Some (files (hdisk h') !! "/d/ovcp.db") ∧
  restore secrets json_vpn to_text "/d" "/run/ovcp/mgmt.sock" true h' = (h'', Ok false) ∧
  files (hdisk h') !! "/d/server.conf" = Some text ∧ files (hdisk h'') !! "/d/server.conf" = Some text.
Proof.
  assert (is_ok setup.2 = true) as Hok by exact eq_refl.
  assert (faults (hdb setup.1) = []) as Hdb by exact eq_refl.
  assert (io (hdisk setup.1) = []) as Hio by exact eq_refl.
  assert (vpn_text (initial secrets a_shell "/d" "/run/ovcp/mgmt.sock" (files (hdisk setup.1))) = true) as Ht by exact eq_refl.
  assert (per_cn_active (up_of secrets (tables (hdb setup.1))) = false) as Hup by exact eq_refl.
  destruct setup as [h' [o|e]] eqn:E; [|discriminate Hok]. cbn [fst snd] in *. exists h', o.
  destruct (init_ready secrets json_vpn to_text (λ _ _, Ok "") a_shell "/d" true eq_refl answers [] blank h' o eq_refl) as (Hi&_&Hk&Hr).
  - exact E.
  - assert (∀ f, f ∈ needed "/d" → has f h') as Hn by (intros f Hf; destruct (Hi f Hf) as [?|(_&[d Hd]&_)]; [assumption|discriminate Hd]).
    cbv zeta in Hr. rewrite Hup in Hr. destruct Hr as (h''&text&Er&_&_&F&F0).
    + apply Forall_forall. exact Hn.
    + apply text_keeps.
    + unfold healthy. rewrite Hdb. constructor.
    + unfold sound. rewrite Hio. constructor.
    + exact Ht.
    + exists h'', text. split_and!; [reflexivity|exact Hn| |exact Er|by apply F0|exact F].
      apply Hk; [|by eexists]. intros [q Hq].
      assert (has_suffix ".tmp" "/d/ovcp.db" = true) by (apply has_suffix_spec; by exists q). discriminate.
Defined.

(** A server certificate left without its key by a setup that was interrupted:
    the next one reports success, and serve asks for it again. *)
Definition half_done : Host unit tracker.demo_host.World :=
  mkHost (mkServe (mkWorld (svc (wd (sv blank))) (mkFs {[ "/d/ovcp.db" := ""; "/d/pki/server.crt" := "" ]} []) (conn (wd (sv blank))))
    (trk (sv blank))) 0 [].
Definition setup_again : Host unit tracker.demo_host.World * result outcome :=
  b_run (cmdInit secrets to_text (λ _ _, Ok "") a_shell "/d") answers [] half_done.
Example half_done_stays : is_ok setup_again.2 = true ∧
  (preflight "/d" (hdisk setup_again.1)).2 =
    Err (Errorf ("not initialized, missing:" +:+ nl +:+ "  %s" +:+ nl +:+ "run: ovcp init -server-cn <public-hostname>") ["/d/pki/server.key"]).
Proof. split; vm_compute; reflexivity. Qed.

(** A configuration stored since is lost to the next setup. *)
Definition configured : Host unit tracker.demo_host.World :=
  let h := setup.1 in mkHost (mkServe (set_db (wd (sv h)) (with_setting "vpn_config" "tuned" (hdb h))) (trk (sv h))) 0 [].
Definition setup_configured : Host unit tracker.demo_host.World * result outcome :=
  b_run (cmdInit secrets to_text (λ _ _, Ok "") a_shell "/d") answers [] configured.
Example init_config_resets : is_ok setup_configured.2 = true ∧
  bool_decide (settings (tables (hdb setup_configured.1)) !! "vpn_config" = settings (tables (hdb setup.1)) !! "vpn_config") = true ∧
  settings (tables (hdb configured)) !! "vpn_config" = Some "tuned".
Proof. split_and!; vm_compute; reflexivity. Qed.

(** Likewise the revocation list openvpn is told to check: lost between the
    authority's certificate and it, no later setup makes it. *)
Definition no_crl : Host unit tracker.demo_host.World :=
  let h := setup.1 in
  mkHost (mkServe (mkWorld (svc (wd (sv h))) (mkFs (delete "/d/pki/crl.pem" (files (hdisk h))) []) (conn (wd (sv h)))) (trk (sv h))) 0 [].
Definition setup_no_crl : Host unit tracker.demo_host.World * result outcome :=
  b_run (cmdInit secrets to_text (λ _ _, Ok "") a_shell "/d") answers [] no_crl.
Example no_crl_stays : is_ok setup_no_crl.2 = true ∧ (preflight "/d" (hdisk setup_no_crl.1)).2 = Ok tt ∧
  files (hdisk setup_no_crl.1) !! "/d/pki/crl.pem" = None.
Proof. split_and!; vm_compute; reflexivity. Qed.

End cliinit.
