(* ===== verification/CliRead.v ===== *)
(** * CliRead: the commands that only look (cmd/ovcp/commands.go)

    Following the commands that list, show and preview down to their
    statements: none of them changes what is stored. *)

From Stdlib Require Import Ascii.
From stdpp Require Import sorting.
From S2P Require Import Prelude GoStr GoErr GoFs NetIP Names Upstream UpstreamApply Store StoreUsers StoreStats Totp.
From S2P Require Import Auth Mgmt Control OvpnConf Pki LogRotate World CertApi UserApi ConfigApi UpstreamApi Records Sampler Backup Telegram ServerApi.
From S2P Require Import Privilege Boot Flags CliText CliPrint Cli Serve CliMain CliInit.

Module cliread.
Import store world certapi userapi configapi upstreamapi serverapi control privilege boot flags clitext cliprint cli.
#[local] Existing Instances pki.K_ret pki.K_bind.

(** ** Looking *)

(** The tables. *)
Definition m_same (s s' : Store) : Prop := tables s' = tables s.
#[export] Instance m_same_preorder : PreOrder m_same.
Proof. split; [by intros s|]. intros a b c. unfold m_same. congruence. Qed.

(** On a disk that works, every file that is there stays as it is. *)
Definition f_kept (s s' : Fs) : Prop := sound s → sound s' ∧ ∀ p d, files s !! p = Some d → files s' !! p = Some d.
#[export] Instance f_kept_preorder : PreOrder f_kept.
Proof.
  split; [by intros s|]. intros a b c Hab Hbc Ha. destruct (Hab Ha) as [Hb Kb]. destruct (Hbc Hb) as [Hc Kc]. split; [done|]. auto.
Qed.

(** What a command that only looks leaves: the tables, the files, the routing
    state, the log level, and no call made to anyone. *)
Record w_looked {S} (w w' : World S) : Prop := { wl_tables : m_same (db w) (db w'); wl_files : f_kept (disk w) (disk w') }.
#[export] Instance w_looked_preorder S : PreOrder (@w_looked S).
Proof. split; [by split|]. intros a b c [T1 F1] [T2 F2]. split; by etrans. Qed.
Record looked {S H} (h h' : Host S H) : Prop := {
  lk_world : w_looked (wd (sv h)) (wd (sv h')); lk_trk : trk (sv h') = trk (sv h);
  lk_level : DebugLevel h' = DebugLevel h; lk_sent : sent h' = sent h }.
#[export] Instance looked_preorder S H : PreOrder (@looked S H).
Proof. split; [by split|]. intros a b c [W1 T1 L1 S1] [W2 T2 L2 S2]. split; [by etrans|congruence..]. Qed.

Section Lift.
  Context {S H : Type}.

Lemma look_on_db {B} (m : M B) : bnd m_same m → bnd (@w_looked S) (on_db m).
Proof. intros Hm w. unfold on_db. specialize (Hm (db w)). destruct (m (db w)). split; [exact Hm|reflexivity]. Qed.
Lemma look_on_disk {B} (m : F B) : bnd f_kept m → bnd (@w_looked S) (on_disk m).
Proof. intros Hm w. unfold on_disk. specialize (Hm (disk w)). destruct (m (disk w)). split; [reflexivity|exact Hm]. Qed.
Lemma look_on_pki {B} (m : pki.K B) : (∀ e, f_kept (pki.fs e) (pki.fs (m e).1)) → bnd (@w_looked S) (on_pki m).
Proof. intros Hm w. unfold on_pki. specialize (Hm (pki_env w)). destruct (m (pki_env w)). split; [reflexivity|exact Hm]. Qed.
Lemma look_w {B} (m : W S B) : bnd w_looked m → bnd looked (w_ (H:=H) m).
Proof. intros Hm h. unfold w_, on_x, on_w. specialize (Hm (wd (sv h))). destruct (m (wd (sv h))). by split. Qed.
Lemma look_x {B} (m : X S H B) : (∀ x, m x = (x, (m x).2)) → bnd looked (on_x m).
Proof. intros Hm h. unfold on_x. rewrite Hm. by destruct h. Qed.
Lemma look_bot {B} (m : P (telegram.Bot unit) (result B)) :
  (∀ b, m_same (telegram.bst b) (telegram.bst (m b).1) ∧ telegram.calls (m b).1 = telegram.calls b) → bnd looked (on_bot (S:=S) (H:=H) m).
Proof.
  intros Hm h. unfold on_bot. specialize (Hm (telegram.mkBot (hdb h) [] tt)). destruct (m _) as [b r]. destruct Hm as [Ht Hc]. cbn in *.
  split; cbn; [by split|done|done|by rewrite Hc, app_nil_r].
Qed.
Lemma look_try {B} (m : W S B) : bnd w_looked m → bnd w_looked (w_try m).
Proof. intros Hm w. specialize (Hm w). unfold w_try. by destruct (m w). Qed.
Lemma look_err {B} f (m : W S B) : bnd w_looked m → bnd w_looked (w_err f m).
Proof. intros Hm w. specialize (Hm w). unfold w_err. by destruct (m w) as [w' []]. Qed.
End Lift.

(** ** The statements and files *)

Lemma look_query {B} (f : Tables → result B) : bnd m_same (store.query f).
Proof. intros s. destruct (store.query f s) as [s' r] eqn:E. by apply query_inv in E as (_&_&T&_). Qed.
Lemma look_LoadJSON {B} `{JsonInto B} key (def : B) : bnd m_same (LoadJSON key def).
Proof. intros s. unfold LoadJSON, GetSetting. pose proof (look_query (λ t, Ok (default "" (settings t !! key))) s) as Hq. by destruct (store.query _ s). Qed.
Lemma look_LoadConfig getenv um : bnd m_same (configapi.LoadConfig getenv um).
Proof. intros s. unfold configapi.LoadConfig, GetSetting. pose proof (look_query (λ t, Ok (default "" (settings t !! "vpn_config"))) s) as Hq. by destruct (store.query _ s). Qed.

Lemma kept_same {B} (m : F B) : (∀ s, files (m s).1 = files s ∧ (sound s → sound (m s).1)) → bnd f_kept m.
Proof. intros Hm s Hs. destruct (Hm s) as [E Hs']. split; [by apply Hs'|]. by rewrite E. Qed.
Ltac quiet_op := intros s; destruct (next_fault s) as [[e k]|] eqn:N; split; [done|intros Hs; by apply sound_next|done|intros Hs; by apply sound_next].
Lemma look_ReadFile path : bnd f_kept (ReadFile path).
Proof. apply kept_same. unfold ReadFile. quiet_op. Qed.
Lemma look_Exists path : bnd f_kept (Exists path).
Proof. apply kept_same. unfold Exists. quiet_op. Qed.
Lemma look_Sync : bnd f_kept Sync.
Proof. apply kept_same. unfold Sync. quiet_op. Qed.
Lemma look_Chmod path : bnd f_kept (Chmod path).
Proof. apply kept_same. unfold Chmod. quiet_op. Qed.
Lemma look_Glob path : bnd f_kept (logrotate.Glob path).
Proof. apply kept_same. unfold logrotate.Glob. quiet_op. Qed.

(** Only a file that is not there is written. *)
Lemma look_WriteFile_new f data s : files s !! f = None → f_kept s (WriteFile f data s).1.
Proof.
  intros E Hs. destruct (WriteFile_sound f data s Hs) as [-> Hs']. split; [done|].
  intros p d Hp. cbn. rewrite lookup_insert_ne; [done|]. intros ->. congruence.
Qed.
Lemma look_create_missing f : bnd f_kept (create_missing f).
Proof.
  intros s Hs. unfold create_missing, Exists. destruct (sound_next s (files s) Hs) as [N Ha]. rewrite N.
  case_bool_decide as E; [by split|]. apply (look_WriteFile_new f "" (after s (files s))); [|done].
  cbn. destruct (files s !! f) eqn:E'; [|done]. destruct E. by eexists.
Qed.
Lemma look_make_dirs l : bnd f_kept (make_dirs l).
Proof.
  induction l as [|d l IH]; [by intros s; apply kept_same|]. cbn [make_dirs].
  apply (bnd_bind f_kept backup.MkdirAll); [apply look_Sync|intros _]. apply (bnd_bind f_kept Sync); [apply look_Sync|intros _; exact IH].
Qed.
Lemma look_chmod_all l : bnd f_kept (chmod_all l).
Proof.
  induction l as [|f l IH]; [by intros s; apply kept_same|]. intros s. cbn [chmod_all]. pose proof (look_Chmod f s) as Hc.
  destruct (Chmod f s) as [s1 [[]|e]]; cbn in Hc; [etrans; [exact Hc|apply IH]|].
  destruct (is_not_exist e); [etrans; [exact Hc|apply IH]|exact Hc].
Qed.
Lemma look_LogStatusFor name path : bnd f_kept (logrotate.LogStatusFor name path).
Proof.
  apply kept_same. intros s. unfold logrotate.LogStatusFor, logrotate.rotatedGenerations, mbind, F_bind, logrotate.Glob.
  destruct (next_fault s) as [[e k]|]; cbn; destruct (next_fault _) as [[e' k']|]; cbn; (split; [done|]);
    intros Hs; by apply (sound_next (after s (files s)) (files s)), (sound_next s (files s)).
Qed.

Lemma look_rand n : bnd m_same (rand_read n).
Proof. intros s. unfold rand_read. by case_match. Qed.
Lemma look_exec_noop : bnd m_same (exec (λ t, Ok (t, tt))).
Proof. intros s. unfold exec. by repeat case_match. Qed.
Lemma look_query_at {B} (f : string → Tables → result B) : bnd m_same (users.with_key (λ key, store.query (f key))).
Proof. intros s. apply look_query. Qed.

(** A key that is missing is made; on a disk that works no other is replaced. *)
Lemma ReadFile_gone path s s' e : sound s → ReadFile path s = (s', Err e) → files s' !! path = None.
Proof.
  intros Hs. unfold ReadFile. destruct (sound_next s (files s) Hs) as [-> _]. destruct (files s !! path) eqn:E; [done|]. by intros [= <- _].
Qed.
Lemma look_TOTPKey {S} path : bnd w_looked (loadOrCreateTOTPKey (S:=S) path).
Proof.
  intros w. unfold loadOrCreateTOTPKey, w_try, on_disk, on_db, mbind, W_bind. cbn.
  pose proof (look_ReadFile path (disk w)) as Hr.
  destruct (ReadFile path (disk w)) as [s1 [d|e]] eqn:E; cbn in *.
  - destruct (slen d =? 32)%nat; by split.
  - pose proof (look_rand 32 (db w)) as Hd. unfold db in Hd |- *. cbn in Hd |- *. destruct (rand_read 32 (auth.St (svc w))) as [q [k|e']]; cbn in *; [|split; [exact Hd|exact Hr]].
    pose proof (look_WriteFile_new path k s1) as Hw.
    assert (f_kept (disk w) (WriteFile path k s1).1) as Hk.
    { intros Hs. specialize (Hw (ReadFile_gone _ _ _ _ Hs E)).
      assert (f_kept (disk w) (WriteFile path k s1).1) as Hk; [by transitivity s1|by apply Hk]. }
    destruct (WriteFile path k s1) as [s2 [[]|e2]]; by split.
Qed.

Create HintDb look discriminated.
#[export] Hint Resolve look_query look_query_at look_LoadJSON look_LoadConfig look_ReadFile look_Exists look_Sync look_Chmod look_create_missing
  look_make_dirs look_chmod_all look_LogStatusFor look_rand look_exec_noop look_TOTPKey : look.

(** Through a computation, down to the hints. *)
Ltac look :=
  lazymatch goal with
  | |- bnd ?R (mbind ?f ?m) => refine (bnd_bind R m f _ _); [look|intros ?; cbn beta; look]
  | |- bnd _ (w_ _) => apply look_w; look
  | |- bnd _ (m_ _) => apply look_w, look_on_db; look
  | |- bnd _ (w_try _) => apply look_try; look
  | |- bnd _ (w_err _ _) => apply look_err; look
  | |- bnd _ (on_disk _) => apply look_on_disk; look
  | |- bnd _ (on_db _) => apply look_on_db; look
  | |- bnd _ (if ?b then _ else _) => destruct b; look
  | |- bnd _ (let '(_, _) := ?x in _) => destruct x; look
  | |- bnd _ (match ?x with _ => _ end) => destruct x; look
  | |- _ => first [solve [eauto 8 with look]|solve [intros ?; reflexivity]|idtac]
  end.

Section Commands.
  Context {S H : Type} `{mgmt.Server S} `{tracker.HostOps H}.
  Context `{pki.X509} `{!pki.EcPem} `{pki.EnvelopeJson} `{pki.Calendar} `{Argon2 : auth.Argon2} `{Aead : users.Aead}.
  Context `{auth.UnicodeTables} `{backup.Tar} `{backup.Snapshot} `{Sorting}.
  Context `{!JsonInto upstream.Config} `{!JsonInto logrotate.LogConfig} `{!JsonInto StatsConfig} `{!JsonInto DNSConfig}.
  Context (getenv : string → string) (unmarshal_config : string → ovpnconf.Config → ovpnconf.Config).
  Context (offset : Z → Z) (edit : string → result string) (sh : Shell) (dataDir : string).

(** The commands that list, show or preview. *)
Definition lookers : list (body S H) :=
  [ cmdList offset dataDir; cmdCAStatus dataDir; cmdStatsConfigGet getenv dataDir; cmdVersion sh;
    cmdDNSConfigGet getenv unmarshal_config dataDir; cmdVPNConfigGet getenv unmarshal_config dataDir;
    cmdVPNConfigPreview getenv unmarshal_config edit dataDir; cmdUpstreamStatus getenv sh dataDir; cmdUpstreamList getenv dataDir;
    cmdLogsConfigGet getenv dataDir; cmdLogsStatus getenv dataDir; cmdTelegramConfigGet dataDir;
    cmdUserList offset dataDir; cmdAudit offset dataDir; mkBody (stats_flags getenv) (λ v _, cmdStatsShow getenv dataDir v) ].

Lemma look_openStore : bnd looked (cli.openStore (S:=S) (H:=H) dataDir).
Proof. unfold cli.openStore, boot.openStore, ensureSkeleton, Open. look. all: intros ?; by split. Qed.

(** What is not a statement, or reads without one. *)
Lemma look_of {B} (r : result B) : bnd looked (a_of (S:=S) (H:=H) r).
Proof. intros h. cbn. reflexivity. Qed.
Lemma look_ListUsers : bnd m_same users.ListUsers.
Proof. intros s. apply look_query. Qed.
Lemma look_now : bnd (@w_looked S) w_now.
Proof. intros w. cbn. reflexivity. Qed.
Lemma look_CACert dir : bnd (@w_looked S) (on_pki (pki.CACert dir)).
Proof.
  apply look_on_pki. intros e. unfold pki.CACert, pki.CACertPEM, pki.lift, mbind, pki.K_bind.
  pose proof (look_ReadFile (pki.caCertPath dir) (pki.fs e)) as Hr. by destruct (ReadFile _ _) as [s1 [d|x]].
Qed.
Lemma look_log_rows l : bnd f_kept (log_rows l).
Proof.
  induction l as [|[name path] l IH]; [intros s; cbn; reflexivity|]. cbn [log_rows].
  apply (bnd_bind f_kept (logrotate.LogStatusFor name path)); [apply look_LogStatusFor|intros st]. apply (bnd_bind f_kept (log_rows l)); [exact IH|].
  intros x s. cbn. reflexivity.
Qed.
Lemma look_views cfg m1 m2 : bnd looked (on_x (S:=S) (H:=H) (ViewUpstreams cfg m1 m2)).
Proof. apply look_x. intros x. reflexivity. Qed.
Lemma look_setting key (b : telegram.Bot unit) : ∃ b' v, telegram.setting key b = (b', Some v) ∧
  m_same (telegram.bst b) (telegram.bst b') ∧ telegram.calls b' = telegram.calls b.
Proof.
  unfold telegram.setting, telegram.on_store, mbind, P_bind. pose proof (look_query (λ t, Ok (default "" (settings t !! key))) (telegram.bst b)) as Hq.
  unfold GetSetting. destruct (store.query _ _) as [s r]. by eexists _, _.
Qed.
Lemma look_status : bnd looked (bot_status (S:=S) (H:=H)).
Proof.
  apply look_bot. intros b. unfold telegram.ConfigStatus.
  destruct (look_setting telegram.keyToken b) as (b1&v1&E1&T1&C1). destruct (look_setting telegram.keyAdmin b1) as (b2&v2&E2&T2&C2).
  destruct (look_setting telegram.keyChat b2) as (b3&v3&E3&T3&C3). unfold mbind, P_bind. rewrite E1, E2, E3. cbn.
  split; [by repeat (etrans; [eassumption|])|congruence].
Qed.
#[local] Hint Resolve look_openStore look_of look_ListUsers look_now look_CACert look_log_rows look_views look_status : look.

Lemma lookers_look : Forall (λ b, ∀ v args, bnd looked (b_run b v args)) lookers.
Proof.
  unfold lookers. repeat (apply Forall_cons; split); [..|apply Forall_nil_2]; intros v args; cbn [b_run];
    unfold cmdList, cmdCAStatus, cmdStatsConfigGet, cmdVersion, cmdDNSConfigGet, cmdVPNConfigGet, cmdVPNConfigPreview, cmdUpstreamStatus,
      cmdUpstreamList, cmdLogsConfigGet, cmdLogsStatus, cmdTelegramConfigGet, cmdUserList, cmdAudit, cmdStatsShow, wanted_config, dns_view,
      sorted_certs, PreviewVPNConfig, ViewDNS, sampler.Stats, AuditTail, AuditEach, ListCerts, LoadStatsConfig, LoadLogConfig,
      LoadDNSConfig, LoadUpstreamConfig, stats.Samples, stats.ClientSamples, stats.Sessions; cbn [b_run]; look.
Qed.

(** The commands that only look change nothing. Listing certificates, users
    and the audit log, showing the authority, the traffic, the DNS, VPN,
    upstream, log, sampling and Telegram settings, previewing a configuration
    and printing the version leave every table of the database as it was, the
    log level and the routing state too, and send nothing to anyone; on a disk
    that works every file there keeps its contents, the files of the data
    directory that were missing apart. *)
Theorem lookers_change_nothing b v args (h h' : Host S H) r : b ∈ lookers → b_run b v args h = (h', r) →
  tables (hdb h') = tables (hdb h) ∧ trk (sv h') = trk (sv h) ∧ DebugLevel h' = DebugLevel h ∧ sent h' = sent h ∧
  (sound (hdisk h) → ∀ f d, files (hdisk h) !! f = Some d → files (hdisk h') !! f = Some d).
Proof.
  intros Hb E. pose proof (proj1 (Forall_forall _ _) lookers_look b Hb v args h) as [[T F] K L X]. rewrite E in T, F, K, L, X.
  split_and!; [exact T|exact K|exact L|exact X|]. intros Hs. by apply F.
Qed.
End Commands.

(** ** Witness *)

Import pki.demo_pki climain.demo_cli cliinit.demo_init.

Definition defaulted : Values := defaults [sf "status" "all"; sf "role" "all"; sf "sort" ""; bf "desc"].
Definition asked : Host unit tracker.demo_host.World * result outcome :=
  b_run (cmdUserList (λ _, 0) "/d") defaulted [] blank.
Example lookers_change_nothing_witness : ∃ h' o, asked = (h', Ok o) ∧ rep o = RUsers [] ∧
  tables (hdb h') = tables (hdb blank) ∧ files (hdisk h') !! "/d/ovcp.db" = Some "" ∧ (if files (hdisk h') !! "/d/totp.key" then true else false) = true.
Proof.
  assert (match asked.2 with Ok o => Some (rep o) | Err _ => None end = Some (RUsers [])) as Hok by exact eq_refl.
  assert (match files (hdisk asked.1) !! "/d/totp.key" with Some _ => true | None => false end = true) as Hkey by exact eq_refl.
  destruct asked as [h' [o|e]] eqn:E; [|discriminate Hok]. exists h', o. injection Hok as Ho.
  destruct (lookers_change_nothing (λ _, "") (λ _ c, c) (λ _, 0) (λ _, Ok "") a_shell "/d"
              (cmdUserList (λ _, 0) "/d") defaulted [] blank h' (Ok o)) as (T&_&_&_&F).
  - do 12 apply list_elem_of_further. apply list_elem_of_here.
  - exact E.
  - split_and!; [reflexivity|exact Ho|exact T| |exact Hkey]. apply F; [constructor|exact eq_refl].
Defined.
End cliread.
